(* ===== verification/_CoqProject ===== *)
-Q . S2P
Prelude.v
Types.v
Cli.v
Pmix.v
Constants.v
Attr.v
Globals.v
Objects.v
Session.v
Meta.v
Fifo.v
Pipeline.v
Service.v
Threads.v
Resources.v
Events.v
Progress.v
Engine.v
Mca.v
Query.v
Server.v
System.v
Params.v
Startup.v
Dirs.v
Ddl.v
Daemon.v
Signals.v
Main.v
Info.v
