(* ===== verification/Prelude.v ===== *)
(** * A model of the dynasched scheduler daemon

    dynasched is a scheduler for PMIx-based systems. A daemon (src/tools/dsched)
    registers with the PMIx library as the scheduler of a system, and the library
    calls it back: a client asks for an allocation or a session, queries the
    scheduler, or connects as a tool. Every upcall is recorded in a caddy or a request
    object and shifted to an event base; from there it goes through a chain of event
    handlers until the requestor is called back. This library models that code,
    function by function, and proves what it does.

    ** The parts of the program and the files

    - Prelude (this file): faults, outcomes, the state-passing type [act], C integers
      and strings, record update, reference-counted cells, and the tactics and hints
      the other files share.
    - Types: byte order, pointers as numbers and the string hashes,
      include/dsched_types.h and include/dsched_hash_string.h.
    - Pmix: what the scheduler relies on of the PMIx library, which is not part of the
      repository: values, attribute keys, the class [PMIx] of its functions and status
      codes, the class [PArray] of pointer arrays with the implementation [slots].
    - Constants: include/dsched_constants.h and util/dsched_error.c.
    - Attr: typed attributes on lists, util/dsched_attr.c.
    - Globals: nodes and the functions that recognise them, include/dsched_globals.c.
    - Objects: the reference-counted classes of include/dsched_globals.h, their
      constructors and destructors, and [sys], the state the handlers share: one store
      per class, the pointer arrays, the active events, the replies made.
    - Session: tools/dsched/session.c, the upcalls [dsched_alloc_fn] and
      [dsched_session_ctrl_fn] and the handlers [request_init] and [session_control].
    - Meta: mca/dmeta/base/meta_base_frame.c and the module mca/dmeta/pri.
    - Fifo: mca/dsched/base/sched_base_frame.c and the module mca/dsched/fifo.
    - Pipeline: the handlers composed through the event bases, as a step relation.
    - Service: the abstract service the pipeline implements.
    - Threads: the independence of the handlers that run in different threads.
    - Resources: the objects the pipeline leaves behind.
    - Events: the wrappers of event/event.c and event/event-internal.h over the event
      library, and the pipeline run on that library.
    - Progress: the table of the named progress threads and the calls on it,
      runtime/dsched_progress_threads.c.
    - Engine: the body of such a thread and the way it is stopped, with the threads
      around it, in the same file.
    - Mca: opening, selecting and closing the frameworks dmeta, dsched, dlog and
      dmetric (the base directories under mca), and the modules shipped with them.
    - Query: tools/dsched/queries.c.
    - Server: tools/dsched/server.c and tools/dsched/backend.c.
    - System: the daemon that receives all the upcalls of the table in
      tools/dsched/server.c and runs all their handlers.
    - Params: the parameter files, the command line and the registration of
      parameters, runtime/dsched_mca_params.c.
    - Startup: runtime/dsched_rte.c, util/dsched_session_dir.c, and the event base of
      event/event.c.
    - Dirs: the installation directories, mca/dinstalldirs.
    - Ddl: dynamic loading, mca/ddl: the base, the module over dlopen with its search
      of suffixes and directories, and the module over libltdl.
    - Daemon: util/dsched_daemon_init.c, and what the parent of a daemon waits for.
    - Signals: the abort signals of tools/dsched/dsched.c, as a step relation.
    - Cli: the options of the scheduler, util/dsched_cmd_line.h and the table of
      tools/dsched/dsched.c.
    - Main: the main program, tools/dsched/dsched.c, which calls all of the above.
    - Info: the information tool, tools/dsched_info/dsched_info.c.

    [Main.main] reads the command line, the parameters (Params) and the environment,
    initialises the runtime (Startup), opens and selects the frameworks (Mca), goes
    into the background if asked (Daemon), makes the session directory (Startup),
    starts the server (Server), puts five nodes in the pool, and runs the handlers of
    the pipeline until a signal ends it (Signals). Each file has its own view of
    [dsched_globals]; Main keeps the views together in the record [dsched], with the
    effects outside of the process as a list.

    An allocation request goes from [dsched_alloc_fn] (Session) to [request_init],
    [dsched_meta_base_schedule] (Meta), the [schedule] entry of every meta module, for
    pri [myschedule] and then [pri_sched], [dsched_sched_base_schedule] (Fifo), the
    entry of every scheduler, for fifo [fifo_schedule] and then [fifo_sched],
    [dsched_sched_base_cbfunc], [pri_sched_cbfunc], and [dsched_meta_base_cbfunc],
    which calls the requestor back. The lists of modules the two bases walk are those
    the selection of Mca computes ([shipped_selection]). Queries and tools share the
    caddy class and the main event base with that chain, and a query reads the pool of
    nodes. What the chain asks of their handlers is the class [Sides] of Pipeline, an
    argument of its theorems; System shows that [_query] and [_toolconn] meet it.

    ** How the code is modelled

    A C function that can fail is a function into [outcome]; [Fault] is undefined
    behaviour: a null or freed object dereferenced, a member of a union read at the
    wrong type, a read out of bounds, an uninitialised variable used. A handler is an
    [act] on the state. An object is a cell with its reference count in the store of
    its class; releasing the last reference runs the destructor and deletes the cell,
    and addresses are not reused, so a stale pointer is a pointer to no cell. An event
    is the name of its handler, its base and its object. Function pointers are
    [option]s where they may be null; the requestor's callback is a number, and
    calling it adds a [reply]. An event that is set on a null base, that of a module
    whose progress thread could not be set up, is dropped, as libevent drops it:
    [null_bases] says which bases are null. A loop over a list is a [Fixpoint] on the list; the
    one loop of the code that is not structural, the expansion of references in Dirs,
    takes fuel, and [expansion_ends] gives the fuel that is enough: one more than the
    number of dollar and at signs of the string. Machine integers are [Z]s converted
    with [sint] and [uint] where the code converts; the bytes of a union are lists,
    in the order of the host.

    The main program is a state passed through its steps, each of which goes on,
    leaves the program, or jumps to DONE. What the system and the libraries answer is
    an argument of a run ([surroundings], [posix], [Os], [Ltdl], [InfoLib]), so a
    theorem about [main] holds for every command line, environment, user and failure.
    The descriptors of a process are a finite map from numbers to files, and opening
    takes the lowest free number. A signal is a transition that is possible wherever
    the main thread is, between any two calls of [clean_abort] too.

    Memory allocation succeeds, except where the code tests the result in a way that
    matters (Attr, Progress, Startup), where it is a parameter. Output and the
    messages of pmix_show_help are left out, except for the warnings of Params.
    Functions of PMIx, hwloc and libevent are parameters: fields of the classes
    [PMIx], [QueryLib], [ServerLib], [ParamLib], [RteLib], [LibEvent], with as laws the documented
    behaviour the proofs use. Each class has an instance in the examples, so the
    theorems about it are not vacuous. Functions of the C library are defined.

    ** What is proved

    - The pipeline (Pipeline, Service, Threads, Resources, Events). Every base runs its
      handlers one by one, and [reach] lets any active event run next, as one step,
      which covers all orders of the bases and relative speeds of their threads.
      Handlers of different bases work on disjoint objects and commute
      ([threads_independent]), so that the order among threads does not matter. The
      scheduler that leaves its events to the event library, and never calls it in a
      way it forbids, refines that relation ([library_runs_pipeline]). What is
      left of a request in the end is counted in [what_is_left], and of all the daemon's
      work in [daemon_leaves]. By an invariant on the
      objects each request owns ([inv]): no handler faults
      ([pipeline_safe]); an allocation costs eight handlers and a control request
      one, and the events drain ([pipeline_drains]); every reply that is owed is made
      and no other ([pipeline_answers]). The pipeline and an abstract service that
      knows no object simulate each other ([pipeline_implements_service],
      [service_is_implemented]). These theorems are about upcalls that decode and ask
      for a number of nodes that fits a C int, in a daemon whose modules have their
      threads; what happens to the others is [bad_request_faults] and
      [wrapped_count_destroys_pool], and without the threads [null_base_drops].
    - The daemon (System). [lives] receives the four upcalls of the server, runs their
      handlers, the lost connections and the releases of the answers to queries in any
      order, on the state of the pipeline and that of the server. Nothing faults, and
      everybody is answered what they are owed ([daemon_answers]), when the arguments of
      the upcalls are as [request_ok] asks: that the handlers of queries and tools then
      run to their end is derived ([request_welcome]). The list of tools is the result of
      the connections and losses so far ([daemon_remembers]). A query for the allocation
      is never answered ([query_allocation_faults]).
    - The handlers, one by one, with the state they leave on every path: decoding
      (Session: [decode_spec], [decode_defined]), the choice among allocations
      ([pri_picks_first_least]), the decision of the fifo scheduler
      ([fifo_decides]), and the paths of failing modules
      ([failed_modules_never_answer], [failed_schedulers_fault]).
    - Attributes: what a set does in every case ([attr_roundtrip]), removal, error paths,
      iteration (Attr). Nodes: what the
      search finds and when two nodes match (Globals).
    - Frameworks: selection is a stable sort by priority; calls stop at the first
      failure; what reopening does (Mca).
    - Threads: which calls are defined, and that those keep the table well formed
      ([thread_calls_keep_wf]); the effect of the reference count and of failed bindings;
      processor ranges (Progress). A start may fail, be masked, or fail to bind
      ([launch]). A stop of a thread that was started always returns, after a number of
      steps of the engine that is bounded ([stop_returns]); a base never has two engines,
      and is not used once it is freed, unless a new thread could only not be bound
      ([engine_alone]); events are handled once each, in order, across pauses
      ([engine_in_order]), and what a stop does is what Progress says
      ([stop_is_atomic]) (Engine).
    - Queries and tools: the status of answers, the queries that cannot be answered
      (Query); the order of the start-up calls, one answer per connection, the list
      of tools (Server).
    - Start-up: the precedence of parameter sources and of the command line (Params),
      the window of library versions, the names of the host, the life of the session
      directory (Startup), the installation directories, staged or not
      (Dirs).
    - The main program (Main): every run that comes to serve starts the pipeline in
      the state its theorems assume ([main_starts_pipeline]), so that the program as a
      whole, with the threads of its modules running, answers every request that is
      [request_ok] without a fault ([program_answers]); every exit of
      [main] itself takes down what was set up ([exit_cleans_up]); the super-user is refused before anything is
      touched ([root_refused]); the options of a parsed command line are read without a
      fault ([options_never_fault]); what becomes of the pid, of the name of the host and
      of a failed fork ([pid_never_known], [hostname_ignores_parameters],
      [fork_failure_ignored]).
    - Signals: a third signal ends the process wherever it is
      ([three_signals_exit]), the clean-up runs in order and at most once unless the
      third signal interrupts it ([cleanup_at_most_once]), and what a keepalive pipe
      changes ([keepalive_ignores_signals]). Daemons (Daemon): the descriptors of the
      child and the status of the parent.
    - Dynamic loading (Ddl): the scan of directories, against a description of the files
      it finds ([foreachfile_reference]), and where that is not what the header says
      ([callback_given_path], [dotted_directory]); which file is opened
      ([open_takes_first_existing]), the life of handles and of libltdl's advices.
    - Types: the conversions are inverse and the swaps reverse the bytes on every host
      and configuration; the two hashes agree, and the mixing can be undone step by step
      ([hash_unwinds]).
    - The information tool (Info): when the default set is shown and what is shown
      twice ([default_set_shown]), which parameters it shows ([info_parameters]).

    Some of these theorems say that the code does not do what it means to: a stale
    node of a previous query, a status masked, a reference that is not taken. They
    are stated as the code behaves.

    ** What is not modelled

    The parser of the command line, and the table of options of dsched_info, whose
    names are the library's. The platform and configuration headers (dsched_portable_platform_real.h,
    dsched_config_bottom.h, dsched_stdint.h and the like) are tests of the compiler;
    the choices the code depends on, such as the conversions of the system, are
    fields of the records that stand for the host. The event library is the class
    [EventLib], for the events of the handlers, and [LibEvent], for its loop in a
    progress thread; the macros of event-internal.h that have no definition only rename
    its functions.
    Handlers and upcalls are single steps: System does not say what a lost connection,
    which the library handles in its own thread, does in the middle of a handler.
    Sessions, topologies, timers and [dsched_sched_t] are classes that are declared
    and never instantiated. The bodies of the log and metric modules are compiled out
    of the program. The
    prototypes of the public headers have no content of their own. *)

From Stdlib Require Export ZArith Lia.
From stdpp Require Export base option list gmap strings sorting.

#[export] Set Default Goal Selector "!".
#[global] Open Scope Z_scope.

(** ** Faults

    What C leaves undefined is a value: a handler that would dereference a null
    pointer, or touch an object whose last reference was released, evaluates to
    [Fault]. *)

Inductive fault :=
| NullDeref
| UseAfterFree
| TypeConfusion
| SentinelDeref
| OutOfBounds
| Uninitialised
| AssertFailed.

#[export] Instance fault_eq_dec : EqDecision fault.
Proof. solve_decision. Defined.

Inductive outcome (A : Type) : Type :=
| Done (a : A)
| Fault (f : fault).
Arguments Done {A} a.
Arguments Fault {A} f.

#[export] Instance outcome_ret : MRet outcome := fun A a => Done a.
#[export] Instance outcome_bind : MBind outcome := fun A B k m =>
  match m with Done a => k a | Fault f => Fault f end.

(** ** State passing

    A handler that reads and writes the shared state [S] is a function of type
    [act S A]; it faults as a whole when one of its steps does. *)

Definition act (S A : Type) : Type := S -> outcome (A * S).

#[export] Instance act_ret {S} : MRet (act S) := fun A a s => Done (a, s).
#[export] Instance act_bind {S} : MBind (act S) := fun A B k m s =>
  match m s with Done (a, s') => k a s' | Fault f => Fault f end.

Definition gets {S A} (f : S -> A) : act S A := fun s => Done (f s, s).
Definition modify {S} (f : S -> S) : act S unit := fun s => Done (tt, f s).
Definition lift {S A} (o : outcome A) : act S A := fun s =>
  match o with Done a => Done (a, s) | Fault f => Fault f end.
Definition fail {S A} (f : fault) : act S A := fun _ => Fault f.

(** Run an action on every element of a list, left to right. *)
Fixpoint each {S A} (f : A -> act S unit) (l : list A) : act S unit :=
  match l with
  | [] => mret tt
  | x :: l => f x ;; each f l
  end.

Section ActLemmas.
Context {S : Type}.

Lemma act_bind_Done {A B} (m : act S A) (k : A -> act S B) s a s' :
  m s = Done (a, s') -> (m ≫= k) s = k a s'.
Proof. intros H. unfold mbind, act_bind. by rewrite H. Qed.

Lemma act_bind_Fault {A B} (m : act S A) (k : A -> act S B) s f :
  m s = Fault f -> (m ≫= k) s = Fault f.
Proof. intros H. unfold mbind, act_bind. by rewrite H. Qed.

Lemma act_bind_inv {A B} (m : act S A) (k : A -> act S B) s r :
  (m ≫= k) s = Done r -> exists a s', m s = Done (a, s') /\ k a s' = Done r.
Proof. unfold mbind, act_bind. destruct (m s) as [[a s']|]; [eauto|done]. Qed.

Lemma each_app {A} (f : A -> act S unit) l1 l2 s :
  each f (l1 ++ l2) s = (each f l1 ;; each f l2) s.
Proof.
  revert s; induction l1 as [|x l1 IH]; intros s; [done|].
  simpl. unfold mbind, act_bind in *. destruct (f x s) as [[[] s']|]; [|done]. by rewrite IH.
Qed.
End ActLemmas.

(** ** C integers

    [sint w] and [uint w] are the values a [w]-bit signed or unsigned object
    holds after a conversion from [z]. *)

Definition uint (w : Z) (z : Z) : Z := z mod 2 ^ w.
Definition sint (w : Z) (z : Z) : Z :=
  let u := z mod 2 ^ w in if u <? 2 ^ (w - 1) then u else u - 2 ^ w.

Definition UINT32_MAX : Z := 2 ^ 32 - 1.

Lemma uint_range w z : 0 <= w -> 0 <= uint w z < 2 ^ w.
Proof. intros. apply Z.mod_pos_bound. lia. Qed.

Lemma uint_id w z : 0 <= z < 2 ^ w -> uint w z = z.
Proof. apply Z.mod_small. Qed.

Lemma sint_range w z : 0 < w -> - 2 ^ (w - 1) <= sint w z < 2 ^ (w - 1).
Proof.
  intros Hw. unfold sint.
  assert (2 ^ w = 2 * 2 ^ (w - 1)) as E by (rewrite <- Z.pow_succ_r; [f_equal|]; lia).
  pose proof (Z.mod_pos_bound z (2 ^ w) ltac:(lia)).
  destruct (Z.ltb_spec (z mod 2 ^ w) (2 ^ (w - 1))); lia.
Qed.

Lemma sint_id w z : 0 < w -> 0 <= z < 2 ^ (w - 1) -> sint w z = z.
Proof.
  intros Hw Hz. unfold sint.
  assert (2 ^ w = 2 * 2 ^ (w - 1)) as E by (rewrite <- Z.pow_succ_r; [f_equal|]; lia).
  rewrite Z.mod_small by lia. destruct (Z.ltb_spec z (2 ^ (w - 1))); lia.
Qed.

Lemma sint_neg w z : 0 < w -> 2 ^ (w - 1) <= z < 2 ^ w -> sint w z = z - 2 ^ w.
Proof.
  intros Hw Hz. unfold sint. rewrite Z.mod_small by lia.
  destruct (Z.ltb_spec z (2 ^ (w - 1))); lia.
Qed.

(** ** C strings: a [char *] is an [option string] *)

Abbreviation cstr := (option string).

(** [0 == strcmp(a, b)]: undefined on a null pointer. *)
Definition strcmp0 (a b : cstr) : outcome bool :=
  match a, b with
  | Some a, Some b => Done (String.eqb a b)
  | _, _ => Fault NullDeref
  end.

Lemma bool_decide_Some_eqb (a b : string) :
  bool_decide (Some a = Some b) = String.eqb a b.
Proof.
  destruct (String.eqb_spec a b) as [->|Hn]; [by apply bool_decide_true|].
  apply bool_decide_false. congruence.
Qed.

(** [strdup(s)] for an allocation that succeeds. *)
Definition strdup (s : cstr) : outcome cstr :=
  match s with Some s => Done (Some s) | None => Fault NullDeref end.

(** strchr(s, c), as the string before the first [c] and the one after it. *)
Fixpoint cut (c : Ascii.ascii) (s : string) : option (string * string) :=
  match s with
  | EmptyString => None
  | String x s =>
      if Ascii.eqb x c then Some (EmptyString, s)
      else '(a, b) ← cut c s; Some (String x a, b)
  end.

Lemma string_app_assoc (a b c : string) : (a ++ b ++ c)%string = ((a ++ b) ++ c)%string.
Proof.
  induction a as [|x a IH]; [done|].
  change (String x (a ++ b ++ c) = String x ((a ++ b) ++ c)). by f_equal.
Qed.

Lemma cut_app_None c p v : cut c p = None -> cut c v = None -> cut c (p ++ v)%string = None.
Proof.
  intros Hp Hv. induction p as [|x p IH]; simpl in *; [done|].
  destruct (Ascii.eqb x c); [done|]. destruct (cut c p) as [[]|]; [done|]. by rewrite IH.
Qed.

Lemma cut_name c s a b : cut c s = Some (a, b) -> cut c a = None.
Proof.
  revert a; induction s as [|x s IH]; intros a; simpl; [done|].
  destruct (Ascii.eqb x c) eqn:Ex; [by intros [= <- _]|].
  destruct (cut c s) as [[a' b']|]; simpl; [|done]. intros [= <- <-]. simpl.
  by rewrite Ex, (IH a').
Qed.

(** [0 == strncmp(s, p, strlen(p))]: what follows the prefix [p] in [s]. *)
Fixpoint after_prefix (p s : string) : option string :=
  match p, s with
  | EmptyString, _ => Some s
  | String a p, String b s => if Ascii.eqb a b then after_prefix p s else None
  | String _ _, EmptyString => None
  end.

Lemma after_prefix_app p s rest : after_prefix p s = Some rest <-> s = (p ++ rest)%string.
Proof.
  revert s; induction p as [|a p IH]; intros s; simpl; [by split; [intros [=]|intros ->]|].
  destruct s as [|b s]; [done|]. destruct (Ascii.eqb_spec a b) as [->|Hn]; [|by split; [|intros [= ? ?]]].
  rewrite IH. by split; [intros ->|intros [= ->]].
Qed.

(** "%s" of a possibly null pointer. *)
Definition print_s (s : cstr) : outcome string :=
  match s with Some s => Done s | None => Fault NullDeref end.

(** ** Record update

    [r <| f := v |>] is [r] with its field [f] replaced, for a record type whose
    eta-expansion is declared as an instance of [Eta]. *)

Class Eta (R : Type) := eta_of : R -> R.
Class Setter {R T : Type} (proj : R -> T) := set_field : T -> R -> R.
Arguments set_field {R T} proj {_} v r /.

Ltac build_setter :=
  match goal with
  | |- @Setter ?R ?T ?proj =>
    let h := constr:(_ : Eta R) in
    let e := eval red in h in
    match eval pattern proj in e with
    | ?ctx _ => exact (fun v r => ctx (fun _ => v) r)
    end
  end.

#[export] Hint Extern 1 (Setter _) => build_setter : typeclass_instances.

Notation "r <| f := v |>" := (set_field f v r)
  (at level 1, left associativity, f at next level, v at level 200).

(** ** Reference-counted cells (pmix_object_t)

    An object made by PMIX_NEW starts with one reference. *)

Record cell (A : Type) := Cell { refs : Z; body : A }.
Arguments Cell {A} refs body.
Arguments refs {A} c.
Arguments body {A} c.

Abbreviation loc := nat (only parsing).

(** ** Tactics shared by the development *)

(** Open every existential and conjunction of the context. *)
Ltac open_ex :=
  repeat match goal with
  | H : exists _, _ |- _ => let x := fresh "x" in destruct H as [x H]
  | H : _ /\ _ |- _ => destruct H
  end.

(** Close a goal made of existentials and conjunctions of computations. *)
Ltac solve_ex := repeat (split || eexists); intros; try done.

(** Step one bound action whose result is known from the context. *)
Ltac run_act := unfold mbind, act_bind, mret, act_ret, gets, modify, lift, fail; simpl.

Create HintDb dsched.
Create Rewrite HintDb dsched.
#[export] Hint Rewrite @lookup_insert_eq : dsched.
#[export] Hint Resolve uint_range sint_range : dsched.
