(* ===== verification/Types.v ===== *)
(** * Types and hashes

    The conversions of include/dsched_types.h (byte order, pointers as integers) and
    the hash macros of include/dsched_hash_string.h. A C object is its bytes in
    memory, so that a union is one list of bytes read at several types, and the byte
    order of the host, the two switches of the configuration, the width of a pointer
    and the sign of a plain [char] are the fields of a [host]. *)

From S2P Require Import Prelude.

(** ** The host *)

Inductive endian := Little | Big.

Record host := Host {
  order : endian;
  HAVE_UNIX_BYTESWAP : bool;
  SIZEOF_VOID_P : nat;
  DSCHED_ENABLE_DEBUG : bool;
  CHAR_SIGNED : bool }.

(** [WORDS_BIGENDIAN] is what configure finds out about the order. *)
Definition WORDS_BIGENDIAN (h : host) : bool :=
  match order h with Big => true | Little => false end.

(** ** Bytes of an unsigned integer, least significant first *)

Fixpoint le_bytes (n : nat) (v : Z) : list Z :=
  match n with
  | O => []
  | S n => v mod 256 :: le_bytes n (v / 256)
  end.

Fixpoint le_value (bs : list Z) : Z :=
  match bs with
  | [] => 0
  | b :: bs => b + 256 * le_value bs
  end.

(** An [n]-byte unsigned object in memory, and the value read back from it. *)
Definition store (h : host) (n : nat) (v : Z) : list Z :=
  match order h with Little => le_bytes n v | Big => rev (le_bytes n v) end.
Definition load (h : host) (bs : list Z) : Z :=
  match order h with Little => le_value bs | Big => le_value (rev bs) end.

(** htons, htonl and ntohl: the value whose memory is the bytes of the argument in network
    order, most significant first, and back. *)
Definition htons (h : host) (v : Z) : Z := load h (rev (le_bytes 2 v)).
Definition htonl (h : host) (v : Z) : Z := load h (rev (le_bytes 4 v)).
Definition ntohl (h : host) (v : Z) : Z := le_value (rev (store h 4 v)).

(** ** dsched_types.h *)

(** [w.l[i]] of the union of an [uint64_t] and two [uint32_t]. *)
Definition word (h : host) (w : list Z) (i : nat) : Z := load h (take 4 (drop (4 * i) w)).

Definition dsched_hton64 (h : host) (val : Z) : Z :=
  if HAVE_UNIX_BYTESWAP h then
    if htonl h 1 =? 1 then val
    else
      let w := store h 8 val in
      let r := store h 4 (htonl h (word h w 1)) ++ store h 4 (htonl h (word h w 0)) in
      load h r
  else val.

Definition dsched_ntoh64 (h : host) (val : Z) : Z :=
  if HAVE_UNIX_BYTESWAP h then
    if htonl h 1 =? 1 then val
    else
      let w := store h 8 val in
      let r := store h 4 (ntohl h (word h w 1)) ++ store h 4 (ntohl h (word h w 0)) in
      load h r
  else val.

(** An address is an unsigned integer of the width of a pointer. *)
Definition dsched_ptr_ptol (h : host) (ptr : Z) : Z := uint 64 ptr.

(** The address, and whether the warning about truncation is printed. *)
Definition dsched_ptr_ltop (h : host) (value : Z) : Z * bool :=
  (uint (8 * Z.of_nat (SIZEOF_VOID_P h)) value,
   Nat.eqb (SIZEOF_VOID_P h) 4 && DSCHED_ENABLE_DEBUG h && (Z.shiftl 1 32 - 1 <? value)).

(** The array member of the union is written byte by byte. *)
Definition swap_array (w : list Z) (idx : list nat) : list Z :=
  map (fun i => nth i w 0) idx.

Definition dsched_swap_bytes2 (h : host) (val : Z) : Z :=
  if WORDS_BIGENDIAN h || negb (HAVE_UNIX_BYTESWAP h)
  then load h (swap_array (store h 2 val) [1; 0]%nat)
  else htons h val.

Definition dsched_swap_bytes4 (h : host) (val : Z) : Z :=
  if WORDS_BIGENDIAN h || negb (HAVE_UNIX_BYTESWAP h)
  then load h (swap_array (store h 4 val) [3; 2; 1; 0]%nat)
  else htonl h val.

Definition dsched_swap_bytes8 (h : host) (val : Z) : Z :=
  if WORDS_BIGENDIAN h || negb (HAVE_UNIX_BYTESWAP h)
  then load h (swap_array (store h 8 val) [7; 6; 5; 4; 3; 2; 1; 0]%nat)
  else dsched_hton64 h val.

(** The union [dsched_ptr_t]: eight bytes, seen as one 64-bit word, as the first
    32-bit word, as a pointer or as a pair of words. *)
Record ptr_view := PtrView {
  pt_lval : Z; pt_ival : Z; pt_pval : Z; sval_uval : Z; sval_lval : Z }.
Definition dsched_ptr_t (h : host) (m : list Z) : ptr_view :=
  PtrView (load h m) (word h m 0) (load h (take (SIZEOF_VOID_P h) m)) (word h m 0) (word h m 1).

Definition DSCHED_LOCAL_RANK_MAX : Z := 2 ^ 16 - 1 - 1.
Definition DSCHED_NODE_RANK_MAX : Z := 2 ^ 16 - 1 - 1.
Definition DSCHED_LOCAL_RANK_INVALID : Z := 2 ^ 16 - 1.
Definition DSCHED_NODE_RANK_INVALID : Z := 2 ^ 16 - 1.
Definition DSCHED_APP_IDX_MAX : Z := 2 ^ 32 - 1.

(** ** dsched_hash_string.h *)

(** [*str] as the integer it is promoted to. *)
Definition char_value (h : host) (c : Ascii.ascii) : Z :=
  let v := Z.of_nat (Ascii.nat_of_ascii c) in
  if CHAR_SIGNED h then sint 8 v else v.

(** One turn of the loops. *)
Definition hash_round (hash c : Z) : Z :=
  let hash := uint 32 (hash + c) in
  let hash := uint 32 (hash + Z.shiftl hash 10) in
  Z.lxor hash (Z.shiftr hash 6).

(** What follows the loops. *)
Definition hash_finish (hash : Z) : Z :=
  let hash := uint 32 (hash + Z.shiftl hash 3) in
  let hash := Z.lxor hash (Z.shiftr hash 11) in
  uint 32 (hash + Z.shiftl hash 15).

Fixpoint hash_strlen_loop (h : host) (str : string) (hash len : Z) : Z * Z :=
  match str with
  | EmptyString => (hash, len)
  | String c str => hash_strlen_loop h str (hash_round hash (char_value h c)) (uint 32 (len + 1))
  end.

Definition DSCHED_HASH_STRLEN (h : host) (str : string) : Z * Z :=
  let '(hash, len) := hash_strlen_loop h str 0 0 in (hash_finish hash, len).

Fixpoint hash_str_loop (h : host) (str : string) (hash : Z) : Z :=
  match str with
  | EmptyString => hash
  | String c str => hash_str_loop h str (hash_round hash (char_value h c))
  end.

Definition DSCHED_HASH_STR (h : host) (str : string) : Z := hash_finish (hash_str_loop h str 0).

(** ** Lemmas on bytes *)

Definition byte_ok (b : Z) : Prop := 0 <= b < 256.

Lemma le_bytes_length n v : length (le_bytes n v) = n.
Proof. revert v; induction n as [|n IH]; intros v; simpl; [done|]. by rewrite IH. Qed.

Lemma le_bytes_ok n v : Forall byte_ok (le_bytes n v).
Proof.
  revert v; induction n as [|n IH]; intros v; simpl; constructor; [|done].
  apply Z.mod_pos_bound. lia.
Qed.

Lemma le_value_bytes n v : le_value (le_bytes n v) = v mod 256 ^ Z.of_nat n.
Proof.
  revert v; induction n as [|n IH]; intros v; simpl; [by rewrite Z.mod_1_r|].
  rewrite IH, Nat2Z.inj_succ, Z.pow_succ_r by lia.
  rewrite Z.rem_mul_r by lia. done.
Qed.

Lemma le_bytes_value bs : Forall byte_ok bs -> le_bytes (length bs) (le_value bs) = bs.
Proof.
  unfold byte_ok. induction 1 as [|b bs Hb _ IH]; simpl; [done|].
  rewrite (Z.mul_comm 256), Z.mod_add, Z.div_add by lia.
  rewrite Z.mod_small, Z.div_small by lia. by rewrite Z.add_0_l, IH.
Qed.

Section Host.
Context (h : host).

Lemma store_length n v : length (store h n v) = n.
Proof. unfold store. by destruct (order h); rewrite ?length_rev, le_bytes_length. Qed.

Lemma store_ok n v : Forall byte_ok (store h n v).
Proof. unfold store. destruct (order h); [|apply Forall_rev]; apply le_bytes_ok. Qed.

Lemma load_store n v : load h (store h n v) = v mod 256 ^ Z.of_nat n.
Proof. unfold load, store. by destruct (order h); rewrite ?rev_involutive, le_value_bytes. Qed.

Lemma store_load n bs : Forall byte_ok bs -> length bs = n -> store h n (load h bs) = bs.
Proof.
  intros Hok <-. unfold load, store. destruct (order h); [by apply le_bytes_value|].
  rewrite <- (length_rev bs), le_bytes_value by (by apply Forall_rev). apply rev_involutive.
Qed.

Lemma load_range bs : Forall byte_ok bs -> 0 <= load h bs < 256 ^ Z.of_nat (length bs).
Proof.
  intros Hok. rewrite <- (store_load (length bs) bs Hok eq_refl), load_store, store_length.
  apply Z.mod_pos_bound. lia.
Qed.

Lemma htonl_1 : (htonl h 1 =? 1) = WORDS_BIGENDIAN h.
Proof. unfold htonl, load, WORDS_BIGENDIAN. by destruct (order h). Qed.

(** On a host of the other order, htonl and ntohl reverse the memory. *)
Lemma store_htonl v : store h 4 (htonl h v) = rev (le_bytes 4 v).
Proof. apply store_load; [apply Forall_rev, le_bytes_ok|by rewrite length_rev, le_bytes_length]. Qed.

Lemma word_store bs i : length (take 4 (drop (4 * i) bs)) = 4%nat -> Forall byte_ok bs ->
  store h 4 (word h bs i) = take 4 (drop (4 * i) bs).
Proof. intros Hl Hok. apply store_load; [by apply Forall_take, Forall_drop|done]. Qed.

Lemma ntohl_htonl v : order h = Little -> ntohl h v = htonl h v.
Proof. unfold ntohl, htonl, store, load. by intros ->. Qed.
End Host.

(** The memory of the result is the argument's bytes, most significant first. *)
Definition network_bytes (v : Z) : list Z := rev (le_bytes 8 v).

Section Words.
Context (h : host) (Hlittle : order h = Little).

Lemma store_htonl_word bs i : length (take 4 (drop (4 * i) bs)) = 4%nat -> Forall byte_ok bs ->
  store h 4 (htonl h (word h bs i)) = rev (take 4 (drop (4 * i) bs)).
Proof.
  intros Hl Hok. rewrite store_htonl. f_equal.
  pose proof (word_store h bs i Hl Hok) as E. unfold store in E. by rewrite Hlittle in E.
Qed.

(** Exchanging the two words and the bytes of each reverses the whole. *)
Lemma swapped_words bs : length bs = 8%nat -> Forall byte_ok bs ->
  store h 4 (htonl h (word h bs 1)) ++ store h 4 (htonl h (word h bs 0)) = rev bs.
Proof.
  intros Hl Hok. rewrite !store_htonl_word by (rewrite ?length_take, ?length_drop; lia || done).
  rewrite <- rev_app_distr. f_equal.
  change (4 * 0)%nat with 0%nat. change (4 * 1)%nat with 4%nat. rewrite drop_0, (take_ge (drop 4 bs)).
  - apply take_drop.
  - rewrite length_drop. lia.
Qed.

Lemma hton64_reverses v : HAVE_UNIX_BYTESWAP h = true ->
  dsched_hton64 h v = load h (rev (store h 8 v)).
Proof.
  intros Hb. unfold dsched_hton64. rewrite Hb, htonl_1. unfold WORDS_BIGENDIAN at 1. rewrite Hlittle.
  cbv zeta. by rewrite swapped_words by (apply store_length || apply store_ok).
Qed.
End Words.

(** ntohl and htonl are the same function, on either order. *)
Lemma ntohl_is_htonl h v : 0 <= v < 2 ^ 32 -> ntohl h v = htonl h v.
Proof.
  intros Hv. destruct (order h) eqn:Ho; [by apply ntohl_htonl|].
  unfold ntohl, htonl, store, load. by rewrite Ho, rev_involutive.
Qed.

Lemma ntoh64_is_hton64 h v : dsched_ntoh64 h v = dsched_hton64 h v.
Proof.
  assert (forall bs i, Forall byte_ok bs -> 0 <= word h bs i < 2 ^ 32) as Hw.
  { intros bs i Hok. assert (Forall byte_ok (take 4 (drop (4 * i) bs))) as Hok'
      by by apply Forall_take, Forall_drop.
    pose proof (load_range h _ Hok') as Hr. unfold word. split; [apply Hr|].
    eapply Z.lt_le_trans; [apply Hr|]. change (2 ^ 32) with (256 ^ 4).
    apply Z.pow_le_mono_r; [lia|]. rewrite length_take. lia. }
  unfold dsched_ntoh64, dsched_hton64. cbv zeta.
  by rewrite !ntohl_is_htonl by apply Hw, store_ok.
Qed.

(** Where the configuration offers the conversions of the system, the memory of
    what [dsched_hton64] returns is the eight bytes of its argument in network order,
    on a host of either byte order. *)
Theorem hton64_network h v : HAVE_UNIX_BYTESWAP h = true -> 0 <= v < 2 ^ 64 ->
  store h 8 (dsched_hton64 h v) = network_bytes v.
Proof.
  intros Hb Hv. unfold network_bytes. destruct (order h) eqn:Ho.
  - rewrite hton64_reverses, store_load by (done || apply Forall_rev, store_ok
      || by rewrite length_rev, store_length). unfold store. by rewrite Ho.
  - unfold dsched_hton64. rewrite Hb, htonl_1. unfold WORDS_BIGENDIAN. rewrite Ho.
    unfold store. by rewrite Ho.
Qed.

Definition x86_64 : host := Host Little true 8 false true.

Example hton64_x86 : dsched_hton64 x86_64 0x0102030405060708 = 0x0807060504030201.
Proof. reflexivity. Qed.

Lemma hton64_network_witness :
  store x86_64 8 (dsched_hton64 x86_64 0x0102030405060708) = [1; 2; 3; 4; 5; 6; 7; 8].
Proof. exact (hton64_network x86_64 0x0102030405060708 eq_refl ltac:(lia)). Defined.

(** [dsched_ntoh64] undoes [dsched_hton64] on every 64-bit value, on every host
    and configuration. *)
Theorem ntoh64_hton64 h v : 0 <= v < 2 ^ 64 -> dsched_ntoh64 h (dsched_hton64 h v) = v.
Proof.
  intros Hv. rewrite ntoh64_is_hton64. destruct (HAVE_UNIX_BYTESWAP h) eqn:Hb;
    [|by unfold dsched_hton64; rewrite !Hb].
  destruct (order h) eqn:Ho.
  - rewrite (hton64_reverses h Ho v Hb), (hton64_reverses h Ho _ Hb), store_load, rev_involutive, load_store
      by (done || apply Forall_rev, store_ok || by rewrite length_rev, store_length).
    by apply Z.mod_small.
  - unfold dsched_hton64. rewrite Hb, htonl_1. unfold WORDS_BIGENDIAN. by rewrite Ho.
Qed.

Lemma ntoh64_hton64_witness :
  dsched_ntoh64 x86_64 (dsched_hton64 x86_64 (2 ^ 63 + 5)) = 2 ^ 63 + 5.
Proof. exact (ntoh64_hton64 x86_64 (2 ^ 63 + 5) ltac:(lia)). Defined.

(** Without the conversions of the system the value stays as it is, which on a
    little-endian host is not network order. *)
Theorem hton64_not_converted h v : HAVE_UNIX_BYTESWAP h = false -> order h = Little ->
  store h 8 (dsched_hton64 h v) = rev (network_bytes v).
Proof.
  intros Hb Ho. unfold dsched_hton64, network_bytes. rewrite Hb, rev_involutive.
  unfold store. by rewrite Ho.
Qed.

(** *** The byte swaps *)

Lemma swap_array_rev bs :
  swap_array bs (rev (seq 0 (length bs))) = rev bs.
Proof.
  unfold swap_array. rewrite map_rev. f_equal.
  apply nth_ext with (d := nth 0 bs 0) (d' := 0); rewrite length_map, length_seq; try done.
  intros n Hn. rewrite (map_nth (fun i => nth i bs 0)), seq_nth by done. done.
Qed.

Lemma load_rev_store h n v : load h (rev (store h n v)) = le_value (rev (le_bytes n v)).
Proof. unfold load, store. destruct (order h); by rewrite ?rev_involutive. Qed.

(** C32: under every configuration, whether they are the functions of the header or
    the macros that stand for the conversions of the system, the three swaps compute
    the number whose bytes are those of the argument in reverse, whatever the order
    of the host. *)
Theorem swaps_reverse_bytes h v :
  dsched_swap_bytes2 h v = le_value (rev (le_bytes 2 v)) /\
  dsched_swap_bytes4 h v = le_value (rev (le_bytes 4 v)) /\
  dsched_swap_bytes8 h v = le_value (rev (le_bytes 8 v)).
Proof.
  assert (forall n, load h (swap_array (store h n v) (rev (seq 0 n))) = le_value (rev (le_bytes n v))) as Ha.
  { intros n. rewrite <- (store_length h n v) at 2. by rewrite swap_array_rev, load_rev_store. }
  pose proof (Ha 2%nat) as H2. pose proof (Ha 4%nat) as H4. pose proof (Ha 8%nat) as H8. clear Ha.
  unfold dsched_swap_bytes2, dsched_swap_bytes4, dsched_swap_bytes8.
  destruct (WORDS_BIGENDIAN h || negb (HAVE_UNIX_BYTESWAP h)) eqn:E; [done|].
  apply orb_false_iff in E as [Hbig Hb]. apply negb_false_iff in Hb.
  assert (order h = Little) as Ho by (unfold WORDS_BIGENDIAN in Hbig; by destruct (order h)).
  repeat split; try (unfold htons, htonl, load; by rewrite Ho).
  by rewrite hton64_reverses, load_rev_store.
Qed.

(** *** Pointers *)

(** Every pointer of a host survives the way through a 64-bit value, and a value
    survives the way through a pointer exactly when it fits one; the warning is
    printed, on a debug build with 4-byte pointers, exactly when it does not. *)
Theorem ptr_round_trips h p : (SIZEOF_VOID_P h = 4 \/ SIZEOF_VOID_P h = 8)%nat -> 0 <= p < 2 ^ 64 ->
  (dsched_ptr_ptol h (dsched_ptr_ltop h p).1 = p <-> p < 2 ^ (8 * Z.of_nat (SIZEOF_VOID_P h))) /\
  (SIZEOF_VOID_P h = 4%nat -> DSCHED_ENABLE_DEBUG h = true ->
   (dsched_ptr_ltop h p).2 = bool_decide ((dsched_ptr_ltop h p).1 <> p)).
Proof.
  intros Hw Hp. unfold dsched_ptr_ptol, dsched_ptr_ltop, uint. simpl fst. simpl snd.
  set (W := 2 ^ (8 * Z.of_nat (SIZEOF_VOID_P h))).
  assert (W = 2 ^ 32 \/ W = 2 ^ 64) as HW by (unfold W; destruct Hw as [-> | ->]; auto).
  pose proof (Z.mod_pos_bound p W ltac:(destruct HW as [-> | ->]; lia)) as Hm.
  assert (p mod W = p <-> p < W) as Hid.
  { split; [intros <-; lia|intros; apply Z.mod_small; lia]. }
  split; [rewrite (Z.mod_small (p mod W)) by (destruct HW as [E|E]; rewrite E in *; lia); done|].
  intros H4 ->. rewrite H4. replace W with (2 ^ 32) in * by (unfold W; by rewrite H4).
  change (Z.shiftl 1 32 - 1) with (2 ^ 32 - 1). simpl andb.
  destruct (Z.ltb_spec (2 ^ 32 - 1) p) as [Hlt|Hge]; symmetry;
    [apply bool_decide_true|apply bool_decide_false]; intros E; [apply Hid in E; lia|].
  apply E, Hid. lia.
Qed.

(** The pair of words of [dsched_ptr_t] is the 64-bit word it overlays, and which of
    the two is the high half depends on the host: [ival], the first, is the value of
    a small integer only on a little-endian host. *)
Theorem ptr_words h v : 0 <= v < 2 ^ 64 ->
  let p := dsched_ptr_t h (store h 8 v) in
  pt_lval p = v /\ pt_ival p = sval_uval p /\
  (pt_ival p = v mod 2 ^ 32 <->
     (order h = Little \/ v / 2 ^ 32 = v mod 2 ^ 32)).
Proof.
  intros Hv. cbv zeta. simpl. split; [rewrite load_store; by apply Z.mod_small|]. split; [done|].
  assert (le_bytes 8 v = le_bytes 4 v ++ le_bytes 4 (v / 2 ^ 32)) as E.
  { simpl. rewrite !Z.div_div by lia. done. }
  unfold word, store, load. change (4 * 0)%nat with 0%nat. rewrite drop_0.
  destruct (order h).
  - rewrite E, take_app_length' by (by rewrite le_bytes_length). rewrite le_value_bytes. tauto.
  - rewrite E, rev_app_distr, take_app_length' by (by rewrite length_rev, le_bytes_length).
    rewrite rev_involutive, le_value_bytes. change (256 ^ Z.of_nat 4) with (2 ^ 32).
    rewrite (Z.mod_small (v / 2 ^ 32)) by (split; [apply Z.div_pos|apply Z.div_lt_upper_bound]; lia).
    split; [by right|by intros [|]].
Qed.

(** *** Hashes *)

Lemma hash_strlen_loop_spec h str hash len :
  hash_strlen_loop h str hash len =
  (hash_str_loop h str hash, if decide (str = EmptyString) then len
                             else uint 32 (len + Z.of_nat (String.length str))).
Proof.
  revert hash len; induction str as [|c str IH]; intros hash len; [done|].
  simpl hash_strlen_loop. rewrite IH. simpl hash_str_loop. f_equal.
  rewrite (decide_False (P := String c str = EmptyString)) by done.
  destruct (decide (str = EmptyString)) as [->|Hn]; [done|].
  unfold uint. rewrite Z.add_mod_idemp_l by lia. f_equal.
  change (String.length (String c str)) with (S (String.length str)). lia.
Qed.

(** [DSCHED_HASH_STRLEN] computes the hash of [DSCHED_HASH_STR] and, in the same
    pass, the length of the string modulo 2^32. *)
Theorem hash_strlen_fused h str :
  DSCHED_HASH_STRLEN h str = (DSCHED_HASH_STR h str, uint 32 (Z.of_nat (String.length str))).
Proof.
  unfold DSCHED_HASH_STRLEN, DSCHED_HASH_STR. rewrite hash_strlen_loop_spec. f_equal.
  destruct (decide (str = EmptyString)) as [->|]; done.
Qed.

Definition is_ascii (c : Ascii.ascii) : bool := Nat.ltb (Ascii.nat_of_ascii c) 128.
Fixpoint ascii_only (s : string) : bool :=
  match s with EmptyString => true | String c s => is_ascii c && ascii_only s end.

Lemma char_value_ascii h c : is_ascii c = true -> char_value h c = Z.of_nat (Ascii.nat_of_ascii c).
Proof.
  unfold is_ascii, char_value. intros Hc%Nat.ltb_lt. destruct (CHAR_SIGNED h); [|done].
  apply sint_id; lia.
Qed.

Lemma hash_str_loop_ascii h1 h2 s hash : ascii_only s = true ->
  hash_str_loop h1 s hash = hash_str_loop h2 s hash.
Proof.
  revert hash; induction s as [|c s IH]; intros hash; simpl; [done|].
  intros [Hc Hs]%andb_true_iff. by rewrite !char_value_ascii, IH.
Qed.

(** The hash of an ASCII string is the same on every host. *)
Theorem ascii_hash_portable h1 h2 s : ascii_only s = true ->
  DSCHED_HASH_STR h1 s = DSCHED_HASH_STR h2 s.
Proof. intros Hs. unfold DSCHED_HASH_STR. by rewrite (hash_str_loop_ascii h1 h2). Qed.

(** That of another string depends on the sign of a plain [char]. *)
Theorem hash_not_portable :
  let s := String (Ascii.ascii_of_nat 233) EmptyString in
  DSCHED_HASH_STR (Host Little true 8 false true) s <>
  DSCHED_HASH_STR (Host Little true 8 false false) s.
Proof. vm_compute. discriminate. Qed.

Lemma lxor_range a b : 0 <= a < 2 ^ 32 -> 0 <= b < 2 ^ 32 -> 0 <= Z.lxor a b < 2 ^ 32.
Proof.
  intros Ha Hb. split; [apply Z.lxor_nonneg; lia|].
  destruct (Z.eq_dec (Z.lxor a b) 0) as [->|]; [lia|].
  apply Z.log2_lt_pow2; [pose proof (proj2 (Z.lxor_nonneg a b)); lia|].
  eapply Z.le_lt_trans; [apply Z.log2_lxor; lia|].
  apply Z.max_lub_lt; (destruct (Z.eq_dec a 0) as [->|]; [done|]) || idtac;
    [apply Z.log2_lt_pow2; lia|].
  destruct (Z.eq_dec b 0) as [->|]; [done|]. apply Z.log2_lt_pow2; lia.
Qed.

Lemma hash_round_range hash c : 0 <= hash_round hash c < 2 ^ 32.
Proof.
  unfold hash_round. cbv zeta. set (x := uint 32 (hash + c)).
  pose proof (uint_range 32 (x + Z.shiftl x 10) ltac:(lia)).
  apply lxor_range; [done|]. rewrite Z.shiftr_div_pow2 by lia.
  split; [apply Z.div_pos; lia|]. apply Z.div_lt_upper_bound; lia.
Qed.

Lemma hash_str_loop_range h s hash : 0 <= hash < 2 ^ 32 -> 0 <= hash_str_loop h s hash < 2 ^ 32.
Proof. revert hash; induction s; simpl; eauto using hash_round_range. Qed.

(** **** The hash unwound *)

(** [y = x xor (x >> n)] solved for [x], starting from [y]: every turn gets [n] more
    bits right. *)
Fixpoint unxorshift (n : Z) (turns : nat) (y : Z) : Z :=
  match turns with
  | O => y
  | S turns => Z.lxor y (Z.shiftr (unxorshift n turns y) n)
  end.

(** The inverses of the odd numbers 1025, 9 and 32769 modulo 2^32. *)
Definition unround (hash c : Z) : Z := uint 32 (3222273025 * unxorshift 6 5 hash - c).
Definition unfinish (hash : Z) : Z :=
  uint 32 (954437177 * unxorshift 11 2 (uint 32 (1073709057 * hash))).

Fixpoint unwind_loop (h : host) (s : string) (hash : Z) : Z :=
  match s with
  | EmptyString => hash
  | String c s => unround (unwind_loop h s hash) (char_value h c)
  end.

Definition unwind (h : host) (s : string) (hash : Z) : Z := unwind_loop h s (unfinish hash).

Lemma unxorshift_error n turns x : 0 <= n ->
  Z.lxor (unxorshift n turns (Z.lxor x (Z.shiftr x n))) x = Z.shiftr x (n * Z.of_nat (S turns)).
Proof.
  intros Hn. induction turns as [|turns IH]; cbn [unxorshift].
  { rewrite (Z.lxor_comm x), Z.lxor_assoc, Z.lxor_nilpotent, Z.lxor_0_r. f_equal. lia. }
  set (u := unxorshift n turns _) in *.
  transitivity (Z.shiftr (Z.lxor u x) n).
  - apply Z.bits_inj'. intros i Hi. rewrite Z.shiftr_spec, !Z.lxor_spec, !Z.shiftr_spec by done.
    by destruct (Z.testbit x i), (Z.testbit x (i + n)), (Z.testbit u (i + n)).
  - rewrite IH, Z.shiftr_shiftr by lia. f_equal. lia.
Qed.

Lemma unxorshift_id n turns x : 0 <= n -> 32 <= n * Z.of_nat (S turns) -> 0 <= x < 2 ^ 32 ->
  unxorshift n turns (Z.lxor x (Z.shiftr x n)) = x.
Proof.
  intros Hn Hk Hx. apply Z.lxor_eq. rewrite unxorshift_error by done.
  rewrite Z.shiftr_div_pow2 by lia. apply Z.div_small.
  pose proof (Z.pow_le_mono_r 2 32 (n * Z.of_nat (S turns)) ltac:(lia) Hk). lia.
Qed.

(** An odd multiplier is undone by its inverse. *)
Lemma unmultiply a b x : uint 32 (a * b) = 1 -> uint 32 (b * uint 32 (a * x)) = uint 32 x.
Proof.
  unfold uint. intros Hab. rewrite Z.mul_mod_idemp_r by lia.
  replace (b * (a * x)) with ((a * b) * x) by lia.
  rewrite <- Z.mul_mod_idemp_l, Hab by lia. f_equal. lia.
Qed.

Lemma add_shiftl x k : 0 <= k -> x + Z.shiftl x k = (2 ^ k + 1) * x.
Proof. intros. rewrite Z.shiftl_mul_pow2 by done. lia. Qed.

Lemma unround_round hash c : 0 <= hash < 2 ^ 32 -> unround (hash_round hash c) c = hash.
Proof.
  intros Hh. unfold unround, hash_round. cbv zeta.
  rewrite unxorshift_id by (first [lia|apply uint_range; lia]).
  rewrite add_shiftl by lia. unfold uint at 1. rewrite <- Zminus_mod_idemp_l. fold (uint 32).
  change ((3222273025 * uint 32 ((2 ^ 10 + 1) * uint 32 (hash + c))) mod 2 ^ 32)
    with (uint 32 (3222273025 * uint 32 ((2 ^ 10 + 1) * uint 32 (hash + c)))).
  rewrite unmultiply by reflexivity. rewrite (uint_id 32 (uint _ _)) by (apply uint_range; lia).
  unfold uint. rewrite Zminus_mod_idemp_l. replace (hash + c - c) with hash by lia.
  by apply Z.mod_small.
Qed.

Lemma unfinish_finish hash : 0 <= hash < 2 ^ 32 -> unfinish (hash_finish hash) = hash.
Proof.
  intros Hh. unfold unfinish, hash_finish. cbv zeta.
  rewrite !add_shiftl by lia. rewrite unmultiply by reflexivity.
  set (x := uint 32 ((2 ^ 3 + 1) * hash)).
  pose proof (uint_range 32 ((2 ^ 3 + 1) * hash) ltac:(lia)) as Hx. fold x in Hx.
  rewrite (uint_id 32 (Z.lxor _ _)).
  - rewrite unxorshift_id by (first [lia|done]). unfold x.
    rewrite unmultiply by reflexivity. by apply uint_id.
  - apply lxor_range; [done|]. rewrite Z.shiftr_div_pow2 by lia.
    split; [apply Z.div_pos; lia|]. apply Z.div_lt_upper_bound; lia.
Qed.

Lemma unwind_loop_loop h s hash : 0 <= hash < 2 ^ 32 ->
  unwind_loop h s (hash_str_loop h s hash) = hash.
Proof.
  revert hash; induction s as [|c s IH]; intros hash Hh; simpl; [done|].
  rewrite IH by apply hash_round_range. by apply unround_round.
Qed.

Lemma hash_str_loop_app h s1 s2 hash :
  hash_str_loop h (s1 ++ s2) hash = hash_str_loop h s2 (hash_str_loop h s1 hash).
Proof. revert hash; induction s1; intros; simpl; auto. Qed.

Lemma hash_round_inj hash c1 c2 : 0 <= hash < 2 ^ 32 ->
  hash_round hash c1 = hash_round hash c2 -> uint 32 c1 = uint 32 c2.
Proof.
  intros Hh E. pose proof (unround_round hash c1 Hh) as E1.
  pose proof (unround_round hash c2 Hh) as E2. rewrite E in E1.
  unfold unround in E1, E2. set (x := 3222273025 * _) in *.
  unfold uint in *. 
  replace c1 with (x - (x - c1)) by lia. replace c2 with (x - (x - c2)) by lia.
  rewrite <- (Zminus_mod_idemp_r x (x - c1)), <- (Zminus_mod_idemp_r x (x - c2)). congruence.
Qed.

Lemma char_value_inj h c1 c2 : uint 32 (char_value h c1) = uint 32 (char_value h c2) -> c1 = c2.
Proof.
  intros E. rewrite <- (Ascii.ascii_nat_embedding c1), <- (Ascii.ascii_nat_embedding c2). f_equal.
  pose proof (Ascii.nat_ascii_bounded c1). pose proof (Ascii.nat_ascii_bounded c2).
  unfold char_value in E. set (a := Ascii.nat_of_ascii c1) in *. set (b := Ascii.nat_of_ascii c2) in *.
  assert (forall n, (n < 256)%nat -> sint 8 (Z.of_nat n) = Z.of_nat n - 256 * Z.b2z (128 <=? Z.of_nat n)) as Hs.
  { intros n Hn. destruct (Z.leb_spec 128 (Z.of_nat n)); simpl Z.b2z.
    - rewrite sint_neg by (simpl; lia). lia.
    - rewrite sint_id by (simpl; lia). lia. }
  rewrite !Hs in E by done. unfold uint in E.
  destruct (CHAR_SIGNED h), (128 <=? Z.of_nat a) eqn:Ea, (128 <=? Z.of_nat b) eqn:Eb; simpl Z.b2z in E;
    rewrite ?Z.leb_le, ?Z.leb_gt in Ea, Eb;
    Z.div_mod_to_equations; lia.
Qed.

(** C36: the hash loses nothing of what it mixes. An explicit inverse of every turn of
    the loop and of the last mixing, run over the string from its end, takes its hash
    back to the value the loop starts from; and two strings that differ in one
    character never have the same hash, whatever the sign of a plain [char]. *)
Theorem hash_unwinds h :
  (forall s, unwind h s (DSCHED_HASH_STR h s) = 0) /\
  (forall s1 c c' s2, DSCHED_HASH_STR h (s1 ++ String c s2) = DSCHED_HASH_STR h (s1 ++ String c' s2) ->
     c = c').
Proof.
  assert (forall s, unfinish (DSCHED_HASH_STR h s) = hash_str_loop h s 0) as Hf.
  { intros s. apply unfinish_finish, hash_str_loop_range. lia. }
  split; [intros s; unfold unwind; rewrite Hf; apply unwind_loop_loop; lia|].
  intros s1 c c' s2 E. apply (f_equal unfinish) in E. rewrite !Hf, !hash_str_loop_app in E.
  simpl in E. apply (f_equal (unwind_loop h s2)) in E.
  rewrite !unwind_loop_loop in E by apply hash_round_range.
  eapply char_value_inj, hash_round_inj, E. apply hash_str_loop_range. lia.
Qed.
