(* ===== verification/Cli.v ===== *)
(** The command line of the scheduler: the names of its options,
    util/dsched_cmd_line.h, the table of tools/dsched/dsched.c that says which of them
    take an argument, and what the parser of the library makes of a command line. *)

From Stdlib Require Import Ascii.
From S2P Require Import Prelude.

(** ** Names *)

Definition DSCHED_CLI_HELP : string := "help".
Definition DSCHED_CLI_VERSION : string := "version".
Definition DSCHED_CLI_VERBOSE : string := "verbose".
Definition DSCHED_CLI_DMCA : string := "dmca".
Definition DSCHED_CLI_PMIXMCA : string := "pmixmca".
Definition DSCHED_CLI_MCA : string := "mca".
Definition DSCHED_CLI_NO_READY_MSG : string := "no-ready-msg".
Definition DSCHED_CLI_DAEMONIZE : string := "daemonize".
Definition DSCHED_CLI_SET_SID : string := "set-sid".
Definition DSCHED_CLI_REPORT_PID : string := "report-pid".
Definition DSCHED_CLI_REPORT_URI : string := "report-uri".
Definition DSCHED_CLI_KEEPALIVE : string := "keepalive".
Definition DSCHED_CLI_DEBUG : string := "debug".
Definition DSCHED_CLI_TMPDIR : string := "tmpdir".
Definition DSCHED_CLI_RUN_AS_ROOT : string := "allow-run-as-root".
Definition DSCHED_CLI_CONTROLLER_URI : string := "controller".

(** ** The table *)

(** The third field of getopt's [struct option], as the library names its values. *)
Inductive arg_kind := PMIX_ARG_NONE | PMIX_ARG_REQD | PMIX_ARG_OPTIONAL.

#[export] Instance arg_kind_eq_dec : EqDecision arg_kind.
Proof. solve_decision. Defined.

Record cli_option := CliOption { opt_name : string; has_arg : arg_kind; short : option ascii }.

(** PMIX_OPTION_DEFINE and PMIX_OPTION_SHORT_DEFINE. *)
Definition option_define (name : string) (arg : arg_kind) : cli_option := CliOption name arg None.
Definition option_short_define (name : string) (arg : arg_kind) (c : ascii) : cli_option :=
  CliOption name arg (Some c).

Definition dschedoptions : list cli_option := [
  option_short_define DSCHED_CLI_HELP PMIX_ARG_OPTIONAL "h";
  option_short_define DSCHED_CLI_VERSION PMIX_ARG_NONE "V";
  option_short_define DSCHED_CLI_VERBOSE PMIX_ARG_NONE "v";
  option_define DSCHED_CLI_DMCA PMIX_ARG_REQD;
  option_define DSCHED_CLI_MCA PMIX_ARG_REQD;
  option_define DSCHED_CLI_PMIXMCA PMIX_ARG_REQD;
  option_define DSCHED_CLI_RUN_AS_ROOT PMIX_ARG_NONE;
  option_define DSCHED_CLI_DAEMONIZE PMIX_ARG_NONE;
  option_define DSCHED_CLI_NO_READY_MSG PMIX_ARG_NONE;
  option_define DSCHED_CLI_SET_SID PMIX_ARG_NONE;
  option_define DSCHED_CLI_TMPDIR PMIX_ARG_REQD;
  option_define DSCHED_CLI_REPORT_PID PMIX_ARG_REQD;
  option_define DSCHED_CLI_REPORT_URI PMIX_ARG_REQD;
  option_define DSCHED_CLI_KEEPALIVE PMIX_ARG_REQD;
  option_define DSCHED_CLI_CONTROLLER_URI PMIX_ARG_REQD;
  option_define DSCHED_CLI_DEBUG PMIX_ARG_NONE
].

Definition dschedshorts : string := "h::vV".

(** ** Parsed command lines *)

(** pmix_cli_result_t: the options that were given, each with its values, an array
    that is null for an option without one, and the arguments left over. *)
Record results := Results {
  instances : list (string * option (list string));
  tail : option (list string)
}.

(** pmix_cmd_line_get_param and pmix_cmd_line_is_taken. *)
Fixpoint get_param (opts : list (string * option (list string))) (name : string)
    : option (option (list string)) :=
  match opts with
  | [] => None
  | (o, values) :: opts => if String.eqb o name then Some values else get_param opts name
  end.
Definition is_taken (r : results) (name : string) : bool :=
  if get_param (instances r) name then true else false.

(** [opt->values[0]]. *)
Definition value0 (values : option (list string)) : outcome cstr :=
  match values with Some l => Done (head l) | None => Fault NullDeref end.

(** What the parser documents of the command lines it accepts: an option that was given
    is one of the table, and has a value where the table requires one. *)
Definition obeys (table : list cli_option) (r : results) : Prop :=
  forall name values, (name, values) ∈ instances r ->
  exists o, o ∈ table /\ opt_name o = name /\
    (has_arg o = PMIX_ARG_REQD -> exists v rest, values = Some (v :: rest)).

(** ** Lemmas *)

(** The letters of a short option string, each with what its colons mean. *)
Fixpoint short_options (s : string) : list (ascii * arg_kind) :=
  match s with
  | EmptyString => []
  | String c (String ":" (String ":" s)) => (c, PMIX_ARG_OPTIONAL) :: short_options s
  | String c (String ":" s) => (c, PMIX_ARG_REQD) :: short_options s
  | String c s => (c, PMIX_ARG_NONE) :: short_options s
  end.

Definition table_shorts (table : list cli_option) : list (ascii * arg_kind) :=
  omap (fun o => (fun c => (c, has_arg o)) <$> short o) table.

(** The two descriptions of the options agree: no name stands twice in the table, and
    the string of short options has the letters of the table, each with the same kind
    of argument. *)
Theorem options_consistent :
  NoDup (opt_name <$> dschedoptions) /\ short_options dschedshorts ≡ₚ table_shorts dschedoptions.
Proof.
  split; [apply (bool_decide_unpack _); by vm_compute|].
  change (short_options dschedshorts) with
    [("h"%char, PMIX_ARG_OPTIONAL); ("v"%char, PMIX_ARG_NONE); ("V"%char, PMIX_ARG_NONE)].
  change (table_shorts dschedoptions) with
    [("h"%char, PMIX_ARG_OPTIONAL); ("V"%char, PMIX_ARG_NONE); ("v"%char, PMIX_ARG_NONE)].
  constructor. constructor.
Qed.

Lemma get_param_elem opts name values :
  get_param opts name = Some values -> (name, values) ∈ opts.
Proof.
  induction opts as [|[o vs] opts IH]; simpl; [done|].
  destruct (String.eqb_spec o name) as [->|_]; [intros [= ->]; left|intros ?%IH; by right].
Qed.

(** An option the table requires an argument of has one to read. *)
Lemma required_value name values r :
  obeys dschedoptions r -> In (option_define name PMIX_ARG_REQD) dschedoptions ->
  get_param (instances r) name = Some values -> exists v, value0 values = Done (Some v).
Proof.
  intros Hobeys Hin Hget. apply get_param_elem, Hobeys in Hget as (o & Ho & Hname & Hval).
  destruct Hval as (v & rest & ->); [|by exists v].
  apply list_elem_of_In in Hin. destruct options_consistent as [Hnd _].
  apply list_elem_of_lookup_1 in Ho as [i Hi], Hin as [j Hj].
  assert (i = j) as ->.
  { eapply NoDup_lookup; [exact Hnd|by rewrite list_lookup_fmap, Hi|].
    rewrite list_lookup_fmap, Hj. simpl. by rewrite Hname. }
  rewrite Hi in Hj. by injection Hj as ->.
Qed.
