(* ===== verification/Pmix.v ===== *)
(** The parts of the PMIx library the scheduler is written against: the data a
    [pmix_value_t] carries, the attribute keys, the reference-counted object
    stores, and two interfaces. [PMIx] is the library's functions and constants,
    which are not part of this repository: a class, so that every theorem holds
    for any library with the documented behaviour its laws state. [PArray] is the
    contract of pmix_pointer_array_t, with the implementation [slots] that meets
    it. *)

From S2P Require Import Prelude.

(** ** Values *)

(** The data types the scheduler switches on. They label the cases of one C
    switch, hence are distinct; every other type is [PMIX_TYPE_OTHER]. *)
Inductive dtype :=
| PMIX_UNDEF | PMIX_BOOL | PMIX_BYTE | PMIX_STRING | PMIX_SIZE | PMIX_PID
| PMIX_INT | PMIX_INT8 | PMIX_INT16 | PMIX_INT32 | PMIX_INT64
| PMIX_UINT | PMIX_UINT8 | PMIX_UINT16 | PMIX_UINT32 | PMIX_UINT64
| PMIX_FLOAT | PMIX_TIMEVAL | PMIX_POINTER | PMIX_PROC_RANK
| PMIX_PROC_NSPACE | PMIX_PROC | PMIX_BYTE_OBJECT | PMIX_ENVAR
| PMIX_DATA_ARRAY | PMIX_TYPE_OTHER (n : Z).

#[export] Instance dtype_eq_dec : EqDecision dtype.
Proof. solve_decision. Defined.

Record proc := Proc { nspace : string; rank : Z }.

#[export] Instance proc_eq_dec : EqDecision proc.
Proof. solve_decision. Defined.

(** What a [void *] argument points to. A scalar is tagged with the C type it is
    read at; a float is its bit pattern; a data array is an opaque handle. *)
Inductive cval :=
| CBool (b : bool)
| CNum (t : dtype) (z : Z)
| CString (s : string)
| CByteObject (bytes : option (list Z)) (size : Z)
| CTimeval (sec usec : Z)
| CProc (p : proc)
| CEnvar (envar value : cstr) (separator : Z)
| CDataArray (h : nat)
| CRaw (z : Z).

#[export] Instance cval_eq_dec : EqDecision cval.
Proof. solve_decision. Defined.

(** A string field owned by a value: null, allocated, or freed and not reset. *)
Inductive sptr := SNull | SStr (s : string) | SFreed.

#[export] Instance sptr_eq_dec : EqDecision sptr.
Proof. solve_decision. Defined.

(** The union of a [pmix_value_t]: all bytes zero, or the member last stored. *)
Inductive udata :=
| UZero
| UBool (b : bool)
| UNum (t : dtype) (z : Z)
| UString (p : sptr)
| UBo (bytes : option (list Z)) (size : Z)
| UTimeval (sec usec : Z)
| UPtr (p : option cval)
| UProc (p : option proc)
| UEnvar (envar value : sptr) (separator : Z)
| UDarray (h : option nat).

#[export] Instance udata_eq_dec : EqDecision udata.
Proof. solve_decision. Defined.

Record pmix_value := Value { vtype : dtype; vdata : udata }.
#[export] Instance eta_value : Eta pmix_value := fun v => Value (vtype v) (vdata v).

(** The types whose member is a scalar. *)
Definition is_num (t : dtype) : bool :=
  match t with
  | PMIX_BYTE | PMIX_SIZE | PMIX_PID | PMIX_INT | PMIX_INT8 | PMIX_INT16 | PMIX_INT32
  | PMIX_INT64 | PMIX_UINT | PMIX_UINT8 | PMIX_UINT16 | PMIX_UINT32 | PMIX_UINT64
  | PMIX_FLOAT | PMIX_PROC_RANK => true
  | _ => false
  end.

(** The member stored is the one [t] names. *)
Definition member_of (t : dtype) (u : udata) : bool :=
  match t, u with
  | _, UZero | PMIX_BOOL, UBool _ | PMIX_STRING, UString _ | PMIX_BYTE_OBJECT, UBo _ _
  | PMIX_TIMEVAL, UTimeval _ _ | PMIX_POINTER, UPtr _ | PMIX_PROC, UProc _
  | PMIX_PROC_NSPACE, UProc _ | PMIX_ENVAR, UEnvar _ _ _ | PMIX_DATA_ARRAY, UDarray _ => true
  | _, UNum t' _ => is_num t && bool_decide (t = t')
  | _, _ => false
  end.

(** [free] of a string, null or allocated. *)
Definition free_sptr (p : sptr) : outcome unit :=
  match p with SFreed => Fault UseAfterFree | _ => Done tt end.

(** Freeing what a value owns; only its strings can be found freed already. *)
Definition free_owned (u : udata) : outcome unit :=
  match u with
  | UString p => free_sptr p
  | UEnvar e v _ => free_sptr e ;; free_sptr v
  | _ => Done tt
  end.

(** Reading the string member of the union. *)
Definition data_string (v : pmix_value) : outcome cstr :=
  match vdata v with
  | UZero | UString SNull => Done None
  | UString (SStr s) => Done (Some s)
  | UString SFreed => Fault UseAfterFree
  | _ => Fault TypeConfusion
  end.

(** Reading the rank member of the union. *)
Definition data_rank (v : pmix_value) : outcome Z :=
  match vdata v with
  | UZero => Done 0
  | UNum PMIX_PROC_RANK z => Done z
  | _ => Fault TypeConfusion
  end.

(** ** Attribute keys compared with PMIX_CHECK_KEY *)

Inductive pmix_key :=
| PMIX_ALLOC_REQ_ID | PMIX_ALLOC_ID | PMIX_SESSION_ID | PMIX_ALLOC_NUM_NODES
| PMIX_ALLOC_NODE_LIST | PMIX_ALLOC_EXCLUDE | PMIX_ALLOC_NUM_CPUS
| PMIX_ALLOC_NUM_CPU_LIST | PMIX_ALLOC_CPU_LIST | PMIX_ALLOC_MEM_SIZE
| PMIX_ALLOC_TIME | PMIX_ALLOC_QUEUE | PMIX_ALLOC_PREEMPTIBLE | PMIX_ALLOC_LEND
| PMIX_ALLOC_IMAGE | PMIX_ALLOC_WAIT_ALL_NODES | PMIX_ALLOC_SHARE
| PMIX_ALLOC_NOSHELL | PMIX_ALLOC_DEPENDENCY | PMIX_ALLOC_BEGIN
| PMIX_ALLOC_NOT_WAITING
| PMIX_EVENT_SILENT_TERMINATION | PMIX_VERSION_INFO | PMIX_USERID | PMIX_GRPID
| PMIX_NSPACE | PMIX_RANK | PMIX_HOSTNAME | PMIX_CMD_LINE | PMIX_LAUNCHER
| PMIX_SERVER_SYS_CONTROLLER | PMIX_PROC_PID
| PMIX_NODEID | PMIX_HWLOC_XML_V1 | PMIX_HWLOC_XML_V2 | PMIX_QUERY_ALLOCATION
| PMIX_HOSTNAME_ALIASES | PMIX_TOPOLOGY_INDEX | PMIX_NODE_INFO
| PMIX_SERVER_SCHEDULER | PMIX_TOOL_NSPACE | PMIX_TOOL_RANK
| PMIX_HOSTNAME_KEEP_FQDN | PMIX_EXTERNAL_AUX_EVENT_BASE | PMIX_SERVER_TMPDIR
| PMIX_TCP_REPORT_URI | PMIX_BIND_PROGRESS_THREAD | PMIX_BIND_REQUIRED
| PMIX_SERVER_REMOTE_CONNECTIONS | PMIX_CONNECT_TO_SYS_CONTROLLER
| PMIX_TOOL_CONNECT_OPTIONAL
| PMIX_KEY_OTHER (s : string).

#[export] Instance pmix_key_eq_dec : EqDecision pmix_key.
Proof. solve_decision. Defined.

Record pmix_info := Info { ikey : pmix_key; ivalue : pmix_value }.

(** ** The library

    Status codes, and the functions the scheduler calls and this repository does
    not define. *)

Class PMIx := {
  PMIX_SUCCESS : Z;
  PMIX_ERROR : Z;
  PMIX_OPERATION_IN_PROGRESS : Z;
  PMIX_ERR_NOT_SUPPORTED : Z;
  PMIX_ERR_NOT_AVAILABLE : Z;
  PMIX_ERR_TYPE_MISMATCH : Z;
  PMIX_ERR_BAD_PARAM : Z;
  PMIX_ERR_OUT_OF_RESOURCE : Z;
  PMIX_ERR_NOT_FOUND : Z;
  PMIX_QUERY_PARTIAL_SUCCESS : Z;
  PMIX_EVENT_ACTION_COMPLETE : Z;
  PMIX_RANK_INVALID : Z;

  (** Whether the allocations whose result the code tests succeed, and what
      PMIX_PROC_CREATE(p, 1) leaves in the structure it allocates. *)
  mem_ok : bool;
  blank_proc : proc;
  (** PMIX_LOAD_NSPACE: what the fixed-size field holds after the copy. *)
  load_nspace : string -> string;
  (** PMIX_XFER_PROCID. *)
  xfer_procid : proc -> proc;
  (** PMIx_Load_procid(p, nspace, rank), nspace possibly null. *)
  load_procid : cstr -> Z -> proc;
  (** PMIx_Check_procid and PMIx_Nspace_invalid. *)
  check_procid : proc -> proc -> bool;
  nspace_invalid : string -> bool;
  (** PMIx_Value_get_number(v, &n, type): a status, and the number stored when
      the status is success. *)
  get_number : pmix_value -> dtype -> Z * Z;
  (** PMIx_Value_true / PMIX_INFO_TRUE. *)
  value_true : pmix_value -> bool;
  (** PMIx_Data_copy(&dst, src, PMIX_DATA_ARRAY). *)
  data_copy : option nat -> Z * option nat;
  (** PMIX_VALUE_DESTRUCT. *)
  value_destruct : pmix_value -> outcome unit;
  (** PMIx_Argv_join. *)
  argv_join : list string -> string -> string;
  (** PMIx_Argv_split: null when there is no token. *)
  argv_split : string -> Ascii.ascii -> option (list string);
  (** Whether pmix_list_get_first is null on an empty list, or its sentinel. *)
  list_first_null : bool;

  (** Laws: success is zero and no other status is. *)
  pmix_success_zero : PMIX_SUCCESS = 0;
  pmix_status_nodup : NoDup [PMIX_SUCCESS; PMIX_ERROR; PMIX_OPERATION_IN_PROGRESS;
    PMIX_ERR_NOT_SUPPORTED; PMIX_ERR_NOT_AVAILABLE; PMIX_ERR_TYPE_MISMATCH;
    PMIX_ERR_BAD_PARAM; PMIX_ERR_OUT_OF_RESOURCE; PMIX_ERR_NOT_FOUND;
    PMIX_QUERY_PARTIAL_SUCCESS];
  (** The destruction of a value frees what it owns. *)
  value_destruct_frees t u : member_of t u = true -> value_destruct (Value t u) = free_owned u
}.

(** A status test of the code, [PMIX_SUCCESS == rc]. *)
Definition ok `{PMIx} (rc : Z) : bool := bool_decide (rc = PMIX_SUCCESS).

Section Status.
Context `{PMIx}.

Lemma ok_true rc : ok rc = true <-> rc = PMIX_SUCCESS.
Proof. unfold ok. by rewrite bool_decide_eq_true. Qed.

Lemma ok_false rc : ok rc = false <-> rc <> PMIX_SUCCESS.
Proof. unfold ok. by rewrite bool_decide_eq_false. Qed.

Lemma ok_success : ok PMIX_SUCCESS = true.
Proof. by apply ok_true. Qed.

Lemma ok_in_progress : ok PMIX_OPERATION_IN_PROGRESS = false.
Proof.
  apply ok_false. intros E. pose proof pmix_status_nodup as Hn. rewrite E in Hn.
  apply NoDup_cons in Hn as [Hn _]. apply Hn. set_solver.
Qed.

(** A module that answers PMIX_OPERATION_IN_PROGRESS has not failed. *)
Lemma in_progress_passes :
  negb (ok PMIX_OPERATION_IN_PROGRESS) &&
  negb (bool_decide (PMIX_OPERATION_IN_PROGRESS = PMIX_OPERATION_IN_PROGRESS)) = false.
Proof. by rewrite (bool_decide_true (_ = _)), andb_false_r. Qed.

(** Tell two named status codes apart. *)
Lemma status_ne i j a b :
  [PMIX_SUCCESS; PMIX_ERROR; PMIX_OPERATION_IN_PROGRESS;
    PMIX_ERR_NOT_SUPPORTED; PMIX_ERR_NOT_AVAILABLE; PMIX_ERR_TYPE_MISMATCH;
    PMIX_ERR_BAD_PARAM; PMIX_ERR_OUT_OF_RESOURCE; PMIX_ERR_NOT_FOUND;
    PMIX_QUERY_PARTIAL_SUCCESS] !! i = Some a ->
  [PMIX_SUCCESS; PMIX_ERROR; PMIX_OPERATION_IN_PROGRESS;
    PMIX_ERR_NOT_SUPPORTED; PMIX_ERR_NOT_AVAILABLE; PMIX_ERR_TYPE_MISMATCH;
    PMIX_ERR_BAD_PARAM; PMIX_ERR_OUT_OF_RESOURCE; PMIX_ERR_NOT_FOUND;
    PMIX_QUERY_PARTIAL_SUCCESS] !! j = Some b ->
  i <> j -> a <> b.
Proof.
  intros Ha Hb Hij ->. apply Hij. eapply NoDup_lookup; [apply pmix_status_nodup|done..].
Qed.
End Status.

(** ** Pointer arrays (pmix_pointer_array_t)

    [get] is null outside the array; [add] stores in a free slot and returns its
    index, or fails with a negative code and leaves the array alone. *)

Class PArray (P : Type -> Type) := {
  pa_size : forall {A}, P A -> Z;
  pa_get : forall {A}, P A -> Z -> option A;
  pa_set : forall {A}, P A -> Z -> option A -> P A;
  pa_add : forall {A}, P A -> A -> Z * P A;
  pa_empty : forall {A}, P A;

  pa_size_nonneg : forall A (a : P A), 0 <= pa_size a;
  pa_get_empty : forall A i, pa_get (pa_empty : P A) i = None;
  pa_get_out : forall A (a : P A) i, ~ 0 <= i < pa_size a -> pa_get a i = None;
  pa_get_set : forall A (a : P A) i x, 0 <= i < pa_size a -> pa_get (pa_set a i x) i = x;
  pa_get_set_ne : forall A (a : P A) i j x,
    0 <= i < pa_size a -> i <> j -> pa_get (pa_set a i x) j = pa_get a j;
  pa_set_neg : forall A (a : P A) i x, i < 0 -> pa_set a i x = a;
  pa_add_free : forall A (a : P A) x i a', pa_add a x = (i, a') -> 0 <= i ->
    pa_get a i = None /\ pa_get a' i = Some x;
  pa_add_ne : forall A (a : P A) x i a' j, pa_add a x = (i, a') -> 0 <= i -> i <> j ->
    pa_get a' j = pa_get a j;
  pa_add_fail : forall A (a : P A) x i a', pa_add a x = (i, a') -> i < 0 -> a' = a
}.

(** The items of an array in index order, as every loop
    [for (n=0; n < array.size; n++)] that skips null slots visits them. *)
Definition pa_items `{PArray P} {A} (a : P A) : list A :=
  omap (pa_get a) (seqZ 0 (pa_size a)).

Lemma pa_items_empty `{PArray P} {A} : pa_items (pa_empty : P A) = [].
Proof.
  unfold pa_items. induction (seqZ 0 _) as [|i l IH]; [done|]. simpl. by rewrite pa_get_empty.
Qed.

Lemma pa_get_Some_range `{PArray P} {A} (a : P A) i x :
  pa_get a i = Some x -> 0 <= i < pa_size a.
Proof.
  intros Hg. destruct (decide (0 <= i < pa_size a)) as [|Hn]; [done|].
  by rewrite pa_get_out in Hg.
Qed.

Lemma elem_of_pa_items `{PArray P} {A} (a : P A) x :
  x ∈ pa_items a <-> exists i, pa_get a i = Some x.
Proof.
  unfold pa_items. rewrite list_elem_of_omap. split.
  - intros (i & _ & Hi). eauto.
  - intros [i Hi]. exists i. split; [|done].
    apply elem_of_seqZ. apply pa_get_Some_range in Hi. lia.
Qed.

Lemma omap_none {A B} (f : A -> option B) (l : list A) : (forall x, x ∈ l -> f x = None) -> omap f l = [].
Proof.
  induction l as [|x l IH]; intros Hf; [done|]. csimpl. rewrite Hf by set_solver.
  apply IH. set_solver.
Qed.

Lemma omap_same {A B} (f g : A -> option B) (l : list A) :
  (forall x, x ∈ l -> f x = g x) -> omap f l = omap g l.
Proof.
  induction l as [|x l IH]; intros Hf; [done|]. csimpl. rewrite Hf by set_solver.
  rewrite IH by set_solver. done.
Qed.

(** The items counted up to any bound past the end of the array. *)
Lemma pa_items_upto `{PArray P} {A} (a : P A) m :
  pa_size a <= m -> pa_items a = omap (pa_get a) (seqZ 0 m).
Proof.
  intros Hm. pose proof (pa_size_nonneg _ a). unfold pa_items.
  replace m with (pa_size a + (m - pa_size a)) by lia. rewrite seqZ_app by lia.
  rewrite omap_app, (omap_none _ (seqZ _ (m - _))); [by rewrite app_nil_r|].
  intros i Hi%elem_of_seqZ. apply pa_get_out. lia.
Qed.

Lemma pa_items_add `{PArray P} {A} (a : P A) x i a' :
  pa_add a x = (i, a') -> 0 <= i -> pa_items a' ≡ₚ x :: pa_items a.
Proof.
  intros Ha Hi. destruct (pa_add_free _ _ _ _ _ Ha Hi) as [Hfree Hset].
  pose proof (pa_get_Some_range _ _ _ Hset).
  set (m := Z.max (pa_size a) (pa_size a')).
  rewrite (pa_items_upto a m), (pa_items_upto a' m) by lia.
  replace m with (i + (1 + (m - i - 1))) by lia. rewrite !seqZ_app, !omap_app by lia.
  rewrite (seqZ_cons (0 + i) 1), (seqZ_nil _ (Z.pred 1)) by lia. simpl.
  rewrite Z.add_0_l, Hfree, Hset. simpl.
  rewrite (omap_same (pa_get a') (pa_get a) (seqZ 0 i)),
    (omap_same (pa_get a') (pa_get a) (seqZ (i + 1) _)).
  - by rewrite Permutation_middle.
  - intros j Hj%elem_of_seqZ. apply (pa_add_ne _ _ _ _ _ _ Ha Hi). lia.
  - intros j Hj%elem_of_seqZ. apply (pa_add_ne _ _ _ _ _ _ Ha Hi). lia.
Qed.

(** An implementation: a list of slots that grows at its end. *)
Fixpoint first_free {A} (a : list (option A)) : nat :=
  match a with
  | [] => 0%nat
  | None :: _ => 0%nat
  | Some _ :: a => S (first_free a)
  end.

Lemma first_free_None {A} (a : list (option A)) : mjoin (a !! first_free a) = None.
Proof. induction a as [|[x|] a IH]; [done| |done]. exact IH. Qed.

Lemma first_free_le {A} (a : list (option A)) : (first_free a <= length a)%nat.
Proof. induction a as [|[x|] a IH]; simpl; lia. Qed.

Definition slots_get {A} (a : list (option A)) (i : Z) : option A :=
  if 0 <=? i then mjoin (a !! Z.to_nat i) else None.

Definition slots_add {A} (a : list (option A)) (x : A) : Z * list (option A) :=
  let i := first_free a in
  (Z.of_nat i, if (i <? length a)%nat then <[i := Some x]> a else a ++ [Some x]).

Lemma slots_add_get {A} (a : list (option A)) x (j : nat) :
  mjoin ((slots_add a x).2 !! j) =
  if decide (j = first_free a) then Some x else mjoin (a !! j).
Proof.
  unfold slots_add; simpl. pose proof (first_free_le a) as Hle.
  destruct (Nat.ltb_spec (first_free a) (length a)) as [Hlt|Hge].
  - rewrite list_lookup_insert. repeat case_decide; naive_solver lia.
  - assert (first_free a = length a) as -> by lia. rewrite lookup_app.
    case_decide as Hj.
    + subst. by rewrite lookup_ge_None_2, Nat.sub_diag by lia.
    + destruct (a !! j) as [o|] eqn:E; [done|].
      apply lookup_ge_None in E. by rewrite lookup_ge_None_2 by (simpl; lia).
Qed.

Definition slots (A : Type) : Type := list (option A).

#[export] Instance slots_parray : PArray slots.
Proof.
  refine {|
    pa_size := fun A a => Z.of_nat (length a);
    pa_get := fun A a i => slots_get a i;
    pa_set := fun A a i x =>
      if 0 <=? i
      then if i <? Z.of_nat (length a) then <[Z.to_nat i := x]> a
           else a ++ replicate (Z.to_nat i - length a) None ++ [x]
      else a;
    pa_add := fun A a x => slots_add a x;
    pa_empty := fun A => []
  |}; unfold slots_get.
  - lia.
  - intros A i. by destruct (0 <=? i).
  - intros A a i Hi. destruct (Z.leb_spec 0 i); [|done].
    by rewrite lookup_ge_None_2 by lia.
  - intros A a i x Hi. destruct (Z.leb_spec 0 i); [|lia].
    destruct (Z.ltb_spec i (Z.of_nat (length a))); [|lia].
    by rewrite list_lookup_insert_eq by lia.
  - intros A a i j x Hi Hne. destruct (Z.leb_spec 0 i); [|lia].
    destruct (Z.ltb_spec i (Z.of_nat (length a))); [|lia].
    destruct (Z.leb_spec 0 j); [|done]. by rewrite list_lookup_insert_ne by lia.
  - intros A a i x Hi. by destruct (Z.leb_spec 0 i); [lia|].
  - intros A a x i a' Ha Hi. destruct (Z.leb_spec 0 i); [|lia].
    assert (i = (slots_add a x).1 /\ a' = (slots_add a x).2) as [-> ->] by (by rewrite Ha).
    rewrite slots_add_get. simpl. rewrite Nat2Z.id, decide_True by done.
    split; [apply first_free_None|done].
  - intros A a x i a' j Ha Hi Hne. destruct (Z.leb_spec 0 j); [|done].
    assert (i = (slots_add a x).1 /\ a' = (slots_add a x).2) as [-> ->] by (by rewrite Ha).
    simpl in Hne. rewrite slots_add_get, decide_False by lia. done.
  - intros A a x i a' Ha Hi.
    assert (i = (slots_add a x).1) as -> by (by rewrite Ha). simpl in Hi. lia.
Defined.

(** The pieces of a string between delimiters, the empty ones dropped. *)
Fixpoint pieces (delim : Ascii.ascii) (s : string) : list string :=
  match s with
  | EmptyString => [""%string]
  | String c s =>
      if Ascii.eqb c delim then ""%string :: pieces delim s
      else match pieces delim s with
           | [] => [String c EmptyString]
           | w :: ws => String c w :: ws
           end
  end.

Definition split_on (s : string) (delim : Ascii.ascii) : option (list string) :=
  match filter (fun w => w <> ""%string) (pieces delim s) with
  | [] => None
  | ws => Some ws
  end.

(** A library instance for the examples: concrete status codes, no truncation of
    names, exact numeric values. *)
Definition sample_pmix : PMIx.
Proof.
  refine {|
    PMIX_SUCCESS := 0; PMIX_ERROR := -1; PMIX_OPERATION_IN_PROGRESS := -156;
    PMIX_ERR_NOT_SUPPORTED := -47; PMIX_ERR_NOT_AVAILABLE := -48;
    PMIX_ERR_TYPE_MISMATCH := -22; PMIX_ERR_BAD_PARAM := -27;
    PMIX_ERR_OUT_OF_RESOURCE := -29; PMIX_ERR_NOT_FOUND := -46;
    PMIX_QUERY_PARTIAL_SUCCESS := -104; PMIX_EVENT_ACTION_COMPLETE := -332;
    PMIX_RANK_INVALID := 2 ^ 32 - 3;
    mem_ok := true; blank_proc := Proc "" 0;
    load_nspace := fun s => s;
    xfer_procid := fun p => p;
    load_procid := fun s r => Proc (default ""%string s) r;
    check_procid := fun p q => bool_decide (p = q);
    nspace_invalid := fun s => String.eqb s "";
    get_number := fun v _ => match vdata v with UNum _ z => (0, z) | _ => (-27, 0) end;
    value_true := fun v => match vdata v with UBool b => b | _ => false end;
    data_copy := fun h => (0, h);
    value_destruct := fun v => free_owned (vdata v);
    argv_join := fun l d => String.concat d l;
    argv_split := split_on;
    list_first_null := false
  |}.
  - reflexivity.
  - apply (bool_decide_unpack _). vm_compute. exact I.
  - reflexivity.
Defined.
