(* ===== verification/Attr.v ===== *)
(** Typed attributes on lists, util/dsched_attr.c and util/dsched_attr.h: loading
    and unloading a [pmix_value_t], and the get, set, prepend, fetch and remove
    operations on a list of attributes. An attribute owns its storage; freeing it
    is visible only where the code keeps the freed pointer. *)

From S2P Require Import Prelude Pmix Constants.

Record attribute := Attr { key : Z; data : pmix_value }.
#[export] Instance eta_attribute : Eta attribute := fun a => Attr (key a) (data a).

Definition dsched_attr_cons : attribute := Attr 0 (Value PMIX_UNDEF UZero).

(** ** Flags *)

Definition DSCHED_NODE_NON_USABLE : Z := 1.

Definition DSCHED_FLAG_SET (flags f : Z) : Z := uint 16 (Z.lor flags f).
Definition DSCHED_FLAG_UNSET (flags f : Z) : Z := uint 16 (Z.land flags (Z.lnot f)).
Definition DSCHED_FLAG_TEST (flags f : Z) : bool := negb (Z.land flags f =? 0).

(** ** Reading union members *)

Definition u_string (u : udata) : outcome sptr :=
  match u with UZero => Done SNull | UString p => Done p | _ => Fault TypeConfusion end.
Definition u_bo (u : udata) : outcome (option (list Z) * Z) :=
  match u with UZero => Done (None, 0) | UBo b n => Done (b, n) | _ => Fault TypeConfusion end.
Definition u_proc (u : udata) : outcome (option proc) :=
  match u with UZero => Done None | UProc p => Done p | _ => Fault TypeConfusion end.
Definition u_envar (u : udata) : outcome (sptr * sptr * Z) :=
  match u with
  | UZero => Done (SNull, SNull, 0)
  | UEnvar e v c => Done (e, v, c)
  | _ => Fault TypeConfusion
  end.
Definition u_bool (u : udata) : outcome bool :=
  match u with UZero => Done false | UBool b => Done b | _ => Fault TypeConfusion end.
Definition u_num (t : dtype) (u : udata) : outcome Z :=
  match u with
  | UZero => Done 0
  | UNum t' z => if bool_decide (t = t') then Done z else Fault TypeConfusion
  | _ => Fault TypeConfusion
  end.
Definition u_timeval (u : udata) : outcome (Z * Z) :=
  match u with UZero => Done (0, 0) | UTimeval s n => Done (s, n) | _ => Fault TypeConfusion end.
Definition u_ptr (u : udata) : outcome (option cval) :=
  match u with UZero => Done None | UPtr p => Done p | _ => Fault TypeConfusion end.
Definition u_darray (u : udata) : outcome (option nat) :=
  match u with UZero => Done None | UDarray h => Done h | _ => Fault TypeConfusion end.

(** The field an ENVAR load leaves: the old string is freed, and replaced only
    when the new one is not null. *)
Definition reload_field (old : sptr) (new : cstr) : outcome sptr :=
  free_sptr old ;;
  match new, old with
  | Some s, _ => Done (SStr s)
  | None, SNull => Done SNull
  | None, _ => Done SFreed
  end.

(** [memcpy] of [size] bytes from an allocation. *)
Definition copy_bytes (bytes : option (list Z)) (size : Z) : outcome (option (list Z) * Z) :=
  match bytes with
  | Some l =>
    if 0 <? size
    then if size <=? Z.of_nat (length l)
         then Done (Some (take (Z.to_nat size) l), size) else Fault OutOfBounds
    else Done (None, 0)
  | None => Done (None, 0)
  end.

Section Load.
Context `{PMIx}.

Definition proc_create : option proc := if mem_ok then Some blank_proc else None.

Definition load_num (t : dtype) (data : cval) : outcome udata :=
  match data with
  | CNum t' z => if bool_decide (t = t') then Done (UNum t z) else Fault TypeConfusion
  | _ => Fault TypeConfusion
  end.

(** Storage released before a null load zeroes the union. *)
Definition free_storage (t : dtype) (u : udata) : outcome unit :=
  match t with
  | PMIX_STRING => p ← u_string u; free_sptr p
  | PMIX_BYTE_OBJECT => _ ← u_bo u; Done tt
  | PMIX_PROC_NSPACE | PMIX_PROC => _ ← u_proc u; Done tt
  | PMIX_ENVAR => '(e, v, _) ← u_envar u; free_sptr e ;; free_sptr v
  | _ => Done tt
  end.

(** The value stored in the union, with the status returned. *)
Definition load_data (t : dtype) (u : udata) (d : cval) : outcome (Z * udata) :=
  let scalar : outcome (Z * udata) := v ← load_num t d; Done (code_value DSCHED_SUCCESS, v) in
  match t with
  | PMIX_BOOL =>
    match d with
    | CBool b => Done (code_value DSCHED_SUCCESS, UBool b) | _ => Fault TypeConfusion end
  | PMIX_BYTE => scalar
  | PMIX_STRING =>
    p ← u_string u; free_sptr p ;;
    match d with
    | CString s => Done (code_value DSCHED_SUCCESS, UString (SStr s)) | _ => Fault TypeConfusion end
  | PMIX_SIZE | PMIX_PID => scalar
  | PMIX_INT | PMIX_INT8 | PMIX_INT16 | PMIX_INT32 | PMIX_INT64 => scalar
  | PMIX_UINT | PMIX_UINT8 | PMIX_UINT16 | PMIX_UINT32 | PMIX_UINT64 => scalar
  | PMIX_BYTE_OBJECT =>
    _ ← u_bo u;
    match d with
    | CByteObject bytes size =>
      '(b, n) ← copy_bytes bytes size; Done (code_value DSCHED_SUCCESS, UBo b n)
    | _ => Fault TypeConfusion
    end
  | PMIX_FLOAT => scalar
  | PMIX_TIMEVAL =>
    match d with
    | CTimeval s n => Done (code_value DSCHED_SUCCESS, UTimeval s n) | _ => Fault TypeConfusion end
  | PMIX_POINTER => Done (code_value DSCHED_SUCCESS, UPtr (Some d))
  | PMIX_PROC_RANK => scalar
  | PMIX_PROC_NSPACE =>
    old ← u_proc u;
    match (match old with Some p => Some p | None => proc_create end), d with
    | None, _ => Done (code_value DSCHED_ERR_OUT_OF_RESOURCE, UProc None)
    | Some p, CString s => Done (code_value DSCHED_SUCCESS, UProc (Some (Proc (load_nspace s) (rank p))))
    | Some p, _ => Fault TypeConfusion
    end
  | PMIX_PROC =>
    old ← u_proc u;
    match (match old with Some p => Some p | None => proc_create end), d with
    | None, _ => Done (code_value DSCHED_ERR_OUT_OF_RESOURCE, UProc None)
    | Some _, CProc q => Done (code_value DSCHED_SUCCESS, UProc (Some (xfer_procid q)))
    | Some _, _ => Fault TypeConfusion
    end
  | PMIX_ENVAR =>
    '(e, v, _) ← u_envar u;
    match d with
    | CEnvar envar value separator =>
      e' ← reload_field e envar; v' ← reload_field v value;
      Done (code_value DSCHED_SUCCESS, UEnvar e' v' separator)
    | _ => Fault TypeConfusion
    end
  | PMIX_DATA_ARRAY =>
    match d with
    | CDataArray h => let '(rc, h') := data_copy (Some h) in Done (rc, UDarray h')
    | _ => Fault TypeConfusion
    end
  | PMIX_UNDEF | PMIX_TYPE_OTHER _ => Done (code_value DSCHED_ERR_NOT_SUPPORTED, u)
  end.

Definition dsched_attr_load (kv : attribute) (d : option cval) (t : dtype)
  : outcome (Z * attribute) :=
  match d with
  | None =>
    if bool_decide (t = PMIX_BOOL)
    then Done (code_value DSCHED_SUCCESS, Attr (key kv) (Value t (UBool true)))
    else free_storage t (vdata (data kv)) ;;
         Done (code_value DSCHED_SUCCESS, Attr (key kv) (Value t UZero))
  | Some d =>
    '(rc, u) ← load_data t (vdata (data kv)) d;
    Done (rc, Attr (key kv) (Value t u))
  end.

(** The types [dsched_attr_unload] allocates the result for. *)
Definition pointer_types : list dtype :=
  [PMIX_STRING; PMIX_BYTE_OBJECT; PMIX_POINTER; PMIX_PROC_NSPACE; PMIX_PROC;
   PMIX_ENVAR; PMIX_DATA_ARRAY].

(** [strdup] of an owned field. *)
Definition dup_field (p : sptr) : outcome cstr :=
  match p with SNull => Done None | SStr s => Done (Some s) | SFreed => Fault UseAfterFree end.

(** The status, and what [*data] points to afterwards. *)
Definition unload_data (t : dtype) (u : udata) (out : option cval) : outcome (Z * option cval) :=
  let num : outcome (Z * option cval) := z ← u_num t u; Done (PMIX_SUCCESS, Some (CNum t z)) in
  match t with
  | PMIX_BOOL => b ← u_bool u; Done (PMIX_SUCCESS, Some (CBool b))
  | PMIX_BYTE => num
  | PMIX_STRING => p ← u_string u; s ← dup_field p; Done (PMIX_SUCCESS, option_map CString s)
  | PMIX_SIZE | PMIX_PID => num
  | PMIX_INT | PMIX_INT8 | PMIX_INT16 | PMIX_INT32 | PMIX_INT64 => num
  | PMIX_UINT | PMIX_UINT8 | PMIX_UINT16 | PMIX_UINT32 | PMIX_UINT64 => num
  | PMIX_BYTE_OBJECT =>
    if mem_ok
    then '(b, n) ← u_bo u; '(b', n') ← copy_bytes b n;
         Done (PMIX_SUCCESS, Some (CByteObject b' n'))
    else Done (PMIX_ERR_OUT_OF_RESOURCE, out)
  | PMIX_FLOAT => num
  | PMIX_TIMEVAL => '(s, n) ← u_timeval u; Done (PMIX_SUCCESS, Some (CTimeval s n))
  | PMIX_POINTER => p ← u_ptr u; Done (PMIX_SUCCESS, p)
  | PMIX_PROC_RANK => num
  | PMIX_PROC_NSPACE =>
    match proc_create with
    | None => Done (PMIX_ERR_OUT_OF_RESOURCE, None)
    | Some new =>
      old ← u_proc u;
      match old with
      | None => Fault NullDeref
      | Some p => Done (PMIX_SUCCESS, Some (CProc (Proc (nspace p) (rank new))))
      end
    end
  | PMIX_PROC =>
    match proc_create with
    | None => Done (PMIX_ERR_OUT_OF_RESOURCE, None)
    | Some _ =>
      old ← u_proc u;
      match old with
      | None => Fault NullDeref
      | Some p => Done (PMIX_SUCCESS, Some (CProc p))
      end
    end
  | PMIX_ENVAR =>
    if mem_ok
    then '(e, v, c) ← u_envar u; e' ← dup_field e; v' ← dup_field v;
         Done (PMIX_SUCCESS, Some (CEnvar e' v' c))
    else Done (PMIX_ERR_OUT_OF_RESOURCE, out)
  | PMIX_DATA_ARRAY =>
    h ← u_darray u;
    let '(rc, h') := data_copy h in
    if ok rc then Done (PMIX_SUCCESS, option_map CDataArray h') else Done (rc, None)
  | PMIX_UNDEF | PMIX_TYPE_OTHER _ => Done (PMIX_ERR_NOT_SUPPORTED, out)
  end.

(** [out] is the argument [void **data]: null, or the address of a pointer that
    is null or points to storage of the caller. *)
Definition dsched_attr_unload (kv : attribute) (out : option (option cval)) (t : dtype)
  : outcome (Z * option (option cval)) :=
  if negb (bool_decide (t = vtype (data kv))) then Done (PMIX_ERR_TYPE_MISMATCH, out)
  else match out with
  | None => Done (PMIX_ERR_BAD_PARAM, None)
  | Some dst =>
    if negb (bool_decide (t ∈ pointer_types)) && bool_decide (dst = None)
    then Done (PMIX_ERR_BAD_PARAM, Some dst)
    else '(rc, dst') ← unload_data t (vdata (data kv)) dst; Done (rc, Some dst')
  end.

(** What releasing an attribute runs. *)
Definition dsched_attr_des (kv : attribute) : outcome unit := value_destruct (data kv).

(** ** Lists of attributes *)

(** PMIX_LIST_FOREACH up to the first attribute with the key. *)
Fixpoint split_at_key (k : Z) (attrs : list attribute)
  : option (list attribute * attribute * list attribute) :=
  match attrs with
  | [] => None
  | kv :: rest =>
    if k =? key kv then Some ([], kv, rest)
    else match split_at_key k rest with
         | Some (pre, x, post) => Some (kv :: pre, x, post)
         | None => None
         end
  end.

Definition dsched_get_attribute (attrs : list attribute) (k : Z)
    (out : option (option cval)) (t : dtype) : outcome (bool * option (option cval)) :=
  match split_at_key k attrs with
  | None => Done (false, out)
  | Some (_, kv, _) =>
    if negb (bool_decide (vtype (data kv) = t)) then Done (false, out)
    else match out with
    | None => Done (true, None)
    | Some _ => '(_, out') ← dsched_attr_unload kv out t; Done (true, out')
    end
  end.

(** The boolean a PMIX_BOOL argument holds; a null argument means true. *)
Definition bool_arg (d : option cval) : outcome bool :=
  match d with None => Done true | Some (CBool b) => Done b | Some _ => Fault TypeConfusion end.

Definition dsched_set_attribute (attrs : list attribute) (k : Z) (d : option cval) (t : dtype)
  : outcome (Z * list attribute) :=
  match split_at_key k attrs with
  | Some (pre, kv, post) =>
    if negb (bool_decide (vtype (data kv) = t))
    then Done (code_value DSCHED_ERR_TYPE_MISMATCH, attrs)
    else
      clear ← (if bool_decide (t = PMIX_BOOL) then b ← bool_arg d; Done (negb b) else Done false);
      if (clear : bool) then dsched_attr_des kv ;; Done (code_value DSCHED_SUCCESS, pre ++ post)
      else '(rc, kv') ← dsched_attr_load kv d t; Done (rc, pre ++ kv' :: post)
  | None =>
    '(rc, kv) ← dsched_attr_load (dsched_attr_cons <| key := k |>) d t;
    if rc =? DSCHED_SUCCESS then Done (code_value DSCHED_SUCCESS, attrs ++ [kv])
    else dsched_attr_des kv ;; Done (rc, attrs)
  end.

Definition dsched_prepend_attribute (attrs : list attribute) (k : Z) (d : option cval) (t : dtype)
  : outcome (Z * list attribute) :=
  '(rc, kv) ← dsched_attr_load (dsched_attr_cons <| key := k |>) d t;
  if rc =? DSCHED_SUCCESS then Done (code_value DSCHED_SUCCESS, kv :: attrs)
  else dsched_attr_des kv ;; Done (rc, attrs).

Definition dsched_remove_attribute (attrs : list attribute) (k : Z) : outcome (list attribute) :=
  match split_at_key k attrs with
  | Some (pre, kv, post) => dsched_attr_des kv ;; Done (pre ++ post)
  | None => Done attrs
  end.

(** The first position at or after [i] whose key is [k]. *)
Fixpoint find_key (k : Z) (attrs : list attribute) (i : nat) : option nat :=
  match attrs with
  | [] => None
  | kv :: rest => if k =? key kv then Some i else find_key k rest (S i)
  end.

(** A position in the list stands for the item there. The items form a ring
    closed by the list's sentinel: the walk from [prev] stops only at a match or
    at a null link, and past the last item it reads the sentinel as an
    attribute. *)
Definition dsched_fetch_attribute (attrs : list attribute) (prev : option nat) (k : Z)
  : outcome (option nat) :=
  match prev with
  | None => Done (find_key k attrs 0)
  | Some p =>
    if (length attrs <=? S p)%nat then Done None
    else match find_key k (drop (S p) attrs) (S p) with
         | Some i => Done (Some i)
         | None => Fault SentinelDeref
         end
  end.

Definition dsched_attr_key_to_str (k : Z) : string := "UNKNOWN".

Definition dsched_attr_print_list (attrs : list attribute) : cstr :=
  match map (fun kv => dsched_attr_key_to_str (key kv)) attrs with
  | [] => None
  | cache => Some (argv_join cache (String (Ascii.ascii_of_nat 10) EmptyString))
  end.

(** The node is given by its name and flags. *)
Definition dsched_print_node_flags (name : cstr) (flags : Z) : outcome string :=
  match name with
  | None => Fault NullDeref
  | Some nm =>
    Done (argv_join
      ([nm; ": "%string] ++
       if DSCHED_FLAG_TEST flags DSCHED_NODE_NON_USABLE then ["NONUSABLE"%string] else []) "|")
  end.
End Load.

(** ** What a correctly typed call means *)

(** The copy the library makes of a data array, when it can. *)
Definition copied `{PMIx} (h : nat) : option nat :=
  match data_copy (Some h) with
  | (rc, Some h') => if ok rc then Some h' else None
  | _ => None
  end.

(** The argument [d] is what [t] announces, with all its bytes allocated; of a data
    array, and of its copy, the library can make a copy. *)
Definition fits `{PMIx} (t : dtype) (d : cval) : bool :=
  match t, d with
  | PMIX_BOOL, CBool _ | PMIX_STRING, CString _ | PMIX_TIMEVAL, CTimeval _ _
  | PMIX_POINTER, _ | PMIX_PROC_NSPACE, CString _ | PMIX_PROC, CProc _
  | PMIX_ENVAR, CEnvar _ _ _ => true
  | PMIX_BYTE_OBJECT, CByteObject (Some l) n => n <=? Z.of_nat (length l)
  | PMIX_BYTE_OBJECT, CByteObject None _ => true
  | PMIX_DATA_ARRAY, CDataArray h => bool_decide (is_Some (copied h ≫= copied))
  | _, CNum t' _ => is_num t && bool_decide (t = t')
  | _, _ => false
  end.

Definition live (p : sptr) : bool := match p with SFreed => false | _ => true end.

(** The union belongs to [t] and holds no freed pointer. *)
Definition holds (t : dtype) (u : udata) : bool :=
  match t, u with
  | _, UZero => true
  | PMIX_BOOL, UBool _ | PMIX_TIMEVAL, UTimeval _ _ | PMIX_POINTER, UPtr _
  | PMIX_PROC_NSPACE, UProc (Some _) | PMIX_PROC, UProc (Some _) | PMIX_DATA_ARRAY, UDarray _ => true
  | PMIX_STRING, UString p => live p
  | PMIX_BYTE_OBJECT, UBo None _ => true
  | PMIX_BYTE_OBJECT, UBo (Some l) n => n <=? Z.of_nat (length l)
  | PMIX_ENVAR, UEnvar e v _ => live e && live v
  | _, UNum t' _ => is_num t && bool_decide (t = t')
  | _, _ => false
  end.

(** No string of [u] is freed and left behind by loading [d]. *)
Definition replaces (u : udata) (d : cval) : bool :=
  let keeps old new := match new, old with None, SStr _ => false | _, _ => true end in
  match u, d with
  | UEnvar e v _, CEnvar e' v' _ => keeps e e' && keeps v v'
  | _, _ => true
  end.

(** The bytes [copy_bytes] keeps. *)
Definition clip (bytes : option (list Z)) (n : Z) : cval :=
  match bytes with
  | Some l => if 0 <? n then CByteObject (Some (take (Z.to_nat n) l)) n else CByteObject None 0
  | None => CByteObject None 0
  end.

(** What an unload of [t] returns after a load of [d]. *)
Definition stored `{PMIx} (t : dtype) (d : cval) : cval :=
  match t, d with
  | PMIX_PROC_NSPACE, CString s => CProc (Proc (load_nspace s) (rank blank_proc))
  | PMIX_PROC, CProc p => CProc (xfer_procid p)
  | PMIX_BYTE_OBJECT, CByteObject b n => clip b n
  | PMIX_DATA_ARRAY, CDataArray h => CDataArray (default h (copied h ≫= copied))
  | _, _ => d
  end.

Section LoadFacts.
Context `{PMIx}.

Lemma copy_bytes_fits b n :
  match b with Some l => n <=? Z.of_nat (length l) | None => true end = true ->
  exists b' n', copy_bytes b n = Done (b', n') /\ clip b n = CByteObject b' n' /\
    holds PMIX_BYTE_OBJECT (UBo b' n') = true /\ copy_bytes b' n' = Done (b', n').
Proof.
  intros Hf. destruct b as [l|]; [|solve_ex]. apply Z.leb_le in Hf.
  unfold copy_bytes, clip. destruct (Z.ltb_spec 0 n) as [Hn|Hn]; [|solve_ex].
  rewrite (proj2 (Z.leb_le _ _)) by done. do 2 eexists. split; [done|]. split; [done|].
  assert (length (take (Z.to_nat n) l) = Z.to_nat n) as Hl by (rewrite length_take; lia).
  split; simpl.
  - rewrite Hl. apply Z.leb_le. lia.
  - rewrite (proj2 (Z.ltb_lt _ _)) by lia. rewrite Hl, (proj2 (Z.leb_le _ _)) by lia.
    by rewrite take_take, Nat.min_id.
Qed.

Lemma load_num_fits t z : load_num t (CNum t z) = Done (UNum t z).
Proof. unfold load_num. by rewrite bool_decide_true. Qed.

Lemma reload_field_live old new :
  live old = true -> match new, old with None, SStr _ => false | _, _ => true end = true ->
  exists p, reload_field old new = Done p /\ dup_field p = Done new /\ live p = true.
Proof. destruct old, new; try done; intros _ _; by eexists. Qed.

Lemma fits_num t d : is_num t = true -> fits t d = true -> exists z, d = CNum t z.
Proof.
  intros Hn Hf. destruct t, d as [|t' z| | | | | | |]; try discriminate Hn; try discriminate Hf;
    apply bool_decide_eq_true in Hf; subst; by exists z.
Qed.

Lemma load_num_data t z u :
  is_num t = true -> load_data t u (CNum t z) = Done (code_value DSCHED_SUCCESS, UNum t z) /\
  holds t (UNum t z) = true /\
  (forall out, unload_data t (UNum t z) out = Done (PMIX_SUCCESS, Some (CNum t z))) /\
  stored t (CNum t z) = CNum t z.
Proof.
  intros Hn. destruct t; try discriminate Hn; unfold load_data; rewrite load_num_fits; by split_and!.
Qed.

(** The data a load stores is readable at its type, whatever storage was there. *)
Lemma load_data_fits t u d :
  mem_ok = true -> fits t d = true -> holds t u = true -> replaces u d = true ->
  exists u', load_data t u d = Done (code_value DSCHED_SUCCESS, u') /\ holds t u' = true /\
    forall out, unload_data t u' out = Done (PMIX_SUCCESS, Some (stored t d)).
Proof.
  intros Hm Hf Hu Hr. destruct (is_num t) eqn:Hn.
  { destruct (fits_num t d Hn Hf) as [z ->]. exists (UNum t z).
    destruct (load_num_data t z u Hn) as (? & ? & ? & ->). by split_and!. }
  destruct t, d; try discriminate Hn; try discriminate Hf;
    try (destruct u; try discriminate Hu; solve [solve_ex]).
  - destruct u as [| | |p| | | | | |]; try discriminate Hu; [solve_ex|].
    destruct p; try discriminate Hu; solve_ex.
  - unfold load_data, unload_data, proc_create, stored. rewrite Hm.
    destruct u as [| | | | | | |[q|]| |]; try discriminate Hu; solve_ex.
  - unfold load_data, unload_data, proc_create, stored. rewrite Hm.
    destruct u as [| | | | | | |[q|]| |]; try discriminate Hu; solve_ex.
  - destruct (copy_bytes_fits bytes size) as (b' & n' & E1 & E2 & E3 & E4); [by destruct bytes|].
    exists (UBo b' n'). unfold load_data, unload_data, stored. rewrite Hm, E2.
    destruct u as [| | | |b0 n0| | | | |]; try discriminate Hu; simpl; rewrite E1; simpl;
      split_and!; try done; intros _; rewrite E4; done.
  - unfold load_data, unload_data, stored. rewrite Hm.
    assert (exists e0 v0 c0, u_envar u = Done (e0, v0, c0) /\ live e0 = true /\ live v0 = true /\
      match envar, e0 with None, SStr _ => false | _, _ => true end = true /\
      match value, v0 with None, SStr _ => false | _, _ => true end = true)
      as (e0 & v0 & c0 & -> & L1 & L2 & K1 & K2).
    { destruct u as [| | | | | | | |e0 v0 c0|]; try discriminate Hu;
        [exists SNull, SNull, 0; by destruct envar, value|].
      simpl in Hu, Hr. apply andb_prop in Hu as [? ?], Hr as [? ?]. by exists e0, v0, c0. }
    destruct (reload_field_live e0 envar L1 K1) as (p & E1 & D1 & P1).
    destruct (reload_field_live v0 value L2 K2) as (q & E2 & D2 & P2).
    exists (UEnvar p q separator). cbn -[reload_field]. rewrite E1. cbn -[reload_field]. rewrite E2.
    split; [done|]. split; [simpl; by rewrite P1, P2|].
    intros _. simpl. by rewrite D1; simpl; rewrite D2.
  - unfold load_data, unload_data, stored. simpl in Hf. apply bool_decide_eq_true in Hf.
    destruct (copied h) as [h1|] eqn:E1; [|by destruct Hf]. simpl in Hf.
    destruct Hf as [h2 E2]. unfold copied in E1, E2.
    destruct (data_copy (Some h)) as [rc1 [x1|]]; [|done]. destruct (ok rc1) eqn:O1; [|done].
    injection E1 as ->. apply ok_true in O1. subst rc1. exists (UDarray (Some h1)).
    split; [by rewrite pmix_success_zero|]. split; [done|]. intros _. simpl. unfold copied. rewrite E2. simpl.
    destruct (data_copy (Some h1)) as [rc2 [x2|]]; [|done]. destruct (ok rc2); [|done].
    by injection E2 as ->.
Qed.

Lemma split_at_key_Some k attrs pre kv post :
  split_at_key k attrs = Some (pre, kv, post) ->
  attrs = pre ++ kv :: post /\ key kv = k /\ Forall (fun a => key a <> k) pre.
Proof.
  revert pre; induction attrs as [|a attrs IH]; intros pre; [done|]. simpl.
  destruct (Z.eqb_spec k (key a)) as [->|Hne]; [by intros [= <- <- <-]|].
  destruct (split_at_key k attrs) as [[[pre' x] post']|]; [|done]. intros [= <- -> ->].
  destruct (IH pre' eq_refl) as (-> & <- & Hf). split_and!; try done. by constructor.
Qed.

Lemma split_at_key_None k attrs :
  split_at_key k attrs = None <-> Forall (fun a => key a <> k) attrs.
Proof.
  induction attrs as [|a attrs IH]; [done|]. simpl. rewrite Forall_cons, <- IH.
  destruct (Z.eqb_spec k (key a)) as [->|Hne].
  - split; [done|]. by intros [? _].
  - destruct (split_at_key k attrs) as [[[]]|]; naive_solver.
Qed.

Lemma split_at_key_pre k pre kv post :
  key kv = k -> Forall (fun a => key a <> k) pre ->
  split_at_key k (pre ++ kv :: post) = Some (pre, kv, post).
Proof.
  intros Hk Hf. induction Hf as [|a pre Ha _ IH]; simpl.
  - by rewrite <- Hk, Z.eqb_refl.
  - rewrite (proj2 (Z.eqb_neq _ _)) by done. by rewrite IH.
Qed.

(** Looking up [k] skips an item with another key. *)
Lemma get_skip k pre kv post out t :
  key kv <> k ->
  dsched_get_attribute (pre ++ kv :: post) k out t = dsched_get_attribute (pre ++ post) k out t.
Proof.
  intros Hk. unfold dsched_get_attribute. induction pre as [|a pre IH]; simpl.
  - rewrite (proj2 (Z.eqb_neq _ _)) by done. by destruct (split_at_key k post) as [[[]]|].
  - destruct (k =? key a); [done|].
    by destruct (split_at_key k (pre ++ kv :: post)) as [[[]]|],
                (split_at_key k (pre ++ post)) as [[[]]|].
Qed.

(** Every value on the list is readable at its type. *)
Definition attrs_ok (attrs : list attribute) : Prop :=
  Forall (fun a => holds (vtype (data a)) (vdata (data a)) = true) attrs.

(** What a set with a well-typed argument comes to. *)
Inductive set_result :=
| Stored      (** the list holds the value *)
| Removed     (** a boolean that was there is set to false *)
| Refused     (** the key is there with another type *)
| Dangling.   (** a null field of an environment replaces a string: it is freed and kept *)

Definition set_kind (attrs : list attribute) (k : Z) (d : cval) (t : dtype) : set_result :=
  match split_at_key k attrs with
  | None => Stored
  | Some (_, kv, _) =>
      if negb (bool_decide (vtype (data kv) = t)) then Refused
      else if bool_decide (t = PMIX_BOOL) && bool_decide (d = CBool false) then Removed
      else if replaces (vdata (data kv)) d then Stored else Dangling
  end.

Lemma set_found pre kv post k d t :
  split_at_key k (pre ++ kv :: post) = Some (pre, kv, post) ->
  vtype (data kv) = t -> fits t d = true ->
  bool_decide (t = PMIX_BOOL) && bool_decide (d = CBool false) = false ->
  dsched_set_attribute (pre ++ kv :: post) k (Some d) t =
  '(rc, kv') ← dsched_attr_load kv (Some d) t; Done (rc, pre ++ kv' :: post).
Proof.
  intros Hs Ht Hf Hb. unfold dsched_set_attribute. rewrite Hs, Ht, bool_decide_true by done. simpl.
  destruct (decide (t = PMIX_BOOL)) as [->|Hne].
  - destruct d as [b| | | | | | | |]; try discriminate Hf. by destruct b.
  - by rewrite bool_decide_false by done.
Qed.

Lemma get_found kv k t d out pre post :
  key kv = k -> Forall (fun a => key a <> k) pre -> vtype (data kv) = t ->
  unload_data t (vdata (data kv)) (Some out) = Done (PMIX_SUCCESS, Some d) ->
  dsched_get_attribute (pre ++ kv :: post) k (Some (Some out)) t = Done (true, Some (Some d)).
Proof.
  intros Hk Hpre Ht Hu. unfold dsched_get_attribute, dsched_attr_unload.
  rewrite (split_at_key_pre k) by done. rewrite Ht, !bool_decide_true by done. simpl.
  by rewrite andb_false_r, Hu.
Qed.

(** A set that stores its value keeps every value of the list readable. *)
Lemma set_attribute_spec attrs k d t :
  mem_ok = true -> attrs_ok attrs -> fits t d = true -> set_kind attrs k d t = Stored ->
  exists pre kv post, dsched_set_attribute attrs k (Some d) t =
      Done (code_value DSCHED_SUCCESS, pre ++ kv :: post) /\
    key kv = k /\ vtype (data kv) = t /\ Forall (fun a => key a <> k) pre /\
    attrs_ok (pre ++ kv :: post) /\
    (forall out, unload_data t (vdata (data kv)) out = Done (PMIX_SUCCESS, Some (stored t d))) /\
    ((exists old, attrs = pre ++ old :: post /\ key old = k) \/ (post = [] /\ attrs = pre)).
Proof.
  intros Hm Hok Hf Hs. unfold set_kind in Hs.
  destruct (split_at_key k attrs) as [[[pre kv] post]|] eqn:E.
  - destruct (bool_decide (vtype (data kv) = t)) eqn:Ht; [|done].
    apply bool_decide_eq_true in Ht. simpl in Hs.
    destruct (bool_decide (t = PMIX_BOOL) && _) eqn:Hb; [done|].
    destruct (replaces (vdata (data kv)) d) eqn:Hr; [|done].
    destruct (split_at_key_Some _ _ _ _ _ E) as (-> & Hkey & Hpre).
    apply Forall_app in Hok as [Ho1 [Ho2 Ho3]%Forall_cons]. rewrite Ht in Ho2.
    destruct (load_data_fits t (vdata (data kv)) d) as (u & El & Hu & Ed); [done..|].
    exists pre, (Attr (key kv) (Value t u)), post.
    rewrite (set_found _ _ _ _ _ _ E Ht Hf Hb). simpl. rewrite El. split_and!; try done.
    + apply Forall_app; split; [done|]. by constructor.
    + left. by exists kv.
  - destruct (load_data_fits t UZero d) as (u & El & Hu & Ed); [done..|by destruct t|by destruct d|].
    apply split_at_key_None in E as Hpre.
    exists attrs, (Attr k (Value t u)), []. unfold dsched_set_attribute. rewrite E. simpl. rewrite El.
    split_and!; try done.
    + apply Forall_app; split; [done|]. by constructor.
    + by right.
Qed.

(** A null field that replaces a string leaves the freed one behind. *)
Lemma load_dangles t u d :
  mem_ok = true -> fits t d = true -> holds t u = true -> replaces u d = false ->
  exists u', load_data t u d = Done (code_value DSCHED_SUCCESS, u') /\
    forall out, unload_data t u' out = Fault UseAfterFree.
Proof.
  intros Hm Hf Hu Hr. destruct u as [| | | | | | | |e v c|], d; try done.
  destruct t; try done. unfold load_data, unload_data. rewrite Hm. simpl in Hu, Hr.
  destruct e as [|e|], v as [|v|]; try done; destruct envar, value; try done;
    eexists; (split; [reflexivity|]); by intros.
Qed.

(** Releasing an attribute whose value is readable at its type. *)
Lemma attr_des_ok kv : holds (vtype (data kv)) (vdata (data kv)) = true -> dsched_attr_des kv = Done tt.
Proof.
  unfold dsched_attr_des. destruct kv as [k [t u]]. cbn. intros Hh. rewrite value_destruct_frees.
  - destruct t, u as [| | |p| | | | |e v| ]; try discriminate Hh; try done;
      [by destruct p|by destruct e, v].
  - destruct t, u as [| | | | | | |[]| |]; try discriminate Hh; done.
Qed.

Lemma filter_kept k attrs :
  Forall (fun a => key a <> k) attrs -> filter (fun a => key a <> k) attrs = attrs.
Proof. induction 1; [done|]. rewrite filter_cons_True by done. by f_equal. Qed.

(** The list once the attribute of key [k], the only one, is taken off. *)
Lemma taken_off pre kv post k :
  key kv = k -> NoDup (map key (pre ++ kv :: post)) ->
  Forall (fun a => key a <> k) pre /\ Forall (fun a => key a <> k) post /\
  (forall out t, dsched_get_attribute (pre ++ post) k out t = Done (false, out)) /\
  (forall k' out t, k' <> k ->
     dsched_get_attribute (pre ++ post) k' out t = dsched_get_attribute (pre ++ kv :: post) k' out t).
Proof.
  intros Hk Hnd. rewrite map_app in Hnd. apply NoDup_app in Hnd as (_ & Hn2 & [Hn3 _]%NoDup_cons).
  simpl in *. rewrite Hk in *.
  assert (Forall (fun a => key a <> k) pre) as Hpre.
  { apply Forall_forall. intros a Ha Hak. apply (Hn2 (key a)); [|set_solver].
    by apply list_elem_of_fmap_2. }
  assert (Forall (fun a => key a <> k) post) as Hpost.
  { apply Forall_forall. intros a Ha Hak. apply Hn3. rewrite <- Hak. by apply list_elem_of_fmap_2. }
  split_and!; [done..| |].
  - intros out t. unfold dsched_get_attribute.
    rewrite (proj2 (split_at_key_None k _)); [done|]. by apply Forall_app.
  - intros k' out t Hne. by rewrite get_skip by congruence.
Qed.
End LoadFacts.

(** ** Properties *)

Section AttrProperties.
Context `{PMIx}.

(** What a get of the key and type just set returns, and what it does to the others. *)
Definition reads_back (attrs attrs' : list attribute) (k : Z) (t : dtype) (d : cval) : Prop :=
  (forall out, dsched_get_attribute attrs' k (Some (Some out)) t =
     Done (true, Some (Some (stored t d)))) /\
  attrs_ok attrs' /\
  map key attrs' = map key attrs ++ (if bool_decide (k ∈ map key attrs) then [] else [k]).

Definition others_kept (attrs attrs' : list attribute) (k : Z) : Prop :=
  forall k' out t, k' <> k -> dsched_get_attribute attrs' k' out t = dsched_get_attribute attrs k' out t.

Lemma others_replaced pre kv kv' post k :
  key kv = k -> key kv' = k -> others_kept (pre ++ kv :: post) (pre ++ kv' :: post) k.
Proof. intros Hk Hk' k' out t Hne. by rewrite !get_skip by congruence. Qed.

Lemma others_removed pre kv post k : key kv = k -> others_kept (pre ++ kv :: post) (pre ++ post) k.
Proof. intros Hk k' out t Hne. by rewrite get_skip by congruence. Qed.

Lemma set_stores attrs k d t :
  mem_ok = true -> attrs_ok attrs -> fits t d = true -> set_kind attrs k d t = Stored ->
  exists attrs', dsched_set_attribute attrs k (Some d) t = Done (code_value DSCHED_SUCCESS, attrs') /\
    others_kept attrs attrs' k /\ reads_back attrs attrs' k t d.
Proof.
  intros Hm Hok Hf Hs.
  destruct (set_attribute_spec attrs k d t Hm Hok Hf Hs)
    as (pre & kv & post & E & Hk & Ht & Hpre & Hok' & Hu & Hold).
  exists (pre ++ kv :: post). split; [done|]. split; [|split; [|split; [done|]]].
  - destruct Hold as [(old & -> & Hko)|[-> ->]]; [by apply others_replaced|].
    intros k' out t' Hne. by rewrite get_skip, app_nil_r by congruence.
  - intros out. by apply get_found.
  - destruct Hold as [(old & -> & Hko)|[-> ->]].
    + rewrite !map_app. simpl. rewrite bool_decide_true; [by rewrite app_nil_r, Hk, Hko|]. set_solver.
    + rewrite map_app. simpl. rewrite Hk, bool_decide_false; [done|].
      rewrite list_elem_of_fmap. intros (a & -> & Ha). by eapply Forall_forall in Hpre.
Qed.

(** The attribute a set that does not just store has found. *)
Lemma set_found_at attrs k d t x : set_kind attrs k d t = x -> x <> Stored ->
  exists pre kv post, attrs = pre ++ kv :: post /\ split_at_key k attrs = Some (pre, kv, post) /\
    key kv = k /\ Forall (fun a => key a <> k) pre.
Proof.
  unfold set_kind. destruct (split_at_key k attrs) as [[[pre kv] post]|] eqn:E; [|by intros <-].
  intros _ _. destruct (split_at_key_Some _ _ _ _ _ E) as (-> & Hk & Hpre). by exists pre, kv, post.
Qed.

(** C22: what a set does with a non-null argument of the type it announces (a byte object
    with all its bytes, a data array the library can copy), on a list whose values are
    readable, when allocation succeeds. If the
    key is new, or is there with the same type, it is stored: a get of the same key and
    type returns the value (a name truncated as the library truncates it, a byte object
    clipped to its announced size, a data array as the library copies it), the list keeps
    its keys in order with a new one at the end, and every value stays readable. The
    exceptions are a false that replaces a boolean, which takes the attribute off the
    list; another type for a key that is there, which is refused and changes nothing; and
    a null field of an environment variable that replaces a string: the set reports a
    success, and a get reads the string that was freed. In every case the other keys read
    as before. *)
Theorem attr_roundtrip attrs k d t :
  mem_ok = true -> attrs_ok attrs -> fits t d = true ->
  exists rc attrs', dsched_set_attribute attrs k (Some d) t = Done (rc, attrs') /\
    others_kept attrs attrs' k /\
    match set_kind attrs k d t with
    | Stored => rc = code_value DSCHED_SUCCESS /\ reads_back attrs attrs' k t d
    | Removed => rc = code_value DSCHED_SUCCESS /\ attrs_ok attrs' /\
        exists pre kv post, attrs = pre ++ kv :: post /\ key kv = k /\ attrs' = pre ++ post
    | Refused => rc = code_value DSCHED_ERR_TYPE_MISMATCH /\ attrs' = attrs
    | Dangling => rc = code_value DSCHED_SUCCESS /\
        forall out, dsched_get_attribute attrs' k (Some (Some out)) t = Fault UseAfterFree
    end.
Proof.
  intros Hm Hok Hf. destruct (set_kind attrs k d t) eqn:Hk.
  - destruct (set_stores attrs k d t Hm Hok Hf Hk) as (attrs' & E & Ho & Hr). by exists (code_value DSCHED_SUCCESS), attrs'.
  - destruct (set_found_at attrs k d t _ Hk) as (pre & kv & post & Ha & E & Hkey & Hpre); [done|]. subst attrs.
    unfold set_kind in Hk. rewrite E in Hk. destruct (bool_decide (vtype (data kv) = t)) eqn:Ht; [|done].
    simpl in Hk. destruct (bool_decide (t = PMIX_BOOL)) eqn:Hb; [|by destruct (replaces _ _)].
    destruct (bool_decide (d = CBool false)) eqn:Hd; [|by destruct (replaces _ _)].
    apply bool_decide_eq_true in Ht, Hb, Hd. subst d t.
    apply Forall_app in Hok as [Ho1 [Ho2 Ho3]%Forall_cons].
    exists (code_value DSCHED_SUCCESS), (pre ++ post). split_and!; [|by apply others_removed|done| |].
    + unfold dsched_set_attribute. rewrite E, Hb. simpl. by rewrite attr_des_ok.
    + by apply Forall_app.
    + by exists pre, kv, post.
  - destruct (set_found_at attrs k d t _ Hk) as (pre & kv & post & Ha & E & _); [done|].
    exists (code_value DSCHED_ERR_TYPE_MISMATCH), attrs. split_and!; [|done..].
    unfold set_kind in Hk. unfold dsched_set_attribute. rewrite E in *.
    destruct (bool_decide (vtype (data kv) = t)); [|done]. simpl in Hk.
    destruct (_ && _); [done|]. by destruct (replaces _ _).
  - destruct (set_found_at attrs k d t _ Hk) as (pre & kv & post & Ha & E & Hkey & Hpre); [done|]. subst attrs.
    unfold set_kind in Hk. rewrite E in Hk. destruct (bool_decide (vtype (data kv) = t)) eqn:Ht; [|done].
    apply bool_decide_eq_true in Ht. simpl in Hk.
    destruct (bool_decide (t = PMIX_BOOL) && _) eqn:Hb; [done|].
    destruct (replaces (vdata (data kv)) d) eqn:Hr; [done|].
    apply Forall_app in Hok as [_ [Ho2 _]%Forall_cons]. rewrite Ht in Ho2.
    destruct (load_dangles t _ d Hm Hf Ho2 Hr) as (u & El & Hu).
    exists (code_value DSCHED_SUCCESS), (pre ++ Attr (key kv) (Value t u) :: post). split_and!; [| |done|].
    + rewrite (set_found _ _ _ _ _ _ E Ht Hf Hb). simpl. by rewrite El.
    + by apply others_replaced.
    + intros out. unfold dsched_get_attribute, dsched_attr_unload.
      rewrite (split_at_key_pre k) by done. simpl. rewrite !bool_decide_true by done. simpl.
      by rewrite andb_false_r, Hu.
Qed.

(** Setting a boolean attribute to false removes it: on a list with one
    attribute per key the key is then absent, for every type asked, and every other
    key reads as before. *)
Theorem attr_set_false attrs k b :
  NoDup (map key attrs) -> Attr k (Value PMIX_BOOL (UBool b)) ∈ attrs ->
  exists attrs', dsched_set_attribute attrs k (Some (CBool false)) PMIX_BOOL =
      Done (code_value DSCHED_SUCCESS, attrs') /\
    (forall out t, dsched_get_attribute attrs' k out t = Done (false, out)) /\
    (forall k' out t', k' <> k ->
       dsched_get_attribute attrs' k' out t' = dsched_get_attribute attrs k' out t').
Proof.
  intros Hnd (pre & post & ->)%list_elem_of_split. exists (pre ++ post).
  destruct (taken_off pre (Attr k _) post k eq_refl Hnd) as (Hpre & _ & Hget & Hne). split_and!; [|done..].
  unfold dsched_set_attribute. rewrite (split_at_key_pre k) by done. simpl.
  by rewrite attr_des_ok.
Qed.

(** Removing a key from a list whose values are readable destroys the value once and
    leaves the other attributes in their order; the key is then absent and every other
    key reads as before. Removing a key that is absent does nothing. *)
Theorem attr_removed attrs k :
  attrs_ok attrs -> NoDup (map key attrs) ->
  exists attrs', dsched_remove_attribute attrs k = Done attrs' /\
    attrs' = filter (fun a => key a <> k) attrs /\ attrs_ok attrs' /\
    (forall out t, dsched_get_attribute attrs' k out t = Done (false, out)) /\
    (forall k' out t, k' <> k ->
       dsched_get_attribute attrs' k' out t = dsched_get_attribute attrs k' out t).
Proof.
  intros Hok Hnd. unfold dsched_remove_attribute.
  destruct (split_at_key k attrs) as [[[pre kv] post]|] eqn:E.
  - destruct (split_at_key_Some _ _ _ _ _ E) as (-> & Hk & _).
    destruct (taken_off pre kv post k Hk Hnd) as (Hpre & Hpost & Hget & Hne).
    apply Forall_app in Hok as [Ho1 [Ho2 Ho3]%Forall_cons]. exists (pre ++ post).
    rewrite (attr_des_ok kv Ho2). split_and!; [done| |by apply Forall_app|done..].
    rewrite filter_app, filter_cons_False by auto. by rewrite !filter_kept.
  - apply split_at_key_None in E. exists attrs. split_and!; [done| |done| |done].
    + by rewrite filter_kept.
    + intros out t. unfold dsched_get_attribute. by rewrite (proj2 (split_at_key_None k _)).
Qed.

(** A set that reports an error has not changed which keys are on the list; when
    the key was absent, or present with another type, the list is untouched, and
    the latter is reported as a type mismatch. *)
Theorem attr_set_error attrs k d t rc attrs' :
  dsched_set_attribute attrs k d t = Done (rc, attrs') -> rc <> DSCHED_SUCCESS ->
  map key attrs' = map key attrs /\
  (split_at_key k attrs = None -> attrs' = attrs) /\
  (forall pre kv post, split_at_key k attrs = Some (pre, kv, post) -> vtype (data kv) <> t ->
     rc = DSCHED_ERR_TYPE_MISMATCH /\ attrs' = attrs).
Proof.
  intros Hs Hrc. unfold dsched_set_attribute in Hs.
  destruct (split_at_key k attrs) as [[[pre kv] post]|] eqn:E.
  - destruct (split_at_key_Some _ _ _ _ _ E) as (-> & Hk & _).
    destruct (decide (vtype (data kv) = t)) as [Ht|Ht].
    + rewrite bool_decide_true in Hs by done. simpl in Hs.
      destruct (if bool_decide (t = PMIX_BOOL) then _ else _) as [clear|]; [|done]. simpl in Hs.
      destruct clear; [destruct (dsched_attr_des kv); [by injection Hs as <- _|done]|].
      assert (forall r kv', dsched_attr_load kv d t = Done (r, kv') -> key kv' = key kv) as Hkey.
      { intros r kv'. unfold dsched_attr_load. destruct d as [d|].
        - destruct (load_data _ _ _) as [[]|]; [|done]. by intros [= _ <-].
        - destruct (bool_decide _); [by intros [= _ <-]|].
          destruct (free_storage _ _); [|done]. by intros [= _ <-]. }
      destruct (dsched_attr_load kv d t) as [[r kv']|] eqn:El; [|done].
      injection Hs as <- <-. rewrite !map_app. simpl. rewrite (Hkey _ _ eq_refl).
      split_and!; [done|done|]. by intros ??? [= <- <- <-].
    + rewrite bool_decide_false in Hs by done. injection Hs as <- <-. by split_and!.
  - destruct (dsched_attr_load _ d t) as [[r kv]|] eqn:El; [|done]. cbn -[code_value dsched_attr_load] in Hs.
    destruct (Z.eqb_spec r DSCHED_SUCCESS) as [->|Hr]; [by injection Hs as <- <-|].
    cbn -[code_value dsched_attr_load] in Hs. destruct (dsched_attr_des kv); [|done].
    injection Hs as <- <-. by split_and!.
Qed.

Lemma find_key_drop k attrs i :
  match find_key k attrs i with
  | Some j => (i <= j)%nat /\ (exists a, attrs !! (j - i)%nat = Some a /\ key a = k) /\
      forall m a, (i <= m < j)%nat -> attrs !! (m - i)%nat = Some a -> key a <> k
  | None => Forall (fun a => key a <> k) attrs
  end.
Proof.
  revert i; induction attrs as [|a attrs IH]; intros i; simpl; [constructor|].
  destruct (Z.eqb_spec k (key a)) as [->|Hne].
  - split; [lia|]. split; [exists a; by rewrite Nat.sub_diag|]. intros; lia.
  - specialize (IH (S i)). destruct (find_key k attrs (S i)) as [j|].
    + destruct IH as (Hle & (x & Hx & Hk) & Hmin). split; [lia|]. split.
      * exists x. replace (j - i)%nat with (S (j - S i)) by lia. done.
      * intros m y Hm Hy. destruct (decide (m = i)) as [->|].
        -- rewrite Nat.sub_diag in Hy. injection Hy as <-. by apply not_eq_sym.
        -- apply (Hmin m); [lia|]. by replace (m - i)%nat with (S (m - S i)) in Hy by lia.
    + by constructor.
Qed.

(** Iterating over the attributes with a key. From an item that is the last of
    the list the next one is none; otherwise it is the first later item with the
    key, and when no later item has the key the walk does not end there: it reads
    the sentinel of the ring as an attribute. *)
Theorem attr_fetch_next attrs p k :
  (p < length attrs)%nat ->
  match dsched_fetch_attribute attrs (Some p) k with
  | Done None => S p = length attrs
  | Done (Some i) => (p < i)%nat /\ (exists a, attrs !! i = Some a /\ key a = k) /\
      forall m a, (p < m < i)%nat -> attrs !! m = Some a -> key a <> k
  | Fault f => f = SentinelDeref /\ (S p < length attrs)%nat /\
      forall m a, (p < m)%nat -> attrs !! m = Some a -> key a <> k
  end.
Proof.
  intros Hp. unfold dsched_fetch_attribute.
  destruct (Nat.leb_spec (length attrs) (S p)) as [Hl|Hl]; [simpl; lia|].
  assert (Hd : forall m, (p < m)%nat -> drop (S p) attrs !! (m - S p)%nat = attrs !! m).
  { intros m Hm. rewrite lookup_drop. f_equal. lia. }
  pose proof (find_key_drop k (drop (S p) attrs) (S p)) as Hf.
  destruct (find_key k (drop (S p) attrs) (S p)) as [i|].
  - destruct Hf as (Hle & (a & Ha & Hk) & Hmin). simpl.
    split; [lia|]. split; [exists a; by rewrite <- Hd by lia|].
    intros m b Hm Hb. apply (Hmin m); [lia|]. by rewrite Hd by lia.
  - split_and!; [done|lia|]. intros m a Hm Ha. rewrite <- Hd in Ha by done.
    eapply Forall_lookup_1 in Hf; [|exact Ha]. exact Hf.
Qed.

(** Reloading an environment attribute with a null name frees the old name and
    keeps the pointer: the set succeeds, a later get reads freed memory, and a removal
    frees it again. *)
Theorem attr_envar_dangles k e v s c c' out :
  mem_ok = true ->
  exists attrs',
    dsched_set_attribute [Attr k (Value PMIX_ENVAR (UEnvar (SStr e) (SStr v) c))] k
      (Some (CEnvar None (Some s) c')) PMIX_ENVAR = Done (code_value DSCHED_SUCCESS, attrs') /\
    dsched_get_attribute attrs' k (Some out) PMIX_ENVAR = Fault UseAfterFree /\
    dsched_remove_attribute attrs' k = Fault UseAfterFree.
Proof.
  intros Hm. eexists. unfold dsched_set_attribute, dsched_get_attribute, dsched_attr_unload.
  cbn -[Z.eqb]. rewrite Z.eqb_refl. cbn -[Z.eqb]. split; [done|].
  unfold dsched_remove_attribute, dsched_attr_des.
  cbn -[Z.eqb]. rewrite Z.eqb_refl. cbn. by rewrite Hm, value_destruct_frees.
Qed.
End AttrProperties.

Definition sample_attrs : list attribute :=
  [Attr 1 (Value PMIX_BOOL (UBool true));
   Attr 2 (Value PMIX_STRING (UString (SStr "x")));
   Attr 3 (Value PMIX_UINT16 (UNum PMIX_UINT16 7))].

Lemma attr_roundtrip_witness :
  exists rc attrs', @dsched_set_attribute sample_pmix sample_attrs 2 (Some (CString "new")) PMIX_STRING
    = Done (rc, attrs').
Proof.
  destruct (@attr_roundtrip sample_pmix sample_attrs 2 (CString "new") PMIX_STRING)
    as (rc & l & Hl & _); [reflexivity|by repeat constructor|reflexivity|]. by exists rc, l.
Defined.

Lemma attr_set_false_witness :
  exists attrs', @dsched_set_attribute sample_pmix sample_attrs 1 (Some (CBool false)) PMIX_BOOL
    = Done (code_value DSCHED_SUCCESS, attrs').
Proof.
  destruct (@attr_set_false sample_pmix sample_attrs 1 true) as (l & Hl & _);
    [apply (bool_decide_unpack _); vm_compute; exact I|by left|]. by exists l.
Defined.

Lemma attr_removed_witness :
  exists attrs', @dsched_remove_attribute sample_pmix sample_attrs 2 = Done attrs' /\
    map key attrs' = [1; 3].
Proof.
  destruct (@attr_removed sample_pmix sample_attrs 2) as (l & Hl & -> & _);
    [by repeat constructor|apply (bool_decide_unpack _); vm_compute; exact I|].
  eexists. split; [exact Hl|reflexivity].
Defined.

Lemma attr_set_error_witness :
  code_value DSCHED_ERR_TYPE_MISMATCH <> DSCHED_SUCCESS /\
  map key sample_attrs = map key sample_attrs.
Proof.
  split; [discriminate|].
  exact (proj1 (@attr_set_error sample_pmix sample_attrs 2 (Some (CBool true)) PMIX_BOOL
    DSCHED_ERR_TYPE_MISMATCH sample_attrs eq_refl ltac:(discriminate))).
Defined.

Lemma attr_fetch_next_witness :
  (0 < length sample_attrs)%nat /\ (0 < 2)%nat.
Proof.
  split; [simpl; lia|].
  exact (proj1 (attr_fetch_next sample_attrs 0 3 ltac:(simpl; lia))).
Defined.

Lemma attr_envar_dangles_witness :
  exists attrs', @dsched_get_attribute sample_pmix attrs' 4 (Some None) PMIX_ENVAR = Fault UseAfterFree.
Proof.
  destruct (@attr_envar_dangles sample_pmix 4 "A" "1" "2" 58 58 None eq_refl) as (l & _ & Hl & _).
  by exists l.
Defined.
