(* ===== verification/Globals.v ===== *)
(** Nodes and the functions that recognise them, include/dsched_globals.c: whether
    a name denotes this host, the search of a node by name or id in a list or in
    the global pool, and the comparison of two nodes. *)

From S2P Require Import Prelude Pmix Constants Attr.

Definition DSCHED_GLOBAL_ARRAY_BLOCK_SIZE : Z := 64.
Definition DSCHED_GLOBAL_ARRAY_MAX_SIZE : Z := 2 ^ 31 - 1.

Record dsched_topology_t := Topology {
  topo_index : Z;
  topo_topo : option Z;
  topo_sig : cstr
}.

Record dsched_node_t := Node {
  node_index : Z;
  node_name : cstr;
  node_rawname : cstr;
  node_aliases : option (list string);
  node_nodeid : Z;
  node_slots : Z;
  node_slots_available : Z;
  node_slots_inuse : Z;
  node_slots_max : Z;
  node_topology : option dsched_topology_t;
  node_flags : Z;
  node_attributes : list attribute
}.
#[export] Instance eta_node : Eta dsched_node_t := fun n =>
  Node (node_index n) (node_name n) (node_rawname n) (node_aliases n) (node_nodeid n)
    (node_slots n) (node_slots_available n) (node_slots_inuse n) (node_slots_max n)
    (node_topology n) (node_flags n) (node_attributes n).

Definition dsched_node_construct : dsched_node_t :=
  {| node_index := -1; node_name := None; node_rawname := None; node_aliases := None;
     node_nodeid := UINT32_MAX; node_slots := 0; node_slots_available := 0;
     node_slots_inuse := 0; node_slots_max := 0; node_topology := None;
     node_flags := 0; node_attributes := [] |}.

(** The names of this host in the global [dsched_globals]. *)
Record host := Host { hostname : cstr; aliases : option (list string) }.

(** A loop over a null-terminated array that looks for a string. *)
Fixpoint argv_mem (name : string) (argv : list string) : bool :=
  match argv with [] => false | a :: argv => String.eqb name a || argv_mem name argv end.

Definition dsched_check_host_is_local (g : host) (name : cstr) : outcome bool :=
  same ← strcmp0 name (hostname g);
  if (same : bool) then Done true else
  match name with
  | None => Fault NullDeref
  | Some name =>
    if String.eqb name "localhost" || String.eqb name "127.0.0.1" then Done true
    else match aliases g with
         | None => Done false
         | Some l => Done (argv_mem name l)
         end
  end.

(** The name tests on one node: its name against [nm], its aliases against the
    name the caller gave. *)
Definition name_hit (name nm : cstr) (nptr : dsched_node_t) : outcome bool :=
  match nm with
  | None => Done false
  | Some _ =>
    same ← strcmp0 (node_name nptr) nm;
    if (same : bool) then Done true else
    match node_aliases nptr, name with
    | None, _ => Done false
    | Some [], _ => Done false
    | Some (_ :: _), None => Fault NullDeref
    | Some l, Some name => Done (argv_mem name l)
    end
  end.

(** The first node of [nodes] on which [hit] holds. *)
Fixpoint first_hit (hit : dsched_node_t -> outcome bool) (nodes : list dsched_node_t)
  : outcome (option dsched_node_t) :=
  match nodes with
  | [] => Done None
  | nptr :: rest =>
    h ← hit nptr; if (h : bool) then Done (Some nptr) else first_hit hit rest
  end.

Section Match.
Context `{PArray P}.

Definition dsched_node_match (g : host) (pool : P dsched_node_t)
    (nodes : option (list dsched_node_t)) (name : cstr) (nodeid : Z)
  : outcome (option dsched_node_t) :=
  nm ← (match name with
        | None => Done None
        | Some _ =>
          here ← dsched_check_host_is_local g name;
          Done (if (here : bool) then hostname g else name)
        end);
  match nodes with
  | Some l =>
    first_hit (fun nptr =>
      if negb (nodeid =? UINT32_MAX) && (node_nodeid nptr =? nodeid)
      then Done true else name_hit name nm nptr) l
  | None =>
    match (if nodeid =? UINT32_MAX then None else pa_get pool (sint 32 nodeid)) with
    | Some nptr => Done (Some nptr)
    | None => match nm with
              | None => Done None
              | Some _ => first_hit (name_hit name nm) (pa_items pool)
              end
    end
  end.
End Match.

Definition dsched_nptr_match (n1 n2 : dsched_node_t) : outcome bool :=
  same ← strcmp0 (node_name n1) (node_name n2);
  if (same : bool) then Done true else
  match node_name n1, node_name n2, node_aliases n1 with
  | Some nm1, Some nm2, Some l1 =>
    (fix outer (l : list string) : outcome bool :=
       match l with
       | [] => Done false
       | a :: l =>
         if String.eqb a nm2 then Done true
         else match node_aliases n2 with
              | None => outer l
              | Some l2 =>
                if existsb (fun b => String.eqb b nm1 || String.eqb a b) l2
                then Done true else outer l
              end
       end) l1
  | _, _, _ => Done false
  end.

(** ** Facts and specification *)

Lemma argv_mem_true name l : argv_mem name l = true <-> name ∈ l.
Proof.
  induction l as [|a l IH]; simpl; [set_solver|].
  rewrite orb_true_iff, IH, String.eqb_eq. set_solver.
Qed.

Lemma first_hit_find hit p nodes :
  (forall n, n ∈ nodes -> hit n = Done (p n)) ->
  first_hit hit nodes = Done (List.find p nodes).
Proof.
  induction nodes as [|n nodes IH]; intros Hp; [done|]. simpl.
  rewrite Hp by set_solver. simpl. destruct (p n); [done|]. apply IH. set_solver.
Qed.

(** Is [name] one of the names of this host? *)
Definition is_local (g : host) (name : string) : bool :=
  bool_decide (hostname g = Some name) || String.eqb name "localhost" ||
  String.eqb name "127.0.0.1" || argv_mem name (default [] (aliases g)).

(** The node answers to [name], read as this host's name when it is local. *)
Definition answers (g : host) (name : string) (n : dsched_node_t) : bool :=
  bool_decide (node_name n = if is_local g name then hostname g else Some name) ||
  argv_mem name (default [] (node_aliases n)).

Lemma check_host_is_local_spec g name :
  is_Some (hostname g) -> dsched_check_host_is_local g (Some name) = Done (is_local g name).
Proof.
  intros [h Hh]. unfold dsched_check_host_is_local, is_local. rewrite Hh. simpl.
  rewrite bool_decide_Some_eqb, (String.eqb_sym h name).
  destruct (String.eqb name h); [done|]. simpl.
  destruct (String.eqb name "localhost" || String.eqb name "127.0.0.1"); [done|]. simpl.
  by destruct (aliases g).
Qed.

Lemma name_hit_spec g name n :
  is_Some (hostname g) -> is_Some (node_name n) ->
  name_hit (Some name) (if is_local g name then hostname g else Some name) n =
  Done (answers g name n).
Proof.
  intros [h Hh] [m Hm]. unfold name_hit, answers. rewrite Hh, Hm.
  assert (exists x, (if is_local g name then Some h else Some name) = Some x) as [x ->]
    by (destruct (is_local g name); eauto).
  rewrite bool_decide_Some_eqb. simpl. destruct (String.eqb m x); [done|].
  simpl. by destruct (node_aliases n) as [[|a l]|].
Qed.

Section MatchProperties.
Context `{PArray P}.

(** C27: searching a node among nodes that all have a name. In a list, the result is
    the first node whose id is the one asked for (when one is asked for) or that
    answers to the name (when one is given). In the pool, it is the node at that
    index, the id read as a C int, and failing that the first node that answers to
    the name. *)
Theorem node_match_spec (g : host) (pool : P dsched_node_t) nodes name nodeid :
  is_Some (hostname g) ->
  (forall n, n ∈ default (pa_items pool) nodes -> is_Some (node_name n)) ->
  dsched_node_match g pool nodes name nodeid = Done
    match nodes with
    | Some l => List.find (fun n =>
        (negb (nodeid =? UINT32_MAX) && (node_nodeid n =? nodeid)) ||
        match name with Some nm => answers g nm n | None => false end) l
    | None =>
      match (if nodeid =? UINT32_MAX then None else pa_get pool (sint 32 nodeid)) with
      | Some n => Some n
      | None => match name with
                | Some nm => List.find (answers g nm) (pa_items pool)
                | None => None
                end
      end
    end.
Proof.
  intros Hh Hn. unfold dsched_node_match.
  destruct name as [nm|].
  - rewrite check_host_is_local_spec by done. simpl.
    destruct nodes as [l|]; simpl in *.
    + apply first_hit_find. intros n Hin.
      destruct (negb _ && _); [done|]. simpl. by apply name_hit_spec, Hn.
    + destruct (if nodeid =? UINT32_MAX then _ else _); [done|].
      assert (exists x, (if is_local g nm then hostname g else Some nm) = Some x) as [x Hx].
      { destruct Hh as [h ->]. destruct (is_local g nm); eauto. }
      rewrite Hx. apply first_hit_find. intros n Hin. rewrite <- Hx. by apply name_hit_spec, Hn.
  - simpl. destruct nodes as [l|]; [|by destruct (if nodeid =? UINT32_MAX then _ else _)].
    apply first_hit_find. intros n Hin. by destruct (negb _ && _).
Qed.
End MatchProperties.

(** Comparing two named nodes. They match when their names are equal, when an
    alias of the first is the name or an alias of the second, or when the first has
    an alias at all and its name is an alias of the second; so the comparison
    depends on the order of its arguments. *)
Theorem nptr_match_spec n1 n2 nm1 nm2 :
  node_name n1 = Some nm1 -> node_name n2 = Some nm2 ->
  let l1 := default [] (node_aliases n1) in
  let l2 := default [] (node_aliases n2) in
  exists b, dsched_nptr_match n1 n2 = Done b /\
    (b = true <-> nm1 = nm2 \/ nm2 ∈ l1 \/ (exists a, a ∈ l1 /\ a ∈ l2) \/ (l1 <> [] /\ nm1 ∈ l2)).
Proof.
  intros H1 H2 l1 l2. unfold dsched_nptr_match. rewrite H1, H2. simpl. unfold l1, l2. clear l1 l2.
  destruct (String.eqb_spec nm1 nm2) as [->|Hne]; [exists true; naive_solver|].
  destruct (node_aliases n1) as [l1|]; [|exists false; simpl; set_solver]. simpl.
  induction l1 as [|a l1 IH]; [exists false; set_solver|].
  destruct (String.eqb_spec a nm2) as [->|Ha]; [exists true; set_solver|].
  destruct IH as (b & Eb & Hb).
  destruct (node_aliases n2) as [l2|]; simpl in *; [|exists b; set_solver].
  destruct (existsb _ l2) eqn:Ex.
  - exists true. split; [done|]. split; [|done]. intros _.
    apply existsb_exists in Ex as (c & Hc%list_elem_of_In & Heq).
    apply orb_prop in Heq as [E|E]; apply String.eqb_eq in E; subst; set_solver.
  - exists b. split; [done|]. rewrite Hb.
    assert (forall c, c ∈ l2 -> c <> nm1 /\ a <> c) as Hno.
    { intros c Hc. rewrite list_elem_of_In in Hc.
      pose proof (proj2 (not_true_iff_false _) Ex) as Hx. rewrite existsb_exists in Hx.
      split; intros ->; apply Hx; eexists; (split; [exact Hc|]); rewrite String.eqb_refl;
        by rewrite ?orb_true_r. }
    split; [set_solver|]. intros [?|[?|[(c & Hc & Hc')|[_ Hc]]]]; [done|set_solver| |].
    + apply elem_of_cons in Hc as [->|Hc]; [by apply Hno in Hc' as [_ []]|set_solver].
    + by apply Hno in Hc as [[] _].
Qed.

Definition sample_node (name : string) (l : list string) : dsched_node_t :=
  dsched_node_construct <| node_name := Some name |> <| node_aliases := Some l |>.

Lemma node_match_spec_witness :
  exists n, dsched_node_match (Host (Some "me"%string) None)
    ([Some (sample_node "a" []); None; Some (sample_node "me" ["x"%string])] : slots dsched_node_t)
    None (Some "localhost"%string) UINT32_MAX = Done (Some n) /\ node_name n = Some "me"%string.
Proof.
  eexists. rewrite node_match_spec.
  - split; vm_compute; reflexivity.
  - by eexists.
  - intros n Hn. repeat (apply elem_of_cons in Hn as [->|Hn]; [by eexists|]). by apply elem_of_nil in Hn.
Defined.

Lemma nptr_match_spec_witness :
  (exists b, dsched_nptr_match (sample_node "a" []) (sample_node "b" ["a"%string]) = Done b) /\
  dsched_nptr_match (sample_node "b" ["a"%string]) (sample_node "a" []) = Done true.
Proof.
  split; [|reflexivity].
  destruct (nptr_match_spec (sample_node "a" []) (sample_node "b" ["a"%string]) "a" "b"
    eq_refl eq_refl) as (b & Hb & _). by exists b.
Defined.
