(* ===== verification/Objects.v ===== *)
(** The reference-counted objects of include/dsched_globals.h, their constructors
    and destructors (include/dsched_globals.c), and the shared state of the
    scheduler: one store per class, the global arrays, the events waiting on the
    event bases and the replies made so far.

    PMIX_NEW allocates a cell with one reference, PMIX_RETAIN adds one, and
    PMIX_RELEASE takes one away and, with the last one, runs the destructor and
    frees the cell. Addresses are never reused, so a stale pointer is a pointer to
    no cell. *)

From S2P Require Import Prelude Pmix Constants Attr Globals.

(** ** Event handlers and events

    A handler is named, with the object that carries its event as its argument. *)

Inductive handler :=
| H_request_init
| H_session_control
| H_meta_base_schedule
| H_meta_base_cbfunc
| H_pri_sched
| H_pri_sched_cbfunc
| H_sched_base_schedule
| H_sched_base_cbfunc
| H_fifo_sched
| H_query
| H_toolconn.

#[export] Instance handler_eq_dec : EqDecision handler.
Proof. solve_decision. Defined.

(** The main event base, and the bases of the two component threads. *)
Inductive base := MainBase | PriBase | FifoBase.

#[export] Instance base_eq_dec : EqDecision base.
Proof. solve_decision. Defined.

Record event := Ev { ev_base : base; ev_fn : handler; ev_arg : loc }.

(** A call of a requestor's callback: the function, the status, its cbdata. *)
Record reply := Reply { to : Z; answer : Z; with_data : Z }.

#[export] Instance reply_eq_dec : EqDecision reply.
Proof. solve_decision. Defined.

(** ** Objects *)

Record dsched_req_t := Req {
  requestor : proc;
  directive : Z;
  req_index : Z;
  req_copy : bool;
  req_data : list pmix_info;
  req_cbfunc : option Z;
  req_cbdata : Z;
  req_status : Z;
  user_refid : cstr;
  alloc_refid : cstr;
  num_nodes : Z;
  nlist : cstr;
  exclude : cstr;
  num_cpus : Z;
  ncpulist : cstr;
  cpulist : cstr;
  memsize : Z;
  req_time : cstr;
  queue : cstr;
  preemptible : bool;
  lend : cstr;
  image : cstr;
  waitall : bool;
  share : bool;
  noshell : bool;
  dependency : cstr;
  begintime : cstr;
  sessionID : Z;
  received : Z;
  req_allocation : option loc
}.
#[export] Instance eta_req : Eta dsched_req_t := fun r =>
  Req (requestor r) (directive r) (req_index r) (req_copy r) (req_data r) (req_cbfunc r)
    (req_cbdata r) (req_status r) (user_refid r) (alloc_refid r) (num_nodes r) (nlist r)
    (exclude r) (num_cpus r) (ncpulist r) (cpulist r) (memsize r) (req_time r) (queue r)
    (preemptible r) (lend r) (image r) (waitall r) (share r) (noshell r) (dependency r)
    (begintime r) (sessionID r) (received r) (req_allocation r).

(** An item of a scheduler's list of pending requests. *)
Record dsched_req_item_t := ReqItem { item_req : option loc }.
#[export] Instance eta_req_item : Eta dsched_req_item_t := fun i => ReqItem (item_req i).

Record dsched_meta_t := Meta {
  mt_nactive : Z;
  mt_nresponded : Z;
  mt_req : option loc;
  mt_activated : option loc
}.
#[export] Instance eta_meta : Eta dsched_meta_t := fun m =>
  Meta (mt_nactive m) (mt_nresponded m) (mt_req m) (mt_activated m).

Record dsched_op_tracker_t := Trk {
  trk_nactive : Z;
  trk_nresponded : Z;
  trk_cbdata : option loc
}.
#[export] Instance eta_trk : Eta dsched_op_tracker_t := fun t =>
  Trk (trk_nactive t) (trk_nresponded t) (trk_cbdata t).

(** Keys and qualifiers of a query. *)
Record pmix_query := Query { q_keys : list pmix_key; q_qualifiers : list pmix_info }.

Section Classes.
Context (P : Type -> Type).

Record dsched_alloc_t := Alloc {
  alloc_scheduler : cstr;
  alloc_pri : Z;
  alloc_allocation : P loc
}.

Record dsched_shift_caddy_t := Caddy {
  cd_status : Z;
  cd_order : Z;
  cd_info : list pmix_info;
  cd_ninfo : Z;
  cd_cbdata : Z;
  cd_target : proc;
  cd_uid : Z;
  cd_gid : Z;
  cd_pid : Z;
  cd_flag : bool;
  cd_hostname : cstr;
  cd_cmdline : cstr;
  cd_launcher : bool;
  cd_scheduler : bool;
  cd_queries : list pmix_query;
  cd_nqueries : Z;
  cd_req : option loc;
  cd_mt : option loc;
  cd_alloc : option loc;
  cd_trk : option loc;
  cd_allocations : P loc;
  cd_evcbfunc : option handler;
  cd_infocbfunc : option Z;
  cd_toolcbfunc : option Z
}.

(** The state every handler works on; [null_bases] are the bases of the modules whose
    [evbase] is a null pointer. *)
Record sys := Sys {
  next : loc;
  reqs : gmap loc (cell dsched_req_t);
  metas : gmap loc (cell dsched_meta_t);
  caddies : gmap loc (cell dsched_shift_caddy_t);
  trks : gmap loc (cell dsched_op_tracker_t);
  allocs : gmap loc (cell dsched_alloc_t);
  nodes : gmap loc (cell dsched_node_t);
  g_nodes : P loc;
  g_requests : P loc;
  avail_nnodes : Z;
  fifo_reqs : list dsched_req_item_t;
  null_bases : list base;
  events : list event;
  replies : list reply
}.
End Classes.

Arguments Alloc {P}. Arguments alloc_scheduler {P}. Arguments alloc_pri {P}.
Arguments alloc_allocation {P}.
Arguments Caddy {P}. Arguments cd_status {P}. Arguments cd_order {P}. Arguments cd_info {P}.
Arguments cd_ninfo {P}. Arguments cd_cbdata {P}. Arguments cd_target {P}. Arguments cd_uid {P}.
Arguments cd_gid {P}. Arguments cd_pid {P}. Arguments cd_flag {P}. Arguments cd_hostname {P}.
Arguments cd_cmdline {P}. Arguments cd_launcher {P}. Arguments cd_scheduler {P}.
Arguments cd_queries {P}. Arguments cd_nqueries {P}. Arguments cd_req {P}. Arguments cd_mt {P}.
Arguments cd_alloc {P}. Arguments cd_trk {P}. Arguments cd_allocations {P}.
Arguments cd_evcbfunc {P}. Arguments cd_infocbfunc {P}. Arguments cd_toolcbfunc {P}.
Arguments Sys {P}. Arguments next {P}. Arguments reqs {P}. Arguments metas {P}.
Arguments caddies {P}. Arguments trks {P}. Arguments allocs {P}. Arguments nodes {P}.
Arguments g_nodes {P}. Arguments g_requests {P}. Arguments avail_nnodes {P}.
Arguments fifo_reqs {P}. Arguments null_bases {P}. Arguments events {P}. Arguments replies {P}.

#[export] Instance eta_alloc {P} : Eta (dsched_alloc_t P) := fun a =>
  Alloc (alloc_scheduler a) (alloc_pri a) (alloc_allocation a).
#[export] Instance eta_caddy {P} : Eta (dsched_shift_caddy_t P) := fun c =>
  Caddy (cd_status c) (cd_order c) (cd_info c) (cd_ninfo c) (cd_cbdata c) (cd_target c)
    (cd_uid c) (cd_gid c) (cd_pid c) (cd_flag c) (cd_hostname c) (cd_cmdline c)
    (cd_launcher c) (cd_scheduler c) (cd_queries c) (cd_nqueries c) (cd_req c) (cd_mt c)
    (cd_alloc c) (cd_trk c) (cd_allocations c) (cd_evcbfunc c) (cd_infocbfunc c)
    (cd_toolcbfunc c).
#[export] Instance eta_sys {P} : Eta (sys P) := fun s =>
  Sys (next s) (reqs s) (metas s) (caddies s) (trks s) (allocs s) (nodes s) (g_nodes s)
    (g_requests s) (avail_nnodes s) (fifo_reqs s) (null_bases s) (events s) (replies s).

(** ** Stores

    [Stored P A] says where the cells of class [A] live in the state. *)

Class Stored (P : Type -> Type) (A : Type) := {
  store : sys P -> gmap loc (cell A);
  with_store : gmap loc (cell A) -> sys P -> sys P;
  store_with : forall m s, store (with_store m s) = m;
  with_with : forall m m' s, with_store m (with_store m' s) = with_store m s;
  with_same : forall s, with_store (store s) s = s;
  next_with : forall m s, next (with_store m s) = next s
}.

Ltac stored f :=
  match goal with
  | |- Stored ?P ?A =>
    refine {| store := f; with_store := fun m (s : sys P) => s <| f := m |> |};
    [done | done | by intros [] | done]
  end.

#[export] Instance stored_req {P} : Stored P dsched_req_t.
Proof. stored (@reqs P). Defined.
#[export] Instance stored_meta {P} : Stored P dsched_meta_t.
Proof. stored (@metas P). Defined.
#[export] Instance stored_caddy {P} : Stored P (dsched_shift_caddy_t P).
Proof. stored (@caddies P). Defined.
#[export] Instance stored_trk {P} : Stored P dsched_op_tracker_t.
Proof. stored (@trks P). Defined.
#[export] Instance stored_alloc {P} : Stored P (dsched_alloc_t P).
Proof. stored (@allocs P). Defined.
#[export] Instance stored_node {P} : Stored P dsched_node_t.
Proof. stored (@nodes P). Defined.

Section Cells.
Context {P : Type -> Type} {A : Type} `{Stored P A}.

(** PMIX_NEW with the constructor's result. *)
Definition new (a : A) : act (sys P) loc := fun s =>
  let l := next s in
  Done (l, with_store (<[l := Cell 1 a]> (store s)) (s <| next := S l |>)).

(** The object a pointer designates. *)
Definition cell_at (p : option loc) : act (sys P) (cell A) := fun s =>
  match p with
  | None => Fault NullDeref
  | Some l => match store s !! l with Some c => Done (c, s) | None => Fault UseAfterFree end
  end.

Definition put (p : option loc) (c : cell A) : act (sys P) unit :=
  match p with
  | None => fail NullDeref
  | Some l => modify (fun s => with_store (<[l := c]> (store s)) s)
  end.

(** [*p]. *)
Definition deref (p : option loc) : act (sys P) A := c ← cell_at p; mret (body c).

(** [p->f = v], for an update [f] of the fields. *)
Definition assign (p : option loc) (f : A -> A) : act (sys P) unit :=
  c ← cell_at p; put p (Cell (refs c) (f (body c))).

(** PMIX_RETAIN. *)
Definition retain (p : option loc) : act (sys P) unit :=
  c ← cell_at p; put p (Cell (refs c + 1) (body c)).

(** PMIX_RELEASE: it dereferences its argument, null or not. *)
Definition release (des : A -> act (sys P) unit) (p : option loc) : act (sys P) unit :=
  c ← cell_at p;
  if refs c =? 1
  then des (body c) ;;
       modify (fun s => with_store (default ∅ (l ← p; Some (delete l (store s)))) s)
  else put p (Cell (refs c - 1) (body c)).
End Cells.

(** [if (NULL != p) PMIX_RELEASE(p)]. *)
Definition release_opt {P A} `{Stored P A} (des : A -> act (sys P) unit) (p : option loc)
    : act (sys P) unit :=
  if p then release des p else mret tt.

(** ** Constructors and destructors

    The strings, arrays and lists an object owns are part of its cell and go with
    it; a destructor is what it does to the other objects. *)

Section Constructors.
Context {P : Type -> Type} `{PArray P} `{PMIx}.

Definition scon : dsched_shift_caddy_t P :=
  Caddy PMIX_ERROR 0 [] 0 0 (load_procid None PMIX_RANK_INVALID) 0 0 0 false None None
    false false [] 0 None None None None pa_empty None None None.

Definition req_con : dsched_req_t :=
  Req (load_procid None PMIX_RANK_INVALID) 0 (-1) false [] None 0 PMIX_ERR_NOT_SUPPORTED
    None None 0 None None 0 None None 0 None None false None None false false false
    None None UINT32_MAX 0 None.

Definition drtcon : dsched_req_item_t := ReqItem None.

Definition alloc_con : dsched_alloc_t P := Alloc None 0 pa_empty.

Definition dmetacon : dsched_meta_t := Meta 0 0 None None.

Definition tcon : dsched_op_tracker_t := Trk 0 0 None.

(** The topology is left alone; the attributes are released. *)
Definition dsched_node_destruct (p : dsched_node_t) : act (sys P) unit :=
  each (fun kv => lift (dsched_attr_des kv)) (node_attributes p).

(** The class of trackers has no destructor. *)
Definition no_destructor {A} (p : A) : act (sys P) unit := mret tt.

Definition alloc_des (p : dsched_alloc_t P) : act (sys P) unit :=
  each (fun ptr => release dsched_node_destruct (Some ptr)) (pa_items (alloc_allocation p)).

Definition req_des (p : dsched_req_t) : act (sys P) unit :=
  release alloc_des (req_allocation p).

Definition drtdes (p : dsched_req_item_t) : act (sys P) unit :=
  release_opt req_des (item_req p).

Definition dmetades (p : dsched_meta_t) : act (sys P) unit :=
  release_opt req_des (mt_req p) ;;
  release_opt req_des (mt_activated p).

Definition sdes (p : dsched_shift_caddy_t P) : act (sys P) unit :=
  each (fun ptr => release alloc_des (Some ptr)) (pa_items (cd_allocations p)) ;;
  release_opt (A := dsched_op_tracker_t) no_destructor (cd_trk p).
End Constructors.

(** ** Events and replies *)

Section Posting.
Context {P : Type -> Type}.

(** A null [evbase]; the main base is never null. *)
Definition is_null_base (nulls : list base) (b : base) : bool :=
  match b with MainBase => false | _ => bool_decide (b ∈ nulls) end.

(** DSCHED_THREADSHIFT(obj, base, handler): the event embedded in [obj], an object
    of class [A], is set and becomes active on [base], behind those already active. An
    event that is set on a null base has none: the library warns and does not make it
    active. *)
Definition DSCHED_THREADSHIFT (A : Type) `{Stored P A} (obj : option loc) (b : base)
    (h : handler) : act (sys P) unit :=
  cell_at (A := A) obj ;;
  match obj with
  | None => fail NullDeref
  | Some l =>
      modify (fun s => if is_null_base (null_bases s) b then s
                       else s <| events := events s ++ [Ev b h l] |>)
  end.

(** [if (NULL != cbfunc) cbfunc(status, NULL, 0, cbdata, NULL, NULL)]. *)
Definition call_cbfunc (cbfunc : option Z) (status cbdata : Z) : act (sys P) unit :=
  match cbfunc with
  | Some f => modify (fun s => s <| replies := replies s ++ [Reply f status cbdata] |>)
  | None => mret tt
  end.

Definition call (cbfunc : option Z) (status cbdata : Z) : list reply :=
  match cbfunc with Some f => [Reply f status cbdata] | None => [] end.

Lemma call_cbfunc_run {B} (s : sys P) f st d (k : unit -> act (sys P) B) :
  (call_cbfunc f st d ≫= k) s = k tt (s <| replies := replies s ++ call f st d |>).
Proof. destruct f; [done|]. destruct s. simpl. by rewrite app_nil_r. Qed.

Lemma call_if_run (b : bool) (s : sys P) f st d :
  (if b then call_cbfunc f st d else mret tt) s =
  Done (tt, s <| replies := replies s ++ if b then call f st d else [] |>).
Proof.
  destruct b; [by destruct f, s; simpl; rewrite ?app_nil_r|]. destruct s. simpl.
  by rewrite app_nil_r.
Qed.
End Posting.

(** ** Execution lemmas

    One equation per primitive, in the shape the handlers use it. *)

Section Steps.
Context {P : Type -> Type} {A : Type} `{Stored P A} {B : Type}.
Implicit Types (s : sys P) (l : loc) (c : cell A) (des : A -> act (sys P) unit).

Lemma cell_at_run s l c (k : cell A -> act (sys P) B) :
  store s !! l = Some c -> (cell_at (Some l) ≫= k) s = k c s.
Proof. intros Hl. unfold mbind, act_bind, cell_at. by rewrite Hl. Qed.

Lemma deref_run s l c (k : A -> act (sys P) B) :
  store s !! l = Some c -> (deref (Some l) ≫= k) s = k (body c) s.
Proof. intros Hl. unfold deref, mbind, act_bind, cell_at. by rewrite Hl. Qed.

Lemma assign_run s l c f (k : unit -> act (sys P) B) :
  store s !! l = Some c ->
  (assign (Some l) f ≫= k) s =
  k tt (with_store (<[l := Cell (refs c) (f (body c))]> (store s)) s).
Proof. intros Hl. unfold assign, mbind, act_bind, cell_at. by rewrite Hl. Qed.

Lemma retain_run s l c (k : unit -> act (sys P) B) :
  store s !! l = Some c ->
  (retain (A := A) (Some l) ≫= k) s =
  k tt (with_store (<[l := Cell (refs c + 1) (body c)]> (store s)) s).
Proof. intros Hl. unfold retain, mbind, act_bind, cell_at. by rewrite Hl. Qed.

Lemma release_dec s l c des (k : unit -> act (sys P) B) :
  store s !! l = Some c -> refs c <> 1 ->
  (release des (Some l) ≫= k) s =
  k tt (with_store (<[l := Cell (refs c - 1) (body c)]> (store s)) s).
Proof.
  intros Hl Hc. unfold release, mbind, act_bind, cell_at. rewrite Hl.
  by destruct (Z.eqb_spec (refs c) 1).
Qed.

Lemma release_last s l c des (k : unit -> act (sys P) B) :
  store s !! l = Some c -> refs c = 1 ->
  (release des (Some l) ≫= k) s =
  (des (body c) ;; modify (fun s => with_store (delete l (store s)) s) ;; k tt) s.
Proof.
  intros Hl Hc. unfold release, mbind, act_bind, cell_at. rewrite Hl, Hc. simpl.
  by destruct (des (body c) s) as [[[] s']|].
Qed.

Lemma new_run s (a : A) (k : loc -> act (sys P) B) :
  (new a ≫= k) s =
  k (next s) (with_store (<[next s := Cell 1 a]> (store s)) (s <| next := S (next s) |>)).
Proof. done. Qed.

Lemma shift_run s l c b h (k : unit -> act (sys P) B) :
  store s !! l = Some c -> is_null_base (null_bases s) b = false ->
  (DSCHED_THREADSHIFT A (Some l) b h ≫= k) s =
  k tt (s <| events := events s ++ [Ev b h l] |>).
Proof.
  intros Hl Hb. unfold DSCHED_THREADSHIFT, mbind, act_bind, cell_at, modify. by rewrite Hl, Hb.
Qed.

(** An event on a null base is not heard of again. *)
Lemma shift_null s l c b h (k : unit -> act (sys P) B) :
  store s !! l = Some c -> is_null_base (null_bases s) b = true ->
  (DSCHED_THREADSHIFT A (Some l) b h ≫= k) s = k tt s.
Proof.
  intros Hl Hb. unfold DSCHED_THREADSHIFT, mbind, act_bind, cell_at, modify. by rewrite Hl, Hb.
Qed.

(** A dangling pointer, and the null pointer, fault whatever follows. *)
Lemma cell_at_fault s (p : option loc) f (k : cell A -> act (sys P) B) :
  cell_at p s = Fault f -> (cell_at p ≫= k) s = Fault f.
Proof. apply act_bind_Fault. Qed.

Lemma release_fault s (p : option loc) f des (k : unit -> act (sys P) B) :
  cell_at (A := A) p s = Fault f -> (release des p ≫= k) s = Fault f.
Proof. intros E. unfold release, mbind, act_bind. by rewrite E. Qed.
End Steps.

Section MoreSteps.
Context {S B : Type}.

Lemma gets_run {A} (s : S) (f : S -> A) (k : A -> act S B) : (gets f ≫= k) s = k (f s) s.
Proof. done. Qed.

Lemma modify_run (s : S) (f : S -> S) (k : unit -> act S B) : (modify f ≫= k) s = k tt (f s).
Proof. done. Qed.

Lemma ret_run {A} (s : S) (a : A) (k : A -> act S B) : (mret a ≫= k) s = k a s.
Proof. done. Qed.

Lemma lift_run {A} (s : S) (o : outcome A) a (k : A -> act S B) :
  o = Done a -> (lift o ≫= k) s = k a s.
Proof. by intros ->. Qed.

Lemma bind_assoc {A C} (s : S) (m : act S A) (f : A -> act S B) (g : B -> act S C) :
  ((m ≫= f) ≫= g) s = (m ≫= (fun x => f x ≫= g)) s.
Proof. unfold mbind, act_bind. by destruct (m s) as [[]|]. Qed.

Lemma bind_tail (s : S) (m : act S B) : (m ≫= mret) s = m s.
Proof. unfold mbind, act_bind, mret, act_ret. by destruct (m s) as [[]|]. Qed.
End MoreSteps.

(** Two locations differ: by a hypothesis, or by their order. *)
Ltac apart :=
  first
  [ assumption | apply not_eq_sym; assumption
  | repeat match goal with H : _ <> _ |- _ => clear H end; lia ].

(** Look a location up in a chain of updates. The context says which locations
    differ. *)
Ltac look :=
  cbn [store with_store stored_req stored_meta stored_caddy stored_trk stored_alloc stored_node
    set_field eta_of eta_sys reqs metas caddies trks allocs nodes next
    g_nodes g_requests avail_nnodes fifo_reqs null_bases events replies];
  repeat first [rewrite lookup_insert_eq | rewrite lookup_delete_ne by apart
    | rewrite lookup_insert_ne by apart];
  solve [eassumption | reflexivity].

(** Run the next primitive of the action at the head of the goal. *)
Ltac run1 :=
  first
  [ rewrite bind_assoc
  | rewrite in_progress_passes | rewrite pa_items_empty
  | rewrite new_run | rewrite gets_run | rewrite modify_run | rewrite ret_run
  | rewrite call_cbfunc_run
  | erewrite deref_run by look
  | erewrite assign_run by look
  | erewrite retain_run by look
  | erewrite shift_run by look
  | erewrite release_dec by first [look | cbn [refs]; lia]
  | erewrite release_last by first [look | reflexivity]
  | match goal with
    | |- DSCHED_THREADSHIFT _ _ _ _ _ = _ => rewrite <- bind_tail
    | |- assign _ _ _ = _ => rewrite <- bind_tail
    | |- release _ _ _ = _ => rewrite <- bind_tail
    | |- modify _ _ = _ => rewrite <- bind_tail
    | |- mret _ _ = _ => reflexivity
    end ];
  simpl.

(** ** Theorems *)

Section Theorems.
Context {P : Type -> Type} `{PArray P} `{PMIx}.

Lemma call_run (s : sys P) f st x :
  call_cbfunc f st x s = Done (tt, s <| replies := replies s ++ call f st x |>).
Proof. apply (call_if_run true). Qed.

Lemma release_caddy_run (s : sys P) cd c :
  caddies s !! cd = Some (Cell 1 c) -> cd_allocations c = pa_empty -> cd_trk c = None ->
  release (A := dsched_shift_caddy_t P) sdes (Some cd) s =
    Done (tt, s <| caddies := delete cd (caddies s) |>).
Proof.
  intros Hc Ha Ht. unfold sdes, release_opt. run1. run1. rewrite Ha, Ht. repeat run1.
Qed.

Lemma node_destruct_run {B} p (s : sys P) (k : unit -> act (sys P) B) :
  attrs_ok (node_attributes p) -> (dsched_node_destruct p ≫= k) s = k tt s.
Proof.
  intros Hok. apply act_bind_Done. unfold dsched_node_destruct.
  induction Hok as [|kv l Hkv _ IH]; [done|]. simpl.
  erewrite act_bind_Done; [exact IH|]. unfold lift. by rewrite attr_des_ok.
Qed.

(** A node only the pool refers to. *)
Definition pooled (s : sys P) (n : loc) : Prop :=
  exists c, nodes s !! n = Some (Cell 1 c) /\ attrs_ok (node_attributes c).

Lemma release_nodes_run l (s : sys P) :
  NoDup l -> (forall n, n ∈ l -> pooled s n) ->
  each (fun ptr => release dsched_node_destruct (Some ptr)) l s =
  Done (tt, s <| nodes := filter (fun x => x.1 ∉ l) (nodes s) |>).
Proof.
  revert s; induction l as [|n l IH]; intros s Hnd Hl.
  - simpl. unfold mret, act_ret. rewrite map_filter_id by set_solver. by destruct s.
  - apply NoDup_cons in Hnd as [Hn Hnd]. destruct (Hl n) as (c & Hc & Hok); [set_solver|].
    simpl. run1. rewrite node_destruct_run by done. repeat run1. rewrite IH; [|done|].
    + simpl. f_equal. f_equal. f_equal. apply map_eq. intros i. apply option_eq. intros x.
      rewrite !map_lookup_filter_Some, lookup_delete_Some. simpl. set_solver.
    + intros m Hm. unfold pooled. simpl. rewrite lookup_delete_ne by (intros ->; done).
      apply Hl. set_solver.
Qed.

(** Nodes are put in an allocation without a reference of their own, so releasing
    an allocation whose nodes only have the pool's frees them: they leave the store,
    and nothing takes their addresses out of the global array of nodes. *)
Theorem alloc_des_frees_nodes a (s : sys P) :
  NoDup (pa_items (alloc_allocation a)) ->
  (forall n, n ∈ pa_items (alloc_allocation a) -> pooled s n) ->
  exists s', alloc_des a s = Done (tt, s') /\ g_nodes s' = g_nodes s /\
    forall n, nodes s' !! n =
      if decide (n ∈ pa_items (alloc_allocation a)) then None else nodes s !! n.
Proof.
  intros Hnd Hl. eexists. split; [by apply release_nodes_run|]. split; [done|]. intros n. simpl.
  apply option_eq. intros x. rewrite map_lookup_filter_Some. simpl. case_decide; naive_solver.
Qed.
End Theorems.

#[local] Existing Instance sample_pmix.

Lemma alloc_des_frees_nodes_witness :
  let node := Cell 1 dsched_node_construct in
  let s : sys slots :=
    Sys 2 ∅ ∅ ∅ ∅ ∅ {[0%nat := node; 1%nat := node]} [Some 0%nat; Some 1%nat] pa_empty 0 [] [] [] [] in
  exists s', alloc_des (Alloc (Some "fifo"%string) 1 [Some 1%nat]) s = Done (tt, s') /\
    g_nodes s' = [Some 0%nat; Some 1%nat] /\ nodes s' !! 1%nat = None.
Proof.
  intros node s.
  destruct (alloc_des_frees_nodes (P := slots) (Alloc (Some "fifo"%string) 1 [Some 1%nat]) s)
    as (s' & Hs & Hg & Hn).
  - vm_compute. repeat constructor; set_solver.
  - intros n Hin. exists dsched_node_construct. vm_compute in Hin.
    apply list_elem_of_singleton in Hin as ->. split; [reflexivity|constructor].
  - exists s'. split; [exact Hs|]. split; [exact Hg|]. rewrite Hn. reflexivity.
Defined.
