(* ===== verification/Session.v ===== *)
(** Allocation and session-control requests: src/tools/dsched/session.c.

    [dsched_alloc_fn] and [dsched_session_ctrl_fn] are the upcalls of the PMIx
    server; they record the request and shift it to the scheduler's thread, where
    [request_init] decodes the directives and starts the scheduling process. *)

From S2P Require Import Prelude Pmix Constants Attr Globals Objects.

Section Session.
Context {P : Type -> Type} `{PArray P} `{PMIx}.

(** ** Decoding the directives *)

(** [strdup(req->data[n].value.data.string)]. *)
Definition info_string (i : pmix_info) : outcome cstr :=
  s ← data_string (ivalue i); strdup s.

(** The state of the loop: the request, the first error, the NOT_WAITING flag. *)
Record decoding := Decoding { d_req : dsched_req_t; d_rcerr : Z; d_notwaiting : bool }.
#[local] Instance eta_decoding : Eta decoding := fun d =>
  Decoding (d_req d) (d_rcerr d) (d_notwaiting d).

Definition set_string (d : decoding) (i : pmix_info) (f : cstr -> dsched_req_t -> dsched_req_t)
    : outcome decoding :=
  x ← info_string i; Done (d <| d_req := f x (d_req d) |>).

(** A numeric directive: on failure the field keeps its value and the first error
    is tracked. *)
Definition set_number (d : decoding) (i : pmix_info) (t : dtype)
    (f : Z -> dsched_req_t -> dsched_req_t) : outcome decoding :=
  let '(rc, n) := get_number (ivalue i) t in
  if ok rc then Done (d <| d_req := f n (d_req d) |>)
  else if ok (d_rcerr d) then Done (d <| d_rcerr := rc |>) else Done d.

Definition set_flag (d : decoding) (i : pmix_info) (f : bool -> dsched_req_t -> dsched_req_t)
    : outcome decoding :=
  Done (d <| d_req := f (value_true (ivalue i)) (d_req d) |>).

Definition process_info (d : decoding) (i : pmix_info) : outcome decoding :=
  match ikey i with
  | PMIX_ALLOC_REQ_ID => set_string d i (fun x r => r <| user_refid := x |>)
  | PMIX_ALLOC_ID => set_string d i (fun x r => r <| alloc_refid := x |>)
  | PMIX_SESSION_ID => set_number d i PMIX_UINT32 (fun n r => r <| sessionID := n |>)
  | PMIX_ALLOC_NUM_NODES =>
      set_number d i PMIX_UINT64 (fun n r => r <| num_nodes := sint 32 n |>)
  | PMIX_ALLOC_NODE_LIST => set_string d i (fun x r => r <| nlist := x |>)
  | PMIX_ALLOC_EXCLUDE => set_string d i (fun x r => r <| exclude := x |>)
  | PMIX_ALLOC_NUM_CPUS =>
      set_number d i PMIX_UINT64 (fun n r => r <| num_cpus := sint 32 n |>)
  | PMIX_ALLOC_NUM_CPU_LIST => set_string d i (fun x r => r <| ncpulist := x |>)
  | PMIX_ALLOC_CPU_LIST => set_string d i (fun x r => r <| cpulist := x |>)
  | PMIX_ALLOC_MEM_SIZE => set_number d i PMIX_FLOAT (fun n r => r <| memsize := n |>)
  | PMIX_ALLOC_TIME => set_string d i (fun x r => r <| req_time := x |>)
  | PMIX_ALLOC_QUEUE => set_string d i (fun x r => r <| queue := x |>)
  | PMIX_ALLOC_PREEMPTIBLE => set_flag d i (fun b r => r <| preemptible := b |>)
  | PMIX_ALLOC_LEND => set_string d i (fun x r => r <| lend := x |>)
  | PMIX_ALLOC_IMAGE => set_string d i (fun x r => r <| image := x |>)
  | PMIX_ALLOC_WAIT_ALL_NODES => set_flag d i (fun b r => r <| waitall := b |>)
  | PMIX_ALLOC_SHARE => set_flag d i (fun b r => r <| share := b |>)
  | PMIX_ALLOC_NOSHELL => set_flag d i (fun b r => r <| noshell := b |>)
  | PMIX_ALLOC_DEPENDENCY => set_string d i (fun x r => r <| dependency := x |>)
  | PMIX_ALLOC_BEGIN => set_string d i (fun x r => r <| begintime := x |>)
  | PMIX_ALLOC_NOT_WAITING => Done (d <| d_notwaiting := true |>)
  | _ => Done d
  end.

Fixpoint process_infos (d : decoding) (l : list pmix_info) : outcome decoding :=
  match l with
  | [] => Done d
  | i :: l => d' ← process_info d i; process_infos d' l
  end.

Definition decode (r : dsched_req_t) : outcome decoding :=
  process_infos (Decoding r PMIX_SUCCESS false) (req_data r).

(** Decoding leaves the callback, the index, the status and the allocation alone. *)
Definition same_identity (r r' : dsched_req_t) : Prop :=
  req_cbfunc r' = req_cbfunc r /\ req_cbdata r' = req_cbdata r /\
  req_status r' = req_status r /\ req_index r' = req_index r /\
  req_allocation r' = req_allocation r /\ req_data r' = req_data r /\
  requestor r' = requestor r.

Lemma process_info_identity d i d' :
  process_info d i = Done d' -> same_identity (d_req d) (d_req d').
Proof.
  unfold process_info, set_string, set_number, set_flag. intros E.
  destruct (ikey i); try (destruct (info_string i); simpl in E);
    try (destruct (get_number (ivalue i) _) as [rc n]; destruct (ok rc); [|destruct (ok (d_rcerr d))]);
    by simplify_eq.
Qed.

Lemma process_infos_identity l d d' :
  process_infos d l = Done d' -> same_identity (d_req d) (d_req d').
Proof.
  revert d; induction l as [|i l IH]; intros d; simpl; [by intros [= <-]|].
  destruct (process_info d i) as [d1|] eqn:E; [|done]. intros Hl%IH.
  apply process_info_identity in E. unfold same_identity in *. destruct_and!. split_and!; congruence.
Qed.

Lemma decode_identity r d : decode r = Done d -> same_identity r (d_req d).
Proof. apply process_infos_identity. Qed.

(** ** Handlers *)

Definition request_init (req : loc) : act (sys P) unit :=
  r ← deref (Some req);
  d ← lift (decode r);
  assign (Some req) (fun _ => d_req d) ;;
  if ok (d_rcerr d) then
    arr ← gets g_requests;
    modify (fun s => s <| g_requests := (pa_add arr req).2 |>) ;;
    assign (Some req) (fun r => r <| req_index := (pa_add arr req).1 |>) ;;
    DSCHED_THREADSHIFT dsched_req_t (Some req) MainBase H_meta_base_schedule ;;
    if d_notwaiting d then call_cbfunc (req_cbfunc (d_req d)) (d_rcerr d) (req_cbdata (d_req d))
    else mret tt
  else
    call_cbfunc (req_cbfunc (d_req d)) (d_rcerr d) (req_cbdata (d_req d)) ;;
    release req_des (Some req).

(** The request an upcall records. [now] is what time() stores. *)
Definition alloc_request (client : proc) (directive' : Z) (data : list pmix_info)
    (cbfunc : option Z) (cbdata now : Z) : dsched_req_t :=
  req_con <| requestor := load_procid (Some (nspace client)) (rank client) |>
          <| directive := directive' |> <| req_data := data |>
          <| req_cbfunc := cbfunc |> <| req_cbdata := cbdata |> <| received := now |>.

Definition dsched_alloc_fn (client : proc) (directive' : Z) (data : list pmix_info)
    (cbfunc : option Z) (cbdata now : Z) : act (sys P) Z :=
  req ← new req_con;
  assign (Some req) (fun _ => alloc_request client directive' data cbfunc cbdata now) ;;
  DSCHED_THREADSHIFT dsched_req_t (Some req) MainBase H_request_init ;;
  mret PMIX_SUCCESS.

Definition session_control (req : loc) : act (sys P) unit := mret tt.

Definition control_request (client : proc) (sid : Z) (directives : list pmix_info)
    (cbfunc : option Z) (cbdata : Z) : dsched_req_t :=
  req_con <| requestor := load_procid (Some (nspace client)) (rank client) |>
          <| sessionID := sid |> <| req_data := directives |>
          <| req_cbfunc := cbfunc |> <| req_cbdata := cbdata |>.

Definition dsched_session_ctrl_fn (client : proc) (sid : Z) (directives : list pmix_info)
    (cbfunc : option Z) (cbdata : Z) : act (sys P) Z :=
  req ← new req_con;
  assign (Some req) (fun _ => control_request client sid directives cbfunc cbdata) ;;
  DSCHED_THREADSHIFT dsched_req_t (Some req) MainBase H_session_control ;;
  mret PMIX_SUCCESS.

(** ** What decoding computes

    A field is filled by the directives with its key; the last one wins. *)

Definition string_for (k : pmix_key) (i : pmix_info) : option cstr :=
  if decide (ikey i = k)
  then match info_string i with Done x => Some x | Fault _ => None end
  else None.

Definition number_for (k : pmix_key) (t : dtype) (i : pmix_info) : option Z :=
  if decide (ikey i = k)
  then let '(rc, n) := get_number (ivalue i) t in if ok rc then Some n else None
  else None.

Definition flag_for (k : pmix_key) (i : pmix_info) : option bool :=
  if decide (ikey i = k) then Some (value_true (ivalue i)) else None.

Definition string_fields : list (pmix_key * (dsched_req_t -> cstr)) :=
  [(PMIX_ALLOC_REQ_ID, user_refid); (PMIX_ALLOC_ID, alloc_refid);
   (PMIX_ALLOC_NODE_LIST, nlist); (PMIX_ALLOC_EXCLUDE, exclude);
   (PMIX_ALLOC_NUM_CPU_LIST, ncpulist); (PMIX_ALLOC_CPU_LIST, cpulist);
   (PMIX_ALLOC_TIME, req_time); (PMIX_ALLOC_QUEUE, queue); (PMIX_ALLOC_LEND, lend);
   (PMIX_ALLOC_IMAGE, image); (PMIX_ALLOC_DEPENDENCY, dependency);
   (PMIX_ALLOC_BEGIN, begintime)].

Definition number_fields : list (pmix_key * dtype * (Z -> Z) * (dsched_req_t -> Z)) :=
  [(PMIX_SESSION_ID, PMIX_UINT32, fun n => n, sessionID);
   (PMIX_ALLOC_NUM_NODES, PMIX_UINT64, sint 32, num_nodes);
   (PMIX_ALLOC_NUM_CPUS, PMIX_UINT64, sint 32, num_cpus);
   (PMIX_ALLOC_MEM_SIZE, PMIX_FLOAT, fun n => n, memsize)].

Definition flag_fields : list (pmix_key * (dsched_req_t -> bool)) :=
  [(PMIX_ALLOC_PREEMPTIBLE, preemptible); (PMIX_ALLOC_WAIT_ALL_NODES, waitall);
   (PMIX_ALLOC_SHARE, share); (PMIX_ALLOC_NOSHELL, noshell)].

(** The status a directive is decoded with. *)
Definition info_rc (i : pmix_info) : Z :=
  match list_find (fun f => ikey i = f.1.1.1) number_fields with
  | Some (_, (_, t, _, _)) => (get_number (ivalue i) t).1
  | None => PMIX_SUCCESS
  end.

(** The first error, or success. *)
Fixpoint first_error (l : list Z) : Z :=
  match l with
  | [] => PMIX_SUCCESS
  | rc :: l => if ok rc then first_error l else rc
  end.

(** [last_of f l x]: what the last element of [l] that [f] accepts gives, else [x]. *)
Definition last_of {A} (f : pmix_info -> option A) (l : list pmix_info) (x : A) : A :=
  foldl (fun x i => default x (f i)) x l.

Ltac by_key E i :=
  unfold process_info, set_string, set_number, set_flag in E;
  destruct (ikey i) eqn:?; try (destruct (info_string i) eqn:?; simpl in E);
  try (destruct (get_number (ivalue i) _) as [rc n] eqn:?; destruct (ok rc) eqn:?;
       [|destruct (ok (d_rcerr _)) eqn:?]);
  simplify_eq/=.

Lemma process_info_strings d i d' :
  process_info d i = Done d' ->
  Forall (fun f => f.2 (d_req d') = default (f.2 (d_req d)) (string_for f.1 i)) string_fields.
Proof.
  intros E. unfold string_fields, string_for. by_key E i;
    repeat constructor; simpl; repeat case_decide; congruence.
Qed.

Lemma process_info_numbers d i d' :
  process_info d i = Done d' ->
  Forall (fun f => f.2 (d_req d') =
    default (f.2 (d_req d)) (f.1.2 <$> number_for f.1.1.1 f.1.1.2 i)) number_fields.
Proof.
  intros E. unfold number_fields, number_for. by_key E i;
    repeat constructor; simpl; repeat case_decide; simplify_eq/=; try done;
    repeat match goal with
    | H : get_number _ _ = _ |- _ => rewrite H; clear H
    | H : ok _ = _ |- _ => rewrite H; clear H
    end; done.
Qed.

Lemma process_info_flags d i d' :
  process_info d i = Done d' ->
  Forall (fun f => f.2 (d_req d') = default (f.2 (d_req d)) (flag_for f.1 i)) flag_fields.
Proof.
  intros E. unfold flag_fields, flag_for. by_key E i;
    repeat constructor; simpl; repeat case_decide; congruence.
Qed.

Lemma process_info_status d i d' :
  process_info d i = Done d' ->
  d_rcerr d' = (if ok (d_rcerr d) then info_rc i else d_rcerr d) /\
  d_notwaiting d' = d_notwaiting d || bool_decide (ikey i = PMIX_ALLOC_NOT_WAITING).
Proof.
  intros E. unfold info_rc, number_fields. by_key E i;
    simpl; repeat case_decide; simplify_eq/=; rewrite ?orb_true_r, ?orb_false_r;
    repeat match goal with
    | H : get_number _ _ = _ |- _ => rewrite H; clear H
    | H : ok _ = _ |- _ => rewrite H
    end; simpl; split; try done;
    repeat match goal with
    | |- context [ok ?x] => destruct (ok x) eqn:?
    | H : ok _ = true |- _ => apply ok_true in H
    end; congruence.
Qed.

Lemma process_infos_field {A} (get : dsched_req_t -> A) (f : pmix_info -> option A) :
  (forall d i d', process_info d i = Done d' ->
    get (d_req d') = default (get (d_req d)) (f i)) ->
  forall l d d', process_infos d l = Done d' -> get (d_req d') = last_of f l (get (d_req d)).
Proof.
  intros Hstep l. induction l as [|i l IH]; intros d d'; simpl; [by intros [= <-]|].
  destruct (process_info d i) as [d1|] eqn:E; [|done]. intros Hl.
  by rewrite (IH _ _ Hl), (Hstep _ _ _ E).
Qed.

Lemma process_infos_status l d d' :
  process_infos d l = Done d' ->
  d_rcerr d' = (if ok (d_rcerr d) then first_error (info_rc <$> l) else d_rcerr d) /\
  d_notwaiting d' =
    d_notwaiting d || existsb (fun i => bool_decide (ikey i = PMIX_ALLOC_NOT_WAITING)) l.
Proof.
  revert d; induction l as [|i l IH]; intros d; simpl.
  { intros [= <-]. rewrite orb_false_r. destruct (ok (d_rcerr d)) eqn:E; [|done].
    by apply ok_true in E. }
  destruct (process_info d i) as [d1|] eqn:E; [|done]. intros Hl.
  apply process_info_status in E as [E1 E2]. apply IH in Hl as [-> ->].
  rewrite E1, E2, orb_assoc. split; [|done].
  destruct (ok (d_rcerr d)) eqn:Eo; [done|]. by rewrite Eo.
Qed.

(** A directive whose value is read as a string holds one. *)
Definition carries_string (i : pmix_info) : Prop :=
  ikey i ∈ string_fields.*1 -> exists s, data_string (ivalue i) = Done (Some s).

Lemma info_string_Done i x :
  info_string i = Done x -> exists s, data_string (ivalue i) = Done (Some s).
Proof.
  unfold info_string. destruct (data_string (ivalue i)) as [[s|]|]; try done. by exists s.
Qed.

Lemma process_info_total d i : (exists d', process_info d i = Done d') <-> carries_string i.
Proof.
  unfold carries_string, process_info, set_string, set_number, set_flag.
  split.
  - intros [d' E] Hk. simpl in Hk.
    destruct (ikey i); try (by exfalso; revert Hk; rewrite !elem_of_cons, elem_of_nil; naive_solver);
      (destruct (info_string i) eqn:Es; [by eapply info_string_Done|done]).
  - intros Hs. destruct (ikey i) eqn:Ek;
      try (by eexists);
      try (by destruct (get_number (ivalue i) _) as [rc n]; destruct (ok rc);
           [by eexists|destruct (ok (d_rcerr d)); by eexists]);
      destruct Hs as [x Hx]; try (simpl; rewrite !elem_of_cons; naive_solver);
      unfold info_string; rewrite Hx; by eexists.
Qed.

Lemma process_infos_total l d :
  (exists d', process_infos d l = Done d') <-> Forall carries_string l.
Proof.
  revert d; induction l as [|i l IH]; intros d; simpl; [split; [constructor|by eexists]|].
  rewrite Forall_cons, <- (process_info_total d i). split.
  - intros [d' E]. destruct (process_info d i) as [d1|]; [|done].
    split; [by eexists|]. apply (IH d1). by exists d'.
  - intros [[d1 E] Hl]. rewrite E. by apply (IH d1).
Qed.

(** ** Theorems *)

(** C17: What [request_init] makes of the directives of a request: every field is that
    of the last directive with its key that could be decoded (counts narrowed to a
    C int), the error it reports is the first one met, and the requestor is told not
    to wait exactly when a directive says so. The identity of the request, its
    callback and its status are left alone. *)
Theorem decode_spec r d :
  decode r = Done d ->
  d_rcerr d = first_error (info_rc <$> req_data r) /\
  d_notwaiting d =
    existsb (fun i => bool_decide (ikey i = PMIX_ALLOC_NOT_WAITING)) (req_data r) /\
  (forall k get, (k, get) ∈ string_fields ->
    get (d_req d) = last_of (string_for k) (req_data r) (get r)) /\
  (forall k t conv get, (k, t, conv, get) ∈ number_fields ->
    get (d_req d) = last_of (fun i => conv <$> number_for k t i) (req_data r) (get r)) /\
  (forall k get, (k, get) ∈ flag_fields ->
    get (d_req d) = last_of (flag_for k) (req_data r) (get r)) /\
  same_identity r (d_req d).
Proof.
  intros E. split_and!.
  - pose proof (process_infos_status _ _ _ E) as [-> _]. simpl. by rewrite ok_success.
  - by pose proof (process_infos_status _ _ _ E) as [_ ->].
  - intros k get Hk. refine (process_infos_field get _ _ _ _ _ E). intros d1 i d2 E1.
    exact (proj1 (Forall_forall _ _) (process_info_strings _ _ _ E1) _ Hk).
  - intros k t conv get Hk. refine (process_infos_field get _ _ _ _ _ E). intros d1 i d2 E1.
    exact (proj1 (Forall_forall _ _) (process_info_numbers _ _ _ E1) _ Hk).
  - intros k get Hk. refine (process_infos_field get _ _ _ _ _ E). intros d1 i d2 E1.
    exact (proj1 (Forall_forall _ _) (process_info_flags _ _ _ E1) _ Hk).
  - by apply decode_identity.
Qed.

(** Decoding is defined exactly when every directive read as a string holds one:
    neither the type of the value nor a null string is checked before [strdup]. *)
Theorem decode_defined r :
  (exists d, decode r = Done d) <-> Forall carries_string (req_data r).
Proof. apply process_infos_total. Qed.

(** A request one of whose numeric directives cannot be decoded brings the
    scheduler down: after the error is reported, releasing the request runs its
    destructor, which releases the allocation that was never made. *)
Theorem bad_request_faults client dir data cbfunc cbdata now d (s : sys P) :
  decode (alloc_request client dir data cbfunc cbdata now) = Done d ->
  d_rcerr d <> PMIX_SUCCESS ->
  (dsched_alloc_fn client dir data cbfunc cbdata now ;; request_init (next s)) s
    = Fault NullDeref.
Proof.
  intros Ed Hrc. unfold dsched_alloc_fn, request_init. repeat run1.
  erewrite lift_run by exact Ed. apply ok_false in Hrc. rewrite Hrc. repeat run1.
  assert (req_allocation (d_req d) = None) as Ha.
  { apply decode_identity in Ed as (_ & _ & _ & _ & -> & _). done. }
  unfold req_des. rewrite Ha. done.
Qed.
End Session.

Definition num_nodes_info (n : Z) : pmix_info :=
  Info PMIX_ALLOC_NUM_NODES (Value PMIX_UINT64 (UNum PMIX_UINT64 n)).
Definition string_info (k : pmix_key) (s : string) : pmix_info :=
  Info k (Value PMIX_STRING (UString (SStr s))).

#[local] Existing Instance sample_pmix.

Definition sample_request : dsched_req_t :=
  alloc_request (Proc "tool" 0) 1
    [num_nodes_info 4; string_info PMIX_ALLOC_QUEUE "debug"; num_nodes_info (2 ^ 31)]
    (Some 7) 1 0.

Lemma decode_spec_witness :
  exists d, decode sample_request = Done d /\ num_nodes (d_req d) = - 2 ^ 31 /\
    queue (d_req d) = Some "debug"%string.
Proof.
  destruct (decode sample_request) as [d|f] eqn:E; [|vm_compute in E; discriminate].
  exists d. split; [done|].
  destruct (decode_spec sample_request d E) as (_ & _ & Hs & Hn & _). split.
  - rewrite (Hn PMIX_ALLOC_NUM_NODES PMIX_UINT64 (sint 32) num_nodes);
      [reflexivity|]. unfold number_fields. set_solver.
  - rewrite (Hs PMIX_ALLOC_QUEUE queue); [reflexivity|]. unfold string_fields. set_solver.
Defined.

Definition idle : sys slots := Sys 0 ∅ ∅ ∅ ∅ ∅ ∅ pa_empty pa_empty 0 [] [] [] [].

Lemma bad_request_faults_witness :
  (dsched_alloc_fn (Proc "tool" 0) 1 [string_info PMIX_ALLOC_NUM_NODES "four"]
     (Some 7) 1 0 ;; request_init 0) idle = Fault NullDeref.
Proof.
  apply (bad_request_faults (Proc "tool" 0) 1
    [string_info PMIX_ALLOC_NUM_NODES "four"] (Some 7) 1 0
    (Decoding (alloc_request (Proc "tool" 0) 1 [string_info PMIX_ALLOC_NUM_NODES "four"]
      (Some 7) 1 0) (-27) false) idle); [reflexivity|discriminate].
Defined.
