(* ===== verification/Meta.v ===== *)
(** The meta framework: src/mca/dmeta/base/meta_base_frame.c, whose
    [dsched_meta_base_schedule] hands a request to every active meta module and
    whose [dsched_meta_base_cbfunc] answers the requestor when all have responded,
    and the module shipped with it, src/mca/dmeta/pri/meta_pri.c. *)

From S2P Require Import Prelude Pmix Constants Attr Globals Objects.

Section Meta.
Context {P : Type -> Type} `{PArray P} `{PMIx}.

(** The [schedule] entry of a module, null when it has none. *)
Definition meta_module : Type := option (loc -> bool -> act (sys P) Z).

(** ** The base *)

(** The loop over the active modules; [assign_flag] is the local [assign]. *)
Fixpoint meta_schedule_modules (mt : loc) (mods : list meta_module) (assign_flag : bool)
    : act (sys P) unit :=
  match mods with
  | [] => mret tt
  | None :: mods => meta_schedule_modules mt mods assign_flag
  | Some schedule :: mods =>
      rc ← schedule mt assign_flag;
      if negb (ok rc) && negb (bool_decide (rc = PMIX_OPERATION_IN_PROGRESS)) then
        assign (Some mt) (fun m => m <| mt_nresponded := mt_nresponded m + 1 |>) ;;
        meta_schedule_modules mt mods assign_flag
      else meta_schedule_modules mt mods false
  end.

Definition dsched_meta_base_schedule (actives : list meta_module) (req : option loc)
    : act (sys P) unit :=
  mt ← new dmetacon;
  (if req then retain (A := dsched_req_t) req else mret tt) ;;
  assign (Some mt) (fun m =>
    m <| mt_req := req |> <| mt_nactive := Z.of_nat (length actives) |>) ;;
  meta_schedule_modules mt actives true ;;
  m ← deref (A := dsched_meta_t) (Some mt);
  if mt_nactive m =? mt_nresponded m then
    assign req (fun r : dsched_req_t => r <| req_status := PMIX_ERR_NOT_AVAILABLE |>) ;;
    cd ← new scon;
    assign (Some cd) (fun c : dsched_shift_caddy_t P => c <| cd_mt := Some mt |>) ;;
    DSCHED_THREADSHIFT (dsched_shift_caddy_t P) (Some cd) MainBase H_meta_base_cbfunc
  else mret tt.

Definition dsched_meta_base_cbfunc (cd : loc) : act (sys P) unit :=
  c ← deref (A := dsched_shift_caddy_t P) (Some cd);
  let mt := cd_mt c in
  m ← deref (A := dsched_meta_t) mt;
  let req := mt_req m in
  assign mt (fun m : dsched_meta_t => m <| mt_nresponded := mt_nresponded m + 1 |>) ;;
  m' ← deref (A := dsched_meta_t) mt;
  (if mt_nresponded m' =? mt_nactive m' then
    match req with
    | Some _ =>
      r ← deref (A := dsched_req_t) req;
      call_cbfunc (req_cbfunc r) (req_status r) (req_cbdata r) ;;
      modify (fun s => s <| g_requests := pa_set (g_requests s) (req_index r) None |>) ;;
      release req_des req
    | None => mret tt
    end ;;
    release dmetades mt
  else mret tt) ;;
  release sdes (Some cd).

(** ** The "pri" module *)

(** The loop of [sched_cbfunc] over the allocations the schedulers returned: the
    one with the least [pri], the first such in the array. *)
Fixpoint best_alloc (best : option loc) (l : list loc) : act (sys P) (option loc) :=
  match l with
  | [] => mret best
  | p :: l =>
      a ← deref (A := dsched_alloc_t P) (Some p);
      match best with
      | None => best_alloc (Some p) l
      | Some q =>
          b ← deref (A := dsched_alloc_t P) (Some q);
          best_alloc (Some (if alloc_pri a <? alloc_pri b then p else q)) l
      end
  end.

Definition pri_sched_cbfunc (cd : loc) : act (sys P) unit :=
  c ← deref (A := dsched_shift_caddy_t P) (Some cd);
  (if cd_flag c then
    best ← best_alloc None (pa_items (cd_allocations c));
    match best with
    | Some _ =>
      m ← deref (A := dsched_meta_t) (cd_mt c);
      assign (mt_req m) (fun r : dsched_req_t => r <| req_allocation := best |>) ;;
      assign (mt_req m) (fun r : dsched_req_t => r <| req_status := PMIX_SUCCESS |>)
    | None => mret tt
    end
  else mret tt) ;;
  DSCHED_THREADSHIFT (dsched_shift_caddy_t P) (Some cd) MainBase H_meta_base_cbfunc.

Definition pri_sched (cd : loc) : act (sys P) unit :=
  assign (Some cd) (fun c : dsched_shift_caddy_t P =>
    c <| cd_evcbfunc := Some H_pri_sched_cbfunc |>) ;;
  DSCHED_THREADSHIFT (dsched_shift_caddy_t P) (Some cd) MainBase H_sched_base_schedule.

Definition myschedule (mt : loc) (assign_flag : bool) : act (sys P) Z :=
  cd ← new scon;
  assign (Some cd) (fun c : dsched_shift_caddy_t P => c <| cd_mt := Some mt |>) ;;
  assign (Some cd) (fun c : dsched_shift_caddy_t P => c <| cd_flag := assign_flag |>) ;;
  DSCHED_THREADSHIFT (dsched_shift_caddy_t P) (Some cd) PriBase H_pri_sched ;;
  mret PMIX_OPERATION_IN_PROGRESS.

(** ** Choosing an allocation *)

Definition pri_of (s : sys P) (p : loc) : Z :=
  match allocs s !! p with Some c => alloc_pri (body c) | None => 0 end.

(** [b] is the first of the allocations of least order. *)
Definition first_least (s : sys P) (l : list loc) (b : loc) : Prop :=
  exists l1 l2, l = l1 ++ b :: l2 /\
    Forall (fun p => pri_of s b < pri_of s p) l1 /\
    Forall (fun p => pri_of s b <= pri_of s p) l2.

Lemma best_alloc_from s l l0 b :
  Forall (fun p => is_Some (allocs s !! p)) (l0 ++ l) -> first_least s l0 b ->
  exists b', best_alloc (Some b) l s = Done (Some b', s) /\ first_least s (l0 ++ l) b'.
Proof.
  revert l0 b; induction l as [|p l IH]; intros l0 b Hall Hb.
  { exists b. by rewrite app_nil_r. }
  assert (is_Some (allocs s !! p)) as [c Hc]
    by (rewrite Forall_forall in Hall; apply Hall; set_solver).
  assert (is_Some (allocs s !! b)) as [cb Hcb].
  { destruct Hb as (l1 & l2 & -> & _). rewrite Forall_forall in Hall; apply Hall; set_solver. }
  simpl. do 2 run1. change (p :: l) with ([p] ++ l). rewrite app_assoc.
  apply IH; [by rewrite <- app_assoc|].
  assert (pri_of s p = alloc_pri (body c)) as Ep by (unfold pri_of; by rewrite Hc).
  assert (pri_of s b = alloc_pri (body cb)) as Eb by (unfold pri_of; by rewrite Hcb).
  destruct Hb as (l1 & l2 & -> & H1 & H2). rewrite !Forall_forall in H1, H2.
  unfold first_least. destruct (Z.ltb_spec (alloc_pri (body c)) (alloc_pri (body cb))).
  - exists (l1 ++ b :: l2), []. split; [done|]. split; [|constructor].
    apply Forall_app. rewrite Forall_cons, !Forall_forall. split_and!.
    + intros x Hx%H1. lia.
    + lia.
    + intros x Hx%H2. lia.
  - exists l1, (l2 ++ [p]). rewrite <- app_assoc. split; [done|].
    rewrite Forall_app, Forall_singleton, !Forall_forall. split_and!; [done|done|lia].
Qed.

Lemma best_alloc_None s l :
  Forall (fun p => is_Some (allocs s !! p)) l ->
  exists b, best_alloc None l s = Done (b, s) /\
    match b with Some b => first_least s l b | None => l = [] end.
Proof.
  intros Hall. destruct l as [|p l]; [by exists None|].
  pose proof Hall as [[c Hc] _]%Forall_cons. simpl. run1.
  destruct (best_alloc_from s l [p] p) as (b & Hb & Hl); [done| |by exists (Some b)].
  exists [], []. split; [done|]. split; constructor.
Qed.

(** ** Modules that fail *)

(** A module whose [schedule] does nothing but return an error. *)
Definition fails (m : meta_module) : Prop :=
  exists schedule, m = Some schedule /\ forall mt b s, exists rc,
    schedule mt b s = Done (rc, s) /\ rc <> PMIX_SUCCESS /\ rc <> PMIX_OPERATION_IN_PROGRESS.

Lemma meta_modules_fail mods b mt s m :
  Forall fails mods -> metas s !! mt = Some (Cell 1 m) ->
  meta_schedule_modules mt mods b s = Done (tt, s <| metas := <[mt := Cell 1
    (m <| mt_nresponded := mt_nresponded m + Z.of_nat (length mods) |>)]> (metas s) |>).
Proof.
  intros Hall. revert s m. induction Hall as [|mod_ mods (f & -> & Hf) _ IH]; intros s m Hm.
  - simpl. unfold mret, act_ret. rewrite Z.add_0_r.
    rewrite insert_id by (by destruct m). by destruct s.
  - simpl. destruct (Hf mt b s) as (rc & Hrc & H1 & H2). erewrite act_bind_Done by exact Hrc.
    apply ok_false in H1. rewrite H1, bool_decide_false by done. simpl. run1.
    erewrite IH by (simpl; apply lookup_insert_eq). simpl. rewrite insert_insert_eq.
    by replace (mt_nresponded m + 1 + Z.of_nat (length mods))
      with (mt_nresponded m + Z.of_nat (S (length mods))) by lia.
Qed.

(** ** Theorems *)

(** C37: [sched_cbfunc] of the pri module, when the flag of its caddy is set (the
    schedules have been asked for) and its pointers are those of live objects, gives the request, of the allocations the
    schedulers returned, the first one of least order, that is of the scheduler of
    highest priority, and marks it successful; with none it leaves the request alone. *)
Theorem pri_picks_first_least (s : sys P) cd mt r c m n q :
  caddies s !! cd = Some c -> cd_flag (body c) = true -> cd_mt (body c) = Some mt ->
  metas s !! mt = Some m -> mt_req (body m) = Some r -> reqs s !! r = Some (Cell n q) ->
  Forall (fun p => is_Some (allocs s !! p)) (pa_items (cd_allocations (body c))) ->
  exists s', pri_sched_cbfunc cd s = Done (tt, s') /\
    events s' = events s ++ [Ev MainBase H_meta_base_cbfunc cd] /\
    match pa_items (cd_allocations (body c)) with
    | [] => reqs s' = reqs s
    | l => exists b, first_least s l b /\
        reqs s' = <[r := Cell n (q <| req_allocation := Some b |>
                                   <| req_status := PMIX_SUCCESS |>)]> (reqs s)
    end.
Proof.
  intros Hc Hf Hmt Hm Hr Hq Hall. destruct (best_alloc_None s _ Hall) as (b & Hb & Hl).
  unfold pri_sched_cbfunc. run1. rewrite Hf. rewrite bind_assoc.
  erewrite act_bind_Done by exact Hb. destruct b as [b|].
  - eexists. split.
    { rewrite Hmt. run1. run1. rewrite Hr. repeat run1. }
    split; [done|]. destruct (pa_items _) as [|p l] eqn:El.
    + destruct Hl as (l1 & l2 & E & _). by destruct l1.
    + exists b. split; [done|]. simpl. by rewrite insert_insert_eq.
  - eexists. split; [repeat run1|]. split; [done|]. by rewrite Hl.
Qed.

(** C39: When every active meta module returns an error, or there is none, the
    requestor is never answered: the base has counted all the responses when it
    schedules [dsched_meta_base_cbfunc], which counts one more, finds the counts
    different, and drops the event. The request stays in the global array with a
    reference nobody will release. *)
Theorem failed_modules_never_answer mods (s : sys P) r n q :
  Forall fails mods -> reqs s !! r = Some (Cell n q) -> (r < next s)%nat ->
  exists s1 s2,
    dsched_meta_base_schedule mods (Some r) s = Done (tt, s1) /\
    events s1 = events s ++ [Ev MainBase H_meta_base_cbfunc (S (next s))] /\
    dsched_meta_base_cbfunc (S (next s)) s1 = Done (tt, s2) /\
    events s2 = events s1 /\ replies s2 = replies s /\ g_requests s2 = g_requests s /\
    reqs s2 !! r = Some (Cell (n + 1) (q <| req_status := PMIX_ERR_NOT_AVAILABLE |>)).
Proof.
  intros Hall Hr Hlt. eexists _, _. split_and!.
  - unfold dsched_meta_base_schedule. repeat run1.
    erewrite act_bind_Done.
    2: { apply meta_modules_fail; [done|]. simpl. apply lookup_insert_eq. }
    run1. rewrite Z.eqb_refl. repeat run1.
  - done.
  - unfold dsched_meta_base_cbfunc. run1. run1. run1. run1.
    destruct (Z.eqb_spec (0 + Z.of_nat (length mods) + 1) (Z.of_nat (length mods))); [lia|].
    unfold sdes, release_opt. repeat run1.
  - done.
  - done.
  - done.
  - simpl. rewrite !lookup_insert_eq. done.
Qed.
End Meta.

#[local] Existing Instance sample_pmix.

(** Two schedulers answered; the second to answer has the better order. *)
Definition sample_answers : sys slots :=
  Sys 9 {[0%nat := Cell 3 req_con]} {[1%nat := Cell 1 (dmetacon <| mt_req := Some 0%nat |>)]}
    {[2%nat := Cell 1 (scon <| cd_mt := Some 1%nat |> <| cd_flag := true |>
                            <| cd_allocations := [Some 3%nat; None; Some 4%nat] |>)]}
    ∅ {[3%nat := Cell 1 (alloc_con <| alloc_pri := 2 |>);
        4%nat := Cell 1 (alloc_con <| alloc_pri := 1 |>)]} ∅ [] [] 0 [] [] [] [].

Lemma pri_picks_first_least_witness :
  exists s', pri_sched_cbfunc 2 sample_answers = Done (tt, s') /\
    exists b, first_least sample_answers [3%nat; 4%nat] b.
Proof.
  destruct (pri_picks_first_least sample_answers 2 1 0
    (Cell 1 (scon <| cd_mt := Some 1%nat |> <| cd_flag := true |>
                  <| cd_allocations := [Some 3%nat; None; Some 4%nat] |>))
    (Cell 1 (dmetacon <| mt_req := Some 0%nat |>)) 3 req_con)
    as (s' & Hs & _ & Hb); [reflexivity..| |].
  - vm_compute. repeat constructor; by eexists.
  - exists s'. split; [exact Hs|]. vm_compute in Hb. destruct Hb as (b & Hb & _). exists b. exact Hb.
Defined.

Lemma failed_modules_never_answer_witness :
  exists s1 s2,
    dsched_meta_base_schedule [Some (fun _ _ => mret PMIX_ERR_NOT_AVAILABLE)] (Some 0%nat)
      sample_answers = Done (tt, s1) /\
    dsched_meta_base_cbfunc 10 s1 = Done (tt, s2) /\ replies s2 = [].
Proof.
  destruct (failed_modules_never_answer [Some (fun _ _ => mret PMIX_ERR_NOT_AVAILABLE)]
    sample_answers 0 3 req_con) as (s1 & s2 & H1 & _ & H2 & _ & H3 & _).
  - apply Forall_singleton. eexists. split; [reflexivity|]. intros mt b s. eexists.
    split; [reflexivity|]. by split.
  - reflexivity.
  - vm_compute. lia.
  - exists s1, s2. split; [exact H1|]. split; [exact H2|exact H3].
Defined.
