(* ===== verification/Fifo.v ===== *)
(** The scheduler framework: src/mca/dsched/base/sched_base_frame.c, which passes a
    request to every active scheduler and collects the allocations they propose,
    and the scheduler shipped with it, src/mca/dsched/fifo/sched_fifo.c. *)

From S2P Require Import Prelude Pmix Constants Attr Globals Objects.

Section Fifo.
Context {P : Type -> Type} `{PArray P} `{PMIx}.

Definition sched_module : Type := option (loc -> Z -> act (sys P) Z).

(** ** The base *)

Fixpoint sched_schedule_modules (cd trk : loc) (mods : list sched_module) (order : Z)
    : act (sys P) unit :=
  match mods with
  | [] => mret tt
  | None :: mods => sched_schedule_modules cd trk mods order
  | Some schedule :: mods =>
      rc ← schedule cd order;
      (if negb (ok rc) && negb (bool_decide (rc = PMIX_OPERATION_IN_PROGRESS))
       then assign (Some trk) (fun t => t <| trk_nresponded := trk_nresponded t + 1 |>)
       else mret tt) ;;
      sched_schedule_modules cd trk mods (order + 1)
  end.

(** [DSCHED_THREADSHIFT(cd, dsched_globals.evbase, cd->evcbfunc)]. *)
Definition shift_evcbfunc (cd : option loc) : act (sys P) unit :=
  c ← deref (A := dsched_shift_caddy_t P) cd;
  match cd_evcbfunc c with
  | Some h => DSCHED_THREADSHIFT (dsched_shift_caddy_t P) cd MainBase h
  | None => fail NullDeref
  end.

Definition dsched_sched_base_schedule (actives : list sched_module) (cd : loc)
    : act (sys P) unit :=
  trk ← new tcon;
  assign (Some trk) (fun t => t <| trk_cbdata := Some cd |>) ;;
  assign (Some cd) (fun c : dsched_shift_caddy_t P => c <| cd_trk := Some trk |>) ;;
  assign (Some trk) (fun t => t <| trk_nactive := Z.of_nat (length actives) |>) ;;
  sched_schedule_modules cd trk actives 1 ;;
  t ← deref (A := dsched_op_tracker_t) (Some trk);
  if trk_nresponded t =? trk_nactive t then
    c ← deref (A := dsched_shift_caddy_t P) (Some cd);
    m ← deref (A := dsched_meta_t) (cd_mt c);
    assign (mt_req m) (fun r : dsched_req_t => r <| req_status := PMIX_ERR_NOT_AVAILABLE |>) ;;
    shift_evcbfunc (Some cd) ;;
    release (A := dsched_op_tracker_t) no_destructor (Some trk)
  else mret tt.

Definition dsched_sched_base_cbfunc (scd : loc) : act (sys P) unit :=
  sc ← deref (A := dsched_shift_caddy_t P) (Some scd);
  let trk := cd_trk sc in
  let alloc := cd_alloc sc in
  t ← deref (A := dsched_op_tracker_t) trk;
  let cd := trk_cbdata t in
  assign trk (fun t : dsched_op_tracker_t => t <| trk_nresponded := trk_nresponded t + 1 |>) ;;
  match alloc with
  | Some a => assign cd (fun c : dsched_shift_caddy_t P =>
                c <| cd_allocations := (pa_add (cd_allocations c) a).2 |>)
  | None => mret tt
  end ;;
  t' ← deref (A := dsched_op_tracker_t) trk;
  if trk_nresponded t' =? trk_nactive t' then shift_evcbfunc cd else mret tt.

(** ** The "fifo" module *)

(** The loop over the global node array: nodes are added to the allocation until
    their count is the one asked for. *)
Fixpoint take_nodes (alloc : option loc) (num_nodes' cnt : Z) (l : list loc)
    : act (sys P) unit :=
  match l with
  | [] => mret tt
  | node :: l =>
      assign alloc (fun a : dsched_alloc_t P =>
        a <| alloc_allocation := (pa_add (alloc_allocation a) node).2 |>) ;;
      let cnt := cnt + 1 in
      if cnt =? num_nodes' then mret tt else take_nodes alloc num_nodes' cnt l
  end.

Definition fifo_sched (cd : loc) : act (sys P) unit :=
  c ← deref (A := dsched_shift_caddy_t P) (Some cd);
  (if cd_req c then
     retain (A := dsched_req_t) (cd_req c) ;;
     modify (fun s => s <| fifo_reqs := fifo_reqs s ++ [drtcon <| item_req := cd_req c |>] |>)
   else mret tt) ;;
  items ← gets fifo_reqs;
  match items with
  | [] =>
      if list_first_null
      then DSCHED_THREADSHIFT (dsched_shift_caddy_t P) (Some cd) MainBase H_sched_base_cbfunc
      else fail SentinelDeref
  | rqitm :: _ =>
      r ← deref (A := dsched_req_t) (item_req rqitm);
      avail ← gets avail_nnodes;
      (if num_nodes r <? avail then
         alloc ← new alloc_con;
         assign (Some cd) (fun c : dsched_shift_caddy_t P => c <| cd_alloc := Some alloc |>) ;;
         assign (Some alloc) (fun a : dsched_alloc_t P =>
           a <| alloc_scheduler := Some "fifo"%string |>) ;;
         assign (Some alloc) (fun a : dsched_alloc_t P => a <| alloc_pri := cd_order c |>) ;;
         assign (Some cd) (fun c : dsched_shift_caddy_t P => c <| cd_req := item_req rqitm |>) ;;
         arr ← gets g_nodes;
         take_nodes (Some alloc) (num_nodes r) 0 (pa_items arr)
       else mret tt) ;;
      DSCHED_THREADSHIFT (dsched_shift_caddy_t P) (Some cd) MainBase H_sched_base_cbfunc
  end.

Definition fifo_schedule (scd : loc) (order : Z) : act (sys P) Z :=
  cd ← new scon;
  assign (Some cd) (fun c : dsched_shift_caddy_t P => c <| cd_order := order |>) ;;
  sc ← deref (A := dsched_shift_caddy_t P) (Some scd);
  m ← deref (A := dsched_meta_t) (cd_mt sc);
  assign (Some cd) (fun c : dsched_shift_caddy_t P => c <| cd_req := mt_req m |>) ;;
  assign (Some cd) (fun c : dsched_shift_caddy_t P => c <| cd_trk := cd_trk sc |>) ;;
  DSCHED_THREADSHIFT (dsched_shift_caddy_t P) (Some cd) FifoBase H_fifo_sched ;;
  mret PMIX_OPERATION_IN_PROGRESS.

(** [PMIX_LIST_DESTRUCT(&reqs)], the first step of [finalize]. *)
Definition fifo_destruct_reqs : act (sys P) unit :=
  items ← gets fifo_reqs;
  each drtdes items ;;
  modify (fun s => s <| fifo_reqs := [] |>).

(** ** The nodes an allocation gets *)

(** The nodes of [l] taken when [cnt] are already there and [m] are asked for: the
    count is only compared for equality, so a request already satisfied takes all. *)
Definition taken (m cnt : Z) (l : list loc) : list loc :=
  if cnt <? m then take (Z.to_nat (m - cnt)) l else l.

Lemma taken_cons m cnt x l :
  taken m cnt (x :: l) = x :: if cnt + 1 =? m then [] else taken m (cnt + 1) l.
Proof.
  unfold taken. destruct (Z.ltb_spec cnt m), (Z.eqb_spec (cnt + 1) m),
    (Z.ltb_spec (cnt + 1) m); try lia; try done.
  - subst m. by replace (Z.to_nat (cnt + 1 - cnt)) with 1%nat by lia.
  - replace (Z.to_nat (m - cnt)) with (S (Z.to_nat (m - (cnt + 1)))) by lia. done.
Qed.

(** Adding to a pointer array succeeds, as it does below its maximal size. *)
Definition array_room : Prop := forall A (a : P A) (x : A), 0 <= (pa_add a x).1.

Lemma take_nodes_run (Hroom : array_room) m l al cnt s n a :
  allocs s !! al = Some (Cell n a) ->
  exists a', take_nodes (Some al) m cnt l s =
      Done (tt, s <| allocs := <[al := Cell n a']> (allocs s) |>) /\
    alloc_scheduler a' = alloc_scheduler a /\ alloc_pri a' = alloc_pri a /\
    pa_items (alloc_allocation a') ≡ₚ taken m cnt l ++ pa_items (alloc_allocation a).
Proof.
  revert cnt s a; induction l as [|x l IH]; intros cnt s a Ha.
  - exists a. split_and!; [|done|done|].
    + simpl. unfold mret, act_ret. rewrite insert_id by done. by destruct s.
    + unfold taken. destruct (cnt <? m); [by rewrite take_nil|done].
  - rewrite taken_cons. simpl. run1.
    destruct (pa_add (alloc_allocation a) x) as [i arr] eqn:Ei.
    pose proof (Hroom _ (alloc_allocation a) x) as Hi. rewrite Ei in Hi. simpl in Hi |- *.
    destruct (Z.eqb_spec (cnt + 1) m) as [E|E].
    + eexists. split; [reflexivity|]. split_and!; [done..|]. simpl.
      by rewrite (pa_items_add _ _ _ _ Ei Hi).
    + destruct (IH (cnt + 1) (s <| allocs := <[al := Cell n (a <| alloc_allocation := arr |>)]>
        (allocs s) |>) (a <| alloc_allocation := arr |>)) as (a' & Hr & Hs & Hp & Hit);
        [simpl; apply lookup_insert_eq|].
      exists a'. split; [|split_and!; [done..|]].
      * etransitivity; [exact Hr|]. simpl. by rewrite insert_insert_eq.
      * rewrite Hit. simpl. rewrite (pa_items_add _ _ _ _ Ei Hi). by rewrite <- Permutation_middle.
Qed.

(** ** Theorems *)

(** The list the fifo module works on once the incoming request is on it. *)
Definition pending (s : sys P) (c : dsched_shift_caddy_t P) : list dsched_req_item_t :=
  fifo_reqs s ++ match cd_req c with Some r => [ReqItem (Some r)] | None => [] end.

(** C16: The fifo module's decision. The incoming request goes to the end of the list;
    the first request of the list, not the incoming one, is what is considered, and
    it stays on the list. When it asks for strictly fewer nodes than are available
    it gets an allocation of the module's order, made of the first nodes of the
    global array, as many as it asks for, or of every node there is when the count
    is zero or negative; otherwise nothing is proposed. The answer always goes back
    to the base. *)
Theorem fifo_decides (Hroom : array_room) (s : sys P) cd nc c it items r n q :
  caddies s !! cd = Some (Cell nc c) ->
  (forall r', cd_req c = Some r' -> is_Some (reqs s !! r')) ->
  pending s c = it :: items -> item_req it = Some r -> reqs s !! r = Some (Cell n q) ->
  exists s', fifo_sched cd s = Done (tt, s') /\
    fifo_reqs s' = it :: items /\
    events s' = events s ++ [Ev MainBase H_sched_base_cbfunc cd] /\
    if num_nodes q <? avail_nnodes s then
      exists al a, caddies s' !! cd =
          Some (Cell nc (c <| cd_alloc := Some al |> <| cd_req := Some r |>)) /\
        allocs s' !! al = Some (Cell 1 a) /\ alloc_scheduler a = Some "fifo"%string /\
        alloc_pri a = cd_order c /\
        pa_items (alloc_allocation a) ≡ₚ
          if 0 <? num_nodes q then take (Z.to_nat (num_nodes q)) (pa_items (g_nodes s))
          else pa_items (g_nodes s)
    else caddies s' = caddies s /\ allocs s' = allocs s.
Proof.
  intros Hc Hreq Hp Hit Hr.
  assert (exists R n1, (if cd_req c then retain (A := dsched_req_t) (cd_req c) ;;
     modify (fun s => s <| fifo_reqs := fifo_reqs s ++ [drtcon <| item_req := cd_req c |>] |>)
     else mret tt) s = Done (tt, s <| reqs := R |> <| fifo_reqs := it :: items |>) /\
     R !! r = Some (Cell n1 q)) as (R & n1 & Hs1 & Hr1).
  { unfold pending in Hp. destruct (cd_req c) as [r'|].
    - destruct (Hreq r' eq_refl) as [[n' q'] Hr'].
      exists (<[r' := Cell (n' + 1) q']> (reqs s)), (if decide (r' = r) then n' + 1 else n).
      split; [repeat run1; by rewrite Hp|].
      case_decide; subst; [rewrite lookup_insert_eq; by simplify_eq|by rewrite lookup_insert_ne].
    - rewrite app_nil_r in Hp. exists (reqs s), n. split; [by destruct s; simplify_eq/=|done]. }
  unfold fifo_sched. run1. erewrite act_bind_Done by exact Hs1.
  rewrite gets_run. simpl. rewrite Hit. run1. run1.
  destruct (num_nodes q <? avail_nnodes s).
  - repeat run1.
    match goal with |- context [(take_nodes _ _ _ _ ≫= _) ?S] =>
      destruct (take_nodes_run Hroom (num_nodes q) (pa_items (g_nodes s)) (next s) 0 S 1
        (Alloc (Some "fifo"%string) (cd_order c) pa_empty)) as (a & Hrun & Hs & Hpri & Hitems);
        [simpl; by rewrite lookup_insert_eq|]
    end.
    eexists. split; [erewrite act_bind_Done by exact Hrun; simpl; repeat run1|].
    split; [done|]. split; [done|]. exists (next s), a. simpl.
    rewrite !lookup_insert_eq. split_and!; [done|done|done|done|].
    rewrite Hitems. simpl. rewrite pa_items_empty, app_nil_r. unfold taken.
    by rewrite Z.sub_0_r.
  - eexists. split; [repeat run1|]. done.
Qed.

(** Shutting the fifo module down with a request still on its list, whose only
    reference is the list's and which was given no allocation, dereferences a null
    pointer: the destructor of a request releases its allocation without a test. *)
Theorem destruct_pending_faults (s : sys P) it items r q :
  fifo_reqs s = it :: items -> item_req it = Some r -> reqs s !! r = Some (Cell 1 q) ->
  req_allocation q = None -> fifo_destruct_reqs s = Fault NullDeref.
Proof.
  intros Hl Hit Hr Ha. unfold fifo_destruct_reqs. run1. rewrite Hl. simpl.
  rewrite bind_assoc. unfold drtdes, release_opt. rewrite Hit. run1. unfold req_des. by rewrite Ha.
Qed.

(** A scheduler whose [schedule] does nothing but return an error. *)
Definition sched_fails (m : sched_module) : Prop :=
  exists schedule, m = Some schedule /\ forall cd o s, exists rc,
    schedule cd o s = Done (rc, s) /\ rc <> PMIX_SUCCESS /\ rc <> PMIX_OPERATION_IN_PROGRESS.

Lemma sched_modules_fail mods cd trk o s t :
  Forall sched_fails mods -> trks s !! trk = Some (Cell 1 t) ->
  sched_schedule_modules cd trk mods o s = Done (tt, s <| trks := <[trk := Cell 1
    (t <| trk_nresponded := trk_nresponded t + Z.of_nat (length mods) |>)]> (trks s) |>).
Proof.
  intros Hall. revert o s t. induction Hall as [|mod_ mods (f & -> & Hf) _ IH]; intros o s t Ht.
  - simpl. unfold mret, act_ret. rewrite Z.add_0_r.
    rewrite insert_id by (by destruct t). by destruct s.
  - simpl. destruct (Hf cd o s) as (rc & Hrc & H1 & H2). erewrite act_bind_Done by exact Hrc.
    apply ok_false in H1. rewrite H1, bool_decide_false by done. simpl. run1.
    erewrite IH by (simpl; apply lookup_insert_eq). simpl. rewrite insert_insert_eq.
    by replace (trk_nresponded t + 1 + Z.of_nat (length mods))
      with (trk_nresponded t + Z.of_nat (S (length mods))) by lia.
Qed.
End Fifo.

#[local] Existing Instance sample_pmix.

Lemma slots_room : array_room (P := slots).
Proof. intros A a x. simpl. lia. Qed.

(** Three nodes, all available, a request for two on the list, and another coming. *)
Definition sample_fifo : sys slots :=
  Sys 9 {[0%nat := Cell 3 (req_con <| num_nodes := 2 |>); 1%nat := Cell 2 req_con]} ∅
    {[2%nat := Cell 1 (scon <| cd_req := Some 1%nat |> <| cd_order := 1 |>)]} ∅ ∅ ∅
    [Some 6%nat; None; Some 7%nat; Some 8%nat] [] 3 [ReqItem (Some 0%nat)] [] [] [].

Lemma fifo_decides_witness :
  exists s' al a, fifo_sched 2 sample_fifo = Done (tt, s') /\
    allocs s' !! al = Some (Cell 1 a) /\ alloc_pri a = 1 /\
    pa_items (alloc_allocation a) ≡ₚ [6%nat; 7%nat].
Proof.
  destruct (fifo_decides slots_room sample_fifo 2 1
    (scon <| cd_req := Some 1%nat |> <| cd_order := 1 |>) (ReqItem (Some 0%nat))
    [ReqItem (Some 1%nat)] 0 3 (req_con <| num_nodes := 2 |>))
    as (s' & Hs & _ & _ & al & a & _ & Ha & _ & Hp & Hi).
  - reflexivity.
  - intros r' [= <-]. by eexists.
  - reflexivity.
  - reflexivity.
  - reflexivity.
  - exists s', al, a. split; [exact Hs|]. split; [exact Ha|]. split; [exact Hp|exact Hi].
Defined.

Lemma destruct_pending_faults_witness :
  fifo_destruct_reqs (sample_fifo <| reqs := {[0%nat := Cell 1 req_con]} |>) = Fault NullDeref.
Proof.
  apply (destruct_pending_faults (sample_fifo <| reqs := {[0%nat := Cell 1 req_con]} |>)
    (ReqItem (Some 0%nat)) [] 0 req_con); reflexivity.
Defined.
