(* ===== verification/Pipeline.v ===== *)
(** The scheduling pipeline: how the handlers of Session, Meta and Fifo are
    composed through the event bases, and what a request goes through from the
    upcall to the answer, for every interleaving of any number of requests.

    A request visits the handlers in the order
    [request_init], [dsched_meta_base_schedule], [pri_sched],
    [dsched_sched_base_schedule], [fifo_sched], [dsched_sched_base_cbfunc],
    [pri_sched_cbfunc], [dsched_meta_base_cbfunc]. Each handler is atomic; the
    step relation lets any active event run next, which covers the order of every
    event base and every relative speed of the three threads. *)

From S2P Require Import Prelude Pmix Constants Attr Globals Objects Session Meta Fifo.

Section Pipeline.
Context {P : Type -> Type} `{PArray P} `{PMIx}.

(** The handlers of the queries and of the tools (Query, Server). *)
Context (others : handler -> loc -> act (sys P) unit).

(** ** Dispatch *)

Section Modules.
Context (metas_ : list (meta_module (P := P))) (scheds_ : list (sched_module (P := P))).

Definition run_handler (h : handler) (obj : loc) : act (sys P) unit :=
  match h with
  | H_request_init => request_init obj
  | H_session_control => session_control obj
  | H_meta_base_schedule => dsched_meta_base_schedule metas_ (Some obj)
  | H_meta_base_cbfunc => dsched_meta_base_cbfunc obj
  | H_pri_sched => pri_sched obj
  | H_pri_sched_cbfunc => pri_sched_cbfunc obj
  | H_sched_base_schedule => dsched_sched_base_schedule scheds_ obj
  | H_sched_base_cbfunc => dsched_sched_base_cbfunc obj
  | H_fifo_sched => fifo_sched obj
  | H_query | H_toolconn => others h obj
  end.

(** Run the [i]-th active event. *)
Definition run_nth (i : nat) : act (sys P) unit := fun s =>
  match events s !! i with
  | None => Done (tt, s)
  | Some e => run_handler (ev_fn e) (ev_arg e) (s <| events := delete i (events s) |>)
  end.

(** Run [n] events, oldest first. *)
Fixpoint run_fifo (n : nat) : act (sys P) unit :=
  match n with O => mret tt | S n => run_nth 0 ;; run_fifo n end.
End Modules.

(** The modules this repository ships. *)
Definition meta_actives : list (meta_module (P := P)) := [Some myschedule].
Definition sched_actives : list (sched_module (P := P)) := [Some fifo_schedule].

Definition run_event : nat -> act (sys P) unit := run_nth meta_actives sched_actives.

(** The state once the daemon is up: no request yet, the node pool [pool], and
    [dsched_globals.avail.nnodes] as static storage leaves it. *)
Definition initial (pool : gmap loc (cell dsched_node_t)) (arr : P loc) (n : loc) : sys P :=
  Sys n ∅ ∅ ∅ ∅ ∅ pool arr pa_empty 0 [] [] [] [].

(** ** The interface of the other upcalls

    A query or the connection of a tool is recorded in a caddy, too, and its handler
    runs on the main event base among those of the pipeline, on the same stores. What
    the pipeline relies on, and what System shows of the handlers of Query and Server,
    is that such a handler, run on an acceptable caddy while the pool of nodes is as
    it was, disposes of its caddy, makes the replies it owes, leaves at most one caddy
    of its own for the answer, and does nothing else. *)

Definition side_effect (new : option (dsched_shift_caddy_t P)) (rs : list reply) (obj : loc)
    (s : sys P) : sys P :=
  s <| next := if new then S (next s) else next s |>
    <| caddies := delete obj match new with
                             | Some c => <[next s := Cell 1 c]> (caddies s)
                             | None => caddies s
                             end |>
    <| replies := replies s ++ rs |>.

Class Sides (pool : gmap loc (cell dsched_node_t)) (arr : P loc) := {
  side_ok : handler -> dsched_shift_caddy_t P -> Prop;
  side_says : handler -> dsched_shift_caddy_t P -> list reply;
  side_new : handler -> dsched_shift_caddy_t P -> option (dsched_shift_caddy_t P);
  side_foreign h c : side_ok h c -> h = H_query \/ h = H_toolconn;
  side_run h c obj (s : sys P) :
    side_ok h c -> caddies s !! obj = Some (Cell 1 c) -> (obj < next s)%nat ->
    nodes s = pool -> g_nodes s = arr ->
    others h obj s = Done (tt, side_effect (side_new h c) (side_says h c) obj s)
}.

(** ** Runs *)

(** What a tool or client asks for. [Up_other] is an upcall of queries.c or backend.c:
    the handler its event runs, and the caddy it fills. *)
Inductive upcall :=
| Up_alloc (client : proc) (directive' : Z) (data : list pmix_info) (cbfunc : option Z)
    (cbdata now : Z)
| Up_ctrl (client : proc) (sid : Z) (directives : list pmix_info) (cbfunc : option Z)
    (cbdata : Z)
| Up_other (h : handler) (c : dsched_shift_caddy_t P).

Definition submit (u : upcall) : act (sys P) Z :=
  match u with
  | Up_alloc c d data f x now => dsched_alloc_fn c d data f x now
  | Up_ctrl c sid data f x => dsched_session_ctrl_fn c sid data f x
  | Up_other h c =>
      cd ← new c;
      DSCHED_THREADSHIFT (dsched_shift_caddy_t P) (Some cd) MainBase h ;;
      mret PMIX_SUCCESS
  end.

Definition request_of (u : upcall) : dsched_req_t :=
  match u with
  | Up_alloc c d data f x now => alloc_request c d data f x now
  | Up_ctrl c sid data f x => control_request c sid data f x
  | Up_other _ _ => req_con
  end.

Section Sides.
Context {pool : gmap loc (cell dsched_node_t)} {arr : P loc} `{!Sides pool arr}.

(** Directives that decode without an error, and ask for a number of nodes that
    fits a C int. A control request is never decoded. The interface says which of the
    other upcalls are acceptable. *)
Definition acceptable (u : upcall) : Prop :=
  match u with
  | Up_alloc _ _ _ _ _ _ => exists d, decode (request_of u) = Done d /\
      d_rcerr d = PMIX_SUCCESS /\ 0 <= num_nodes (d_req d)
  | Up_ctrl _ _ _ _ _ => True
  | Up_other h c => side_ok h c
  end.

(** [reach s0 us k s]: from [s0], after the upcalls [us] and [k] handlers, interleaved
    in any way, the state is [s]. *)
Inductive reach (s0 : sys P) : list upcall -> nat -> sys P -> Prop :=
| reach_start : reach s0 [] 0 s0
| reach_submit us k s u rc s' : reach s0 us k s -> acceptable u ->
    submit u s = Done (rc, s') -> reach s0 (us ++ [u]) k s'
| reach_run us k s i s' : reach s0 us k s -> (i < length (events s))%nat ->
    run_event i s = Done (tt, s') -> reach s0 us (S k) s'.

(** The replies an upcall is owed when its processing is over. *)
Definition reply_to (r : dsched_req_t) (status : Z) : list reply :=
  call (req_cbfunc r) status (req_cbdata r).

Definition owed (u : upcall) : list reply :=
  match u with
  | Up_alloc _ _ _ _ _ _ =>
      match decode (request_of u) with
      | Done d => (if d_notwaiting d then reply_to (request_of u) PMIX_SUCCESS else []) ++
                  reply_to (request_of u) PMIX_ERR_NOT_SUPPORTED
      | Fault _ => []
      end
  | Up_ctrl _ _ _ _ _ => []
  | Up_other h c => side_says h c
  end.

(** The number of handlers an upcall makes run. *)
Definition handlers (u : upcall) : nat :=
  match u with Up_alloc _ _ _ _ _ _ => 8 | _ => 1 end.

(** ** The invariant

    A token stands for a request in flight: where it is, and the objects it owns. *)

Inductive stage :=
| SInit (d : decoding)
| SCtrl
| SOther (h : handler) (c : dsched_shift_caddy_t P)
| SMeta
| SPri (mt cd : loc)
| SBase (mt cd : loc)
| SFifo (mt cd trk scd : loc)
| SSchedCb (mt cd trk scd : loc)
| SPriCb (mt cd trk : loc)
| SMetaCb (mt cd trk : loc).

Record token := Token { t_loc : loc; t_req : dsched_req_t; t_stage : stage }.

Definition t_event (t : token) : event :=
  match t_stage t with
  | SInit _ => Ev MainBase H_request_init (t_loc t)
  | SCtrl => Ev MainBase H_session_control (t_loc t)
  | SOther h _ => Ev MainBase h (t_loc t)
  | SMeta => Ev MainBase H_meta_base_schedule (t_loc t)
  | SPri _ cd => Ev PriBase H_pri_sched cd
  | SBase _ cd => Ev MainBase H_sched_base_schedule cd
  | SFifo _ _ _ scd => Ev FifoBase H_fifo_sched scd
  | SSchedCb _ _ _ scd => Ev MainBase H_sched_base_cbfunc scd
  | SPriCb _ cd _ => Ev MainBase H_pri_sched_cbfunc cd
  | SMetaCb _ cd _ => Ev MainBase H_meta_base_cbfunc cd
  end.

Definition t_owns (t : token) : list loc :=
  t_loc t ::
  match t_stage t with
  | SInit _ | SCtrl | SOther _ _ | SMeta => []
  | SPri mt cd | SBase mt cd => [mt; cd]
  | SFifo mt cd trk scd | SSchedCb mt cd trk scd => [mt; cd; trk; scd]
  | SPriCb mt cd trk | SMetaCb mt cd trk => [mt; cd; trk]
  end.

(** The references a request has: its own, the meta object's, the fifo list's. *)
Definition t_refs (t : token) : Z :=
  match t_stage t with
  | SInit _ | SCtrl | SOther _ _ | SMeta => 1
  | SPri _ _ | SBase _ _ | SFifo _ _ _ _ => 2
  | SSchedCb _ _ _ _ | SPriCb _ _ _ | SMetaCb _ _ _ => 3
  end.

(** Whether the request is in [dsched_globals.requests]. *)
Definition t_queued (t : token) : bool :=
  match t_stage t with SInit _ | SCtrl | SOther _ _ => false | _ => true end.

(** How many handlers the request still has to go through. *)
Definition t_left (t : token) : nat :=
  match t_stage t with
  | SInit _ => 8 | SCtrl | SOther _ _ => 1 | SMeta => 7 | SPri _ _ => 6 | SBase _ _ => 5
  | SFifo _ _ _ _ => 4 | SSchedCb _ _ _ _ => 3 | SPriCb _ _ _ => 2 | SMetaCb _ _ _ => 1
  end.

Definition t_due (t : token) : list reply :=
  match t_stage t with
  | SInit d => (if d_notwaiting d then reply_to (t_req t) PMIX_SUCCESS else []) ++
               reply_to (t_req t) PMIX_ERR_NOT_SUPPORTED
  | SCtrl => []
  | SOther h c => side_says h c
  | _ => reply_to (t_req t) PMIX_ERR_NOT_SUPPORTED
  end.

(** The objects of the pipeline, field by field. *)
Definition pipe_meta (r : loc) : dsched_meta_t := Meta 1 0 (Some r) None.
Definition pipe_cd (mt : loc) : dsched_shift_caddy_t P :=
  (scon (P := P)) <| cd_mt := Some mt |> <| cd_flag := true |>.
Definition pipe_cd_cb (mt : loc) : dsched_shift_caddy_t P :=
  (pipe_cd mt) <| cd_evcbfunc := Some H_pri_sched_cbfunc |>.
Definition pipe_cd_trk (mt trk : loc) : dsched_shift_caddy_t P :=
  (pipe_cd_cb mt) <| cd_trk := Some trk |>.
Definition pipe_trk (n : Z) (cd : loc) : dsched_op_tracker_t := Trk 1 n (Some cd).
Definition pipe_scd (r trk : loc) : dsched_shift_caddy_t P :=
  (scon (P := P)) <| cd_order := 1 |> <| cd_req := Some r |> <| cd_trk := Some trk |>.

Definition t_objects (s : sys P) (t : token) : Prop :=
  match t_stage t with
  | SInit d => decode (t_req t) = Done d /\ d_rcerr d = PMIX_SUCCESS /\ 0 <= num_nodes (d_req d)
  | SCtrl | SOther _ _ | SMeta => True
  | SPri mt cd =>
      metas s !! mt = Some (Cell 1 (pipe_meta (t_loc t))) /\
      caddies s !! cd = Some (Cell 1 (pipe_cd mt))
  | SBase mt cd =>
      metas s !! mt = Some (Cell 1 (pipe_meta (t_loc t))) /\
      caddies s !! cd = Some (Cell 1 (pipe_cd_cb mt))
  | SFifo mt cd trk scd | SSchedCb mt cd trk scd =>
      metas s !! mt = Some (Cell 1 (pipe_meta (t_loc t))) /\
      caddies s !! cd = Some (Cell 1 (pipe_cd_trk mt trk)) /\
      trks s !! trk = Some (Cell 1 (pipe_trk 0 cd)) /\
      caddies s !! scd = Some (Cell 1 (pipe_scd (t_loc t) trk))
  | SPriCb mt cd trk | SMetaCb mt cd trk =>
      metas s !! mt = Some (Cell 1 (pipe_meta (t_loc t))) /\
      caddies s !! cd = Some (Cell 1 (pipe_cd_trk mt trk)) /\
      trks s !! trk = Some (Cell 1 (pipe_trk 1 cd))
  end.

Definition t_ok (s : sys P) (t : token) : Prop :=
  match t_stage t with
  | SOther h c => side_ok h c /\ caddies s !! t_loc t = Some (Cell 1 c)
  | _ =>
      reqs s !! t_loc t = Some (Cell (t_refs t) (t_req t)) /\
      req_status (t_req t) = PMIX_ERR_NOT_SUPPORTED /\
      0 <= num_nodes (t_req t) /\
      t_objects s t
  end.

Definition owned (ts : list token) : list loc := ts ≫= t_owns.

(** The requests array holds the queued requests, each at the index it records. *)
Definition queue_ok (s : sys P) (ts : list token) : Prop :=
  (forall i r, pa_get (g_requests s) i = Some r ->
    exists t, t ∈ ts /\ t_queued t = true /\ t_loc t = r /\ req_index (t_req t) = i) /\
  (forall t, t ∈ ts -> t_queued t = true -> 0 <= req_index (t_req t) ->
    pa_get (g_requests s) (req_index (t_req t)) = Some (t_loc t)).

(** The fifo scheduler's pending requests are alive. *)
Definition fifo_ok (s : sys P) : Prop :=
  forall it, it ∈ fifo_reqs s -> exists r c, item_req it = Some r /\
    reqs s !! r = Some c /\ 0 <= num_nodes (body c).

Record inv (s : sys P) (ts : list token) : Prop := {
  inv_ok : Forall (t_ok s) ts;
  inv_nodup : NoDup (owned ts);
  inv_fresh : Forall (fun l => (l < next s)%nat) (owned ts);
  inv_queue : queue_ok s ts;
  inv_fifo : fifo_ok s;
  inv_avail : avail_nnodes s = 0;
  inv_bases : null_bases s = []
}.

(** A transition of one token, which leaves every other object alone. *)
Definition same_at (s s' : sys P) (l : loc) : Prop :=
  reqs s' !! l = reqs s !! l /\ metas s' !! l = metas s !! l /\
  caddies s' !! l = caddies s !! l /\ trks s' !! l = trks s !! l.

Lemma t_ok_same s s' t :
  (forall l, l ∈ t_owns t -> same_at s s' l) -> t_ok s t -> t_ok s' t.
Proof.
  intros Hsame.
  assert (forall l, l ∈ t_owns t -> metas s' !! l = metas s !! l) as Hm by (by apply Hsame).
  assert (forall l, l ∈ t_owns t -> caddies s' !! l = caddies s !! l) as Hc by (by apply Hsame).
  assert (forall l, l ∈ t_owns t -> trks s' !! l = trks s !! l) as Ht by (by apply Hsame).
  assert (reqs s' !! t_loc t = reqs s !! t_loc t) as Hr by (apply Hsame; unfold t_owns; set_solver).
  clear Hsame. destruct t as [r q st]. unfold t_ok, t_objects, t_owns in *. simpl in *. rewrite Hr.
  destruct st; simpl in *; rewrite ?Hm, ?Hc, ?Ht by set_solver; intros; assumption.
Qed.

Lemma owned_cons t ts : owned (t :: ts) = t_owns t ++ owned ts.
Proof. done. Qed.

Lemma owned_app ts ts' : owned (ts ++ ts') = owned ts ++ owned ts'.
Proof. apply bind_app. Qed.

(** The tokens [old] become [new]; nothing but what they own, and fresh objects,
    changes. *)
Lemma inv_update s s' old new rest :
  inv s (old ++ rest) ->
  (next s <= next s')%nat ->
  (forall l, (l < next s)%nat -> l ∉ owned old -> same_at s s' l) ->
  Forall (t_ok s') new -> NoDup (owned new) ->
  (forall l, l ∈ owned new -> l ∈ owned old \/ (next s <= l < next s')%nat) ->
  queue_ok s' (new ++ rest) -> fifo_ok s' -> avail_nnodes s' = 0 -> null_bases s' = [] ->
  inv s' (new ++ rest).
Proof.
  intros [Hok Hnd Hfr _ _ _ _] Hnext Hsame Hok' Hnd' Hnew Hq Hf Ha Hb.
  rewrite owned_app in Hnd, Hfr. apply Forall_app in Hfr as [Hfr1 Hfr2].
  rewrite Forall_forall in Hfr1, Hfr2.
  apply NoDup_app in Hnd as (Hnd1 & Hdis & Hnd2). apply Forall_app in Hok as [_ Hok].
  assert (forall l, l ∈ owned rest -> same_at s s' l) as Hrest.
  { intros l Hl. apply Hsame; [by apply Hfr2|]. intros Hl'. by apply (Hdis l). }
  split; [..|done|done|done|done]; rewrite ?owned_app.
  - apply Forall_app. split; [done|]. rewrite Forall_forall in Hok |- *. intros t' Ht'.
    apply (t_ok_same s); [|by apply Hok]. intros l Hl. apply Hrest.
    apply list_elem_of_bind. eauto.
  - apply NoDup_app. split_and!; [done| |done]. intros l Hl Hl'.
    apply Hnew in Hl as [Hl|Hl]; [by apply (Hdis l)|]. apply Hfr2 in Hl'. lia.
  - apply Forall_app. rewrite !Forall_forall. split; intros l Hl.
    + apply Hnew in Hl as [Hl|Hl]; [|lia]. apply Hfr1 in Hl. lia.
    + apply Hfr2 in Hl. lia.
Qed.

Lemma inv_step s s' t new rest :
  inv s (t :: rest) ->
  (next s <= next s')%nat ->
  (forall l, (l < next s)%nat -> l ∉ t_owns t -> same_at s s' l) ->
  Forall (t_ok s') new -> NoDup (owned new) ->
  (forall l, l ∈ owned new -> l ∈ t_owns t \/ (next s <= l < next s')%nat) ->
  queue_ok s' (new ++ rest) -> fifo_ok s' -> avail_nnodes s' = 0 -> null_bases s' = [] ->
  inv s' (new ++ rest).
Proof.
  intros Hinv ? Hsame ? ? Hnew ? ? ? ?. apply (inv_update s s' [t]); try done;
    intros l; rewrite owned_cons, app_nil_r; auto.
Qed.

Lemma queue_ok_same s s' t t' rest :
  queue_ok s (t :: rest) -> g_requests s' = g_requests s -> t_loc t' = t_loc t ->
  req_index (t_req t') = req_index (t_req t) -> t_queued t' = t_queued t ->
  queue_ok s' (t' :: rest).
Proof.
  intros [H1 H2] E El Ei Eq. split.
  - rewrite E. intros i r Hi. destruct (H1 i r Hi) as (t0 & [->|Ht0]%elem_of_cons & ?).
    + exists t'. rewrite El, Ei, Eq. split; [set_solver|done].
    + exists t0. split; [set_solver|done].
  - rewrite E. intros t0 [->|Ht0]%elem_of_cons Hq Hi.
    + rewrite Ei, El in *. rewrite Eq in Hq. apply H2; [set_solver|done..].
    + apply H2; [set_solver|done..].
Qed.

Lemma queue_ok_drop s t rest : queue_ok s (t :: rest) -> t_queued t = false -> queue_ok s rest.
Proof.
  intros [H1 H2] Hq. split.
  - intros i r Hi. destruct (H1 i r Hi) as (t0 & [->|?]%elem_of_cons & ? & ?); [congruence|eauto].
  - intros t0 Ht0. apply H2. set_solver.
Qed.

Lemma queue_ok_add s s' t t' rest :
  queue_ok s (t :: rest) -> t_queued t = false ->
  g_requests s' = (pa_add (g_requests s) (t_loc t')).2 -> t_queued t' = true ->
  req_index (t_req t') = (pa_add (g_requests s) (t_loc t')).1 ->
  queue_ok s' (t' :: rest).
Proof.
  intros Hq Hn E Hq' Ei. apply queue_ok_drop in Hq as [H1 H2]; [|done].
  destruct (pa_add (g_requests s) (t_loc t')) as [i a] eqn:Ea. simpl in E, Ei.
  unfold queue_ok. rewrite E. destruct (decide (0 <= i)) as [Hi|Hi].
  - destruct (pa_add_free _ _ _ _ _ Ea Hi) as [Hfree Hset]. split.
    + intros j r Hj. destruct (decide (i = j)) as [<-|Hij].
      * exists t'. split; [set_solver|]. naive_solver congruence.
      * rewrite (pa_add_ne _ _ _ _ _ _ Ea Hi Hij) in Hj.
        destruct (H1 j r Hj) as (t0 & ? & ?). exists t0. split; [set_solver|done].
    + intros t0 [->|Ht0]%elem_of_cons Hq0 Hi0; [congruence|].
      pose proof (H2 t0 Ht0 Hq0 Hi0) as Hg.
      rewrite (pa_add_ne _ _ _ _ _ _ Ea Hi); [done|congruence].
  - rewrite (pa_add_fail _ _ _ _ _ Ea) by lia. split.
    + intros j r Hj. destruct (H1 j r Hj) as (t0 & ? & ?). exists t0. split; [set_solver|done].
    + intros t0 [->|Ht0]%elem_of_cons Hq0 Hi0; [lia|by apply H2].
Qed.

Lemma t_loc_owned t ts : t ∈ ts -> t_loc t ∈ owned ts.
Proof. intros Ht. apply list_elem_of_bind. exists t. split; [|done]. unfold t_owns. set_solver. Qed.

Lemma queue_ok_done s s' t rest :
  queue_ok s (t :: rest) -> t_loc t ∉ owned rest -> t_queued t = true ->
  g_requests s' = pa_set (g_requests s) (req_index (t_req t)) None -> queue_ok s' rest.
Proof.
  intros [H1 H2] Hfree Hq E. unfold queue_ok. rewrite E. clear E.
  destruct (decide (0 <= req_index (t_req t))) as [Hi|Hi].
  - pose proof (H2 t ltac:(set_solver) Hq Hi) as Hg.
    pose proof (pa_get_Some_range _ _ _ Hg) as Hrange. split.
    + intros i r Hr. destruct (decide (req_index (t_req t) = i)) as [<-|Hne].
      { by rewrite pa_get_set in Hr. }
      rewrite pa_get_set_ne in Hr by done.
      destruct (H1 i r Hr) as (t0 & [->|?]%elem_of_cons & ? & ? & ?); [done|eauto].
    + intros t0 Ht0 Hq0 Hi0. pose proof (H2 t0 ltac:(set_solver) Hq0 Hi0) as Hg0.
      rewrite pa_get_set_ne; [done|done|]. intros Heq. rewrite Heq in Hg.
      assert (t_loc t0 = t_loc t) as El by congruence.
      apply Hfree. rewrite <- El. by apply t_loc_owned.
  - rewrite pa_set_neg by lia. split.
    + intros i r Hr. pose proof (pa_get_Some_range _ _ _ Hr).
      destruct (H1 i r Hr) as (t0 & [->|?]%elem_of_cons & ? & ? & ?); [lia|eauto].
    + intros t0 Ht0. apply H2. set_solver.
Qed.

Lemma fifo_ok_update s s' r n q :
  fifo_ok s -> fifo_reqs s' = fifo_reqs s -> reqs s' = <[r := Cell n q]> (reqs s) ->
  0 <= num_nodes q -> fifo_ok s'.
Proof.
  intros Hf E Er Hq it Hit. rewrite E in Hit. rewrite Er.
  destruct (Hf it Hit) as (r' & c & Hr & Hc & Hn). exists r'.
  destruct (decide (r' = r)) as [->|Hne].
  - exists (Cell n q). by rewrite lookup_insert_eq.
  - exists c. by rewrite lookup_insert_ne.
Qed.

Lemma fifo_ok_same s s' :
  fifo_ok s -> fifo_reqs s' = fifo_reqs s -> reqs s' = reqs s -> fifo_ok s'.
Proof. intros Hf E Er it Hit. rewrite E in Hit. rewrite Er. by apply Hf. Qed.

Lemma fifo_ok_append s r n q it :
  fifo_ok s -> 0 <= num_nodes q -> it ∈ fifo_reqs s ++ [ReqItem (Some r)] ->
  exists r' c, item_req it = Some r' /\ <[r := Cell n q]> (reqs s) !! r' = Some c /\
    0 <= num_nodes (body c).
Proof.
  intros Hf Hq [Hit|Hit]%elem_of_app.
  - set (s' := s <| reqs := <[r := Cell n q]> (reqs s) |>).
    by apply (fifo_ok_update s s' r n q Hf eq_refl eq_refl Hq it).
  - apply list_elem_of_singleton in Hit as ->. exists r, (Cell n q). by rewrite lookup_insert_eq.
Qed.

(** What the handler of a token answers, and where the token goes. *)
Definition t_says (t : token) : list reply :=
  match t_stage t with
  | SInit d => if d_notwaiting d then reply_to (t_req t) PMIX_SUCCESS else []
  | SOther h c => side_says h c
  | SMetaCb _ _ _ => reply_to (t_req t) PMIX_ERR_NOT_SUPPORTED
  | _ => []
  end.

Definition t_alloc (t : token) : bool :=
  match t_stage t with SCtrl | SOther _ _ => false | _ => true end.

Definition follows (t : token) (new : list token) : Prop :=
  match new with
  | [] => t_left t = 1%nat
  | [t'] => t_left t = S (t_left t') /\ t_alloc t = true /\ t_alloc t' = true
  | _ => False
  end.

(** What the event of a request does to the state, when it runs on the objects of its
    token. *)
Definition effect (t : token) (s : sys P) : sys P :=
  let r := t_loc t in
  let q := t_req t in
  match t_stage t with
  | SInit d =>
      s <| reqs := <[r := Cell 1 ((d_req d) <| req_index := (pa_add (g_requests s) r).1 |>)]> (reqs s) |>
        <| g_requests := (pa_add (g_requests s) r).2 |>
        <| events := events s ++ [Ev MainBase H_meta_base_schedule r] |>
        <| replies := replies s ++ if d_notwaiting d then reply_to q PMIX_SUCCESS else [] |>
  | SCtrl => s
  | SOther h c => side_effect (side_new h c) (side_says h c) r s
  | SMeta =>
      let mt := next s in
      let cd := S mt in
      s <| next := S cd |> <| reqs := <[r := Cell 2 q]> (reqs s) |>
        <| metas := <[mt := Cell 1 (pipe_meta r)]> (metas s) |>
        <| caddies := <[cd := Cell 1 (pipe_cd mt)]> (caddies s) |>
        <| events := events s ++ [Ev PriBase H_pri_sched cd] |>
  | SPri mt cd =>
      s <| caddies := <[cd := Cell 1 (pipe_cd_cb mt)]> (caddies s) |>
        <| events := events s ++ [Ev MainBase H_sched_base_schedule cd] |>
  | SBase mt cd =>
      let trk := next s in
      let scd := S trk in
      s <| next := S scd |>
        <| caddies := <[scd := Cell 1 (pipe_scd r trk)]> (<[cd := Cell 1 (pipe_cd_trk mt trk)]> (caddies s)) |>
        <| trks := <[trk := Cell 1 (pipe_trk 0 cd)]> (trks s) |>
        <| events := events s ++ [Ev FifoBase H_fifo_sched scd] |>
  | SFifo mt cd trk scd =>
      s <| reqs := <[r := Cell 3 q]> (reqs s) |>
        <| fifo_reqs := fifo_reqs s ++ [ReqItem (Some r)] |>
        <| events := events s ++ [Ev MainBase H_sched_base_cbfunc scd] |>
  | SSchedCb mt cd trk scd =>
      s <| trks := <[trk := Cell 1 (pipe_trk 1 cd)]> (trks s) |>
        <| events := events s ++ [Ev MainBase H_pri_sched_cbfunc cd] |>
  | SPriCb mt cd trk => s <| events := events s ++ [Ev MainBase H_meta_base_cbfunc cd] |>
  | SMetaCb mt cd trk =>
      s <| reqs := <[r := Cell 1 q]> (reqs s) |> <| metas := delete mt (metas s) |>
        <| caddies := delete cd (caddies s) |> <| trks := delete trk (trks s) |>
        <| g_requests := pa_set (g_requests s) (req_index q) None |>
        <| replies := replies s ++ reply_to q (req_status q) |>
  end.

(** Where the request is then. *)
Definition t_next (t : token) (s : sys P) : list token :=
  let r := t_loc t in
  let q := t_req t in
  match t_stage t with
  | SInit d => [Token r ((d_req d) <| req_index := (pa_add (g_requests s) r).1 |>) SMeta]
  | SMeta => [Token r q (SPri (next s) (S (next s)))]
  | SPri mt cd => [Token r q (SBase mt cd)]
  | SBase mt cd => [Token r q (SFifo mt cd (next s) (S (next s)))]
  | SFifo mt cd trk scd => [Token r q (SSchedCb mt cd trk scd)]
  | SSchedCb mt cd trk _ => [Token r q (SPriCb mt cd trk)]
  | SPriCb mt cd trk => [Token r q (SMetaCb mt cd trk)]
  | SCtrl | SOther _ _ | SMetaCb _ _ _ => []
  end.

(** What running the event of a token does. *)
Record advances (s : sys P) (t : token) (rest : list token) : Prop := {
  ad_run : run_handler meta_actives sched_actives (ev_fn (t_event t)) (ev_arg (t_event t)) s
    = Done (tt, effect t s);
  ad_events : events (effect t s) = events s ++ (t_event <$> t_next t s);
  ad_replies : replies (effect t s) = replies s ++ t_says t;
  ad_due : t_due t = t_says t ++ (t_next t s ≫= t_due);
  ad_left : t_left t = S (sum_list_with t_left (t_next t s));
  ad_nodes : nodes (effect t s) = nodes s;
  ad_pool : g_nodes (effect t s) = g_nodes s;
  ad_follows : follows t (t_next t s);
  ad_inv : inv (effect t s) (t_next t s ++ rest)
}.

(** The threads of the modules run. *)
Lemma null_base_runs s ts b : inv s ts -> is_null_base (null_bases s) b = false.
Proof. intros Hinv. rewrite (inv_bases _ _ Hinv). by destruct b. Qed.

(** The locations a token owns, as facts for [lia]. *)
Lemma inv_owns s t rest :
  inv s (t :: rest) -> NoDup (t_owns t) /\ Forall (fun l => (l < next s)%nat) (t_owns t).
Proof.
  intros [_ Hnd Hfr _ _ _ _]. rewrite owned_cons in Hnd, Hfr.
  apply NoDup_app in Hnd as [? _]. by apply Forall_app in Hfr as [? _].
Qed.

Ltac distinct Hinv :=
  let Hn := fresh in let Hf := fresh in
  destruct (inv_owns _ _ _ Hinv) as [Hn Hf]; unfold t_owns in Hn, Hf; simpl in Hn, Hf;
  repeat match goal with
  | H : NoDup (_ :: _) |- _ => apply NoDup_cons in H as [? H]
  | H : Forall _ (_ :: _) |- _ => apply Forall_cons in H as [? H]
  | H : _ ∉ _ :: _ |- _ => apply not_elem_of_cons in H as [? H]
  end.

(** The side conditions of [inv_step] about locations. *)
Ltac same_off :=
  unfold same_at; intros ? ? Hoff; unfold t_owns in Hoff; simpl in Hoff;
  rewrite ?not_elem_of_cons in Hoff; destruct_and? Hoff; simpl;
  repeat first [rewrite lookup_delete_ne by apart | rewrite lookup_insert_ne by apart]; done.
Ltac nodup_locs :=
  unfold owned, t_owns; simpl; rewrite ?NoDup_cons, ?not_elem_of_cons;
  split_and?; try apart; try apply not_elem_of_nil; try apply NoDup_nil_2.
Ltac new_locs :=
  unfold owned, t_owns; simpl; intros ? Hl;
  repeat (apply elem_of_cons in Hl as [->|Hl]; [first
    [left; rewrite !elem_of_cons; tauto
    |right; repeat match goal with H : _ <> _ |- _ => clear H end; lia]|]);
  by apply elem_of_nil in Hl.
Ltac token_ok :=
  apply Forall_singleton; unfold t_ok, t_objects, t_refs; cbn [t_stage t_loc t_req];
  split_and?; first [look | assumption | simpl; congruence].
(** A handler that leaves its token one successor; what it does to the arrays is left. *)
Ltac one_token Hinv :=
  unfold effect, t_next; cbn [t_stage t_loc t_req];
  eapply inv_step; [exact Hinv|simpl; lia|same_off|token_ok|nodup_locs|new_locs| | |apply Hinv|apply Hinv].
(** A handler that touches no other request and no array. *)
Ltac quiet Hinv :=
  one_token Hinv;
  [eapply queue_ok_same; [apply Hinv|done..]|eapply fifo_ok_same; [apply Hinv|done..]].
Ltac open_token Hinv :=
  intros Hinv; pose proof (inv_ok _ _ Hinv) as Hok; apply Forall_cons in Hok as [Hok _];
  unfold t_ok, t_objects, t_refs in Hok; cbn [t_stage t_loc t_req] in Hok;
  destruct_and? Hok; distinct Hinv.

(** The pool is as it was when the daemon came up. *)
Definition at_pool (s : sys P) : Prop := nodes s = pool /\ g_nodes s = arr.

Lemma fifo_run s r q mt cd trk scd rest :
  inv s (Token r q (SFifo mt cd trk scd) :: rest) ->
  fifo_sched scd s = Done (tt, effect (Token r q (SFifo mt cd trk scd)) s).
Proof.
  open_token Hinv.
  pose proof (fun it => fifo_ok_append s r 3 q it (inv_fifo _ _ Hinv) ltac:(assumption)) as Hf.
  destruct (fifo_reqs s ++ [ReqItem (Some r)]) as [|it items] eqn:Eits;
    [by destruct (fifo_reqs s)|].
  destruct (Hf it ltac:(set_solver)) as (r0 & c0 & Hit & Hc0 & Hn0).
  unfold fifo_sched, effect. repeat run1. rewrite Eits, Hit. run1. run1.
  rewrite (inv_avail _ _ Hinv). destruct (Z.ltb_spec (num_nodes (body c0)) 0); [lia|].
  repeat run1.
Qed.

Lemma init_run s r q d rest :
  inv s (Token r q (SInit d) :: rest) ->
  request_init r s = Done (tt, effect (Token r q (SInit d)) s).
Proof.
  open_token Hinv.
  assert (ok (d_rcerr d) = true) as Hok by (by apply ok_true).
  destruct (decode_identity q d) as (Ef & Ed & Es & _); [assumption|].
  unfold request_init, effect, reply_to. run1. erewrite lift_run by eassumption. rewrite Hok.
  repeat run1. rewrite call_if_run, !insert_insert_eq. simpl.
  match goal with Hd : d_rcerr d = _ |- _ => by rewrite Ef, Ed, Hd end.
Qed.

(** Every handler runs to completion on the objects of its token. *)
Lemma effect_run s t rest :
  at_pool s -> inv s (t :: rest) ->
  run_handler meta_actives sched_actives (ev_fn (t_event t)) (ev_arg (t_event t)) s =
    Done (tt, effect t s).
Proof.
  destruct t as [r q [d| |h c| |mt cd|mt cd|mt cd trk scd|mt cd trk scd|mt cd trk|mt cd trk]];
    intros [Hn Hg] Hinv; [|done|..]; pose proof (null_base_runs _ _ PriBase Hinv) as Hb1; pose proof (null_base_runs _ _ FifoBase Hinv) as Hb2; cbn [t_event t_stage t_loc ev_fn ev_arg run_handler];
    [by eapply init_run|..|by eapply fifo_run| | |]; revert Hinv; open_token Hinv; unfold effect.
  - pose proof (side_run h c r s ltac:(done) ltac:(done) ltac:(done) Hn Hg) as Hrun.
    by destruct (side_foreign h c) as [-> | ->].
  - unfold dsched_meta_base_schedule, meta_actives, myschedule, meta_schedule_modules.
    repeat run1. by rewrite !insert_insert_eq.
  - unfold pri_sched. repeat run1.
  - unfold dsched_sched_base_schedule, sched_actives, fifo_schedule, sched_schedule_modules.
    repeat run1. by rewrite !insert_insert_eq.
  - unfold dsched_sched_base_cbfunc, shift_evcbfunc. repeat run1.
  - unfold pri_sched_cbfunc. repeat run1.
  - unfold dsched_meta_base_cbfunc, release_opt, dmetades, sdes, no_destructor.
    repeat run1. by rewrite ?insert_insert_eq, ?delete_insert_eq.
Qed.

(** What comes out keeps the invariant. *)
Lemma init_inv s r q d rest :
  let t := Token r q (SInit d) in inv s (t :: rest) -> inv (effect t s) (t_next t s ++ rest).
Proof.
  intros t; subst t. open_token Hinv.
  destruct (decode_identity q d) as (Ef & Ed & Es & _); [assumption|]. one_token Hinv.
  - eapply queue_ok_add; [apply Hinv|done..].
  - by eapply fifo_ok_update; [apply Hinv|done..].
Qed.

Lemma meta_cb_inv s r q mt cd trk rest :
  let t := Token r q (SMetaCb mt cd trk) in inv s (t :: rest) -> inv (effect t s) rest.
Proof.
  intros t; subst t. open_token Hinv. unfold effect; cbn [t_stage t_loc t_req].
  eapply (inv_step _ _ _ []); [exact Hinv|simpl; lia|same_off|constructor|constructor
    |by intros ? ?%elem_of_nil| | |apply Hinv|apply Hinv].
  - eapply queue_ok_done; [apply Hinv| |done..].
    pose proof (inv_nodup _ _ Hinv) as Hn. rewrite owned_cons in Hn.
    apply NoDup_app in Hn as (_ & Hn & _). apply Hn. unfold t_owns. set_solver.
  - by eapply fifo_ok_update; [apply Hinv|done..].
Qed.

Lemma other_inv s r q h c rest :
  let t := Token r q (SOther h c) in inv s (t :: rest) -> inv (effect t s) rest.
Proof.
  intros t; subst t. open_token Hinv. unfold effect; cbn [t_stage t_loc t_req].
  eapply (inv_step _ _ _ []); [exact Hinv|simpl; by destruct (side_new h c); lia| |constructor
    |constructor|by intros ? ?%elem_of_nil|eapply queue_ok_drop; [apply Hinv|done]|apply Hinv..].
  intros l Hl Hoff. unfold same_at. simpl.
  assert (l <> r) by (intros ->; apply Hoff; unfold t_owns; set_solver).
  rewrite lookup_delete_ne by done.
  destruct (side_new h c); [rewrite lookup_insert_ne by lia|]; done.
Qed.

Lemma effect_inv s t rest : inv s (t :: rest) -> inv (effect t s) (t_next t s ++ rest).
Proof.
  destruct t as [r q [d| |h c| |mt cd|mt cd|mt cd trk scd|mt cd trk scd|mt cd trk|mt cd trk]];
    [apply init_inv| |apply other_inv| | | | | | |apply meta_cb_inv]; open_token Hinv.
  - eapply (inv_step s _ _ []); [exact Hinv|done|same_off|constructor|constructor
      |by intros ? ?%elem_of_nil|eapply queue_ok_drop; [apply Hinv|done]|apply Hinv..].
  - one_token Hinv; [eapply queue_ok_same; [apply Hinv|done..]|].
    by eapply fifo_ok_update; [apply Hinv|done..].
  - quiet Hinv.
  - quiet Hinv.
  - one_token Hinv; [eapply queue_ok_same; [apply Hinv|done..]|].
    intros it Hit. by eapply (fifo_ok_append s r 3 q); [apply Hinv|eassumption|].
  - quiet Hinv.
  - quiet Hinv.
Qed.

Lemma advance s t rest : at_pool s -> inv s (t :: rest) -> advances s t rest.
Proof.
  intros Hpool Hinv. pose proof (effect_run _ _ _ Hpool Hinv) as Hrun.
  pose proof (effect_inv _ _ _ Hinv) as Hinv'.
  pose proof (inv_ok _ _ Hinv) as Hok. apply Forall_cons in Hok as [Hok _].
  destruct t as [r q [d| |h c| |mt cd|mt cd|mt cd trk scd|mt cd trk scd|mt cd trk|mt cd trk]];
    split; try assumption; unfold t_due, t_says; simpl; rewrite ?app_nil_r; try done.
  - destruct Hok as (_ & _ & _ & Hd & _ & _). simpl in Hd.
    destruct (decode_identity q d Hd) as (Ef & Ed & _ & _). unfold reply_to. by rewrite Ef, Ed.
  - destruct Hok as (_ & Hst & _). simpl in Hst. by rewrite Hst.
Qed.

(** A handler leaves alone what its token does not own, and makes nothing but new
    objects its own. *)
Lemma effect_same s t rest l :
  inv s (t :: rest) -> (l < next s)%nat -> l ∉ t_owns t -> same_at s (effect t s) l.
Proof.
  intros Hinv Hl Hoff. destruct (inv_owns _ _ _ Hinv) as [_ Hfr].
  destruct t as [r q [d| |h c| |mt cd|mt cd|mt cd trk scd|mt cd trk scd|mt cd trk|mt cd trk]];
    unfold t_owns in Hoff, Hfr; cbn [t_stage t_loc] in Hoff, Hfr;
    rewrite ?not_elem_of_cons in Hoff; destruct_and? Hoff;
    unfold same_at, effect, side_effect; cbn [t_stage t_loc t_req];
    try destruct (side_new h c); simpl;
    repeat first [rewrite lookup_delete_ne by apart | rewrite lookup_insert_ne by apart]; done.
Qed.

Lemma effect_next t s : (next s <= next (effect t s))%nat.
Proof.
  destruct t as [r q [d| |h c| |mt cd|mt cd|mt cd trk scd|mt cd trk scd|mt cd trk|mt cd trk]];
    unfold effect, side_effect; cbn [t_stage t_loc t_req]; try destruct (side_new h c); simpl; lia.
Qed.

Lemma next_owned t s l : l ∈ owned (t_next t s) -> l ∈ t_owns t \/ (next s <= l)%nat.
Proof.
  destruct t as [r q []]; unfold owned, t_owns; simpl; rewrite ?elem_of_cons; intros Hl;
    repeat destruct Hl as [->|Hl]; try (right; lia); try tauto; by apply elem_of_nil in Hl.
Qed.

(** The object of an event is its token's own. *)
Lemma ev_arg_owned t : ev_arg (t_event t) ∈ t_owns t.
Proof. destruct t as [r q []]; unfold t_owns; simpl; rewrite ?elem_of_cons; tauto. Qed.

Lemma events_apart s ts : inv s ts -> NoDup (ev_arg <$> (t_event <$> ts)).
Proof.
  intros [_ Hnd _ _ _ _ _]. induction ts as [|t ts IH]; [constructor|].
  rewrite owned_cons in Hnd. apply NoDup_app in Hnd as (_ & Hd & Hnd). cbn.
  constructor; [|by apply IH]. rewrite <- list_fmap_compose. intros Hin.
  apply list_elem_of_fmap in Hin as (u & E & Hu). apply (Hd (ev_arg (t_event t)) (ev_arg_owned t)).
  apply list_elem_of_bind. exists u. split; [|done]. rewrite E. apply ev_arg_owned.
Qed.

Lemma inv_perm s ts ts' : ts ≡ₚ ts' -> inv s ts -> inv s ts'.
Proof.
  intros Hp [? ? ? [H1 H2] ? ? ?].
  assert (owned ts ≡ₚ owned ts') as Ho by (unfold owned; by rewrite Hp).
  split; [by rewrite <- Hp|by rewrite <- Ho|by rewrite <- Ho| |done|done|done].
  split.
  - intros i r Hi. destruct (H1 i r Hi) as (t & Ht & ?). exists t. by rewrite <- Hp.
  - intros t Ht. apply H2. by rewrite Hp.
Qed.

Lemma inv_events s ev ts : inv s ts -> inv (s <| events := ev |>) ts.
Proof. by intros [? ? ? ? ? ? ?]. Qed.

(** ** Submissions *)

(** Where an accepted upcall starts. *)
Definition start_of (u : upcall) (r : loc) : token :=
  match u with
  | Up_alloc _ _ _ _ _ _ =>
      Token r (request_of u)
        (SInit match decode (request_of u) with
               | Done d => d
               | Fault _ => Decoding (request_of u) PMIX_SUCCESS false
               end)
  | Up_ctrl _ _ _ _ _ => Token r (request_of u) SCtrl
  | Up_other h c => Token r (request_of u) (SOther h c)
  end.

(** The object that carries the upcall. *)
Definition record_upcall (u : upcall) (s : sys P) : sys P :=
  match u with
  | Up_other _ c => s <| caddies := <[next s := Cell 1 c]> (caddies s) |>
  | _ => s <| reqs := <[next s := Cell 1 (request_of u)]> (reqs s) |>
  end.

Definition after_submit (u : upcall) (s : sys P) : sys P :=
  (record_upcall u s) <| next := S (next s) |>
    <| events := events s ++ [t_event (start_of u (next s))] |>.

Lemma submit_run u s : submit u s = Done (PMIX_SUCCESS, after_submit u s).
Proof.
  unfold submit, after_submit, dsched_alloc_fn, dsched_session_ctrl_fn.
  destruct u; repeat run1; by rewrite ?insert_insert_eq.
Qed.

Lemma queue_ok_new s s' t ts :
  queue_ok s ts -> g_requests s' = g_requests s -> t_queued t = false -> queue_ok s' (t :: ts).
Proof.
  intros [H1 H2] E Hq. unfold queue_ok. rewrite E. split.
  - intros i r Hi. destruct (H1 i r Hi) as (t0 & ? & ?). exists t0. split; [set_solver|done].
  - intros t0 [->|Ht0]%elem_of_cons ? ?; [congruence|by apply H2].
Qed.

Lemma submit_inv u s ts :
  acceptable u -> inv s ts -> inv (after_submit u s) (start_of u (next s) :: ts).
Proof.
  intros Hu Hinv. apply (inv_update s _ [] [_] ts).
  - done.
  - destruct u; simpl; lia.
  - intros l Hl _. unfold same_at. destruct u; simpl; rewrite lookup_insert_ne by lia; done.
  - apply Forall_singleton. unfold t_ok, t_objects, t_refs, after_submit.
    destruct u as [? ? ? ? ? ?| |]; simpl in *; rewrite lookup_insert_eq.
    + destruct Hu as (d & Hd & ? & ?). by rewrite Hd.
    + done.
    + done.
  - destruct u; unfold owned, t_owns; simpl; apply NoDup_singleton.
  - intros l Hl. right. destruct u; unfold owned, t_owns in Hl; simpl in *;
      apply list_elem_of_singleton in Hl as ->; lia.
  - destruct u; (eapply queue_ok_new; [apply Hinv|done|done]).
  - destruct u; [eapply fifo_ok_update; [apply Hinv|done|done|done]..|].
    by eapply fifo_ok_same; [apply Hinv|..].
  - destruct u; apply Hinv.
  - destruct u; apply Hinv.
Qed.

Lemma due_start u r : acceptable u -> t_due (start_of u r) = owed u.
Proof. destruct u; simpl; [|done..]. intros (d & Hd & _). by rewrite Hd. Qed.

Lemma left_start u r : t_left (start_of u r) = handlers u.
Proof. by destruct u. Qed.

(** ** The simulation *)

(** The state after the upcalls [us] and [k] handlers, against its tokens; [told] are
    the replies that were made by others meanwhile. *)
Record tracks (s : sys P) (us : list upcall) (k : nat) (ts : list token) (told : list reply)
    : Prop := {
  tr_events : events s = t_event <$> ts;
  tr_inv : inv s ts;
  tr_replies : replies s ++ (ts ≫= t_due) ≡ₚ (us ≫= owed) ++ told;
  tr_work : (k + sum_list_with t_left ts = sum_list_with handlers us)%nat;
  tr_pool : at_pool s
}.

Lemma tracks_submit s us k ts told u :
  acceptable u -> tracks s us k ts told ->
  tracks (after_submit u s) (us ++ [u]) k (ts ++ [start_of u (next s)]) told.
Proof.
  intros Hu [He Hi Hr Hw Hp]. split.
  - unfold after_submit. simpl. by rewrite He, fmap_app.
  - eapply inv_perm; [|by apply submit_inv]. by rewrite Permutation_cons_append.
  - rewrite !bind_app. simpl. rewrite !app_nil_r, due_start by done.
    assert (replies (record_upcall u s) = replies s) as -> by (by destruct u).
    rewrite app_assoc, Hr, <- !app_assoc. apply Permutation_app_head, Permutation_app_comm.
  - rewrite !sum_list_with_app. simpl. rewrite left_start. lia.
  - by destruct u.
Qed.

Lemma tracks_told s us k ts told rs :
  tracks s us k ts told -> tracks (s <| replies := replies s ++ rs |>) us k ts (told ++ rs).
Proof.
  intros [He Hi Hr Hw Hp]. split; [done|by destruct Hi| |done|done]. simpl.
  rewrite app_assoc, <- Hr, <- !app_assoc. apply Permutation_app_head, Permutation_app_comm.
Qed.

(** Freeing a caddy that belongs to no request. *)
Lemma tracks_release s us k ts told l :
  tracks s us k ts told -> l ∉ owned ts ->
  tracks (s <| caddies := delete l (caddies s) |>) us k ts told.
Proof.
  intros [He [Hok Hnd Hfr Hq Hf Ha Hb] Hr Hw Hp] Hl. split; [done| |done..]. split; [|done..].
  rewrite Forall_forall in Hok |- *. intros t Ht. apply (t_ok_same s); [|by apply Hok].
  intros l' Hl'. assert (l <> l').
  { intros ->. apply Hl. apply list_elem_of_bind. eauto. }
  unfold same_at. simpl. by rewrite lookup_delete_ne.
Qed.

(** The state after the [i]-th event, which is that of [t]. *)
Definition after_run (i : nat) (t : token) (s : sys P) : sys P :=
  effect t (s <| events := delete i (events s) |>).

Lemma after_run_next i t s : (next s <= next (after_run i t s))%nat.
Proof. unfold after_run. by etransitivity; [|apply effect_next]. Qed.

Lemma after_run_same s i t rest l :
  inv (s <| events := delete i (events s) |>) (t :: rest) -> (l < next s)%nat -> l ∉ t_owns t ->
  same_at s (after_run i t s) l.
Proof. intros Hinv Hl Hoff. exact (effect_same _ _ _ _ Hinv Hl Hoff). Qed.

Lemma tracks_effect s us k ts told i t :
  tracks s us k ts told -> ts !! i = Some t ->
  run_event i s = Done (tt, after_run i t s) /\
  inv (s <| events := delete i (events s) |>) (t :: delete i ts) /\
  tracks (after_run i t s) us (S k) (delete i ts ++ t_next t s) told.
Proof.
  intros [He Hi Hr Hw [Hp1 Hp2]] Ht.
  assert (ts ≡ₚ t :: delete i ts) as Hp by (by apply delete_Permutation).
  set (s1 := s <| events := delete i (events s) |>).
  assert (inv s1 (t :: delete i ts)) as Hi1 by (apply inv_events; by eapply inv_perm).
  destruct (advance _ _ _ (conj Hp1 Hp2 : at_pool s1) Hi1) as [Hrun He' Hr' Hd Hl Hn1 Hn2 Hfol Hi'].
  assert (t_next t s1 = t_next t s) as En by (by destruct t as [r q []]).
  rewrite En in *. change (after_run i t s) with (effect t s1). split; [|split; [done|split]].
  - unfold run_event, run_nth. rewrite He, list_lookup_fmap, Ht. simpl. rewrite <- He. exact Hrun.
  - rewrite He', fmap_app. unfold s1. simpl. by rewrite He, list_fmap_delete.
  - eapply inv_perm; [|exact Hi']. by rewrite Permutation_app_comm.
  - assert (ts ≫= t_due ≡ₚ (t :: delete i ts) ≫= t_due) as Ht' by (by apply bind_Permutation).
    rewrite Hr', <- Hr, Ht', bind_app. unfold s1. simpl. rewrite Hd.
    rewrite <- !app_assoc. do 2 apply Permutation_app_head. apply Permutation_app_comm.
  - rewrite sum_list_with_app. rewrite <- Hw.
    assert (sum_list_with t_left ts = sum_list_with t_left (t :: delete i ts)) as ->
      by (by apply sum_list_with_Permutation_proper).
    simpl. lia.
  - split; [by rewrite Hn1|by rewrite Hn2].
Qed.

Lemma tracks_run_token s us k ts told i t :
  tracks s us k ts told -> ts !! i = Some t ->
  exists s' new, run_event i s = Done (tt, s') /\ replies s' = replies s ++ t_says t /\
    t_due t = t_says t ++ (new ≫= t_due) /\ follows t new /\
    tracks s' us (S k) (delete i ts ++ new) told.
Proof.
  intros Ht Hi. destruct (tracks_effect _ _ _ _ _ _ _ Ht Hi) as (Hrun & Hinv & Ht').
  destruct (advance (s <| events := delete i (events s) |>) t (delete i ts)) as
    [_ _ Hr Hd _ _ _ Hf _]; [by apply Ht|exact Hinv|].
  exists (after_run i t s), (t_next t s).
  assert (t_next t (s <| events := delete i (events s) |>) = t_next t s) as En
    by (by destruct t as [r q []]).
  rewrite En in *. by split_and!.
Qed.

Lemma tracks_run s us k ts told i :
  tracks s us k ts told -> (i < length (events s))%nat ->
  exists s' ts', run_event i s = Done (tt, s') /\ tracks s' us (S k) ts' told.
Proof.
  intros Ht Hlen. rewrite (tr_events _ _ _ _ _ Ht), length_fmap in Hlen.
  apply lookup_lt_is_Some in Hlen as [t Hi].
  destruct (tracks_run_token _ _ _ _ _ _ _ Ht Hi) as (s' & new & ? & _ & _ & _ & ?). eauto.
Qed.

Lemma tracks_initial n : tracks (initial pool arr n) [] 0 [] [].
Proof.
  split; [done| |done|done|done]. split; [constructor|constructor|constructor| | |done|done].
  - split; [|set_solver]. intros i r. simpl. by rewrite pa_get_empty.
  - intros it Hit. simpl in Hit. set_solver.
Qed.

Lemma tracks_reach n us k s :
  reach (initial pool arr n) us k s -> exists ts, tracks s us k ts [].
Proof.
  induction 1 as [|us k s u rc s' _ [ts IH] Hu Hs|us k s i s' _ [ts IH] Hlt Hs].
  - exists []. apply tracks_initial.
  - rewrite submit_run in Hs. simplify_eq. eexists. by apply tracks_submit.
  - destruct (tracks_run _ _ _ _ _ _ IH Hlt) as (s1 & ts1 & Hrun & Ht).
    rewrite Hrun in Hs. simplify_eq. by exists ts1.
Qed.

(** ** Theorems *)

Lemma t_left_pos t : (1 <= t_left t)%nat.
Proof. destruct t as [? ? []]; unfold t_left; simpl; lia. Qed.

Lemma no_work_left ts : sum_list_with t_left ts = 0%nat <-> ts = [].
Proof.
  split; [|by intros ->]. destruct ts as [|t ts]; [done|]. intros Hs. exfalso. simpl in Hs.
  pose proof (t_left_pos t). lia.
Qed.

(** Running the oldest event as often as there is work left ends without a token. *)
Lemma drain s us k ts told :
  tracks s us k ts told ->
  let total := sum_list_with handlers us in
  exists s', run_fifo meta_actives sched_actives (total - k) s = Done (tt, s') /\
    tracks s' us total [] told.
Proof.
  intros Ht total. remember (total - k)%nat as w eqn:Ew. revert s k ts Ew Ht.
  induction w as [|w IH]; intros s k ts Ew Ht; pose proof (tr_work _ _ _ _ _ Ht) as Hwork;
    fold total in Hwork.
  - exists s. split; [done|]. assert (ts = []) as -> by (apply no_work_left; lia).
    simpl in Hwork. by replace total with k by lia.
  - destruct ts as [|t ts]; [simpl in Hwork; lia|].
    assert (0 < length (events s))%nat as Hlt by (rewrite (tr_events _ _ _ _ _ Ht); simpl; lia).
    destruct (tracks_run _ _ _ _ _ _ Ht Hlt) as (s1 & ts1 & Hrun & Ht1).
    destruct (IH s1 (S k) ts1) as (s' & Hs' & He'); [|done|].
    { lia. }
    exists s'. split; [|done]. simpl. erewrite act_bind_Done by exact Hrun. done.
Qed.

(** C2: No handler of the shipped pipeline ever dereferences a null or a freed
    object: in every state reached by any interleaving of acceptable upcalls and
    handlers, every active event runs to completion. And no two active events are those
    of one object, so that no object is shifted again, its event set anew, while its
    event is still active, which the event library forbids. *)
Theorem pipeline_safe n us k s :
  reach (initial pool arr n) us k s ->
  (forall i, (i < length (events s))%nat -> exists s', run_event i s = Done (tt, s')) /\
  NoDup (ev_arg <$> events s).
Proof.
  intros [ts Ht]%tracks_reach. split.
  - intros i Hi. destruct (tracks_run _ _ _ _ _ _ Ht Hi) as (s' & ts' & Hrun & _). by exists s'.
  - rewrite (tr_events _ _ _ _ _ Ht). by eapply events_apart, tr_inv.
Qed.

(** C4: The pipeline terminates, on acceptable upcalls: those that decode and whose
    node count fits a C int. An allocation request costs eight handlers and a control
    request one: no interleaving runs more, the events are all gone exactly
    when that many have run, and running the oldest event that many times gets
    there. *)
Theorem pipeline_drains n us k s :
  reach (initial pool arr n) us k s ->
  let total := sum_list_with handlers us in
  (k <= total)%nat /\ (events s = [] <-> k = total) /\
  exists s', run_fifo meta_actives sched_actives (total - k) s = Done (tt, s') /\ events s' = [].
Proof.
  intros [ts Ht]%tracks_reach total. pose proof (tr_work _ _ _ _ _ Ht) as Hw. fold total in Hw.
  split_and!; [lia| |].
  - rewrite (tr_events _ _ _ _ _ Ht). split.
    + intros ->%fmap_nil_inv. simpl in Hw. lia.
    + intros ->. assert (sum_list_with t_left ts = 0%nat) as ->%no_work_left by lia. done.
  - destruct (drain _ _ _ _ _ Ht) as (s' & Hrun & Ht'). exists s'. split; [done|].
    apply Ht'.
Qed.

(** C3: The replies of the pipeline are right in number, function, cbdata and status.
    Whatever the interleaving of handlers and of acceptable upcalls, those that decode and
    whose node count fits a C int (others may destroy the pool): at any time the requestors have received some of the replies they are owed and
    no other, and once no event is left they have received all of them: success when
    they asked not to wait, then [PMIX_ERR_NOT_SUPPORTED], as no node is ever
    available. By then the global array of requests is empty, and no node of the
    pool has been touched at any time. *)
Theorem pipeline_answers n us k s :
  reach (initial pool arr n) us k s ->
  replies s ⊆+ us ≫= owed /\ nodes s = pool /\ g_nodes s = arr /\
  (events s = [] ->
    replies s ≡ₚ us ≫= owed /\ forall i, pa_get (g_requests s) i = None).
Proof.
  intros [ts Ht]%tracks_reach. destruct (tr_pool _ _ _ _ _ Ht) as [Hn Hg].
  pose proof (tr_replies _ _ _ _ _ Ht) as Hr. rewrite app_nil_r in Hr. split_and!; [|done|done|].
  - rewrite <- Hr. apply submseteq_inserts_r. done.
  - intros He. rewrite (tr_events _ _ _ _ _ Ht) in He. apply fmap_nil_inv in He as ->.
    split; [by rewrite <- Hr, app_nil_r|]. intros i.
    destruct (pa_get (g_requests s) i) as [r|] eqn:E; [|done].
    destruct (proj1 (inv_queue _ _ (tr_inv _ _ _ _ _ Ht)) i r E) as (t & Ht' & _).
    by apply elem_of_nil in Ht'.
Qed.

(** C40: When every active scheduler returns an error, or there is none, the request
    that was passed down brings the scheduler down: nobody took the reference the
    fifo module takes, so the answer of [dsched_meta_base_cbfunc] releases the last
    one, and the destructor of the request releases an allocation that is null. *)
Theorem failed_schedulers_fault mods (s : sys P) r q mt cd :
  Forall sched_fails mods ->
  reqs s !! r = Some (Cell 2 q) -> req_allocation q = None ->
  metas s !! mt = Some (Cell 1 (pipe_meta r)) ->
  caddies s !! cd = Some (Cell 1 (pipe_cd_cb mt)) ->
  (dsched_sched_base_schedule mods cd ;; pri_sched_cbfunc cd ;; dsched_meta_base_cbfunc cd) s
    = Fault NullDeref.
Proof.
  intros Hall Hr Ha Hm Hc. unfold dsched_sched_base_schedule. repeat run1.
  erewrite act_bind_Done.
  2: { apply sched_modules_fail; [done|]. simpl. apply lookup_insert_eq. }
  do 2 run1. rewrite Z.add_0_l, Z.eqb_refl. unfold shift_evcbfunc, no_destructor. repeat run1.
  unfold pri_sched_cbfunc. repeat run1.
  unfold dsched_meta_base_cbfunc, dmetades, release_opt. repeat run1.
  unfold req_des. simpl. rewrite Ha. done.
Qed.

(** A module whose thread could not be started has a null [evbase], and offers itself all
    the same: the request that is passed to it is dropped. No event is left that would
    answer it, and it stays in the global array of requests. *)
Theorem null_base_drops (s : sys P) r c :
  reqs s !! r = Some c -> PriBase ∈ null_bases s ->
  exists s', dsched_meta_base_schedule meta_actives (Some r) s = Done (tt, s') /\
    events s' = events s /\ replies s' = replies s /\ g_requests s' = g_requests s /\
    reqs s' !! r = Some (Cell (refs c + 1) (body c)).
Proof.
  intros Hr Hb. unfold dsched_meta_base_schedule, meta_actives, myschedule, meta_schedule_modules.
  eexists. split; [repeat run1; erewrite shift_null; [repeat run1|look|]|].
  - simpl. by apply bool_decide_eq_true.
  - simpl. by rewrite lookup_insert_eq.
Qed.

(** ** Schedules

    A run given as the list of its moves, for the examples. *)

Inductive move := Submit (u : upcall) | Run (i : nat).

Fixpoint play (ms : list move) (s : sys P) : option (sys P) :=
  match ms with
  | [] => Some s
  | Submit u :: ms => match submit u s with Done (_, s') => play ms s' | Fault _ => None end
  | Run i :: ms =>
      if (i <? length (events s))%nat
      then match run_event i s with Done (_, s') => play ms s' | Fault _ => None end
      else None
  end.

Definition submitted (ms : list move) : list upcall :=
  omap (fun m => match m with Submit u => Some u | Run _ => None end) ms.
Definition ran (ms : list move) : nat :=
  length (omap (fun m => match m with Run i => Some i | Submit _ => None end) ms).

Lemma play_reach ms s0 us k s :
  reach s0 us k s -> Forall acceptable (submitted ms) -> is_Some (play ms s) ->
  reach s0 (us ++ submitted ms) (k + ran ms) (default s (play ms s)).
Proof.
  revert us k s. induction ms as [|[u|i] ms IH]; intros us k s Hr Ha Hp.
  - by rewrite app_nil_r, Nat.add_0_r.
  - apply Forall_cons in Ha as [Hu Ha]. unfold play in Hp |- *; fold play in Hp |- *.
    rewrite submit_run in Hp |- *.
    replace (us ++ submitted (Submit u :: ms)) with ((us ++ [u]) ++ submitted ms)
      by (by rewrite <- app_assoc).
    destruct (play ms (after_submit u s)) as [s'|] eqn:E; [|by destruct Hp]. simpl.
    specialize (IH (us ++ [u]) k (after_submit u s)). rewrite E in IH. apply IH; [|done..].
    eapply reach_submit; [done|done|apply submit_run].
  - unfold play in Hp |- *; fold play in Hp |- *.
    destruct (Nat.ltb_spec i (length (events s))); [|by destruct Hp].
    destruct (run_event i s) as [[[] s1]|] eqn:E1; [|by destruct Hp].
    destruct (play ms s1) as [s'|] eqn:E; [|by destruct Hp]. simpl.
    specialize (IH us (S k) s1). rewrite E in IH.
    change (ran (Run i :: ms)) with (S (ran ms)). rewrite <- Nat.add_succ_comm.
    apply IH; [by eapply reach_run|done..].
Qed.

Lemma play_initial n ms :
  Forall acceptable (submitted ms) -> is_Some (play ms (initial pool arr n)) ->
  reach (initial pool arr n) (submitted ms) (ran ms)
    (default (initial pool arr n) (play ms (initial pool arr n))).
Proof. apply (play_reach ms _ [] 0). constructor. Qed.
End Sides.
End Pipeline.

(** Without other upcalls the interface asks for nothing. *)
Definition no_sides {P : Type -> Type} `{PArray P} (others : handler -> loc -> act (sys P) unit)
    pool arr : Sides others pool arr.
Proof. by refine {| side_ok := fun _ _ => False; side_says := fun _ _ => []; side_new := fun _ _ => None |}. Defined.

(** ** Examples *)

#[local] Existing Instance sample_pmix.

Definition sample_pool : gmap loc (cell dsched_node_t) :=
  {[ 0%nat := Cell 1 (sample_node "a" []); 1%nat := Cell 1 (sample_node "b" []) ]}.
Definition sample_start : sys slots := initial sample_pool [Some 0%nat; Some 1%nat] 2.

Definition no_others (h : handler) (obj : loc) : act (sys slots) unit := mret tt.
#[local] Instance sample_sides : Sides no_others sample_pool [Some 0%nat; Some 1%nat] :=
  no_sides _ _ _.

Definition sample_upcall (data : list pmix_info) (cbdata : Z) : upcall (P := slots) :=
  Up_alloc (Proc "tool" 0) 1 data (Some 7) cbdata 0.
Definition not_waiting : pmix_info := Info PMIX_ALLOC_NOT_WAITING (Value PMIX_BOOL (UBool true)).

(** Two requests and a control request, interleaved. *)
Definition sample_moves : list (move (P := slots)) :=
  [Submit (sample_upcall [num_nodes_info 4] 1); Run 0; Run 0; Run 0;
   Submit (sample_upcall [not_waiting] 2); Run 1; Run 0; Run 0; Run 1;
   Submit (Up_ctrl (Proc "tool" 0) 9 [] (Some 7) 3); Run 1; Run 0].

Definition sample_state : sys slots := default sample_start (play no_others sample_moves sample_start).

Lemma sample_reach :
  reach no_others sample_start (submitted sample_moves) (ran sample_moves) sample_state.
Proof.
  apply play_initial.
  - repeat constructor.
    + eexists. split; [reflexivity|]. split; [reflexivity|]. by vm_compute.
    + eexists. split; [reflexivity|]. split; [reflexivity|]. by vm_compute.
  - destruct (play no_others sample_moves _) eqn:E; [by eexists|]. by vm_compute in E.
Qed.

Lemma pipeline_safe_witness :
  length (events sample_state) = 3%nat /\
  exists s', run_event no_others 1 sample_state = Done (tt, s').
Proof.
  split; [by vm_compute|].
  apply (pipeline_safe no_others _ _ _ _ sample_reach). vm_compute. lia.
Defined.

Lemma pipeline_drains_witness :
  exists s', run_fifo no_others meta_actives sched_actives 8 sample_state = Done (tt, s') /\
    events s' = [].
Proof. apply (pipeline_drains no_others _ _ _ _ sample_reach). Defined.

Lemma pipeline_answers_witness :
  replies sample_state ⊆+ [Reply 7 (-47) 1; Reply 7 0 2; Reply 7 (-47) 2].
Proof. apply (pipeline_answers no_others _ _ _ _ sample_reach). Defined.

Lemma failed_schedulers_fault_witness :
  let s := Sys 9 {[0%nat := Cell 2 req_con]} {[1%nat := Cell 1 (pipe_meta 0)]}
    {[2%nat := Cell 1 (pipe_cd_cb 1)]} ∅ ∅ ∅ [] [] 0 [] [] [] [] : sys slots in
  (dsched_sched_base_schedule [] 2 ;; pri_sched_cbfunc 2 ;; dsched_meta_base_cbfunc 2) s
    = Fault NullDeref.
Proof.
  intros s. apply (failed_schedulers_fault [] s 0 req_con 1 2); [constructor|reflexivity..].
Defined.

Lemma null_base_drops_witness :
  let s := sample_start <| reqs := {[5%nat := Cell 1 req_con]} |> <| null_bases := [PriBase] |> in
  exists s', dsched_meta_base_schedule meta_actives (Some 5%nat) s = Done (tt, s') /\ events s' = [].
Proof.
  intros s. destruct (null_base_drops s 5 (Cell 1 req_con)) as (s' & Hs & He & _);
    [reflexivity|apply (bool_decide_unpack _); by vm_compute|]. exists s'. by split.
Defined.

(** The requestor hears nothing: two handlers run, and there is no event left. *)
Example null_base_silent :
  exists s, play no_others [Submit (sample_upcall [num_nodes_info 4] 1); Run 0; Run 0]
    (sample_start <| null_bases := [PriBase] |>) = Some s /\
    events s = [] /\ replies s = [] /\ pa_items (g_requests s) = [2%nat].
Proof. eexists. split; [vm_compute; reflexivity|]. by vm_compute. Qed.

(** Two requests for 2^31 nodes destroy the node pool. The count wraps to a
    negative C int, which is less than the number of available nodes, zero; the first
    request is granted every node, and answering it frees them all while the global
    array keeps their addresses; answering the second one frees them again. *)
Theorem wrapped_count_destroys_pool :
  let huge n := Submit (sample_upcall [num_nodes_info (2 ^ 31)] n) in
  exists s1 s2,
    play no_others (huge 1 :: repeat (Run 0) 8) sample_start = Some s1 /\
    replies s1 = [Reply 7 PMIX_SUCCESS 1] /\ nodes s1 = ∅ /\
    pa_items (g_nodes s1) = [0%nat; 1%nat] /\
    play no_others (huge 2 :: repeat (Run 0) 7) s1 = Some s2 /\
    run_event no_others 0 s2 = Fault UseAfterFree.
Proof.
  intros huge.
  set (s1 := default sample_start (play no_others (huge 1 :: repeat (Run 0) 8) sample_start)).
  exists s1, (default sample_start (play no_others (huge 2 :: repeat (Run 0) 7) s1)).
  split_and!; vm_compute; reflexivity.
Qed.
