(* ===== verification/Service.v ===== *)
(** What the scheduling pipeline promises, as an abstract service, and the proof that
    the handlers of Session, Meta and Fifo implement it.

    The service knows no object, no reference count and no address: it keeps a list of
    jobs, an upcall and the number of steps it has left, and its replies. The pipeline
    and the service simulate each other step by step, with the same replies in the
    same order and, for every job, the handler that is about to run and the event
    base it runs on. *)

From S2P Require Import Prelude Pmix Constants Attr Globals Objects Session Meta Fifo Pipeline.

Section Service.
Context {P : Type -> Type} `{PArray P} `{PMIx}.
Context (others : handler -> loc -> act (sys P) unit).
Context {pool : gmap loc (cell dsched_node_t)} {arr : P loc} `{!Sides others pool arr}.

(** ** The service *)

Record job := Job { j_up : upcall (P := P); j_left : nat }.

Definition is_alloc (u : upcall (P := P)) : bool := match u with Up_alloc _ _ _ _ _ _ => true | _ => false end.

Definition start_job (u : upcall (P := P)) : job := Job u (handlers u).

(** The event base and the handler of a job's next step. *)
Definition alloc_place (left : nat) : base * handler :=
  match left with
  | 8%nat => (MainBase, H_request_init)
  | 7%nat => (MainBase, H_meta_base_schedule)
  | 6%nat => (PriBase, H_pri_sched)
  | 5%nat => (MainBase, H_sched_base_schedule)
  | 4%nat => (FifoBase, H_fifo_sched)
  | 3%nat => (MainBase, H_sched_base_cbfunc)
  | 2%nat => (MainBase, H_pri_sched_cbfunc)
  | _ => (MainBase, H_meta_base_cbfunc)
  end.

Definition where_at (j : job) : base * handler :=
  match j_up j with
  | Up_alloc _ _ _ _ _ _ => alloc_place (j_left j)
  | Up_ctrl _ _ _ _ _ => (MainBase, H_session_control)
  | Up_other h _ => (MainBase, h)
  end.

(** What that step answers: that a request which does not wait is accepted, in the
    first; that it is not supported, in the last. Another upcall is answered in its
    only step. *)
Definition alloc_says (r : dsched_req_t) (left : nat) : list reply :=
  match left with
  | 8%nat =>
      match decode r with
      | Done d => if d_notwaiting d then reply_to r PMIX_SUCCESS else []
      | Fault _ => []
      end
  | 1%nat => reply_to r PMIX_ERR_NOT_SUPPORTED
  | _ => []
  end.

Definition says (j : job) : list reply :=
  match j_up j with
  | Up_alloc _ _ _ _ _ _ => alloc_says (request_of (j_up j)) (j_left j)
  | Up_ctrl _ _ _ _ _ => []
  | Up_other h c => side_says others h c
  end.

Definition next_job (j : job) : list job :=
  match j_left j with S (S n) => [Job (j_up j) (S n)] | _ => [] end.

(** The service after the upcalls [us] and [k] steps: its jobs and its replies. *)
Inductive serves : list upcall -> nat -> list job -> list reply -> Prop :=
| serves_start : serves [] 0 [] []
| serves_submit us k js rs u :
    serves us k js rs -> acceptable others u -> serves (us ++ [u]) k (js ++ [start_job u]) rs
| serves_step us k js rs i j :
    serves us k js rs -> js !! i = Some j ->
    serves us (S k) (delete i js ++ next_job j) (rs ++ says j).

(** ** The simulation *)

(** What a job has still to answer. *)
Definition due (j : job) : list reply :=
  if is_alloc (j_up j) then
    if (j_left j =? 8)%nat then owed others (j_up j)
    else reply_to (request_of (j_up j)) PMIX_ERR_NOT_SUPPORTED
  else owed others (j_up j).

Definition place (e : event) : base * handler := (ev_base e, ev_fn e).

Record stands_for (t : token) (j : job) : Prop := {
  sf_ok : acceptable others (j_up j);
  sf_left : t_left t = j_left j;
  sf_alloc : t_alloc t = is_alloc (j_up j);
  sf_place : place (t_event t) = where_at j;
  sf_due : t_due others t = due j;
  sf_says : t_says others t = says j
}.

Lemma stands_start u r : acceptable others u -> stands_for (start_of u r) (start_job u).
Proof.
  intros Hu. split.
  - done.
  - by rewrite left_start.
  - by destruct u.
  - by destruct u.
  - rewrite due_start by done. by destruct u.
  - destruct u; [|done..]. destruct Hu as (d & Hd & _). unfold t_says, says.
    cbn [start_of t_stage t_req start_job j_up j_left handlers alloc_says]. by rewrite Hd.
Qed.

Lemma t_left_bound (t : token (P := P)) : (1 <= t_left t <= 8)%nat.
Proof. destruct t as [? ? []]; unfold t_left; simpl; lia. Qed.

(** Where a token of a request says what, by the steps it has left. *)
Lemma t_says_at (t : token (P := P)) : t_alloc t = true -> (t_left t < 8)%nat ->
  t_says others t = (if (t_left t =? 1)%nat then t_due others t else []) /\
  place (t_event t) = alloc_place (t_left t).
Proof. destruct t as [? ? []]; unfold t_left; simpl; intros; (done || lia). Qed.

Lemma says_at u n : is_alloc u = true -> (1 <= n < 8)%nat ->
  says (Job u n) = if (n =? 1)%nat then reply_to (request_of u) PMIX_ERR_NOT_SUPPORTED else [].
Proof.
  intros Hu Hn. unfold says. cbn [j_up j_left]. destruct u; [|done..].
  do 8 (destruct n as [|n]; [done || lia|]). lia.
Qed.

(** The step of a token is that of its job. *)
Lemma follows_stands t j t' :
  stands_for t j -> follows t [t'] -> t_due others t = t_says others t ++ t_due others t' ->
  exists j', next_job j = [j'] /\ stands_for t' j'.
Proof.
  intros [Hok Hl Ha _ Hd Hs] (Hleft & Hta & Hta') Hdue. destruct j as [u n]. simpl in Hok, Hl, Ha.
  pose proof (t_left_bound t) as Hb. pose proof (t_left_bound t') as Hb'.
  rewrite Hta in Ha. symmetry in Ha. exists (Job u (t_left t')). split.
  { unfold next_job. simpl. rewrite <- Hl, Hleft. by destruct (t_left t'); [lia|]. }
  assert (Hdue' : t_due others t' = reply_to (request_of u) PMIX_ERR_NOT_SUPPORTED).
  { rewrite Hd, Hs in Hdue. unfold due in Hdue. cbn [j_up j_left] in Hdue. rewrite Ha in Hdue.
    destruct (Nat.eqb_spec n 8) as [->|Hn].
    - destruct u; [|done..]. destruct Hok as (d & Hdec & _). unfold says in Hdue. simpl in Hdue, Hdec.
      rewrite Hdec in Hdue. by apply app_inv_head in Hdue.
    - rewrite says_at in Hdue by (done || lia). by destruct (Nat.eqb_spec n 1); [lia|]. }
  destruct (t_says_at t' Hta') as [Hsays Hplace]; [lia|].
  split.
  - done.
  - done.
  - by rewrite Hta'.
  - rewrite Hplace. unfold where_at. simpl. by destruct u.
  - unfold due. cbn [j_up j_left]. rewrite Ha. by destruct (Nat.eqb_spec (t_left t') 8); [lia|].
  - rewrite Hsays, says_at, Hdue' by (done || lia). done.
Qed.


(** The concrete state, its tokens and the jobs they stand for. *)
Definition simulates (s : sys P) (us : list upcall) (k : nat) (js : list job) : Prop :=
  exists ts, tracks others s us k ts [] /\ Forall2 stands_for ts js.

Lemma simulates_place s us k js :
  simulates s us k js -> place <$> events s = where_at <$> js.
Proof.
  intros (ts & Ht & Hf). rewrite (tr_events _ _ _ _ _ _ Ht). clear Ht.
  induction Hf as [|t j ts js Hsf _ IH]; [done|]. cbn. by rewrite (sf_place t j Hsf), IH.
Qed.

Lemma submit_quiet u (s : sys P) : replies (after_submit u s) = replies s.
Proof. by destruct u. Qed.

Lemma simulates_submit s us k js u :
  acceptable others u -> simulates s us k js ->
  simulates (after_submit u s) (us ++ [u]) k (js ++ [start_job u]).
Proof.
  intros Hu (ts & Ht & Hf). eexists. split; [by apply tracks_submit|].
  apply Forall2_app; [done|]. constructor; [by apply stands_start|constructor].
Qed.

Lemma simulates_step s us k js i j :
  simulates s us k js -> js !! i = Some j ->
  exists s', run_event others i s = Done (tt, s') /\ replies s' = replies s ++ says j /\
    simulates s' us (S k) (delete i js ++ next_job j).
Proof.
  intros (ts & Ht & Hf) Hj.
  destruct (Forall2_lookup_r _ _ _ _ _ Hf Hj) as (t & Hti & Hsf).
  destruct (tracks_run_token others _ _ _ _ _ _ _ Ht Hti)
    as (s' & new & Hrun & Hrep & Hdue & Hfol & Ht').
  exists s'. split; [done|]. split; [by rewrite Hrep, (sf_says _ _ Hsf)|].
  exists (delete i ts ++ new). split; [done|]. apply Forall2_app; [by apply Forall2_delete|].
  destruct new as [|t' [|]]; [| |done].
  - unfold next_job. rewrite <- (sf_left _ _ Hsf), Hfol. constructor.
  - destruct (follows_stands t j t' Hsf Hfol) as (j' & -> & Hsf').
    + by rewrite Hdue; cbn; rewrite app_nil_r.
    + by constructor; [|constructor].
Qed.

Lemma simulates_initial n : simulates (initial pool arr n) [] 0 [].
Proof. exists []. split; [apply tracks_initial|constructor]. Qed.

(** ** Properties *)

(** C1: The handlers implement the service. Whatever the interleaving of handlers and
    of acceptable upcalls, those that decode and whose node count fits a C int, the service has a run with the same upcalls, as many steps and the same
    replies in the same order, and the active events are, one for one, the next steps
    of its jobs: same handler, same event base. *)
Theorem pipeline_implements_service n us k s :
  reach others (initial pool arr n) us k s ->
  exists js, serves us k js (replies s) /\ place <$> events s = where_at <$> js.
Proof.
  intros Hreach.
  assert (exists js, serves us k js (replies s) /\ simulates s us k js)
    as (js & Hs & Hsim).
  { induction Hreach as [|us k s u rc s' _ (js & Hs & Hsim) Hu Hrun
                        |us k s i s' _ (js & Hs & Hsim) Hlt Hrun].
    - exists []. split; [constructor|apply simulates_initial].
    - rewrite submit_run in Hrun. simplify_eq. exists (js ++ [start_job u]).
      rewrite submit_quiet. by split; [constructor|apply simulates_submit].
    - rewrite <- (length_fmap place), (simulates_place _ _ _ _ Hsim), length_fmap in Hlt.
      apply lookup_lt_is_Some in Hlt as [j Hj].
      destruct (simulates_step _ _ _ _ _ _ Hsim Hj) as (s1 & Hrun' & Hrep & Hsim').
      rewrite Hrun in Hrun'. simplify_eq. eexists. split; [|exact Hsim'].
      rewrite Hrep. by econstructor. }
  exists js. split; [done|]. by eapply simulates_place.
Qed.

(** C6: The service promises nothing the handlers do not do: every run of the service, on acceptable upcalls, is that of some interleaving, so that
    no step it allows ever blocks. *)
Theorem service_is_implemented n us k js rs :
  serves us k js rs ->
  exists s, reach others (initial pool arr n) us k s /\ replies s = rs /\
    place <$> events s = where_at <$> js.
Proof.
  intros Hserves.
  assert (exists s, reach others (initial pool arr n) us k s /\ replies s = rs /\
    simulates s us k js) as (s & Hr & Hrep & Hsim).
  { induction Hserves as [|us k js rs u _ (s & Hr & Hrep & Hsim) Hu
                         |us k js rs i j _ (s & Hr & Hrep & Hsim) Hj].
    - eexists. split; [constructor|]. split; [done|apply simulates_initial].
    - exists (after_submit u s). rewrite submit_quiet.
      split; [|by split; [|apply simulates_submit]].
      by eapply reach_submit; [..|apply submit_run].
    - destruct (simulates_step _ _ _ _ _ _ Hsim Hj) as (s' & Hrun & Hrep' & Hsim').
      exists s'. split; [|by rewrite Hrep', Hrep].
      eapply reach_run; [done| |done].
      rewrite <- (length_fmap place), (simulates_place _ _ _ _ Hsim), length_fmap.
      by eapply lookup_lt_Some. }
  exists s. split; [done|]. split; [done|]. by eapply simulates_place.
Qed.
End Service.

(** ** Examples *)

#[local] Existing Instance sample_pmix.
#[local] Existing Instance sample_sides.

Lemma pipeline_implements_service_witness :
  exists js, serves no_others (submitted sample_moves) (ran sample_moves) js (replies sample_state) /\
    where_at <$> js =
      [(MainBase, H_session_control); (FifoBase, H_fifo_sched); (MainBase, H_sched_base_cbfunc)].
Proof.
  destruct (pipeline_implements_service no_others _ _ _ _ sample_reach) as (js & Hs & Hp).
  exists js. split; [exact Hs|]. rewrite <- Hp. by vm_compute.
Defined.

Lemma service_is_implemented_witness :
  let u := sample_upcall [not_waiting] 2 in
  exists s, reach no_others sample_start [u] 1 s /\ replies s = [Reply 7 0 2] /\
    place <$> events s = [(MainBase, H_meta_base_schedule)].
Proof.
  intros u.
  destruct (service_is_implemented no_others 2 [u] 1
    (delete 0%nat [start_job u] ++ next_job (start_job u)) ([] ++ says no_others (start_job u)))
    as (s & Hr & Hrep & Hp).
  - apply (serves_step no_others [u] 0 [start_job u] [] 0 (start_job u)); [|reflexivity].
    apply (serves_submit no_others [] 0 [] [] u); [constructor|].
    eexists. split; [reflexivity|]. split; [reflexivity|]. by vm_compute.
  - exists s. split; [exact Hr|]. rewrite Hrep, Hp. by split; vm_compute.
Defined.
