(* ===== verification/Threads.v ===== *)
(** The threads of the pipeline: the handlers of src/mca/dmeta/pri/meta_pri.c run on
    the event base of that module, those of src/mca/dsched/fifo/sched_fifo.c on
    another, the rest on the main one, and Pipeline lets any of them run next, each as
    one step. That order says nothing: handlers of different event bases are
    independent, whichever of two active ones runs first, the other still runs, and
    the state is the same in the end, up to the order of the new events. *)

From S2P Require Import Prelude Pmix Constants Attr Globals Objects Session Meta Fifo Pipeline.

(** ** States alike

    The same objects, arrays and replies, and the same active events, which may come in
    another order: those of one thread were posted by different ones. *)

Section Alike.
Context {P : Type -> Type}.

Definition objects_of (s : sys P) : sys P := s <| events := [] |>.

Definition alike (s s' : sys P) : Prop :=
  objects_of s = objects_of s' /\ events s ≡ₚ events s'.

#[export] Instance alike_equivalence : Equivalence alike.
Proof.
  split.
  - by intros s.
  - intros s s' [Ho He]. by split.
  - intros s1 s2 s3 [Ho He] [Ho' He']. split; [congruence|by rewrite He].
Qed.

#[export] Instance replies_alike : Proper (alike ==> eq) replies.
Proof. intros s s' [Ho _]. by apply (f_equal replies) in Ho. Qed.
#[export] Instance reqs_alike : Proper (alike ==> eq) reqs.
Proof. intros s s' [Ho _]. by apply (f_equal reqs) in Ho. Qed.
#[export] Instance events_alike : Proper (alike ==> Permutation) events.
Proof. by intros s s' [_ He]. Qed.
End Alike.

Section Threads.
Context {P : Type -> Type} `{PArray P} `{PMIx}.
Context (others : handler -> loc -> act (sys P) unit).
Context {pool : gmap loc (cell dsched_node_t)} {arr : P loc} `{!Sides others pool arr}.

(** A handler does not look at the active events; it posts after them. *)
Lemma effect_objects t (s : sys P) :
  objects_of (effect others t s) = objects_of (effect others t (objects_of s)).
Proof. by destruct t as [r q []]. Qed.

Lemma effect_same_objects t (s s' : sys P) :
  objects_of s = objects_of s' -> objects_of (effect others t s) = objects_of (effect others t s').
Proof. intros E. by rewrite effect_objects, E, <- effect_objects. Qed.

Lemma effect_events t (s : sys P) :
  events (effect others t s) = events s ++ (t_event <$> t_next t s).
Proof. by destruct t as [r q []]; simpl; rewrite ?app_nil_r. Qed.

(** What it posts only depends on which locations are free. *)
Lemma next_events t (s s' : sys P) :
  next s = next s' -> t_event <$> t_next t s = t_event <$> t_next t s'.
Proof. destruct t as [r q []]; simpl; intros E; by rewrite ?E. Qed.

(** The tokens whose event runs in a thread of a module. *)
Definition t_worker (t : token (P := P)) : Prop :=
  match t_stage t with SPri _ _ | SFifo _ _ _ _ => True | _ => False end.

Lemma worker_next t (s : sys P) : t_worker t -> next (effect others t s) = next s.
Proof. by destruct t as [r q []]. Qed.

Lemma other_thread (t u : token (P := P)) :
  ev_base (t_event t) <> ev_base (t_event u) -> t_worker t \/ t_worker u.
Proof. destruct t as [r q []], u as [r' q' []]; unfold t_worker; simpl; (tauto || congruence). Qed.

(** Two requests share no object. *)
Lemma inv_apart (s : sys P) t u rest :
  inv others s (t :: u :: rest) ->
  (forall l l', l ∈ t_owns t -> l' ∈ t_owns u -> l <> l') /\
  (forall l, l ∈ t_owns t \/ l ∈ t_owns u -> (l < next s)%nat).
Proof.
  intros [_ Hnd Hfr _ _ _]. rewrite !owned_cons in Hnd, Hfr.
  apply NoDup_app in Hnd as (_ & Hd & _). rewrite !Forall_app, !Forall_forall in Hfr.
  destruct Hfr as (Ht & Hu & _). split; [|naive_solver].
  intros l l' Hl Hl' ->. apply (Hd l' Hl). apply elem_of_app. by left.
Qed.

(** Two locations are owned by different requests, or one of them is fresh. *)
Ltac mine := unfold t_owns; cbn [t_loc t_stage]; rewrite !elem_of_cons; tauto.
Ltac elsewhere :=
  match goal with
  | Hap : (forall l l', l ∈ t_owns _ -> l' ∈ t_owns _ -> l <> l'),
    Hfr : (forall l, l ∈ t_owns _ \/ l ∈ t_owns _ -> (l < next _)%nat) |- ?a <> ?b =>
      solve
      [ apply Hap; mine
      | apply not_eq_sym, Hap; mine
      | assert (b < next _)%nat by (apply Hfr; first [left; mine | right; mine]); lia
      | assert (a < next _)%nat by (apply Hfr; first [left; mine | right; mine]); lia ]
  end.

(** Bring updates at such locations in one order: deletions outside, and an insertion
    that is outermost on one side only goes inwards. *)
Ltac inwards :=
  first [reflexivity | rewrite insert_insert_ne by elsewhere; apply f_equal; inwards].
Ltac reorder :=
  repeat rewrite insert_delete_ne by elsewhere;
  repeat match goal with |- delete ?i _ = delete ?i _ => apply f_equal end;
  inwards.

(** The handler of a module commutes with one of another thread. *)
Lemma worker_commutes s t u rest :
  inv others s (t :: u :: rest) -> t_worker u ->
  ev_base (t_event t) <> ev_base (t_event u) ->
  objects_of (effect others u (effect others t s)) = objects_of (effect others t (effect others u s)).
Proof.
  intros Hinv Hu Hne. destruct (inv_apart _ _ _ _ Hinv) as [Hap Hfr]. clear Hinv.
  destruct u as [r' q' []]; try done; destruct t as [r q []]; try done;
    unfold objects_of, effect, side_effect; cbn -[insert delete];
    try destruct (side_new _ _ _); f_equal; reorder.
Qed.

(** Run the event of a token where it is. *)
Definition drop (i : nat) (s : sys P) : sys P := s <| events := delete i (events s) |>.

Lemma run_token s i t rest :
  events s !! i = Some (t_event t) -> at_pool (pool := pool) (arr := arr) s ->
  inv others s (t :: rest) -> run_event others i s = Done (tt, effect others t (drop i s)).
Proof.
  intros He Hp Hinv. unfold run_event, run_nth. rewrite He.
  apply (effect_run others (pool := pool) (arr := arr) (drop i s) t rest); [done|].
  by apply inv_events.
Qed.

(** Run one, then the other, whose index [j] is that in the events left. *)
Lemma run_both s i j t u rest :
  events s !! i = Some (t_event t) -> delete i (events s) !! j = Some (t_event u) ->
  at_pool (pool := pool) (arr := arr) s -> inv others s (t :: u :: rest) ->
  exists s1 s2, run_event others i s = Done (tt, s1) /\ run_event others j s1 = Done (tt, s2) /\
    objects_of s2 = objects_of (effect others u (effect others t s)) /\
    events s ++ (t_event <$> t_next t s) ++ (t_event <$> t_next u (effect others t s)) ≡ₚ
      t_event t :: t_event u :: events s2.
Proof.
  intros Hi Hj Hp Hinv. set (s1 := effect others t (drop i s)).
  assert (Hinv1 : inv others s1 (u :: t_next t (drop i s) ++ rest)).
  { eapply inv_perm; [|apply effect_inv, inv_events, Hinv].
    by rewrite Permutation_middle. }
  assert (E1 : events s1 = delete i (events s) ++ (t_event <$> t_next t s)).
  { unfold s1. rewrite effect_events. by rewrite (next_events t (drop i s) s). }
  assert (Hj1 : events s1 !! j = Some (t_event u))
    by (rewrite E1; by apply lookup_app_l_Some).
  assert (Hp1 : at_pool (pool := pool) (arr := arr) s1)
    by (unfold s1, at_pool; by destruct t as [r q []]).
  exists s1, (effect others u (drop j s1)). split; [by eapply run_token|]. split; [by eapply run_token|].
  split.
  - apply effect_same_objects. by apply (effect_same_objects t (drop i s) s).
  - rewrite effect_events.
    rewrite (next_events u (drop j s1) (effect others t s)) by (by destruct t as [r q []]).
    change (events (drop j s1)) with (delete j (events s1)).
    rewrite (delete_Permutation _ _ _ Hi) at 1. cbn. f_equiv.
    rewrite app_assoc, <- E1, (delete_Permutation _ _ _ Hj1) at 1. done.
Qed.

(** The tokens of two active events. *)
Lemma two_tokens s us k ts told i j e1 e2 :
  tracks others (pool := pool) (arr := arr) s us k ts told ->
  events s !! i = Some e1 -> delete i (events s) !! j = Some e2 ->
  exists t u rest, e1 = t_event t /\ e2 = t_event u /\ inv others s (t :: u :: rest) /\ ts ≡ₚ t :: u :: rest.
Proof.
  intros [He Hinv _ _ _] Hi Hj. rewrite He in Hi, Hj.
  rewrite list_lookup_fmap in Hi. apply fmap_Some in Hi as (t & Hi & ->).
  rewrite <- list_fmap_delete, list_lookup_fmap in Hj. apply fmap_Some in Hj as (u & Hj & ->).
  exists t, u, (delete j (delete i ts)).
  assert (ts ≡ₚ t :: u :: delete j (delete i ts)) as Hp
    by (rewrite (delete_Permutation ts i t Hi) at 1; by rewrite (delete_Permutation _ j u Hj) at 1).
  split; [done|]. split; [done|]. split; [by eapply inv_perm|done].
Qed.

Lemma worker_posts u (s s' : sys P) : t_worker u -> t_next u s = t_next u s'.
Proof. by destruct u as [r q []]. Qed.

(** Two handlers of different threads commute on the objects of their tokens, and
    post what they would without the other. *)
Lemma threads_commute s t u rest :
  inv others s (t :: u :: rest) ->
  ev_base (t_event t) <> ev_base (t_event u) ->
  objects_of (effect others u (effect others t s)) = objects_of (effect others t (effect others u s)) /\
  t_event <$> t_next u (effect others t s) = t_event <$> t_next u s /\
  t_event <$> t_next t (effect others u s) = t_event <$> t_next t s.
Proof.
  intros Hinv Hne. destruct (other_thread t u Hne) as [Hw|Hw].
  - split_and!; [|by apply next_events, worker_next|by rewrite (worker_posts t _ s)].
    symmetry. eapply worker_commutes; [|done|congruence].
    eapply inv_perm; [apply Permutation_swap|exact Hinv].
  - split_and!; [by eapply worker_commutes|by rewrite (worker_posts u _ s)|by apply next_events, worker_next].
Qed.

(** C10: The threads are independent. In every state the pipeline reaches by acceptable upcalls, take two active events that are on different event bases, such as that of the module pri and
    the main one: whichever handler runs first, the other one still runs after it, and
    both orders end in the same state, up to the order in which the events they post
    became active. *)
Theorem threads_independent n us k s i j e1 e2 :
  reach others (initial pool arr n) us k s -> (i <= j)%nat ->
  events s !! i = Some e1 -> events s !! S j = Some e2 -> ev_base e1 <> ev_base e2 ->
  exists s1 s12 s2 s21,
    run_event others i s = Done (tt, s1) /\ run_event others j s1 = Done (tt, s12) /\
    run_event others (S j) s = Done (tt, s2) /\ run_event others i s2 = Done (tt, s21) /\
    alike s12 s21.
Proof.
  intros [ts Ht]%tracks_reach Hij Hi Hj Hbase. pose proof (tr_pool _ _ _ _ _ _ Ht) as Hp.
  assert (Hj' : delete i (events s) !! j = Some e2) by (by rewrite list_lookup_delete_ge by lia).
  assert (Hi' : delete (S j) (events s) !! i = Some e1) by (by rewrite list_lookup_delete_lt by lia).
  destruct (two_tokens _ _ _ _ _ _ _ _ _ Ht Hi Hj') as (t & u & rest & -> & -> & Hinv & _).
  assert (Hinv' : inv others s (u :: t :: rest)) by (eapply inv_perm; [apply Permutation_swap|done]).
  destruct (run_both s i j t u rest Hi Hj' Hp Hinv) as (s1 & s12 & H1 & H12 & Ho & He).
  destruct (run_both s (S j) i u t rest Hj Hi' Hp Hinv') as (s2 & s21 & H2 & H21 & Ho' & He').
  destruct (threads_commute s t u rest Hinv Hbase) as (Hobj & Hu & Hv).
  exists s1, s12, s2, s21. do 4 (split; [done|]). split; [congruence|].
  rewrite Hu in He. rewrite Hv in He'. apply (Permutation_cons_inv (a := t_event u)).
  apply (Permutation_cons_inv (a := t_event t)). rewrite <- He, Permutation_swap, <- He'.
  apply Permutation_app_head, Permutation_app_comm.
Qed.
End Threads.

(** ** Examples *)

#[local] Existing Instance sample_pmix.
#[local] Existing Instance sample_sides.

(** The scheduler of the module fifo and the main thread's collection of its answer to
    another request. *)
Lemma threads_independent_witness :
  exists s1 s12 s2 s21,
    run_event no_others 1 sample_state = Done (tt, s1) /\ run_event no_others 1 s1 = Done (tt, s12) /\
    run_event no_others 2 sample_state = Done (tt, s2) /\ run_event no_others 1 s2 = Done (tt, s21) /\
    alike s12 s21 /\ length (events s12) = 3%nat.
Proof.
  destruct (threads_independent no_others 2 (submitted sample_moves) (ran sample_moves) sample_state
    1 1 (Ev FifoBase H_fifo_sched 12) (Ev MainBase H_sched_base_cbfunc 7))
    as (s1 & s12 & s2 & s21 & H1 & H2 & H3 & H4 & Ha).
  - exact sample_reach.
  - lia.
  - vm_compute. reflexivity.
  - vm_compute. reflexivity.
  - done.
  - exists s1, s12, s2, s21. do 5 (split; [assumption|]).
    assert (Hr : run_event no_others 1 (match run_event no_others 1 sample_state with
      | Done (_, s) => s | Fault _ => sample_state end) = Done (tt, s12)) by (by rewrite H1).
    vm_compute in Hr. injection Hr as <-. reflexivity.
Defined.
