(* ===== verification/Resources.v ===== *)
(** What the pipeline leaves behind. The objects of Objects are counted along any run:
    the meta objects and the trackers of a request are freed with its answer, but the
    request stays for ever, held by the list of the scheduler fifo
    (src/mca/dsched/fifo/sched_fifo.c) or, for a session control, by nobody
    (src/tools/dsched/session.c), and so does the caddy the scheduler was called with
    (src/mca/dsched/base/sched_base_frame.c). *)

From S2P Require Import Prelude Pmix Constants Attr Globals Objects Session Meta Fifo Pipeline.

Section Resources.
Context {P : Type -> Type} `{PArray P} `{PMIx}.
Context (others : handler -> loc -> act (sys P) unit).
Context {pool : gmap loc (cell dsched_node_t)} {arr : P loc} `{!Sides others pool arr}.

(** ** Counting

    What a token has of each class, and what an upcall has when it is over. *)

Definition has_metas (t : token (P := P)) : nat :=
  match t_stage t with SInit _ | SCtrl | SOther _ _ | SMeta => 0 | _ => 1 end.
Definition has_trks (t : token (P := P)) : nat :=
  match t_stage t with
  | SFifo _ _ _ _ | SSchedCb _ _ _ _ | SPriCb _ _ _ | SMetaCb _ _ _ => 1 | _ => 0 end.
Definition has_caddies (t : token (P := P)) : nat :=
  match t_stage t with
  | SInit _ | SCtrl | SMeta => 0
  | SOther _ _ | SPri _ _ | SBase _ _ => 1
  | SFifo _ _ _ _ | SSchedCb _ _ _ _ | SPriCb _ _ _ | SMetaCb _ _ _ => 2
  end.
(** Whether the scheduler fifo has yet to be given the request. *)
Definition unlisted (t : token (P := P)) : nat :=
  match t_stage t with
  | SInit _ | SMeta | SPri _ _ | SBase _ _ | SFifo _ _ _ _ => 1 | _ => 0 end.

(** The caddies that stay: that of the scheduler, or that of the answer. *)
Definition kept_other (h : handler) (c : dsched_shift_caddy_t P) : nat :=
  if side_new others h c then 1 else 0.
Definition keeps (t : token (P := P)) : nat :=
  match t_stage t with SCtrl => 0 | SOther h c => kept_other h c | _ => 1 end.

Definition is_request (u : upcall (P := P)) : nat := match u with Up_other _ _ => 0 | _ => 1 end.
Definition is_allocation (u : upcall (P := P)) : nat :=
  match u with Up_alloc _ _ _ _ _ _ => 1 | _ => 0 end.
Definition kept_caddies (u : upcall (P := P)) : nat :=
  match u with Up_alloc _ _ _ _ _ _ => 1 | Up_ctrl _ _ _ _ _ => 0 | Up_other h c => kept_other h c end.

(** [gone] caddies of those that stay were released by others. *)
Record counts (s : sys P) (us : list upcall) (gone : nat) (ts : list token) : Prop := {
  ct_reqs : size (reqs s) = sum_list_with is_request us;
  ct_metas : size (metas s) = sum_list_with has_metas ts;
  ct_trks : size (trks s) = sum_list_with has_trks ts;
  ct_caddies : (size (caddies s) + sum_list_with keeps ts + gone =
    sum_list_with has_caddies ts + sum_list_with kept_caddies us)%nat;
  ct_fifo : (length (fifo_reqs s) + sum_list_with unlisted ts = sum_list_with is_allocation us)%nat;
  ct_fresh : forall l, (next s <= l)%nat ->
    reqs s !! l = None /\ metas s !! l = None /\ caddies s !! l = None /\ trks s !! l = None
}.

Lemma counts_perm s us g ts ts' : ts ≡ₚ ts' -> counts s us g ts -> counts s us g ts'.
Proof.
  intros Hp [? Hm Ht Hc Hf ?].
  split; [done|rewrite Hm|rewrite Ht| | |done].
  - by apply sum_list_with_Permutation_proper.
  - by apply sum_list_with_Permutation_proper.
  - rewrite <- (sum_list_with_Permutation_proper keeps _ _ Hp),
      <- (sum_list_with_Permutation_proper has_caddies _ _ Hp). done.
  - by rewrite <- (sum_list_with_Permutation_proper unlisted _ _ Hp).
Qed.

(** The objects of a token exist, below [next]. *)
Lemma token_objects s t rest :
  inv others s (t :: rest) ->
  t_ok others s t /\ Forall (fun l => (l < next s)%nat) (t_owns t) /\ NoDup (t_owns t).
Proof.
  intros Hinv. destruct (inv_owns others _ _ _ Hinv) as [Hnd Hfr].
  by pose proof (inv_ok _ _ _ Hinv) as [Hok _]%Forall_cons.
Qed.

Lemma size_pos {A} (m : gmap loc A) l x : m !! l = Some x -> (0 < size m)%nat.
Proof.
  intros Hl. destruct (decide (size m = 0%nat)) as [->%map_size_empty_iff|]; [done|lia].
Qed.

(** Sizes after updates, when what each update finds is known. *)
Ltac found := solve [by eexists | rewrite lookup_insert_ne by first [lia|auto]; by eexists].
Ltac absent := solve [done | rewrite lookup_insert_ne by lia; done].
Ltac sizes :=
  repeat first
  [ rewrite map_size_insert_Some by found
  | rewrite map_size_delete_Some by found
  | rewrite map_size_insert_None by absent ].

Lemma counts_effect s us g t rest :
  inv others s (t :: rest) -> counts s us g (t :: rest) ->
  counts (effect others t s) us g (t_next t s ++ rest).
Proof.
  intros Hinv [Hr Hm Ht Hc Hf Hfresh].
  destruct (token_objects _ _ _ Hinv) as (Hok & Hlt & Hnd).
  destruct (Hfresh (next s) ltac:(lia)) as (F1 & F2 & F3 & F4).
  destruct (Hfresh (S (next s)) ltac:(lia)) as (G1 & G2 & G3 & G4).
  destruct t as [r q [d| |h c| |mt cd|mt cd|mt cd trk scd|mt cd trk scd|mt cd trk|mt cd trk]];
    unfold t_ok, t_objects, t_refs in Hok; cbn [t_stage t_loc t_req] in Hok;
    unfold t_owns in Hlt, Hnd; cbn [t_stage t_loc] in Hlt, Hnd;
    destruct_and? Hok; rewrite ?Forall_cons in Hlt; destruct_and? Hlt;
    rewrite ?NoDup_cons, ?not_elem_of_cons in Hnd; destruct_and? Hnd; simpl in Hm, Ht, Hc, Hf;
    unfold effect, side_effect; cbn [keeps t_stage t_loc t_req] in *; unfold kept_other in Hc;
    try destruct (side_new others h c);
    try match goal with Hx : caddies s !! _ = Some _ |- _ => pose proof (size_pos _ _ _ Hx) end;
    (split; simpl; [sizes; lia|sizes; lia|sizes; lia|sizes; lia|rewrite ?length_app; simpl; lia|]);
    intros l Hl; destruct (Hfresh l ltac:(lia)) as (? & ? & ? & ?); split_and!;
    rewrite ?lookup_delete_ne, ?lookup_insert_ne by lia; assumption.
Qed.

Lemma counts_submit s us g ts u :
  counts s us g ts -> counts (after_submit u s) (us ++ [u]) g (ts ++ [start_of u (next s)]).
Proof.
  intros [Hr Hm Ht Hc Hf Hfresh]. destruct (Hfresh (next s) ltac:(lia)) as (F1 & F2 & F3 & F4).
  eapply counts_perm; [apply Permutation_cons_append|]. split; rewrite ?sum_list_with_app; destruct u; simpl; cbn [keeps t_stage]; sizes; try lia;
    intros l Hl; destruct (Hfresh l ltac:(lia)) as (? & ? & ? & ?); split_and!;
    rewrite ?lookup_insert_ne by lia; assumption.
Qed.

Lemma counts_initial n : counts (initial pool arr n) [] 0 [].
Proof. by split. Qed.

Lemma counts_run s us k ts told g i t :
  tracks others s us k ts told -> ts !! i = Some t -> counts s us g ts ->
  counts (after_run others i t s) us g (delete i ts ++ t_next t s).
Proof.
  intros Ht Hi Hc. destruct (tracks_effect _ _ _ _ _ _ _ _ Ht Hi) as (_ & Hinv & _).
  eapply counts_perm; [apply Permutation_app_comm|]. unfold after_run.
  replace (t_next t s) with (t_next t (s <| events := delete i (events s) |>))
    by (by destruct t as [r q []]).
  apply counts_effect; [exact Hinv|]. eapply counts_perm; [by apply delete_Permutation|].
  by destruct Hc.
Qed.

Lemma counts_release s us g ts l c :
  counts s us g ts -> caddies s !! l = Some c ->
  counts (s <| caddies := delete l (caddies s) |>) us (S g) ts.
Proof.
  intros [Hr Hm Ht Hc Hf Hfresh] Hl. pose proof (size_pos _ _ _ Hl). split; [done..| |done|]; simpl.
  - sizes. lia.
  - intros l' Hl'. destruct (Hfresh l' Hl') as (? & ? & Hn & ?). split_and!; [done..| |done].
    destruct (decide (l = l')) as [->|]; [apply lookup_delete_eq|by rewrite lookup_delete_ne].
Qed.

(** At rest, every object is one that stays. *)
Lemma counts_rest s us k g ts told :
  tracks others s us k ts told -> counts s us g ts -> events s = [] ->
  metas s = ∅ /\ trks s = ∅ /\ size (reqs s) = sum_list_with is_request us /\
  length (fifo_reqs s) = sum_list_with is_allocation us /\
  (size (caddies s) + g = sum_list_with kept_caddies us)%nat.
Proof.
  intros Ht [Hr Hm Htr Hc Hf _] He.
  rewrite (tr_events _ _ _ _ _ _ Ht) in He. apply fmap_nil_inv in He as ->. simpl in *.
  split; [by apply map_size_empty_inv|]. split; [by apply map_size_empty_inv|].
  split; [done|]. split; lia.
Qed.

Lemma counts_reach n us k s :
  reach others (initial pool arr n) us k s ->
  exists ts, tracks others s us k ts [] /\ counts s us 0 ts.
Proof.
  induction 1 as [|us k s u rc s' _ (ts & Ht & Hc) Hu Hs|us k s i s' _ (ts & Ht & Hc) Hlt Hs].
  - exists []. split; [apply tracks_initial|apply counts_initial].
  - rewrite submit_run in Hs. simplify_eq. eexists. split; [by apply tracks_submit|].
    by apply counts_submit.
  - rewrite (tr_events _ _ _ _ _ _ Ht), length_fmap in Hlt. apply lookup_lt_is_Some in Hlt as [t Hi].
    destruct (tracks_effect _ _ _ _ _ _ _ _ Ht Hi) as (Hrun & Hinv & Ht').
    rewrite Hrun in Hs. simplify_eq. eexists. split; [exact Ht'|]. by eapply counts_run.
Qed.

(** ** Properties *)

(** What is left when the daemon is at rest. The meta objects and the trackers
    are all gone; but every request that ever came in is still there, those for an
    allocation in the list of the scheduler fifo, and so are a caddy for each allocation
    and one for each query whose answer was not released: the store of requests grows
    without bound. *)
Theorem what_is_left n us k s :
  reach others (initial pool arr n) us k s -> events s = [] ->
  metas s = ∅ /\ trks s = ∅ /\
  size (reqs s) = sum_list_with is_request us /\
  length (fifo_reqs s) = sum_list_with is_allocation us /\
  size (caddies s) = sum_list_with kept_caddies us.
Proof.
  intros (ts & Ht & Hc)%counts_reach He.
  destruct (counts_rest _ _ _ _ _ _ Ht Hc He) as (? & ? & ? & ? & ?). split_and!; (done || lia).
Qed.

(** While the pipeline works, nothing else is there either: no more objects than its
    requests in flight need, beyond those that stay. *)
Theorem objects_bounded n us k s :
  reach others (initial pool arr n) us k s ->
  (size (metas s) <= length (events s))%nat /\ (size (trks s) <= length (events s))%nat /\
  (size (caddies s) <= 2 * length (events s) + sum_list_with kept_caddies us)%nat.
Proof.
  intros (ts & Ht & [_ Hm Htr Hc _ _])%counts_reach. rewrite (tr_events _ _ _ _ _ _ Ht), length_fmap.
  assert (sum_list_with has_metas ts <= length ts /\ sum_list_with has_trks ts <= length ts /\
    sum_list_with has_caddies ts <= 2 * length ts)%nat as (? & ? & ?); [|lia].
  clear. induction ts as [|t ts (? & ? & ?)]; [simpl; lia|].
  assert (has_metas t <= 1 /\ has_trks t <= 1 /\ has_caddies t <= 2)%nat
    by (destruct t as [r q []]; unfold has_metas, has_trks, has_caddies; simpl; lia).
  simpl. lia.
Qed.
End Resources.

(** ** Examples *)

#[local] Existing Instance sample_pmix.
#[local] Existing Instance sample_sides.

(** The run of the examples of Pipeline, to its end. *)
Definition rest_moves : list (move (P := slots)) := sample_moves ++ repeat (Run 0) 8.
Definition rest_state : sys slots := default sample_start (play no_others rest_moves sample_start).

Lemma rest_reach : reach no_others sample_start (submitted rest_moves) (ran rest_moves) rest_state.
Proof.
  apply play_initial.
  - repeat constructor; eexists; (split; [reflexivity|]; split; [reflexivity|]; by vm_compute).
  - destruct (play no_others rest_moves _) eqn:E; [by eexists|]. by vm_compute in E.
Qed.

Lemma what_is_left_witness :
  metas rest_state = ∅ /\ size (reqs rest_state) = 3%nat /\ size (caddies rest_state) = 2%nat.
Proof.
  destruct (what_is_left no_others _ _ _ _ rest_reach ltac:(by vm_compute))
    as (Hm & _ & Hr & _ & Hc).
  split; [exact Hm|]. split; [exact Hr|exact Hc].
Defined.

Lemma objects_bounded_witness : (size (metas sample_state) <= 3)%nat.
Proof. exact (proj1 (objects_bounded no_others _ _ _ _ sample_reach)). Defined.
