(* ===== verification/Events.v ===== *)
(** The event wrappers, src/event/event-internal.h and src/event/event.c, over the event
    library: how the events the other files call active are set and made active by the
    library's calls, and that the scheduler that only uses the library runs as Pipeline
    says. Nothing but these wrappers touches an event, so what the library forbids,
    setting an event anew while it is active, is a matter of when the handlers use
    them. *)

From S2P Require Import Prelude Pmix Constants Attr Globals Objects Session Meta Fifo Pipeline Threads.

(** ** The event library

    An event is known by the object it is embedded in. [assigned] is what
    [event_assign] stored in it; [active] are the active events of a base, in the order
    in which they became so, all being of one priority. An event may only be assigned
    while it is not active: the library says nothing of what happens otherwise. *)

Record assignment := Assignment {
  as_base : base;
  as_fd : Z;
  as_what : Z;
  as_fn : handler;
  as_arg : loc
}.

Class EventLib := {
  evlib : Type;
  evlib_start : evlib;
  EV_TIMEOUT : Z;
  EV_READ : Z;
  EV_WRITE : Z;
  EV_SIGNAL : Z;
  EV_PERSIST : Z;
  assigned : evlib -> loc -> option assignment;
  active : evlib -> base -> list loc;
  event_assign : loc -> base -> Z -> Z -> handler -> loc -> evlib -> outcome (Z * evlib);
  event_active : loc -> Z -> Z -> evlib -> evlib;
  (** [event_base_loop] with EVLOOP_ONCE, up to the callback of its next event: the
      function called and its argument. *)
  event_base_loop : base -> evlib -> option (handler * loc * evlib);

  start_active b : active evlib_start b = [];
  (** A wait for a signal is not one for a descriptor; other sets of conditions are
      accepted. *)
  write_is_no_signal : Z.land EV_WRITE EV_SIGNAL = 0;
  assign_accepts ev b fd what fn arg st :
    Z.land what EV_SIGNAL = 0 -> (forall b, ev ∉ active st b) ->
    exists st', event_assign ev b fd what fn arg st = Done (0, st') /\
      assigned st' ev = Some (Assignment b fd what fn arg) /\
      (forall ev', ev' <> ev -> assigned st' ev' = assigned st ev') /\
      forall b', active st' b' = active st b';
  active_appends ev what ncalls st a :
    assigned st ev = Some a -> (forall b, ev ∉ active st b) ->
    active (event_active ev what ncalls st) (as_base a) = active st (as_base a) ++ [ev] /\
    (forall b, b <> as_base a -> active (event_active ev what ncalls st) b = active st b) /\
    forall ev', assigned (event_active ev what ncalls st) ev' = assigned st ev';
  loop_idle b st : active st b = [] -> event_base_loop b st = None;
  loop_next b st ev evs a : active st b = ev :: evs -> assigned st ev = Some a ->
    exists st', event_base_loop b st = Some (as_fn a, as_arg a, st') /\
      active st' b = evs /\ (forall b', b' <> b -> active st' b' = active st b') /\
      forall ev', assigned st' ev' = assigned st ev'
}.

(** ** The wrappers *)

Section Wrappers.
Context `{EventLib}.

(** The storage of an event, where [malloc] finds some. *)
Definition dsched_event_alloc `{PMIx} (room : loc) : option loc :=
  if mem_ok then Some room else None.

(** The status of the library is dropped. *)
Definition dsched_event_assign (ev : loc) (evbase : base) (fd arg : Z) (cbfn : handler)
    (cbd : loc) (st : evlib) : outcome (Z * evlib) :=
  '(_, st) ← event_assign ev evbase fd arg cbfn cbd st; Done (0, st).

Definition dsched_event_set (b : base) (x : loc) (fd fg : Z) (cb : handler) (arg : loc)
    (st : evlib) : outcome (Z * evlib) := dsched_event_assign x b fd fg cb arg st.

Definition dsched_event_evtimer_set (b : base) (x : loc) (cb : handler) (arg : loc)
    (st : evlib) : outcome (Z * evlib) := dsched_event_assign x b (-1) 0 cb arg st.

Definition dsched_event_signal_set (b : base) (x : loc) (fd : Z) (cb : handler) (arg : loc)
    (st : evlib) : outcome (Z * evlib) :=
  dsched_event_assign x b fd (Z.lor EV_SIGNAL EV_PERSIST) cb arg st.

Definition dsched_event_active (x : loc) (y z : Z) (st : evlib) : evlib := event_active x y z st.

(** The macro; [x] is the object, its embedded event and the argument of the handler. *)
Definition DSCHED_THREADSHIFT (x : loc) (eb : base) (f : handler) (st : evlib)
    : outcome evlib :=
  '(_, st) ← dsched_event_set eb x (-1) EV_WRITE f x st;
  Done (dsched_event_active x EV_WRITE 1 st).

(** ** What the library then holds *)

Definition shift_of (e : event) : assignment :=
  Assignment (ev_base e) (-1) EV_WRITE (ev_fn e) (ev_arg e).

Definition on_base (b : base) (evs : list event) : list event := filter (fun e => ev_base e = b) evs.

(** The library's state is that of the active events [evs]. *)
Record shows (st : evlib) (evs : list event) : Prop := {
  sh_active b : active st b = ev_arg <$> on_base b evs;
  sh_assigned e : e ∈ evs -> assigned st (ev_arg e) = Some (shift_of e)
}.

Lemma shows_idle st evs l b : shows st evs -> l ∉ ev_arg <$> evs -> l ∉ active st b.
Proof.
  intros Hs Hl. rewrite (sh_active _ _ Hs). intros (e & -> & He)%list_elem_of_fmap.
  apply Hl, list_elem_of_fmap_2. by apply list_elem_of_filter in He as [_ ?].
Qed.

Lemma on_base_snoc b evs e :
  on_base b (evs ++ [e]) = on_base b evs ++ if decide (ev_base e = b) then [e] else [].
Proof. unfold on_base. rewrite filter_app. by rewrite filter_cons, filter_nil. Qed.

(** The three calls of the macro make the event of an object active, when none is. *)
Lemma shift_shows st evs e :
  shows st evs -> ev_arg e ∉ ev_arg <$> evs ->
  exists st', DSCHED_THREADSHIFT (ev_arg e) (ev_base e) (ev_fn e) st = Done st' /\
    shows st' (evs ++ [e]).
Proof.
  intros Hs Hnew. pose proof (fun b => shows_idle st evs _ b Hs Hnew) as Hidle.
  unfold DSCHED_THREADSHIFT, dsched_event_set, dsched_event_assign, dsched_event_active.
  destruct (assign_accepts (ev_arg e) (ev_base e) (-1) EV_WRITE (ev_fn e) (ev_arg e) st)
    as (st1 & -> & Hset & Hoth & Hact); [apply write_is_no_signal|done|]. simpl.
  destruct (active_appends (ev_arg e) EV_WRITE 1 st1 _ Hset) as (Ha & Hb & Has).
  { intros b. by rewrite Hact. }
  simpl in Ha, Hb. eexists. split; [done|]. split.
  - intros b. rewrite on_base_snoc, fmap_app, <- (sh_active _ _ Hs).
    destruct (decide (ev_base e = b)) as [<-|Hne]; [by rewrite Ha, Hact|].
    by rewrite Hb, Hact, app_nil_r by congruence.
  - intros e' [He'| ->%list_elem_of_singleton]%elem_of_app; rewrite Has; [|done].
    rewrite Hoth; [by apply Hs|]. intros E. apply Hnew. rewrite <- E. by apply list_elem_of_fmap_2.
Qed.

(** The shifts a handler makes, in its order. *)
Fixpoint shifts (evs : list event) (st : evlib) : outcome evlib :=
  match evs with
  | [] => Done st
  | e :: evs => st ← DSCHED_THREADSHIFT (ev_arg e) (ev_base e) (ev_fn e) st; shifts evs st
  end.

Lemma shifts_show st evs new :
  shows st evs -> NoDup (ev_arg <$> (evs ++ new)) ->
  exists st', shifts new st = Done st' /\ shows st' (evs ++ new).
Proof.
  revert st evs. induction new as [|e new IH]; intros st evs Hs Hnd;
    [exists st; by rewrite app_nil_r|].
  rewrite (app_assoc evs [e] new : evs ++ e :: new = _) in Hnd |- *.
  destruct (shift_shows st evs e) as (st1 & Hst1 & Hs1); [done| |].
  { rewrite !fmap_app in Hnd. apply NoDup_app in Hnd as (Hnd & _ & _).
    apply NoDup_app in Hnd as (_ & Hd & _). intros Hin. by apply (Hd _ Hin), list_elem_of_singleton. }
  destruct (IH st1 (evs ++ [e])) as (st' & Hst' & Hs'); [done..|].
  exists st'. simpl. by rewrite Hst1.
Qed.

(** ** The next event of a base *)

Lemma on_base_next b evs e rest :
  on_base b evs = e :: rest ->
  exists i, evs !! i = Some e /\ ev_base e = b /\ on_base b (delete i evs) = rest /\
    forall b', b' <> b -> on_base b' (delete i evs) = on_base b' evs.
Proof.
  unfold on_base. revert rest. induction evs as [|x evs IH]; intros rest; [done|].
  rewrite filter_cons. case_decide as Hx; intros E.
  - injection E as -> <-. exists 0%nat. split_and!; [done..|]. intros b' Hb'. simpl.
    by rewrite filter_cons_False by congruence.
  - destruct (IH _ E) as (i & Hi & He & Hrest & Hoth). exists (S i). simpl.
    split_and!; [done..|by rewrite filter_cons_False|]. intros b' Hb'.
    rewrite !filter_cons. by rewrite Hoth.
Qed.

Lemma next_shown st evs b h l st' :
  shows st evs -> event_base_loop b st = Some (h, l, st') ->
  exists i, evs !! i = Some (Ev b h l) /\ shows st' (delete i evs).
Proof.
  intros Hs Hloop. destruct (on_base b evs) as [|e rest] eqn:Eb.
  { rewrite loop_idle in Hloop; [done|]. by rewrite (sh_active _ _ Hs), Eb. }
  destruct (on_base_next _ _ _ _ Eb) as (i & Hi & He & Hrest & Hoth).
  assert (e ∈ evs) as Hin by (by eapply list_elem_of_lookup_2).
  destruct (loop_next b st (ev_arg e) (ev_arg <$> rest) (shift_of e)) as (st1 & Hl & Hb & Hb' & Has);
    [by rewrite (sh_active _ _ Hs), Eb|by apply Hs|].
  rewrite Hl in Hloop. simplify_eq. exists i. split; [by destruct e|]. split.
  - intros b. destruct (decide (b = ev_base e)) as [->|Hne]; [by rewrite Hb|].
    by rewrite Hb', (sh_active _ _ Hs), Hoth.
  - intros e' He'. rewrite Has. apply Hs. by eapply elem_of_submseteq, submseteq_delete.
Qed.

Lemma idle_shown st evs : shows st evs -> (forall b, event_base_loop b st = None) -> evs = [].
Proof.
  intros Hs Hidle. destruct evs as [|e evs]; [done|]. exfalso.
  assert (on_base (ev_base e) (e :: evs) = e :: on_base (ev_base e) evs) as Eb.
  { unfold on_base. by rewrite filter_cons_True. }
  destruct (loop_next (ev_base e) st (ev_arg e) (ev_arg <$> on_base (ev_base e) evs) (shift_of e))
    as (st1 & Hl & _); [by rewrite (sh_active _ _ Hs), Eb|apply Hs; left|].
  by rewrite Hidle in Hl.
Qed.
End Wrappers.

(** ** The scheduler on the event library *)

Section Machine.
Context {P : Type -> Type} `{PArray P} `{PMIx} `{EventLib}.
Context (others : handler -> loc -> act (sys P) unit).
Context {pool : gmap loc (cell dsched_node_t)} {arr : P loc} `{!Sides others pool arr}.

(** The state of the library and the objects of the scheduler, without the list of
    active events Pipeline keeps: those are the library's. *)
Record machine := Machine { lib : evlib; mem : sys P }.

(** An action with its shifts made by the library. *)
Definition shifting {A} (m : act (sys P) A) (d : machine) : outcome (A * machine) :=
  '(x, s) ← m (mem d); st ← shifts (events s) (lib d); Done (x, Machine st (objects_of s)).

Definition handle (h : handler) (obj : loc) : machine -> outcome (unit * machine) :=
  shifting (run_handler others meta_actives sched_actives h obj).

(** After the upcalls [us] and [k] handlers, each of which was that of the event which
    the loop of some base took next. *)
Inductive machine_runs (n : loc) : list upcall -> nat -> machine -> Prop :=
| runs_start : machine_runs n [] 0 (Machine evlib_start (initial pool arr n))
| runs_submit us k d u rc d' : machine_runs n us k d -> acceptable others u ->
    shifting (submit u) d = Done (rc, d') -> machine_runs n (us ++ [u]) k d'
| runs_loop us k d b h obj st d' : machine_runs n us k d ->
    event_base_loop b (lib d) = Some (h, obj, st) ->
    handle h obj (Machine st (mem d)) = Done (tt, d') -> machine_runs n us (S k) d'.

(** The machine against Pipeline's state. *)
Record mirrors (d : machine) (s : sys P) : Prop := {
  mi_mem : mem d = objects_of s;
  mi_lib : shows (lib d) (events s)
}.

Lemma machine_submit d s us k ts u :
  tracks others s us k ts [] -> acceptable others u -> mirrors d s ->
  exists d', shifting (submit u) d = Done (PMIX_SUCCESS, d') /\ mirrors d' (after_submit u s).
Proof.
  intros Ht Hu [Hm Hl]. unfold shifting. rewrite Hm, submit_run.
  pose proof (tracks_submit _ _ _ _ _ _ _ Hu Ht) as Ht'.
  pose proof (events_apart _ _ _ (tr_inv _ _ _ _ _ _ Ht')) as Hnd.
  rewrite <- (tr_events _ _ _ _ _ _ Ht') in Hnd.
  destruct (shifts_show _ _ [t_event (start_of u (next s))] Hl Hnd) as (st & Hst & Hs).
  eexists. split; [by cbn -[shifts]; rewrite Hst|]. split; [by destruct u|done].
Qed.

Lemma machine_loop d s us k ts b h obj st :
  tracks others s us k ts [] -> mirrors d s -> event_base_loop b (lib d) = Some (h, obj, st) ->
  exists i d' s' ts', handle h obj (Machine st (mem d)) = Done (tt, d') /\
    (i < length (events s))%nat /\ run_event others i s = Done (tt, s') /\
    tracks others s' us (S k) ts' [] /\ mirrors d' s'.
Proof.
  intros Ht [Hm Hl] Hloop. destruct (next_shown _ _ _ _ _ _ Hl Hloop) as (i & Hi & Hl').
  pose proof Hi as Hi'. rewrite (tr_events _ _ _ _ _ _ Ht), list_lookup_fmap in Hi'.
  destruct (ts !! i) as [t|] eqn:Et; [|done]. injection Hi' as Ev.
  destruct (tracks_effect _ _ _ _ _ _ _ _ Ht Et) as (Hrun & Hinv & Ht').
  destruct (advance others (objects_of s) t (delete i ts)) as [Hh He _ _ _ _ _ _ _];
    [apply Ht|exact (inv_events _ _ [] _ Hinv)|]. rewrite Ev in Hh. simpl in Hh.
  pose proof (events_apart _ _ _ (tr_inv _ _ _ _ _ _ Ht')) as Hnd.
  rewrite <- (tr_events _ _ _ _ _ _ Ht') in Hnd.
  unfold after_run in Hnd. rewrite effect_events in Hnd.
  rewrite (next_events t (_ <| events := _ |>) (objects_of s)) in Hnd by (by destruct s).
  destruct (shifts_show _ _ _ Hl' Hnd) as (st' & Hst' & Hs').
  rewrite (app_nil_l _ : events (objects_of s) ++ _ = _) in He. eexists i, _, _, _. split.
  { unfold handle, shifting. cbn -[shifts]. rewrite Hm, Hh. cbn -[shifts]. by rewrite He, Hst'. }
  split; [by eapply lookup_lt_Some|]. split; [exact Hrun|]. split; [exact Ht'|].
  unfold after_run. split; [by rewrite (effect_objects _ _ (_ <| events := _ |>)), effect_objects|].
  rewrite effect_events, (next_events t (_ <| events := _ |>) (objects_of s)) by (by destruct s).
  exact Hs'.
Qed.

(** C5: The scheduler that keeps its events in the event library runs as Pipeline says.
    After any acceptable upcalls, those that decode and whose node count fits a C int, and
    any handlers the loops of the three bases call, the library
    and the objects are those of a state Pipeline reaches by the same upcalls and as many
    handlers; whichever event the loop of a base takes next, its handler ends, and every
    event it shifts is one the library accepts, set anew only when it is not active; and
    when no base has an event left every handler has run and the requestors have the
    replies they are owed. *)
Theorem library_runs_pipeline n us k d :
  machine_runs n us k d ->
  (exists s, reach others (initial pool arr n) us k s /\ mirrors d s) /\
  (forall b h obj st, event_base_loop b (lib d) = Some (h, obj, st) ->
     exists d', handle h obj (Machine st (mem d)) = Done (tt, d')) /\
  ((forall b, event_base_loop b (lib d) = None) ->
     k = sum_list_with handlers us /\ replies (mem d) ≡ₚ us ≫= owed others).
Proof.
  intros Hrun.
  assert (exists s ts, reach others (initial pool arr n) us k s /\ tracks others s us k ts [] /\
    mirrors d s) as (s & ts & Hr & Ht & Hm).
  { induction Hrun as [|us k d u rc d' _ (s & ts & Hr & Ht & Hm) Hu Hd
                      |us k d b h obj st d' _ (s & ts & Hr & Ht & Hm) Hl Hd].
    - exists (initial pool arr n), []. split_and!; [constructor|apply tracks_initial|].
      split; [done|]. split; [intros b; apply start_active|]. by intros e ?%elem_of_nil.
    - destruct (machine_submit _ _ _ _ _ _ Ht Hu Hm) as (d1 & Hd1 & Hm1).
      rewrite Hd1 in Hd. simplify_eq. exists (after_submit u s), (ts ++ [start_of u (next s)]).
      split_and!; [|by apply tracks_submit|done].
      eapply reach_submit; [done|done|apply submit_run].
    - destruct (machine_loop _ _ _ _ _ _ _ _ _ Ht Hm Hl)
        as (i & d1 & s1 & ts1 & Hd1 & Hi & Hs1 & Ht1 & Hm1).
      rewrite Hd1 in Hd. simplify_eq. exists s1, ts1. split_and!; [|done..]. by eapply reach_run. }
  split_and!; [by exists s| |].
  - intros b h obj st Hl.
    destruct (machine_loop _ _ _ _ _ _ _ _ _ Ht Hm Hl) as (i & d1 & _ & _ & Hd1 & _). by exists d1.
  - intros Hidle. pose proof (idle_shown _ _ (mi_lib _ _ Hm) Hidle) as He.
    destruct Ht as [He' _ Hrep Hwork _]. rewrite He in He'. symmetry in He'.
    apply fmap_nil_inv in He' as ->. rewrite (mi_mem _ _ Hm). simpl in Hrep, Hwork |- *.
    rewrite !app_nil_r in Hrep. split; [lia|done].
Qed.
End Machine.

(** ** Examples *)

(** An event library: it refuses a signal mixed with other conditions, and stops, as
    the library does in its debug mode, at an event set anew while it is active. *)
Record toy := Toy { toy_assigned : gmap loc assignment; toy_active : base -> list loc }.

Definition toy_update (b : base) (l : list loc) (f : base -> list loc) (b' : base) : list loc :=
  if decide (b' = b) then l else f b'.

Definition toy_busy (ev : loc) (st : toy) : bool :=
  bool_decide (ev ∈ toy_active st MainBase ++ toy_active st PriBase ++ toy_active st FifoBase).

Lemma toy_idle ev st : (forall b, ev ∉ toy_active st b) -> toy_busy ev st = false.
Proof. intros Hi. apply bool_decide_eq_false. rewrite !elem_of_app. naive_solver. Qed.

#[local] Instance toy_lib : EventLib.
Proof.
  refine {|
    evlib := toy;
    evlib_start := Toy ∅ (fun _ => []);
    EV_TIMEOUT := 1; EV_READ := 2; EV_WRITE := 4; EV_SIGNAL := 8; EV_PERSIST := 16;
    assigned := fun st ev => toy_assigned st !! ev;
    active := toy_active;
    event_assign := fun ev b fd what fn arg st =>
      if toy_busy ev st then Fault AssertFailed
      else if negb (Z.land what 8 =? 0) && negb (Z.land what 6 =? 0) then Done (-1, st)
      else Done (0, Toy (<[ev := Assignment b fd what fn arg]> (toy_assigned st)) (toy_active st));
    event_active := fun ev _ _ st =>
      match toy_assigned st !! ev with
      | Some a => Toy (toy_assigned st)
          (toy_update (as_base a) (toy_active st (as_base a) ++ [ev]) (toy_active st))
      | None => st
      end;
    event_base_loop := fun b st =>
      match toy_active st b with
      | ev :: evs => a ← toy_assigned st !! ev;
          Some (as_fn a, as_arg a, Toy (toy_assigned st) (toy_update b evs (toy_active st)))
      | [] => None
      end
  |}.
  - done.
  - done.
  - intros ev b fd what fn arg st Hw Hi. rewrite toy_idle by done. rewrite Hw. simpl.
    eexists. split; [done|]. simpl. split_and!; [by rewrite lookup_insert_eq| |done].
    intros ev' Hne. by rewrite lookup_insert_ne.
  - intros ev what ncalls st a Ha _. rewrite Ha. simpl. unfold toy_update.
    split_and!; [by rewrite decide_True| |done]. intros b Hb. by rewrite decide_False.
  - intros b st Hb. by rewrite Hb.
  - intros b st ev evs a Hb Ha. rewrite Hb, Ha. simpl. eexists. split; [done|]. unfold toy_update.
    simpl. split_and!; [by rewrite decide_True| |done]. intros b' Hb'. by rewrite decide_False.
Defined.

#[local] Existing Instance sample_pmix.
#[local] Instance sample_sides : Sides no_others sample_pool [Some 0%nat; Some 1%nat] :=
  no_sides _ _ _.

(** One event, of the first base that has one. *)
Definition turn (d : machine (P := slots)) : option (machine (P := slots)) :=
  '(h, obj, st) ← (match event_base_loop MainBase (lib d) with
                    | Some x => Some x
                    | None => match event_base_loop PriBase (lib d) with
                              | Some x => Some x
                              | None => event_base_loop FifoBase (lib d)
                              end
                    end);
  match handle no_others h obj (Machine st (mem d)) with Done (_, d) => Some d | Fault _ => None end.

Fixpoint turns (n : nat) (d : machine (P := slots)) : option (machine (P := slots)) :=
  match n with O => Some d | S n => d ← turn d; turns n d end.

Definition served_upcall : upcall (P := slots) := sample_upcall [not_waiting] 2.

Definition asked : machine (P := slots) :=
  let d := Machine evlib_start sample_start in
  match shifting (submit served_upcall) d with Done (_, d) => d | Fault _ => d end.
Definition served : machine (P := slots) := default asked (turns 8 asked).

Lemma turns_run us k n d d' :
  machine_runs no_others (pool := sample_pool) (arr := [Some 0%nat; Some 1%nat]) 2 us k d ->
  turns n d = Some d' ->
  machine_runs no_others (pool := sample_pool) (arr := [Some 0%nat; Some 1%nat]) 2 us (n + k) d'.
Proof.
  revert k d. induction n as [|n IH]; intros k d Hr Ht; [by simplify_eq/=|].
  simpl in Ht. destruct (turn d) as [d1|] eqn:E; [|done]. rewrite Nat.add_succ_comm.
  apply (IH _ d1); [|done]. unfold turn in E.
  destruct (match event_base_loop MainBase (lib d) with Some _ => _ | None => _ end)
    as [[[h obj] st]|] eqn:El; [|done]. simpl in E.
  destruct (handle no_others h obj (Machine st (mem d))) as [[[] d2]|] eqn:Eh; [|done]. simplify_eq.
  destruct (event_base_loop MainBase (lib d)) eqn:E1; [simplify_eq; by eapply runs_loop|].
  destruct (event_base_loop PriBase (lib d)) eqn:E2; simplify_eq; by eapply runs_loop.
Qed.

Lemma served_runs :
  machine_runs no_others (pool := sample_pool) (arr := [Some 0%nat; Some 1%nat]) 2
    [served_upcall] 8 served.
Proof.
  assert (match turns 8 asked with Some _ => true | None => false end = true) as Ht
    by (vm_compute; reflexivity).
  unfold served. destruct (turns 8 asked) as [d|] eqn:E; [simpl|done].
  apply (turns_run _ 0 8 asked); [|done]. clear Ht E.
  eapply (runs_submit _ _ [] 0 _ served_upcall PMIX_SUCCESS asked (runs_start _ _)); [|reflexivity].
  eexists. split; [reflexivity|]. split; [reflexivity|]. by vm_compute.
Qed.

Lemma library_runs_pipeline_witness :
  (forall b, event_base_loop b (lib served) = None) /\
  replies (mem served) ≡ₚ [Reply 7 0 2; Reply 7 (-47) 2].
Proof.
  assert (forall b, event_base_loop b (lib served) = None) as Hidle
    by (intros []; vm_compute; reflexivity).
  split; [exact Hidle|].
  exact (proj2 (proj2 (proj2 (library_runs_pipeline no_others _ _ _ _ served_runs)) Hidle)).
Defined.
