(* ===== verification/Progress.v ===== *)
(** Progress threads: src/runtime/dsched_progress_threads.c.

    Named threads that run an event base each. A thread is shared by everybody who
    asks for its name; it can be paused and resumed. The operating system's answers
    (thread start, processor affinity, event base creation, allocation) are the
    argument [env] of the operations that ask for them. *)

From S2P Require Import Prelude Pmix Constants.

(** ** Parsing a processor list

    strtoul(s, &end, 10) of the C library: leading white space, a sign, digits. The
    second component is the string [end] points to; it is never null. *)

Definition digit (c : Ascii.ascii) : option Z :=
  let n := Z.of_nat (Ascii.nat_of_ascii c) in
  if (48 <=? n) && (n <=? 57) then Some (n - 48) else None.

Definition is_space (c : Ascii.ascii) : bool :=
  let n := Z.of_nat (Ascii.nat_of_ascii c) in (n =? 32) || ((9 <=? n) && (n <=? 13)).

Fixpoint digits (acc : Z) (s : string) : Z * string :=
  match s with
  | String c s' => match digit c with Some d => digits (acc * 10 + d) s' | None => (acc, s) end
  | EmptyString => (acc, s)
  end.

Fixpoint skip_space (s : string) : string :=
  match s with
  | String c s' => if is_space c then skip_space s' else s
  | EmptyString => s
  end.

Definition ULONG_MAX : Z := 2 ^ 64 - 1.

Definition strtoul (s : string) : Z * string :=
  let s1 := skip_space s in
  let '(neg, s2) :=
    match s1 with
    | String c r =>
        if Ascii.eqb c (Ascii.ascii_of_nat 45) then (true, r)
        else if Ascii.eqb c (Ascii.ascii_of_nat 43) then (false, r)
        else (false, s1)
    | EmptyString => (false, s1)
    end in
  match s2 with
  | String c _ =>
      if digit c then
        let '(n, r) := digits 0 s2 in
        (if ULONG_MAX <? n then ULONG_MAX else if (neg : bool) then uint 64 (- n) else n, r)
      else (0, s)
  | EmptyString => (0, s)
  end.

(** [++dash]: past the terminator of the string is out of bounds. *)
Definition next_char (s : string) : outcome string :=
  match s with String _ s' => Done s' | EmptyString => Fault OutOfBounds end.

(** CPU_SET for the [CPU_SETSIZE] processors a set holds; others are ignored. *)
Definition CPU_SETSIZE : Z := 1024.
Definition CPU_SET (k : Z) (cpuset : gset Z) : gset Z :=
  if (0 <=? k) && (k <? CPU_SETSIZE) then {[k]} ∪ cpuset else cpuset.

(** The body of the loop over the ranges. [dash] is never null, so the branch for a
    single processor is never taken. *)
Definition cpu_range (range : string) (cpuset : gset Z) : outcome (gset Z) :=
  let '(start, dash) := strtoul range in
  dash' ← next_char dash;
  let '(stop, _) := strtoul dash' in
  Done (foldl (fun set k => CPU_SET k set) cpuset
    (seqZ (sint 32 start) (sint 32 stop - sint 32 start))).

Fixpoint cpu_ranges (ranges : list string) (cpuset : gset Z) : outcome (gset Z) :=
  match ranges with
  | [] => Done cpuset
  | r :: ranges => set ← cpu_range r cpuset; cpu_ranges ranges set
  end.

Definition comma : Ascii.ascii := Ascii.ascii_of_nat 44.

(** ** Trackers

    [block_set] and [engine_running] are the states of the members [block] (whether
    the event was initialised) and [engine] (whether its thread runs). *)

Record dsched_progress_tracker_t := Tracker {
  refcount : Z;
  trk_name : cstr;
  ev_base_of : option Z;
  ev_active : bool;
  block_set : bool;
  engine_constructed : bool;
  engine_running : bool
}.
#[export] Instance eta_tracker : Eta dsched_progress_tracker_t := fun t =>
  Tracker (refcount t) (trk_name t) (ev_base_of t) (ev_active t) (block_set t)
    (engine_constructed t) (engine_running t).

Definition tracker_constructor : dsched_progress_tracker_t :=
  Tracker 1 None None false false false false.

(** [bases] are the event bases that exist; [orphans] those that were freed while
    their thread was running. *)
Record threads := Threads {
  inited : bool;
  tracking : list dsched_progress_tracker_t;
  bases : gset Z;
  orphans : list Z
}.
#[export] Instance eta_threads : Eta threads := fun s =>
  Threads (inited s) (tracking s) (bases s) (orphans s).

Definition shared_thread_name : string := "DSCHED-wide async progress thread".

(** The destructor deletes the event and frees the event base, whatever its thread
    is doing. *)
Definition tracker_destructor (t : dsched_progress_tracker_t) (s : threads) : outcome threads :=
  if negb (block_set t) then Fault Uninitialised else
  match ev_base_of t with
  | Some b => Done (s <| bases := bases s ∖ {[b]} |>
                      <| orphans := if engine_running t then orphans s ++ [b] else orphans s |>)
  | None => Done s
  end.

(** The configuration, and what the system answers in the course of one call. *)
Record config := Config {
  have_setaffinity : bool;
  progress_thread_cpus : cstr;
  bind_progress_thread_reqd : bool
}.

Record env := Env {
  e_new_ok : bool;
  e_strdup_ok : bool;
  e_base : option Z;
  e_thread_start : Z;
  e_setaffinity : Z
}.

Section Threads.
Context `{PMIx} (g : config).

(** [pmix_thread_join] returns when the engine has left its loop. A thread that could
    not be started has no handle to join: the tracker is active all the same, and what
    happens then is undefined. *)
Definition stop_progress_engine (t : dsched_progress_tracker_t)
    : outcome dsched_progress_tracker_t :=
  if negb (ev_active t) then Fault AssertFailed else
  if engine_running t then Done (t <| ev_active := false |> <| engine_running := false |>)
  else Fault Uninitialised.

Definition start_progress_engine (e : env) (t : dsched_progress_tracker_t)
    : outcome (Z * dsched_progress_tracker_t) :=
  if ev_active t then Fault AssertFailed else
  let rc := e_thread_start e in
  let t := t <| ev_active := true |> <| engine_running := rc =? DSCHED_SUCCESS |> in
  if have_setaffinity g then
    match progress_thread_cpus g with
    | None => Done (rc, t)
    | Some cpus =>
        match argv_split cpus comma with
        | None => Fault NullDeref
        | Some ranges =>
            cpuset ← cpu_ranges ranges ∅;
            let rc := e_setaffinity e in
            if negb (rc =? 0) && bind_progress_thread_reqd g
            then Done (code_value DSCHED_ERR_NOT_SUPPORTED, t)
            else Done (code_value DSCHED_SUCCESS, t)
        end
    end
  else Done (rc, t).

(** The first tracker with a name, and the list around it. *)
Fixpoint split_name (name : string) (l : list dsched_progress_tracker_t)
    : outcome (option (list dsched_progress_tracker_t * dsched_progress_tracker_t *
                       list dsched_progress_tracker_t)) :=
  match l with
  | [] => Done None
  | t :: l =>
      hit ← strcmp0 (Some name) (trk_name t);
      if hit : bool then Done (Some ([], t, l))
      else r ← split_name name l;
           Done (option_map (fun x => (t :: x.1.1, x.1.2, x.2)) r)
  end.

Definition default_name (name : cstr) : string := default shared_thread_name name.

Definition dsched_progress_thread_init (e : env) (name : cstr) (s : threads)
    : outcome (option Z * threads) :=
  let s := if inited s then s else s <| inited := true |> <| tracking := [] |> in
  let name := default_name name in
  found ← split_name name (tracking s);
  match found with
  | Some (l1, t, l2) =>
      Done (ev_base_of t, s <| tracking := l1 ++ t <| refcount := refcount t + 1 |> :: l2 |>)
  | None =>
      if negb (e_new_ok e) then Done (None, s) else
      if negb (e_strdup_ok e) then s ← tracker_destructor tracker_constructor s; Done (None, s) else
      let t := tracker_constructor <| trk_name := Some name |> in
      match e_base e with
      | None => s ← tracker_destructor t s; Done (None, s)
      | Some b =>
          let s := s <| bases := {[b]} ∪ bases s |> in
          let t := t <| ev_base_of := Some b |> <| block_set := true |> <| engine_constructed := true |> in
          '(rc, t) ← start_progress_engine e t;
          if rc =? DSCHED_SUCCESS
          then Done (Some b, s <| tracking := tracking s ++ [t] |>)
          else s ← tracker_destructor t s; Done (None, s)
      end
  end.

Definition dsched_progress_thread_finalize (name : cstr) (s : threads) : outcome (Z * threads) :=
  if negb (inited s) then Done (code_value DSCHED_ERR_NOT_FOUND, s) else
  found ← split_name (default_name name) (tracking s);
  match found with
  | None => Done (code_value DSCHED_ERR_NOT_FOUND, s)
  | Some (l1, t, l2) =>
      t ← (if ev_active t then stop_progress_engine t else Done t);
      s ← tracker_destructor t (s <| tracking := l1 ++ l2 |>);
      Done (code_value DSCHED_SUCCESS, s)
  end.

(** The loop of [dsched_progress_thread_pause]. *)
Fixpoint pause_loop (name : cstr) (l : list dsched_progress_tracker_t)
    : outcome (list dsched_progress_tracker_t) :=
  match l with
  | [] => Done []
  | t :: l =>
      hit ← match name with None => Done true | Some _ => strcmp0 name (trk_name t) end;
      if hit : bool then
        t' ← (if ev_active t then stop_progress_engine t else Done t);
        if name then Done (t' :: l) else l' ← pause_loop name l; Done (t' :: l')
      else l' ← pause_loop name l; Done (t :: l')
  end.

Definition dsched_progress_thread_pause (name : cstr) (s : threads) : outcome (Z * threads) :=
  if negb (inited s) then Done (code_value DSCHED_ERR_NOT_FOUND, s) else
  l ← pause_loop name (tracking s);
  Done (code_value DSCHED_SUCCESS, s <| tracking := l |>).

Definition dsched_progress_thread_resume (e : env) (name : cstr) (s : threads)
    : outcome (Z * threads) :=
  if negb (inited s) then Done (code_value DSCHED_ERR_NOT_FOUND, s) else
  found ← split_name (default_name name) (tracking s);
  match found with
  | None => Done (code_value DSCHED_ERR_NOT_FOUND, s)
  | Some (l1, t, l2) =>
      if ev_active t then Done (code_value DSCHED_ERR_RESOURCE_BUSY, s) else
      '(rc, t) ← start_progress_engine e t;
      Done (rc, s <| tracking := l1 ++ t :: l2 |>)
  end.
End Threads.

(** ** Numerals *)

Fixpoint numeral (s : string) : bool :=
  match s with
  | EmptyString => true
  | String c s => bool_decide (is_Some (digit c)) && numeral s
  end.

Definition value (s : string) : Z := (digits 0 s).1.

Definition no_digit (s : string) : Prop :=
  match s with EmptyString => True | String c _ => digit c = None end.

Lemma digits_app acc s r :
  numeral s = true -> no_digit r -> digits acc (s ++ r) = ((digits acc s).1, r).
Proof.
  revert acc; induction s as [|c s IH]; intros acc Hs Hr; simpl.
  - destruct r as [|c r]; [done|]. simpl in *. by rewrite Hr.
  - simpl in Hs. apply andb_prop in Hs as [Hc Hs]. apply bool_decide_eq_true in Hc as [d Hd].
    rewrite Hd. by apply IH.
Qed.

Lemma string_app_nil s : (s ++ "" = s)%string.
Proof. induction s as [|c s IH]; [done|]. exact (f_equal (String c) IH). Qed.

Lemma digit_plain c d :
  digit c = Some d -> is_space c = false /\ Ascii.eqb c (Ascii.ascii_of_nat 45) = false /\
    Ascii.eqb c (Ascii.ascii_of_nat 43) = false.
Proof.
  intros Hd. destruct c as [[] [] [] [] [] [] [] []]; try done; vm_compute in Hd; done.
Qed.

Lemma strtoul_numeral s r :
  s <> ""%string -> numeral s = true -> value s <= ULONG_MAX -> no_digit r ->
  strtoul (s ++ r) = (value s, r).
Proof.
  destruct s as [|c s]; [done|]. intros _ Hs Hv Hr. pose proof Hs as Hs'.
  simpl in Hs'. apply andb_prop in Hs' as [Hc _]. apply bool_decide_eq_true in Hc as [d Hd].
  destruct (digit_plain c d Hd) as (H1 & H2 & H3).
  pose proof (digits_app 0 (String c s) r Hs Hr) as E.
  change (String c s ++ r)%string with (String c (s ++ r)) in *.
  unfold strtoul. cbn [skip_space]. rewrite H1, H2, H3, Hd, E. unfold value in Hv.
  by destruct (Z.ltb_spec ULONG_MAX (digits 0 (String c s)).1); [lia|].
Qed.

Lemma CPU_SET_range l cpuset k :
  k ∈ foldl (fun set k => CPU_SET k set) cpuset l <->
  k ∈ cpuset \/ (k ∈ l /\ 0 <= k < CPU_SETSIZE).
Proof.
  revert cpuset; induction l as [|x l IH]; intros cpuset; simpl; [set_solver|].
  rewrite IH. unfold CPU_SET. destruct (Z.leb_spec 0 x), (Z.ltb_spec x CPU_SETSIZE); simpl;
    rewrite ?elem_of_cons, ?elem_of_union, ?elem_of_singleton; naive_solver lia.
Qed.

(** The processor list of the progress threads. A range written [a-b] binds the
    processors from a up to but not including b, and an entry that is a single
    number, which the code means to allow, reads past the end of its string: the end
    pointer [strtoul] stores is never null. *)
Theorem cpu_range_spec a b cpuset :
  a <> ""%string -> numeral a = true -> value a < 2 ^ 31 ->
  b <> ""%string -> numeral b = true -> value b < 2 ^ 31 ->
  (exists cpuset', cpu_range (a ++ "-" ++ b)%string cpuset = Done cpuset' /\
    forall k, k ∈ cpuset' <-> k ∈ cpuset \/ (value a <= k < value b /\ 0 <= k < CPU_SETSIZE)) /\
  cpu_range a cpuset = Fault OutOfBounds.
Proof.
  intros Ha Na Va Hb Nb Vb.
  assert (forall s acc, 0 <= acc -> 0 <= (digits acc s).1) as Hpos.
  { intros s; induction s as [|c s IH]; intros acc Hacc; simpl; [done|].
    destruct (digit c) as [d|] eqn:E; [|done]. apply IH.
    unfold digit in E. case_match eqn:Hd; [|done]. apply andb_prop in Hd as [Hd _].
    apply Z.leb_le in Hd. simplify_eq. lia. }
  pose proof (Hpos a 0 ltac:(lia)) as Pa. pose proof (Hpos b 0 ltac:(lia)) as Pb.
  fold (value a) in Pa. fold (value b) in Pb. unfold cpu_range. split.
  - rewrite strtoul_numeral by (unfold ULONG_MAX; done || lia). simpl.
    pose proof (strtoul_numeral b "" Hb Nb ltac:(unfold ULONG_MAX; lia) I) as E.
    rewrite string_app_nil in E. change ("" ++ b)%string with b. rewrite E. eexists. split; [done|]. intros k.
    rewrite CPU_SET_range, elem_of_seqZ, !sint_id by lia. naive_solver lia.
  - pose proof (strtoul_numeral a "" Ha Na ltac:(unfold ULONG_MAX; lia) I) as E.
    rewrite string_app_nil in E. by rewrite E.
Qed.

Lemma cpu_range_spec_witness :
  (exists cpuset', cpu_range "0-3" ∅ = Done cpuset' /\ (3 ∉ cpuset') /\ 2 ∈ cpuset') /\
  cpu_range "3" ∅ = Fault OutOfBounds.
Proof.
  split.
  - destruct (cpu_range_spec "0" "3" ∅) as [(set & Hset & Hk) _]; try done.
    exists set. split; [exact Hset|]. rewrite !Hk. vm_compute value. unfold CPU_SETSIZE.
    split; [intros [?|?]; [set_solver|lia]|right; lia].
  - apply (cpu_range_spec "3" "0" ∅); done.
Defined.

(** ** The table of threads *)

(** ** The calls *)

Inductive call :=
| C_init (e : env) (name : cstr)
| C_finalize (name : cstr)
| C_pause (name : cstr)
| C_resume (e : env) (name : cstr).

(** A stop of the thread returns: it is not active, or it was started. *)
Definition stoppable (t : dsched_progress_tracker_t) : bool := negb (ev_active t) || engine_running t.

Definition named (name : string) (t : dsched_progress_tracker_t) : bool :=
  bool_decide (trk_name t = Some name).

(** Something follows the number a range begins with. *)
Definition range_ok (range : string) : bool := negb (String.eqb (strtoul range).2 "").

Section Wf.
Context `{PMIx} (g : config).

Definition perform (c : call) (s : threads) : outcome threads :=
  match c with
  | C_init e name => r ← dsched_progress_thread_init g e name s; Done r.2
  | C_finalize name => r ← dsched_progress_thread_finalize name s; Done r.2
  | C_pause name => r ← dsched_progress_thread_pause name s; Done r.2
  | C_resume e name => r ← dsched_progress_thread_resume g e name s; Done r.2
  end.

(** A new event base is none of those in use. *)
Definition fresh_base (c : call) (s : threads) : Prop :=
  match c with
  | C_init e _ => forall b, e_base e = Some b -> b ∉ bases s
  | _ => True
  end.

(** The processor list can be read: there is none, it is not looked at, or each of its
    ranges is one. *)
Definition cpus_ok : bool :=
  match progress_thread_cpus g with
  | None => true
  | Some cpus =>
      negb (have_setaffinity g) ||
      match argv_split cpus comma with Some ranges => forallb range_ok ranges | None => false end
  end.

(** The tracker a call with a name is about. *)
Definition tracker_of (name : cstr) (s : threads) : option dsched_progress_tracker_t :=
  if inited s then List.find (named (default_name name)) (tracking s) else None.

(** The calls whose behaviour is defined. A new thread whose name cannot be copied, or
    for which there is no event base, has its [block] deleted before it was set; a
    thread that could not be started cannot be stopped. *)
Definition survives (c : call) (s : threads) : bool :=
  match c with
  | C_init e name =>
      match tracker_of name s with
      | Some _ => true
      | None => negb (e_new_ok e) || (e_strdup_ok e && bool_decide (is_Some (e_base e)) && cpus_ok)
      end
  | C_finalize name => match tracker_of name s with Some t => stoppable t | None => true end
  | C_pause None => negb (inited s) || forallb stoppable (tracking s)
  | C_pause (Some name) =>
      match tracker_of (Some name) s with Some t => stoppable t | None => true end
  | C_resume _ name => match tracker_of name s with Some t => ev_active t || cpus_ok | None => true end
  end.

Record tracker_ok (live : gset Z) (t : dsched_progress_tracker_t) : Prop := {
  tk_name : is_Some (trk_name t);
  tk_base : exists b, ev_base_of t = Some b /\ b ∈ live;
  tk_block : block_set t = true
}.

(** Names are unique, and every thread has an event base of its own that exists. *)
Record wf (s : threads) : Prop := {
  wf_trackers : Forall (tracker_ok (bases s)) (tracking s);
  wf_names : NoDup (trk_name <$> tracking s);
  wf_bases : NoDup (ev_base_of <$> tracking s);
  wf_inited : inited s = false -> tracking s = []
}.

Lemma split_name_spec name l :
  Forall (fun t => is_Some (trk_name t)) l ->
  (split_name name l = Done None /\ Some name ∉ trk_name <$> l) \/
  exists l1 t l2, split_name name l = Done (Some (l1, t, l2)) /\ l = l1 ++ t :: l2 /\
    trk_name t = Some name /\ Some name ∉ trk_name <$> l1.
Proof.
  induction l as [|t l IH]; intros Hall; [left; set_solver|].
  apply Forall_cons in Hall as [[n Hn] Hall]. simpl. rewrite Hn. simpl.
  destruct (String.eqb_spec name n) as [->|Hne].
  - right. exists [], t, l. set_solver.
  - destruct (IH Hall) as [[E Hni]|(l1 & t0 & l2 & E & -> & Ht & Hni)]; rewrite E; simpl.
    + left. split; [done|]. apply not_elem_of_cons. split; [congruence|done].
    + right. exists (t :: l1), t0, l2. split_and!; [done|done|done|]. rewrite fmap_cons, Hn.
      apply not_elem_of_cons. split; [congruence|done].
Qed.

Lemma wf_split s name :
  wf s ->
  (split_name name (tracking s) = Done None /\ Some name ∉ trk_name <$> tracking s) \/
  exists l1 t l2, split_name name (tracking s) = Done (Some (l1, t, l2)) /\
    tracking s = l1 ++ t :: l2 /\ trk_name t = Some name /\ Some name ∉ trk_name <$> l1 /\
    tracker_ok (bases s) t.
Proof.
  intros Hwf. destruct (split_name_spec name (tracking s)) as [?|(l1 & t & l2 & ? & E & ? & ?)].
  - eapply Forall_impl; [apply Hwf|]. by intros t [? _ _].
  - by left.
  - right. exists l1, t, l2. split_and!; [done..|].
    pose proof (wf_trackers s Hwf) as Hall. rewrite Forall_forall in Hall. apply Hall.
    rewrite E. set_solver.
Qed.

Lemma wf_find s name :
  wf s ->
  match List.find (named name) (tracking s) with
  | Some t => exists l1 l2, split_name name (tracking s) = Done (Some (l1, t, l2)) /\
      tracking s = l1 ++ t :: l2 /\ trk_name t = Some name /\ tracker_ok (bases s) t
  | None => split_name name (tracking s) = Done None /\ Some name ∉ trk_name <$> tracking s
  end.
Proof.
  intros Hwf. destruct (wf_split s name Hwf) as [[E Hni]|(l1 & t & l2 & E & El & Hn & Hni & Hok)].
  - destruct (List.find _ _) as [t|] eqn:Ef; [|done].
    apply List.find_some in Ef as [Hin Ht%bool_decide_eq_true]. exfalso. apply Hni. rewrite <- Ht.
    apply list_elem_of_fmap_2. by apply list_elem_of_In.
  - assert (List.find (named name) (tracking s) = Some t) as ->; [|by exists l1, l2].
    rewrite El. clear -Hn Hni. induction l1 as [|t1 l1 IH]; simpl; unfold named at 1.
    + by rewrite bool_decide_true.
    + csimpl in Hni. apply not_elem_of_cons in Hni as [Hne Hni].
      rewrite bool_decide_false by congruence. by apply IH.
Qed.

(** Replacing a tracker by one with the same name, base and event. *)
Lemma wf_replace s l1 t t' l2 :
  wf s -> tracking s = l1 ++ t :: l2 ->
  trk_name t' = trk_name t -> ev_base_of t' = ev_base_of t -> block_set t' = block_set t ->
  wf (s <| tracking := l1 ++ t' :: l2 |>).
Proof.
  intros [Hall Hn Hb Hi] E En Eb Ebl. rewrite E in *. split; simpl.
  - apply Forall_app in Hall as [H1 [Ht H2]%Forall_cons]. apply Forall_app.
    split; [done|]. apply Forall_cons. split; [|done]. destruct Ht.
    split; [by rewrite En|by rewrite Eb|congruence].
  - rewrite !fmap_app, !fmap_cons in *. by rewrite En.
  - rewrite !fmap_app, !fmap_cons in *. by rewrite Eb.
  - intros Hf. specialize (Hi Hf). by destruct l1.
Qed.

(** Removing a tracker and its event base. *)
Lemma wf_remove s l1 t l2 b o :
  wf s -> tracking s = l1 ++ t :: l2 -> ev_base_of t = Some b ->
  wf (s <| tracking := l1 ++ l2 |> <| bases := bases s ∖ {[b]} |> <| orphans := o |>).
Proof.
  intros [Hall Hn Hb Hi] E Eb. rewrite E in *.
  rewrite <- Permutation_middle in Hn, Hb. simpl in Hn, Hb.
  apply NoDup_cons in Hn as [_ Hn]. apply NoDup_cons in Hb as [Hnb Hb]. split; simpl.
  - assert (Forall (tracker_ok (bases s)) (l1 ++ l2)) as Hall'
      by (apply Forall_app in Hall as [? [_ ?]%Forall_cons]; by apply Forall_app).
    rewrite Forall_forall in Hall' |- *. intros t0 Ht0. destruct (Hall' t0 Ht0) as [? (b0 & Hb0 & ?) ?].
    split; [done| |done]. exists b0. split; [done|]. simpl. apply elem_of_difference.
    split; [done|]. intros ->%elem_of_singleton. apply Hnb. rewrite Eb, <- Hb0.
    by apply list_elem_of_fmap_2.
  - done.
  - done.
  - intros Hf. specialize (Hi Hf). by destruct l1.
Qed.

Lemma wf_add s t b name :
  wf s -> inited s = true -> Some name ∉ trk_name <$> tracking s -> b ∉ bases s ->
  trk_name t = Some name -> ev_base_of t = Some b -> block_set t = true ->
  wf (s <| bases := {[b]} ∪ bases s |> <| tracking := tracking s ++ [t] |>).
Proof.
  intros [Hall Hn Hb Hi] Hin Hname Hfresh En Eb Ebl. split; simpl.
  - apply Forall_app. split.
    + eapply Forall_impl; [exact Hall|]. intros t0 [? (b0 & ? & ?) ?]. split; [done| |done].
      exists b0. split; [done|]. simpl. set_solver.
    + apply Forall_singleton. split; [by rewrite En| |done]. exists b. simpl. set_solver.
  - rewrite fmap_app. apply NoDup_app. split_and!; [done| |apply NoDup_singleton].
    intros x Hx Hx'. csimpl in Hx'. rewrite En in Hx'. set_solver.
  - rewrite fmap_app. apply NoDup_app. split_and!; [done| |apply NoDup_singleton].
    intros x Hx Hx'. csimpl in Hx'. rewrite Eb in Hx'. apply list_elem_of_singleton in Hx' as ->.
    apply list_elem_of_fmap in Hx as (t0 & Ht0 & Hin0). rewrite Forall_forall in Hall.
    destruct (Hall t0 Hin0) as [_ (b0 & Hb0 & ?) _]. congruence.
  - congruence.
Qed.

Lemma wf_more_bases s b o :
  wf s -> b ∉ bases s -> wf (s <| bases := ({[b]} ∪ bases s) ∖ {[b]} |> <| orphans := o |>).
Proof.
  intros [Hall Hn Hb Hi] Hfresh. split; simpl; try done. eapply Forall_impl; [exact Hall|].
  intros t [? (b0 & ? & ?) ?]. split; [done| |done]. exists b0. split; [done|]. simpl. set_solver.
Qed.

Lemma cpu_ranges_ok ranges set :
  if forallb range_ok ranges then exists set', cpu_ranges ranges set = Done set'
  else exists f, cpu_ranges ranges set = Fault f.
Proof.
  revert set; induction ranges as [|r ranges IH]; intros set; [by eexists|].
  cbn [forallb cpu_ranges]. unfold range_ok at 1, cpu_range.
  destruct (strtoul r) as [start [|c dash]]; cbn; [by eexists|].
  destruct (strtoul dash) as [stop rest]. cbn. apply IH.
Qed.

Lemma start_engine_defined e t :
  ev_active t = false ->
  if cpus_ok then exists r, start_progress_engine g e t = Done r
  else exists f, start_progress_engine g e t = Fault f.
Proof.
  intros Ha. unfold start_progress_engine, cpus_ok. rewrite Ha.
  destruct (progress_thread_cpus g) as [cpus|]; simpl; [|destruct (have_setaffinity g); by eexists].
  destruct (have_setaffinity g); simpl; [|by eexists].
  destruct (argv_split cpus comma) as [ranges|]; [|by eexists].
  pose proof (cpu_ranges_ok ranges ∅) as Hr. destruct (forallb range_ok ranges).
  - destruct Hr as [set ->]. simpl. destruct (_ && _); by eexists.
  - destruct Hr as [f ->]. by exists f.
Qed.

Lemma start_engine_identity e t rc t' :
  start_progress_engine g e t = Done (rc, t') ->
  trk_name t' = trk_name t /\ ev_base_of t' = ev_base_of t /\ block_set t' = block_set t /\
  refcount t' = refcount t /\ ev_active t' = true /\
  engine_running t' = (e_thread_start e =? DSCHED_SUCCESS).
Proof.
  unfold start_progress_engine. destruct (ev_active t); [done|].
  destruct (have_setaffinity g); [|intros E; by simplify_eq/=].
  destruct (progress_thread_cpus g) as [cpus|]; [|intros E; by simplify_eq/=].
  destruct (argv_split cpus comma) as [ranges|]; [|done].
  destruct (cpu_ranges ranges ∅) as [set|]; [|done]. simpl.
  destruct (_ && _); intros E; by simplify_eq/=.
Qed.

(** The trackers after a pause: the same, but stopped. *)
Definition same_tracker (t t' : dsched_progress_tracker_t) : Prop :=
  trk_name t' = trk_name t /\ ev_base_of t' = ev_base_of t /\
  block_set t' = block_set t /\ refcount t' = refcount t.

Lemma same_tracker_refl l : Forall2 same_tracker l l.
Proof. induction l; constructor; by unfold same_tracker. Qed.

Lemma stop_spec t :
  if stoppable t then exists t', (if ev_active t then stop_progress_engine t else Done t) = Done t' /\
    same_tracker t t' /\ ev_active t' = false
  else exists f, (if ev_active t then stop_progress_engine t else Done t) = Fault f.
Proof.
  unfold stoppable, stop_progress_engine, same_tracker.
  destruct (ev_active t) eqn:Ea, (engine_running t); simpl; by eexists.
Qed.

Lemma pause_all_spec l :
  Forall (fun t => is_Some (trk_name t)) l ->
  if forallb stoppable l then exists l', pause_loop None l = Done l' /\ Forall2 same_tracker l l' /\
    Forall (fun t' => ev_active t' = false) l'
  else exists f, pause_loop None l = Fault f.
Proof.
  induction l as [|t l IH]; intros Hall; [exists []; split_and!; [done|constructor..]|].
  apply Forall_cons in Hall as [_ Hall]. specialize (IH Hall). pose proof (stop_spec t) as Ht. simpl.
  destruct (stoppable t); simpl; [|destruct Ht as [f ->]; by exists f].
  destruct Ht as (t' & -> & Hs & Ha). simpl. destruct (forallb stoppable l).
  - destruct IH as (l' & -> & H2 & Hf). exists (t' :: l'). split_and!; [done|by constructor..].
  - destruct IH as [f ->]. by exists f.
Qed.

Lemma pause_one_spec n l :
  Forall (fun t => is_Some (trk_name t)) l ->
  match List.find (named n) l with
  | Some t =>
      if stoppable t then exists l1 t' l2, l = l1 ++ t :: l2 /\
        pause_loop (Some n) l = Done (l1 ++ t' :: l2) /\ same_tracker t t' /\ ev_active t' = false
      else exists f, pause_loop (Some n) l = Fault f
  | None => pause_loop (Some n) l = Done l
  end.
Proof.
  induction l as [|t l IH]; intros Hall; [done|].
  apply Forall_cons in Hall as [[m Hm] Hall]. specialize (IH Hall). simpl.
  unfold named at 1. rewrite Hm. simpl. destruct (String.eqb_spec n m) as [->|Hne].
  - rewrite bool_decide_true by done. pose proof (stop_spec t) as Ht.
    destruct (stoppable t); [|destruct Ht as [f ->]; by exists f].
    destruct Ht as (t' & -> & Hs & Ha). exists [], t', l. by split_and!.
  - rewrite bool_decide_false by congruence. destruct (List.find (named n) l) as [t0|].
    + destruct (stoppable t0); [|destruct IH as [f ->]; by exists f].
      destruct IH as (l1 & t' & l2 & El & E & Hs). rewrite E. exists (t :: l1), t', l2.
      split; [by rewrite El|]. by split.
    + by rewrite IH.
Qed.

Lemma wf_same s l' :
  wf s -> Forall2 same_tracker (tracking s) l' ->
  wf (s <| tracking := l' |>).
Proof.
  intros [Hall Hn Hb Hi] H2.
  assert (trk_name <$> l' = trk_name <$> tracking s /\
    ev_base_of <$> l' = ev_base_of <$> tracking s) as [En Eb].
  { clear -H2. induction H2 as [|t t' l l' (E1 & E2 & _) _ [IH1 IH2]]; [done|]. csimpl.
    by rewrite E1, E2, IH1, IH2. }
  split; simpl; rewrite ?En, ?Eb; try done.
  - clear -Hall H2. induction H2 as [|t t' l l' (En & Eb & Ebl & _) _ IH]; [constructor|].
    apply Forall_cons in Hall as [[? ? ?] Hall]. constructor; [|by apply IH].
    split; [by rewrite En|by rewrite Eb|congruence].
  - intros Hf. rewrite (Hi Hf) in H2. by apply Forall2_nil_inv_l in H2.
Qed.

Lemma names_some s : wf s -> Forall (fun t => is_Some (trk_name t)) (tracking s).
Proof. intros [Hall _ _ _]. eapply Forall_impl; [exact Hall|]. by intros t [? _ _]. Qed.

(** ** Theorems *)

Lemma init_keeps_wf e name s :
  wf s -> fresh_base (C_init e name) s ->
  if survives (C_init e name) s then exists s', perform (C_init e name) s = Done s' /\ wf s'
  else exists f, perform (C_init e name) s = Fault f.
Proof.
  intros Hwf Hf. simpl. unfold dsched_progress_thread_init, tracker_of.
  set (s0 := if inited s then s else s <| inited := true |> <| tracking := [] |>).
  assert (wf s0 /\ inited s0 = true /\ bases s0 = bases s /\
    tracking s0 = if inited s then tracking s else []) as (Hwf0 & Hi0 & Hb0 & Ht0).
  { unfold s0. destruct (inited s) eqn:Ei; [done|]. split; [|done]. by split; constructor. }
  replace (if inited s then List.find (named (default_name name)) (tracking s) else None)
    with (List.find (named (default_name name)) (tracking s0)) by (rewrite Ht0; by destruct (inited s)).
  pose proof (wf_find s0 (default_name name) Hwf0) as Hfind.
  destruct (List.find _ _) as [t|].
  { destruct Hfind as (l1 & l2 & -> & E & _). simpl. eexists. split; [done|]. by eapply wf_replace. }
  destruct Hfind as [-> Hni]. simpl.
  destruct (e_new_ok e); simpl; [|by exists s0]. destruct (e_strdup_ok e); simpl; [|by eexists].
  destruct (e_base e) as [b|] eqn:Eb; simpl; [|by eexists].
  match goal with |- context [start_progress_engine g e ?t] => set (t0 := t) end.
  pose proof (start_engine_defined e t0 eq_refl) as Hs. destruct cpus_ok; simpl.
  2: { destruct Hs as [f Hs]. exists f. by rewrite Hs. }
  destruct Hs as [[rc t] Hs]. destruct (start_engine_identity _ _ _ _ Hs) as (En & Eb' & Ebl & _).
  simpl in En, Eb', Ebl. rewrite Hs. simpl.
  match goal with |- context [rc =? ?x] => destruct (rc =? x) end.
  - eexists. split; [done|]. eapply (wf_add s0); try done. rewrite Hb0. by apply Hf.
  - unfold tracker_destructor. rewrite Ebl, Eb'. eexists. split; [done|].
    apply (wf_more_bases s0); [done|]. rewrite Hb0. by apply Hf.
Qed.

Lemma resume_keeps_wf e name s :
  wf s ->
  if survives (C_resume e name) s then exists s', perform (C_resume e name) s = Done s' /\ wf s'
  else exists f, perform (C_resume e name) s = Fault f.
Proof.
  intros Hwf. simpl. unfold dsched_progress_thread_resume, tracker_of.
  destruct (inited s); simpl; [|by exists s].
  pose proof (wf_find s (default_name name) Hwf) as Hfind.
  destruct (List.find _ _) as [t|]; [|destruct Hfind as [-> _]; by exists s].
  destruct Hfind as (l1 & l2 & -> & E & _). simpl.
  destruct (ev_active t) eqn:Ea; simpl; [by exists s|].
  pose proof (start_engine_defined e t Ea) as Hs. destruct cpus_ok.
  - destruct Hs as [[rc t'] Hs]. destruct (start_engine_identity _ _ _ _ Hs) as (En & Eb & Ebl & _).
    rewrite Hs. eexists. split; [done|]. by eapply wf_replace.
  - destruct Hs as [f ->]. by exists f.
Qed.

(** C21: A call on the progress threads keeps the table well formed: names are unique,
    and every thread has an event base of its own that has not been freed. This is so whatever the system answers (an event base it makes is a new one), as long as the
    call is defined at all, and [survives] says exactly when it is; otherwise it faults: not when, for a new thread, the name cannot be copied or no
    event base be made, when the processor list cannot be read, or when a thread is to
    be stopped that was never started. *)
Theorem thread_calls_keep_wf c s :
  wf s -> fresh_base c s ->
  if survives c s then exists s', perform c s = Done s' /\ wf s' else exists f, perform c s = Fault f.
Proof.
  intros Hwf Hf. destruct c as [e name|name|name|e name].
  - by apply init_keeps_wf.
  - simpl. unfold dsched_progress_thread_finalize, tracker_of. destruct (inited s); simpl; [|by exists s].
    pose proof (wf_find s (default_name name) Hwf) as Hfind.
    destruct (List.find _ _) as [t|]; [|destruct Hfind as [-> _]; by exists s].
    destruct Hfind as (l1 & l2 & -> & E & _ & [_ (b & Eb & _) Ebl]). simpl.
    pose proof (stop_spec t) as Ht. destruct (stoppable t); [|destruct Ht as [f ->]; by exists f].
    destruct Ht as (t' & -> & (_ & Eb' & Ebl' & _) & _). simpl.
    unfold tracker_destructor. rewrite Ebl', Eb', Ebl, Eb. simpl. eexists. split; [done|]. by eapply (wf_remove s).
  - pose proof (names_some s Hwf) as Hn. simpl. unfold dsched_progress_thread_pause, tracker_of.
    destruct name as [n|]; (destruct (inited s); simpl; [|by exists s]).
    + pose proof (pause_one_spec n (tracking s) Hn) as Hp.
      destruct (List.find _ _) as [t|].
      2: { rewrite Hp. eexists. split; [done|]. apply wf_same; [done|apply same_tracker_refl]. }
      destruct (stoppable t); [|destruct Hp as [f ->]; by exists f].
      destruct Hp as (l1 & t' & l2 & E & -> & (?&?&?&?) & _). eexists. split; [done|]. by eapply wf_replace.
    + pose proof (pause_all_spec (tracking s) Hn) as Hp.
      destruct (forallb stoppable (tracking s)); [|destruct Hp as [f ->]; by exists f].
      destruct Hp as (l' & -> & H2 & _). eexists. split; [done|]. by apply wf_same.
  - by apply resume_keeps_wf.
Qed.

(** With unique names, the tracker found is the one in the table. *)
Lemma split_name_found s n t :
  wf s -> t ∈ tracking s -> trk_name t = Some n ->
  exists l1 l2, split_name n (tracking s) = Done (Some (l1, t, l2)) /\
    tracking s = l1 ++ t :: l2 /\ Some n ∉ trk_name <$> (l1 ++ l2) /\ tracker_ok (bases s) t.
Proof.
  intros Hwf Hin Hn.
  destruct (wf_split s n Hwf) as [[_ Hni]|(l1 & t' & l2 & E & El & Hn' & Hni & Hok)].
  { exfalso. apply Hni. rewrite <- Hn. by apply list_elem_of_fmap_2. }
  pose proof (wf_names s Hwf) as Hnd. rewrite El in Hin, Hnd.
  rewrite <- Permutation_middle in Hin, Hnd. rewrite fmap_cons in Hnd.
  apply NoDup_cons in Hnd as [Hfree _]. rewrite Hn' in Hfree.
  apply elem_of_cons in Hin as [->|Hin]; [by exists l1, l2|].
  exfalso. apply Hfree. rewrite <- Hn. by apply list_elem_of_fmap_2.
Qed.

(** Asking for a thread that exists shares it: the caller gets the event base of
    the running thread, its reference count goes up by one, and nothing else changes. *)
Theorem init_shares e name s t :
  wf s -> inited s = true -> t ∈ tracking s -> trk_name t = Some (default_name name) ->
  exists l1 l2, tracking s = l1 ++ t :: l2 /\
    dsched_progress_thread_init g e name s =
      Done (ev_base_of t, s <| tracking := l1 ++ t <| refcount := refcount t + 1 |> :: l2 |>).
Proof.
  intros Hwf Hi Hin Hn. destruct (split_name_found s _ t Hwf Hin Hn) as (l1 & l2 & E & El & _).
  exists l1, l2. split; [done|]. unfold dsched_progress_thread_init. by rewrite Hi, E.
Qed.

(** The first call to finalize a thread ends it, whatever its reference count:
    the tracker leaves the table and the event base is freed, under every other user
    of the thread, whose own call is then told that there is no such thread. *)
Theorem finalize_ignores_refcount name s t b :
  wf s -> inited s = true -> t ∈ tracking s -> trk_name t = Some (default_name name) ->
  ev_base_of t = Some b -> stoppable t = true ->
  exists s', dsched_progress_thread_finalize name s = Done (code_value DSCHED_SUCCESS, s') /\
    b ∉ bases s' /\
    dsched_progress_thread_finalize name s' = Done (code_value DSCHED_ERR_NOT_FOUND, s').
Proof.
  intros Hwf Hi Hin Hn Hb Hst.
  destruct (split_name_found s _ t Hwf Hin Hn) as (l1 & l2 & E & El & Hfree & [_ _ Hbl]).
  assert (exists t' o, (if ev_active t then stop_progress_engine t else Done t) = Done t' /\
    tracker_destructor t' (s <| tracking := l1 ++ l2 |>) =
      Done (s <| tracking := l1 ++ l2 |> <| bases := bases s ∖ {[b]} |> <| orphans := o |>))
    as (t' & o & Et & Ed).
  { pose proof (stop_spec t) as Ht. rewrite Hst in Ht. destruct Ht as (t' & Et & (_ & Eb & Ebl & _) & _).
    eexists t', _. split; [exact Et|]. unfold tracker_destructor. by rewrite Ebl, Eb, Hbl, Hb. }
  set (s' := s <| tracking := l1 ++ l2 |> <| bases := bases s ∖ {[b]} |> <| orphans := o |>).
  exists s'. split; [|split].
  - unfold dsched_progress_thread_finalize. rewrite Hi. simpl. rewrite E. simpl. rewrite Et. simpl.
    simpl in Ed. by rewrite Ed.
  - unfold s'. simpl. set_solver.
  - assert (wf s') as Hwf' by (by eapply wf_remove).
    unfold dsched_progress_thread_finalize, s'. simpl. rewrite Hi. simpl.
    destruct (wf_split s' (default_name name) Hwf') as [[E' _]|(k1 & t1 & k2 & _ & E' & Hn' & _)].
    + unfold s' in E'. simpl in E'. by rewrite E'.
    + exfalso. unfold s' in E'. simpl in E'. apply Hfree. rewrite E', <- Hn', fmap_app. set_solver.
Qed.

(** Pausing a thread that does not exist is a success that does nothing. *)
Theorem pause_unknown n s :
  wf s -> inited s = true -> Some n ∉ trk_name <$> tracking s ->
  dsched_progress_thread_pause (Some n) s = Done (code_value DSCHED_SUCCESS, s).
Proof.
  intros Hwf Hi Hn.
  pose proof (pause_one_spec n (tracking s) (names_some s Hwf)) as E.
  destruct (List.find (named n) (tracking s)) as [t|] eqn:Ef.
  { apply List.find_some in Ef as [Hin Ht%bool_decide_eq_true]. exfalso. apply Hn. rewrite <- Ht.
    apply list_elem_of_fmap_2. by apply list_elem_of_In. }
  unfold dsched_progress_thread_pause. rewrite Hi. simpl. rewrite E. simpl. by destruct s.
Qed.

(** What starting an engine reports. Without a processor list it is the status of
    the thread; with one it only depends on the binding, so that a thread that did
    not start is reported as a success, marked active and not running. *)
Theorem start_status e t rc t' :
  start_progress_engine g e t = Done (rc, t') ->
  ev_active t' = true /\ engine_running t' = (e_thread_start e =? DSCHED_SUCCESS) /\
  rc = match have_setaffinity g, progress_thread_cpus g with
       | true, Some _ =>
           if negb (e_setaffinity e =? 0) && bind_progress_thread_reqd g
           then code_value DSCHED_ERR_NOT_SUPPORTED else code_value DSCHED_SUCCESS
       | _, _ => e_thread_start e
       end.
Proof.
  intros Es. split_and!; [by eapply start_engine_identity..|]. revert Es.
  unfold start_progress_engine. destruct (ev_active t); [done|].
  destruct (have_setaffinity g); [|intros E; by simplify_eq/=].
  destruct (progress_thread_cpus g) as [cpus|]; [|intros E; by simplify_eq/=].
  destruct (argv_split cpus comma) as [ranges|]; [|done].
  destruct (cpu_ranges ranges ∅) as [set|]; [|done]. simpl.
  destruct (_ && _); intros E; by simplify_eq/=.
Qed.

(** When binding is required and fails, the thread has already started: the
    tracker is released and its event base freed while the engine still loops on
    them, and the caller gets no event base. *)
Theorem failed_binding_orphans e name s b cpus ranges cpuset :
  wf s -> inited s = true -> Some (default_name name) ∉ trk_name <$> tracking s ->
  e_new_ok e = true -> e_strdup_ok e = true -> e_base e = Some b ->
  e_thread_start e = code_value DSCHED_SUCCESS ->
  have_setaffinity g = true -> progress_thread_cpus g = Some cpus ->
  argv_split cpus comma = Some ranges -> cpu_ranges ranges ∅ = Done cpuset ->
  e_setaffinity e <> 0 -> bind_progress_thread_reqd g = true ->
  exists s', dsched_progress_thread_init g e name s = Done (None, s') /\
    tracking s' = tracking s /\ b ∉ bases s' /\ orphans s' = orphans s ++ [b].
Proof.
  intros Hwf Hi Hn H1 H2 Hb Hts Hh Hc Hr Hs Ha Hreq.
  destruct (wf_split s (default_name name) Hwf) as [[E _]|(l1 & t & l2 & _ & E & Et & _)].
  2: { exfalso. apply Hn. rewrite E, <- Et, fmap_app. set_solver. }
  eexists. split.
  - unfold dsched_progress_thread_init, start_progress_engine.
    rewrite Hi, E. simpl. rewrite H1, H2, Hb. simpl. rewrite Hh, Hc, Hr. simpl. rewrite Hs. simpl.
    rewrite Hreq. destruct (Z.eqb_spec (e_setaffinity e) 0); [done|]. simpl.
    unfold tracker_destructor. simpl. rewrite Hts. reflexivity.
  - simpl. split; [done|]. split; [set_solver|done].
Qed.
End Wf.

(** ** Examples *)

#[local] Existing Instance sample_pmix.

Definition sample_env (b : Z) : env := Env true true (Some b) 0 1.
Definition plain : config := Config true None false.
Definition binding : config := Config true (Some "0-3"%string) true.

Definition sample_threads : threads :=
  Threads true [Tracker 2 (Some "dmeta-pri"%string) (Some 1) true true true true] {[1]} [].

Lemma sample_threads_wf : wf sample_threads.
Proof.
  split; simpl.
  - apply Forall_singleton. split; [by eexists|exists 1; set_solver|done].
  - apply NoDup_singleton.
  - apply NoDup_singleton.
  - done.
Qed.

Lemma thread_calls_keep_wf_witness :
  exists s', perform plain (C_init (sample_env 2) (Some "dsched-fifo"%string)) sample_threads
    = Done s' /\ wf s'.
Proof.
  apply (thread_calls_keep_wf plain (C_init (sample_env 2) (Some "dsched-fifo"%string))
    sample_threads); [apply sample_threads_wf|].
  intros b [= <-]. simpl. set_solver.
Defined.

Lemma init_shares_witness :
  exists l1 l2, dsched_progress_thread_init plain (sample_env 2) (Some "dmeta-pri"%string)
    sample_threads = Done (Some 1, sample_threads <| tracking := l1 ++
      Tracker 3 (Some "dmeta-pri"%string) (Some 1) true true true true :: l2 |>).
Proof.
  destruct (init_shares plain (sample_env 2) (Some "dmeta-pri"%string) sample_threads
    (Tracker 2 (Some "dmeta-pri"%string) (Some 1) true true true true))
    as (l1 & l2 & _ & E); [apply sample_threads_wf|reflexivity|by left|reflexivity|].
  exists l1, l2. exact E.
Defined.

Lemma finalize_ignores_refcount_witness :
  exists s', dsched_progress_thread_finalize (Some "dmeta-pri"%string) sample_threads
    = Done (0, s') /\ 1 ∉ bases s'.
Proof.
  destruct (finalize_ignores_refcount (Some "dmeta-pri"%string) sample_threads
    (Tracker 2 (Some "dmeta-pri"%string) (Some 1) true true true true) 1)
    as (s' & E & Hb & _); [apply sample_threads_wf|reflexivity|by left|reflexivity..|].
  exists s'. split; [exact E|exact Hb].
Defined.

Lemma pause_unknown_witness :
  dsched_progress_thread_pause (Some "none"%string) sample_threads = Done (0, sample_threads).
Proof.
  apply (pause_unknown "none" sample_threads); [apply sample_threads_wf|reflexivity|].
  simpl. set_solver.
Defined.

Lemma start_status_witness :
  let e := Env true true (Some 2) (-1) 1 in
  exists t', start_progress_engine (Config true (Some "0-3"%string) false) e tracker_constructor
    = Done (0, t') /\ engine_running t' = false.
Proof.
  intros e.
  destruct (start_progress_engine (Config true (Some "0-3"%string) false) e tracker_constructor)
    as [[rc t']|f] eqn:E; [|vm_compute in E; discriminate].
  destruct (start_status _ _ _ _ _ E) as (_ & Hr & Hc). exists t'. by rewrite Hr, Hc.
Defined.

Lemma failed_binding_orphans_witness :
  exists s', dsched_progress_thread_init binding (sample_env 2) (Some "dsched-fifo"%string)
    sample_threads = Done (None, s') /\ orphans s' = [2].
Proof.
  destruct (failed_binding_orphans binding (sample_env 2) (Some "dsched-fifo"%string)
    sample_threads 2 "0-3" ["0-3"%string] {[0; 1; 2]}) as (s' & E & _ & _ & Ho);
    try reflexivity; try done; [apply sample_threads_wf|simpl; set_solver|].
  exists s'. split; [exact E|exact Ho].
Defined.
