(* ===== verification/Engine.v ===== *)
(** The body of a progress thread: [progress_engine], [dummy_timeout_cb] and
    [stop_progress_engine] of src/runtime/dsched_progress_threads.c, with the thread
    that calls pause, resume and finalize, the threads that post events, and the timer,
    all running at once.

    Progress models the calls as if a stop took no time. Here a stop is what the code
    does, statement by statement, against an engine that may be at any point of its
    loop; the theorems show that the engine always leaves its loop, that no two engines
    ever share an event base, that no event is lost, doubled or overtaken, and that
    the calls see the stop Progress models. A start may fail, and its failure be reported
    or masked by the binding of the thread ([launch]): the theorems say what then
    becomes of the base and of a stop. *)

From S2P Require Import Prelude Pmix Constants Progress.

(** ** The event library

    An event base, as libevent documents it. The active events are those whose
    callbacks are to run, in this order. The argument of [event_base_loop] says
    whether a callback has run since the call with EVLOOP_ONCE began: the call blocks
    until there is an active event, and is over when all of them have had their
    callbacks run. With no event at all, pending or active, it does not block. *)

Inductive item (E : Type) := I_event (e : E) | I_block | I_loopexit.
Arguments I_event {E}. Arguments I_block {E}. Arguments I_loopexit {E}.

Inductive loop_step (E B : Type) := Calls (it : item E) (b : B) | Returns (b : B) | Blocks.
Arguments Calls {E B}. Arguments Returns {E B}. Arguments Blocks {E B}.

Class LibEvent (E : Type) := {
  evb : Type;
  evb_active : evb -> list (item E);
  evb_pending : evb -> bool;      (** whether the event [block] is *)
  event_base_new : evb;
  event_active : E -> evb -> evb;
  event_add_block : evb -> evb;
  block_expires : evb -> evb;     (** the hour of [long_timeout] has passed *)
  event_base_loopexit : evb -> evb;
  event_base_loop : bool -> evb -> loop_step E evb;

  new_active : evb_active event_base_new = [];
  active_active e b : evb_active (event_active e b) = evb_active b ++ [I_event e];
  active_pending e b : evb_pending (event_active e b) = evb_pending b;
  add_active b : evb_active (event_add_block b) = evb_active b;
  add_pending b : evb_pending (event_add_block b) = true;
  expires_active b : evb_active (block_expires b) = evb_active b ++ [I_block];
  expires_pending b : evb_pending (block_expires b) = evb_pending b;   (** EV_PERSIST *)
  loopexit_active b : evb_active (event_base_loopexit b) = evb_active b ++ [I_loopexit];
  loopexit_pending b : evb_pending (event_base_loopexit b) = evb_pending b;
  loop_calls ran b it l : evb_active b = it :: l ->
    exists b', event_base_loop ran b = Calls it b' /\ evb_active b' = l /\
      evb_pending b' = evb_pending b;
  loop_returns b : evb_active b = [] -> event_base_loop true b = Returns b;
  loop_blocks b : evb_active b = [] -> evb_pending b = true -> event_base_loop false b = Blocks;
  loop_empty b : evb_active b = [] -> evb_pending b = false -> event_base_loop false b = Returns b
}.

(** ** Starting a thread

    What a start meets: whether the thread starts, whether there is a processor list to
    bind it to, whether the binding works, and whether it has to. *)
Record launch := Launch { starts : bool; listed : bool; binds : bool; required : bool }.

(** Whether [start_progress_engine] returns a success: with a processor list that is
    only a matter of the binding. *)
Definition reported (l : launch) : bool :=
  if listed l then binds l || negb (required l) else starts l.

(** The same as Progress has it. *)
Definition launch_of (g : config) (e : env) : launch :=
  Launch (e_thread_start e =? DSCHED_SUCCESS)
    (have_setaffinity g && bool_decide (is_Some (progress_thread_cpus g)))
    (e_setaffinity e =? 0) (bind_progress_thread_reqd g).

Section Engine.
Context {E : Type} `{LibEvent E}.

(** ** The state

    Where an engine is: at the test of [while (trk->ev_active)], in the call of
    [dsched_event_loop], in a callback, or at its end. *)
Inductive pc := At_while | In_loop (ran : bool) | In_callback (it : item E) | Cancelled.

(** Where the caller of pause, resume and finalize is: in none, or in the stop of an
    engine, before [dsched_event_base_loopexit] or in [pmix_thread_join]. [freeing]
    says whether the tracker is released after the stop. *)
Inductive caller := Idle | Loopexit (freeing : bool) | Join (freeing : bool).

(** [t_base] is [None] once the base was freed; [t_engines] are the threads that were
    started and not joined; [t_ran] are the events whose callbacks were called. *)
Record tracker := Trk {
  t_active : bool;
  t_base : option evb;
  t_engines : list pc;
  t_caller : caller;
  t_ran : list E
}.
#[local] Instance eta_trk : Eta tracker := fun t =>
  Trk (t_active t) (t_base t) (t_engines t) (t_caller t) (t_ran t).

(** Using a base that was freed. *)
Definition with_base (f : evb -> evb) (t : tracker) : outcome tracker :=
  match t_base t with
  | Some b => Done (t <| t_base := Some (f b) |>)
  | None => Fault UseAfterFree
  end.

(** ** The engine *)

Definition dummy_timeout_cb : tracker -> outcome tracker := with_base event_add_block.

(** The callback of an active event. That of an exit only concerns the library. *)
Definition callback (it : item E) (t : tracker) : outcome tracker :=
  match it with
  | I_event e => Done (t <| t_ran := t_ran t ++ [e] |>)
  | I_block => dummy_timeout_cb t
  | I_loopexit => Done t
  end.

(** The next step of an engine; [None] when it is blocked, or has ended. *)
Definition progress_engine (p : pc) (t : tracker) : option (outcome (pc * tracker)) :=
  match p with
  | At_while => Some (Done (if t_active t then In_loop false else Cancelled, t))
  | In_loop ran =>
      match t_base t with
      | None => Some (Fault UseAfterFree)
      | Some b =>
          match event_base_loop ran b with
          | Calls it b => Some (Done (In_callback it, t <| t_base := Some b |>))
          | Returns b => Some (Done (At_while, t <| t_base := Some b |>))
          | Blocks => None
          end
      end
  | In_callback it => Some (t ← callback it t; Done (In_loop true, t))
  | Cancelled => None
  end.

(** ** The caller *)

(** [stop_progress_engine], statement by statement. *)
Definition stop_clear (freeing : bool) (t : tracker) : outcome tracker :=
  if t_active t then Done (t <| t_active := false |> <| t_caller := Loopexit freeing |>)
  else Fault AssertFailed.

Definition stop_loopexit (freeing : bool) (t : tracker) : outcome tracker :=
  t ← with_base event_base_loopexit t; Done (t <| t_caller := Join freeing |>).

(** [tracker_destructor], as far as the base is concerned. *)
Definition free_base (t : tracker) : tracker := t <| t_base := None |>.

(** The join waits for the thread started last; [None] while it runs. When none was,
    there is no thread to join. *)
Definition stop_join (freeing : bool) (t : tracker) : option (outcome tracker) :=
  match reverse (t_engines t) with
  | [] => Some (Fault Uninitialised)
  | Cancelled :: ps =>
      let t := t <| t_engines := reverse ps |> <| t_caller := Idle |> in
      Some (Done (if freeing then free_base t else t))
  | _ => None
  end.

(** [start_progress_engine]: the tracker is active, whether or not its thread could be
    started. *)
Definition start_engine (l : launch) (t : tracker) : outcome tracker :=
  if t_active t then Fault AssertFailed
  else Done (t <| t_active := true |>
               <| t_engines := t_engines t ++ if starts l then [At_while] else [] |>).

(** [dsched_progress_thread_init] from the base on, which holds the event that keeps it
    from being empty. When the start is reported as a failure the tracker is released. *)
Definition thread_init (l : launch) : outcome tracker :=
  t ← start_engine l (Trk false (Some (event_add_block event_base_new)) [] Idle []);
  Done (if reported l then t else free_base t).

(** ** Runs

    What happens, by whom. An API call that finds nothing to do has no step, and a
    tracker that was released is found no more; posting to a base that was freed is an
    error of the one who posts. *)

Inductive label :=
| L_engine (i : nat) | L_caller | L_resume (l : launch) | L_post (e : E) | L_expires.

Inductive step : tracker -> label -> outcome tracker -> Prop :=
| s_engine t i p r :
    t_engines t !! i = Some p -> progress_engine p t = Some r ->
    step t (L_engine i)
      ('(p, t) ← r; Done (t <| t_engines := <[i := p]> (t_engines t) |>))
| s_pause t : t_caller t = Idle -> t_base t <> None -> t_active t = true ->
    step t L_caller (stop_clear false t)
| s_finalize t : t_caller t = Idle -> t_base t <> None ->
    step t L_caller (if t_active t then stop_clear true t else Done (free_base t))
| s_resume t l : t_caller t = Idle -> t_base t <> None -> t_active t = false ->
    step t (L_resume l) (start_engine l t)
| s_loopexit t f : t_caller t = Loopexit f -> step t L_caller (stop_loopexit f t)
| s_join t f r : t_caller t = Join f -> stop_join f t = Some r -> step t L_caller r
| s_post t e : t_base t <> None -> step t (L_post e) (with_base (event_active e) t)
| s_expires t : t_base t <> None -> step t L_expires (with_base block_expires t).

(** [runs t ls t']: the steps [ls] lead from [t] to [t']. *)
Inductive runs (t : tracker) : list label -> tracker -> Prop :=
| runs_nil : runs t [] t
| runs_snoc ls t1 l t2 : runs t ls t1 -> step t1 l (Done t2) -> runs t (ls ++ [l]) t2.

(** Every start of a thread in a run succeeds. *)
Definition launched (l : label) : Prop := match l with L_resume l => starts l = true | _ => True end.

Definition posted : list label -> list E :=
  omap (fun l => match l with L_post e => Some e | _ => None end).

(** ** The invariant *)

(** The engine, if there is one, against its caller: while the thread is stopped it
    cannot block. *)
Definition coupled (t : tracker) : Prop :=
  match t_caller t with
  | Idle =>
      if t_active t then t_base t <> None /\
        (t_engines t = [] \/ exists p, t_engines t = [p] /\ p <> Cancelled)
      else t_engines t = []
  | Loopexit _ => t_active t = false /\ t_base t <> None /\
      (t_engines t = [] \/ exists p, t_engines t = [p])
  | Join _ => t_active t = false /\ exists b, t_base t = Some b /\
      (t_engines t = [] \/
       exists p, t_engines t = [p] /\ (p = In_loop false -> I_loopexit ∈ evb_active b))
  end.

Definition events_of : list (item E) -> list E :=
  omap (fun it => match it with I_event e => Some e | _ => None end).

Definition in_hand (p : pc) : list E := match p with In_callback it => events_of [it] | _ => [] end.

(** The events posted are those whose callbacks were called, then the one in the hands
    of the engine, then the active ones. *)
Definition accounted (ps : list E) (t : tracker) : Prop :=
  match t_base t with
  | Some b => ps = t_ran t ++ (t_engines t ≫= in_hand) ++ events_of (evb_active b)
  | None => t_ran t `prefix_of` ps /\ t_engines t = []
  end.

Record inv (ps : list E) (t : tracker) : Prop := {
  inv_coupled : coupled t;
  inv_accounted : accounted ps t;
  inv_pending : forall b, t_base t = Some b -> evb_pending b = true
}.

Lemma inv_initial l t : reported l = true -> thread_init l = Done t -> inv [] t.
Proof.
  unfold thread_init. simpl. intros ->. intros [= <-]. split.
  - split; [done|]. simpl. destruct (starts l); [right; by exists At_while|by left].
  - unfold accounted. simpl. rewrite add_active, new_active. by destruct (starts l).
  - intros b [= <-]. apply add_pending.
Qed.

Lemma inv_engine ps t :
  inv ps t -> t_engines t = [] \/ exists p, t_engines t = [p] /\
    exists b, t_base t = Some b /\ evb_pending b = true /\
      ps = t_ran t ++ in_hand p ++ events_of (evb_active b).
Proof.
  intros [Hc Ha Hp].
  assert (t_engines t = [] \/ exists p, t_engines t = [p] /\ t_base t <> None) as [He|(p & He & Hb)].
  { unfold coupled in Hc. destruct (t_caller t).
    - destruct (t_active t); naive_solver.
    - naive_solver.
    - destruct Hc as (_ & b & Hb & [?|(p & ? & _)]); [by left|]. right. exists p. by rewrite Hb. }
  - by left.
  - right. exists p. split; [done|]. destruct (t_base t) as [b|] eqn:Eb; [|done].
    exists b. split; [done|]. split; [by apply Hp|]. unfold accounted in Ha.
    rewrite Eb, He in Ha. cbn in Ha. by rewrite app_nil_r in Ha.
Qed.

(** Nothing changes for the caller when an engine runs. *)
Lemma engine_frame p t p' t' :
  progress_engine p t = Some (Done (p', t')) ->
  t_active t' = t_active t /\ t_caller t' = t_caller t /\ t_engines t' = t_engines t.
Proof.
  destruct p as [|ran|it|]; simpl; [by intros [= <- <-]| | |done].
  - destruct (t_base t) as [b|]; [|done]. destruct (event_base_loop ran b); by intros [= <- <-].
  - destruct it; simpl; [by intros [= <- <-]| |by intros [= <- <-]].
    unfold dummy_timeout_cb, with_base. destruct (t_base t); [|done]. by intros [= <- <-].
Qed.

(** How many more steps an engine takes that was told to stop. *)
Definition work (p : pc) (b : evb) : nat :=
  match p with
  | At_while => 1
  | In_loop _ => 2 * length (evb_active b) + 2
  | In_callback _ => 2 * length (evb_active b) + 3
  | Cancelled => 0
  end.

Lemma events_of_cons it l : events_of (it :: l) = events_of [it] ++ events_of l.
Proof. by destruct it. Qed.

(** A step of an engine on a base that has its event: it does not fault, it takes the
    active events in their order, and it goes down once the engine was told to stop. *)
Lemma engine_moves t p b r :
  t_base t = Some b -> evb_pending b = true -> progress_engine p t = Some r ->
  exists p' t' b', r = Done (p', t') /\ t_base t' = Some b' /\ evb_pending b' = true /\
    t_ran t' ++ in_hand p' ++ events_of (evb_active b') =
      t_ran t ++ in_hand p ++ events_of (evb_active b) /\
    (t_active t = true -> p' <> Cancelled) /\
    (t_active t = false -> p' <> In_loop false /\ (work p' b' < work p b)%nat).
Proof.
  intros Hb Hp. destruct p as [|ran|it|]; simpl; [| | |done].
  - intros [= <-]. eexists _, t, b. split; [done|].
    by destruct (t_active t); simpl; split_and!; try done; auto with lia.
  - rewrite Hb. destruct (evb_active b) as [|it l] eqn:Eq.
    + destruct ran; [rewrite loop_returns by done|by rewrite loop_blocks].
      intros [= <-]. eexists At_while, _, b. split; [done|]. simpl. rewrite Eq. split_and!; auto with lia.
    + destruct (loop_calls ran b it l Eq) as (b' & -> & El & Ep). intros [= <-].
      eexists (In_callback it), _, b'. split; [done|]. rewrite (events_of_cons it l). simpl.
      rewrite El, Ep. split_and!; auto; intros; split; (done || lia).
  - destruct it as [e| |]; simpl.
    + intros [= <-]. eexists (In_loop true), _, b. split; [done|]. simpl.
      rewrite <- app_assoc. split_and!; auto; intros; split; (done || lia).
    + unfold dummy_timeout_cb, with_base. rewrite Hb. intros [= <-].
      eexists (In_loop true), _, _. split; [done|]. simpl. rewrite add_active.
      split_and!; auto using add_pending; intros; split; (done || lia).
    + intros [= <-]. eexists (In_loop true), t, b. split; [done|]. simpl.
      split_and!; auto; intros; split; (done || lia).
Qed.

Lemma events_of_app l1 l2 : events_of (l1 ++ l2) = events_of l1 ++ events_of l2.
Proof. apply omap_app. Qed.

(** A change of the base that adds events [l] at the end of the active ones. *)
Lemma inv_grow ps qs t b f l :
  inv ps t -> t_base t = Some b -> evb_active (f b) = evb_active b ++ l ->
  evb_pending (f b) = evb_pending b -> events_of l = qs ->
  with_base f t = Done (t <| t_base := Some (f b) |>) /\ inv (ps ++ qs) (t <| t_base := Some (f b) |>).
Proof.
  intros [Hc Ha Hp] Hb El Ep Hq. unfold with_base. rewrite Hb. split; [done|]. split.
  - unfold coupled in *. simpl. destruct (t_caller t); [destruct (t_active t); naive_solver|naive_solver|].
    destruct Hc as (Hact & b' & Hb' & He). split; [done|]. exists (f b). split; [done|].
    destruct He as [?|(p & He & Hx)]; [by left|]. right. exists p. split; [done|].
    intros Hin. rewrite El. apply elem_of_app. left. rewrite Hb in Hb'. injection Hb' as <-. by apply Hx.
  - unfold accounted in *. rewrite Hb in Ha. simpl. rewrite Ha, El, events_of_app, Hq.
    by rewrite !app_assoc.
  - intros b'. simpl. intros [= <-]. rewrite Ep. by apply Hp.
Qed.

(** Once the only engine is gone, the base can be freed. *)
Lemma inv_idle ps t b :
  t_base t = Some b -> evb_pending b = true -> t_engines t = [] -> t_active t = false ->
  t_caller t = Idle -> ps = t_ran t ++ events_of (evb_active b) ->
  inv ps t /\ inv ps (free_base t).
Proof.
  intros Hb Hp He Ha Hc ->. split; (split; [unfold coupled; simpl; by rewrite Hc, Ha| |]).
  - unfold accounted. by rewrite Hb, He.
  - intros b'. rewrite Hb. by intros [= <-].
  - unfold accounted. simpl. split; [by apply prefix_app_r|done].
  - done.
Qed.

Lemma inv_engine_step ps t i p r :
  inv ps t -> t_engines t !! i = Some p -> progress_engine p t = Some r ->
  exists p' t', r = Done (p', t') /\ inv ps (t' <| t_engines := <[i := p']> (t_engines t') |>).
Proof.
  intros Hinv Hi Hr. destruct (inv_engine _ _ Hinv) as [He|(p0 & He & b & Hb & Hp & Hps)];
    [by rewrite He in Hi|].
  rewrite He in Hi. destruct i as [|i]; [|by destruct i]. injection Hi as <-.
  destruct (engine_moves t p0 b r Hb Hp Hr) as (p' & t' & b' & -> & Hb' & Hp' & Hacc & Hon & Hoff).
  exists p', t'. split; [done|]. destruct (engine_frame _ _ _ _ Hr) as (Ea & Ec & Ee).
  destruct Hinv as [Hc _ _]. split.
  - unfold coupled in *. simpl. rewrite Ea, Ec, Ee, He. simpl. destruct (t_caller t).
    + destruct (t_active t); [|by rewrite He in Hc]. rewrite Hb'. split; [done|]. right. exists p'. auto.
    + destruct Hc as [Hact _]. split; [done|]. rewrite Hb'. split; [done|]. right. by exists p'.
    + destruct Hc as [Hact _]. split; [done|]. exists b'. split; [done|]. right. exists p'.
      split; [done|]. intros ->. by destruct (Hoff Hact).
  - unfold accounted. simpl. rewrite Hb', Ee, He. simpl. by rewrite app_nil_r, Hacc.
  - simpl. rewrite Hb'. by intros b0 [= <-].
Qed.

Definition posts (l : label) : list E := match l with L_post e => [e] | _ => [] end.

Lemma posted_snoc ls l : posted (ls ++ [l]) = posted ls ++ posts l.
Proof. unfold posted. rewrite omap_app. by destruct l. Qed.

(** The only step that is not defined. *)
Definition joins_nothing (t : tracker) (l : label) (o : outcome tracker) : Prop :=
  o = Fault Uninitialised /\ l = L_caller /\ t_engines t = [] /\ exists f, t_caller t = Join f.

(** No other step faults, and every step keeps the invariant. *)
Lemma step_inv_kept ps t l o : inv ps t -> step t l o ->
  (exists t', o = Done t' /\ inv (ps ++ posts l) t') \/ joins_nothing t l o.
Proof.
  intros Hinv Hs. pose proof Hinv as [Hc Ha Hp].
  destruct Hs as [t i p r Hi Hr|t Hidle Hbase Hact|t Hidle Hbase|t l Hidle Hbase Hact|t f Hf|t f r Hf Hj
                 |t e Hbase|t Hbase]; unfold posts; rewrite ?app_nil_r.
  - left. destruct (inv_engine_step ps t i p r Hinv Hi Hr) as (p' & t' & -> & Hinv'). by eexists.
  - left. unfold stop_clear. rewrite Hact. eexists. split; [done|]. split; [|done|done].
    unfold coupled in *. simpl. rewrite Hidle, Hact in Hc. naive_solver.
  - left. unfold stop_clear. destruct (t_active t) eqn:Hact.
    + eexists. split; [done|]. split; [|done|done].
      unfold coupled in *. simpl. rewrite Hidle, Hact in Hc. naive_solver.
    + eexists. split; [done|]. destruct (t_base t) as [b|] eqn:Hb; [|done].
      unfold coupled in Hc. rewrite Hidle, Hact in Hc.
      eapply inv_idle; [done|by apply Hp|done..|]. unfold accounted in Ha. by rewrite Hb, Hc in Ha.
  - left. unfold start_engine. rewrite Hact. eexists. split; [done|].
    unfold coupled in Hc. rewrite Hidle, Hact in Hc. split; [|simpl|done].
    + unfold coupled. simpl. rewrite Hidle, Hc. split; [done|].
      destruct (starts l); [right; by exists At_while|by left].
    + unfold accounted in *. simpl. destruct (t_base t); [|done]. rewrite Hc in *. by destruct (starts l).
  - left. unfold coupled in Hc. rewrite Hf in Hc. destruct Hc as (Hact & Hbase & He).
    destruct (t_base t) as [b|] eqn:Hb; [|done].
    destruct (inv_grow ps [] t b event_base_loopexit [I_loopexit] Hinv Hb
      (loopexit_active b) (loopexit_pending b) eq_refl) as [Ew [_ Ha' Hp']].
    unfold stop_loopexit. rewrite Ew. eexists. split; [done|]. rewrite app_nil_r in Ha'.
    split; [|done|done]. unfold coupled. simpl. split; [done|]. eexists. split; [done|].
    destruct He as [?|[p He]]; [by left|]. right. exists p. split; [done|].
    intros _. rewrite loopexit_active. set_solver.
  - unfold coupled in Hc. rewrite Hf in Hc. destruct Hc as (Hact & b & Hb & [He|(p & He & _)]);
      unfold stop_join in Hj; rewrite He in Hj; simpl in Hj.
    { right. injection Hj as <-. split_and!; [done..|by exists f]. }
    left. destruct p; try done. injection Hj as <-. eexists. split; [done|].
    destruct (inv_idle ps (t <| t_engines := [] |> <| t_caller := Idle |>) b) as [H1 H2];
      [done|by apply Hp|done..| |by destruct f].
    unfold accounted in Ha. rewrite Hb, He in Ha. exact Ha.
  - left. destruct (t_base t) as [b|] eqn:Hb; [|done]. eexists.
    by apply (inv_grow ps [e] t b (event_active e) [I_event e]); auto using active_active, active_pending.
  - left. destruct (t_base t) as [b|] eqn:Hb; [|done]. eexists. rewrite <- (app_nil_r ps).
    by apply (inv_grow ps [] t b block_expires [I_block]); auto using expires_active, expires_pending.
Qed.

(** The runs of a tracker that init put in the table. *)
Definition runs_from (l : launch) (ls : list label) (t : tracker) : Prop :=
  reported l = true /\ exists t0, thread_init l = Done t0 /\ runs t0 ls t.

Lemma runs_inv l ls t : runs_from l ls t -> inv (posted ls) t.
Proof.
  intros (Hl & t0 & H0 & Hr).
  induction Hr as [|ls t1 lab t2 _ IH Hs]; [by eapply inv_initial|].
  destruct (step_inv_kept _ _ _ _ IH Hs) as [(t' & [= <-] & Hinv)|[? _]]; [|done]. by rewrite posted_snoc.
Qed.

(** When every start succeeds, an active thread, or one that is being stopped, is there. *)
Definition present (t : tracker) : Prop := t_active t = true \/ t_caller t <> Idle -> t_engines t <> [].

Lemma step_present ps t l t' :
  inv ps t -> launched l -> step t l (Done t') -> present t -> present t'.
Proof.
  unfold present. intros [Hcoup _ _] Hl Hs Hp. inversion Hs as [t0 i p r Hi Hr Ht Hlab Ho|t0 Hc Hb Ha Ht Hlab Ho
    |t0 Hc Hb Ht Hlab Ho|t0 l0 Hc Hb Ha Ht Hlab Ho|t0 f Hc Ht Hlab Ho|t0 f r Hc Hj Ht Hlab Ho
    |t0 e Hb Ht Hlab Ho|t0 Hb Ht Hlab Ho]; subst.
  - destruct r as [[p' t1]|]; [|done]. injection Ho as <-.
    destruct (engine_frame _ _ _ _ Hr) as (Ea & Ec & Ee). simpl. rewrite Ea, Ec, Ee.
    intros Hor. specialize (Hp Hor). by destruct (t_engines t), i.
  - unfold stop_clear in Ho. rewrite Ha in Ho. injection Ho as <-. simpl. auto.
  - unfold stop_clear in Ho. destruct (t_active t) eqn:Ha; injection Ho as <-; simpl; [by auto|].
    rewrite Ha, Hc. naive_solver.
  - unfold start_engine in Ho. rewrite Ha in Ho. injection Ho as <-. simpl in *. rewrite Hl.
    by destruct (t_engines t).
  - unfold stop_loopexit, with_base in Ho. destruct (t_base t); [|done]. injection Ho as <-. simpl.
    intros _. apply Hp. right. by rewrite Hc.
  - unfold coupled in Hcoup. rewrite Hc in Hcoup. destruct Hcoup as [Ha _].
    unfold stop_join in Hj. destruct (reverse (t_engines t)) as [|[] ps']; try done.
    injection Hj as <-. destruct f; simpl; rewrite Ha; naive_solver.
  - unfold with_base in Ho. destruct (t_base t); [|done]. injection Ho as <-. exact Hp.
  - unfold with_base in Ho. destruct (t_base t); [|done]. injection Ho as <-. exact Hp.
Qed.

Lemma runs_present l ls t :
  runs_from l ls t -> starts l = true -> Forall launched ls -> present t.
Proof.
  intros (Hl & t0 & H0 & Hr) Hs.
  induction Hr as [|ls t1 lab t2 Hr IH Hst]; intros Hall.
  - unfold thread_init in H0. simpl in H0. rewrite Hl, Hs in H0. by injection H0 as <-.
  - apply Forall_app in Hall as [Hall Hlab]. rewrite Forall_singleton in Hlab.
    eapply step_present; [|done..|by apply IH]. eapply (runs_inv l). by split; [|exists t0].
Qed.

(** No stop then finds its thread missing. *)
Lemma present_joins t l o : present t -> ~ joins_nothing t l o.
Proof. intros Hp (_ & _ & He & f & Hf). apply Hp; [|done]. right. by rewrite Hf. Qed.

(** ** How long a stop takes *)

Definition by_engine (l : label) : nat := match l with L_engine _ => 1 | _ => 0 end.
Definition arrival (l : label) : nat := match l with L_post _ | L_expires => 1 | _ => 0 end.
Definition not_caller (l : label) : Prop :=
  match l with L_caller | L_resume _ => False | _ => True end.

Definition work_left (t : tracker) : nat :=
  match t_engines t, t_base t with [p], Some b => work p b | _, _ => 0 end.

Lemma work_grows t b f x :
  t_base t = Some b -> evb_active (f b) = evb_active b ++ [x] ->
  (work_left (t <| t_base := Some (f b) |>) <= work_left t + 2)%nat.
Proof.
  intros Hb El. unfold work_left. rewrite Hb. simpl.
  destruct (t_engines t) as [|p [|]]; [lia| |lia].
  destruct p; simpl; rewrite ?El, ?length_app; simpl; lia.
Qed.

Lemma runs_app t0 ls t ls' t' : runs t0 ls t -> runs t ls' t' -> runs t0 (ls ++ ls') t'.
Proof.
  intros H0. induction 1 as [|ls' t1 l t2 _ IH Hs]; [by rewrite app_nil_r|].
  rewrite app_assoc. by eapply runs_snoc.
Qed.

(** While the caller waits, an engine that was told to stop goes down, or the base
    grows. *)
Lemma work_step ps t l t' :
  inv ps t -> t_active t = false -> not_caller l -> step t l (Done t') ->
  t_active t' = false /\ t_caller t' = t_caller t /\
  (by_engine l + work_left t' <= work_left t + 2 * arrival l)%nat.
Proof.
  intros Hinv Hact Hl Hs. inversion Hs as [t0 i p r Hi Hr Ht Hlab Ho| | | | | |t0 e Hbase Ht Hlab Ho
    |t0 Hbase Ht Hlab Ho]; subst; try done.
  - destruct (inv_engine _ _ Hinv) as [He|(p0 & He & b & Hb & Hp & _)]; [by rewrite He in Hi|].
    rewrite He in Hi. destruct i as [|i]; [|by destruct i]. injection Hi as ->.
    destruct (engine_moves t p b r Hb Hp Hr) as (p' & t1 & b' & -> & Hb' & _ & _ & _ & Hoff).
    destruct (engine_frame _ _ _ _ Hr) as (Ea & Ec & Ee). simpl in Ho. injection Ho as <-.
    simpl. rewrite Ea, Ec. split; [done|]. split; [done|]. destruct (Hoff Hact) as [_ Hw].
    unfold work_left. simpl. rewrite Ee, He, Hb, Hb'. simpl. lia.
  - unfold with_base in Ho. destruct (t_base t) as [b|] eqn:Hb; [|done]. injection Ho as <-.
    split; [done|]. split; [done|]. pose proof (work_grows t b (event_active e) _ Hb (active_active e b)).
    simpl in *. lia.
  - unfold with_base in Ho. destruct (t_base t) as [b|] eqn:Hb; [|done]. injection Ho as <-.
    split; [done|]. split; [done|]. pose proof (work_grows t b block_expires _ Hb (expires_active b)).
    simpl in *. lia.
Qed.

Lemma runs_from_app l ls t ls' t' : runs_from l ls t -> runs t ls' t' -> runs_from l (ls ++ ls') t'.
Proof. intros (Hl & t0 & H0 & Hr) Hr'. split; [done|]. exists t0. split; [done|]. by eapply runs_app. Qed.

Lemma work_runs l ls t ls' t' :
  runs_from l ls t -> t_active t = false -> runs t ls' t' -> Forall not_caller ls' ->
  t_active t' = false /\ t_caller t' = t_caller t /\
  (sum_list_with by_engine ls' + work_left t' <=
   work_left t + 2 * sum_list_with arrival ls')%nat.
Proof.
  intros H0 Hact. induction 1 as [|ls' t1 lab t2 Hr IH Hs]; intros Hall; [simpl; split_and!; (done || lia)|].
  apply Forall_app in Hall as [Hall Hl]. rewrite Forall_singleton in Hl.
  destruct (IH Hall) as (Ha & Hc & Hw).
  destruct (work_step _ _ _ _ (runs_inv _ _ _ (runs_from_app _ _ _ _ _ H0 Hr)) Ha Hl Hs) as (Ha' & Hc' & Hw').
  split; [done|]. split; [congruence|]. rewrite !sum_list_with_app. simpl. lia.
Qed.

(** ** Properties *)

(** C12: The body of a thread against everything around it. When init reports a
    success, and however the calls, the engine, the posts and the timer interleave: at
    most one thread runs the base, so that no two of its callbacks overlap, and none
    between a pause that returned and the next resume; no step ever uses the base after
    it was freed nor fails an assertion, and the only one that is undefined is the join
    of a thread that could not be started. If every start succeeds there is no such
    step, and between two calls there is a thread exactly when the tracker says so. When
    init reports a failure the base is freed: if the thread had started, because only
    its binding failed, it runs on and uses the freed base; otherwise there is no thread. *)
Theorem engine_alone l t0 :
  thread_init l = Done t0 ->
  if reported l then forall ls t, runs t0 ls t ->
    (length (t_engines t) <= 1)%nat /\
    (t_caller t = Idle -> t_active t = false -> t_engines t = []) /\
    (forall lab o, step t lab o -> (exists t', o = Done t') \/ joins_nothing t lab o) /\
    (starts l = true -> Forall launched ls ->
       (forall lab o, step t lab o -> exists t', o = Done t') /\
       (t_caller t = Idle -> t_engines t = [] <-> t_active t = false))
  else t_base t0 = None /\
    if starts l then exists t, runs t0 [L_engine 0] t /\ step t (L_engine 0) (Fault UseAfterFree)
    else t_engines t0 = [].
Proof.
  intros H0. destruct (reported l) eqn:Hl.
  - intros ls t Hr. assert (runs_from l ls t) as Hf by (split; [done|by exists t0]).
    pose proof (runs_inv _ _ _ Hf) as Hinv. split_and!.
    + destruct (inv_engine _ _ Hinv) as [-> |(p & -> & _)]; simpl; lia.
    + destruct Hinv as [Hc _ _]. unfold coupled in Hc. intros Hi Ha. by rewrite Hi, Ha in Hc.
    + intros lab o Hs. destruct (step_inv_kept _ _ _ _ Hinv Hs) as [(t' & -> & _)|]; [left; by exists t'|by right].
    + intros Hst Hall. pose proof (runs_present _ _ _ Hf Hst Hall) as Hp. split.
      * intros lab o Hs. destruct (step_inv_kept _ _ _ _ Hinv Hs) as [(t' & -> & _)|Hj]; [by exists t'|].
        by destruct (present_joins _ _ _ Hp Hj).
      * destruct Hinv as [Hc _ _]. unfold coupled, present in *. intros Hi. rewrite Hi in Hc.
        destruct (t_active t); naive_solver.
  - unfold thread_init in H0. simpl in H0. rewrite Hl in H0. injection H0 as <-. split; [done|].
    simpl. destruct (starts l); [|done].
    set (t := free_base _). exists (t <| t_engines := [In_loop false] |>). split.
    + eapply (runs_snoc _ []); [constructor|].
      exact (s_engine t 0 At_while (Done (In_loop false, t)) eq_refl eq_refl).
    + exact (s_engine (t <| t_engines := [In_loop false] |>) 0 (In_loop false) (Fault UseAfterFree)
        eq_refl eq_refl).
Qed.

(** C13: The callbacks run in the order of the posts, each event once: those that
    were called are the first of those posted; and while no thread runs the base, as
    during a pause, the others are all there, in their order. *)
Theorem engine_in_order l ls t :
  runs_from l ls t ->
  t_ran t `prefix_of` posted ls /\
  (forall b, t_base t = Some b -> t_engines t = [] ->
    posted ls = t_ran t ++ events_of (evb_active b)).
Proof.
  intros [_ Ha _]%runs_inv. unfold accounted in Ha. destruct (t_base t) as [b|].
  - split; [rewrite Ha; by apply prefix_app_r|]. intros b' [= <-] He. by rewrite He in Ha.
  - by destruct Ha.
Qed.

(** C11: A stop returns. Once the caller waits for the engine, every start of which
    succeeded, either the join is over or the engine can take a step, never blocked
    however long the timeout of its base; and it takes at most three steps, and two for
    each event that was active or becomes so meanwhile. *)
Theorem stop_returns l ls t f :
  runs_from l ls t -> starts l = true -> Forall launched ls -> t_caller t = Join f ->
  ((exists t', step t L_caller (Done t')) \/ (exists t', step t (L_engine 0) (Done t'))) /\
  exists b, t_base t = Some b /\ forall ls' t', runs t ls' t' -> Forall not_caller ls' ->
    (sum_list_with by_engine ls' <= 3 + 2 * (length (evb_active b) + sum_list_with arrival ls'))%nat.
Proof.
  intros Hr Hst Hall Hf. pose proof (runs_inv _ _ _ Hr) as Hinv. pose proof Hinv as [Hc _ Hp].
  pose proof (runs_present _ _ _ Hr Hst Hall) as Hpres. unfold present in Hpres.
  unfold coupled in Hc. rewrite Hf in Hc, Hpres. destruct Hc as (Hact & b & Hb & [He|(p & He & Hex)]).
  { by destruct Hpres; [right|]. }
  split.
  - assert (p = Cancelled \/ p <> Cancelled) as [->|Hne] by (destruct p; naive_solver).
    + left. eexists. eapply s_join; [done|]. unfold stop_join. by rewrite He.
    + right. assert (exists r, progress_engine p t = Some r) as [r Hstep].
      { destruct p as [|ran|it|]; [by eexists| |by eexists|done]. simpl. rewrite Hb.
        destruct (evb_active b) as [|it q] eqn:Eq.
        - destruct ran; [rewrite loop_returns by done; by eexists|].
          specialize (Hex eq_refl). by apply elem_of_nil in Hex.
        - destruct (loop_calls ran b it q Eq) as (b' & -> & _). by eexists. }
      pose proof (s_engine t 0 p r) as Hs. rewrite He in Hs. specialize (Hs eq_refl Hstep).
      destruct (step_inv_kept _ _ _ _ Hinv Hs) as [(t' & Ho & _)|(_ & ? & _)]; [|done].
      rewrite Ho in Hs. by exists t'.
  - exists b. split; [done|]. intros ls' t' Hr' Hall'.
    destruct (work_runs l ls t ls' t' Hr Hact Hr' Hall') as (_ & _ & Hw).
    assert (work_left t <= 2 * length (evb_active b) + 3)%nat.
    { unfold work_left. rewrite He, Hb. destruct p; simpl; lia. }
    lia.
Qed.

(** ** The stop of Progress *)

Definition by_caller (l : label) : nat :=
  match l with L_caller | L_resume _ => 1 | _ => 0 end.

(** A tracker as Progress sees it. *)
Definition seen (x : dsched_progress_tracker_t) (t : tracker) : dsched_progress_tracker_t :=
  x <| ev_active := t_active t |> <| engine_running := negb (bool_decide (length (t_engines t) = 0%nat)) |>.

(** How far the stop is after [n] steps of the caller. *)
Definition stopping (n : nat) (t : tracker) : Prop :=
  match n with
  | 0%nat => t_caller t = Idle /\ t_active t = true
  | 1%nat => (exists f, t_caller t = Loopexit f) /\ t_active t = false
  | 2%nat => (exists f, t_caller t = Join f) /\ t_active t = false
  | 3%nat => t_caller t = Idle /\ t_active t = false
  | _ => True
  end.

(** Only the caller changes where it is, and the flag, and starts and joins threads. *)
Lemma caller_frame t l t' :
  not_caller l -> step t l (Done t') ->
  t_active t' = t_active t /\ t_caller t' = t_caller t /\ (t_engines t = [] -> t_engines t' = []).
Proof.
  intros Hl Hs. inversion Hs as [t0 i p r Hi Hr Ht Hlab Ho| | | | | |t0 e Hbase Ht Hlab Ho
    |t0 Hbase Ht Hlab Ho]; subst; try done.
  - destruct r as [[p' t1]|]; [|done]. injection Ho as <-.
    destruct (engine_frame _ _ _ _ Hr) as (-> & -> & Ee). split_and!; [done..|]. intros He.
    by rewrite He in Hi.
  - unfold with_base in Ho. destruct (t_base t); [|done]. by injection Ho as <-.
  - unfold with_base in Ho. destruct (t_base t); [|done]. by injection Ho as <-.
Qed.

(** Of a thread that is not there the stop does not get to its end. *)
Definition stopping_from (t0 : tracker) (n : nat) (t : tracker) : Prop :=
  stopping n t /\ (t_engines t0 = [] -> (n < 3)%nat -> t_engines t = []) /\
  (n = 3%nat -> t_engines t0 <> []).

Lemma caller_step t0 n t l t' :
  stopping_from t0 n t -> (n < 3)%nat -> by_caller l = 1%nat -> step t l (Done t') ->
  stopping_from t0 (S n) t'.
Proof.
  intros (Hn & He & _) Hlt Hl Hs. inversion Hs as [|t1 Hc Hb Ha Ht Hlab Ho|t1 Hc Hb Ht Hlab Ho
    |t1 l1 Hc Hb Ha Ht Hlab Ho|t1 f Hc Ht Hlab Ho|t1 f r Hc Hj Ht Hlab Ho| |]; subst; try done;
    (destruct n as [|[|[|n]]]; simpl in Hn; [| | |lia]); destruct Hn as [Hcal Hact];
    try match type of Hcal with exists _, _ => destruct Hcal as [f' Hcal] end; try congruence.
  - unfold stop_clear in Ho. rewrite Hact in Ho. injection Ho as <-. split_and!; simpl; eauto with lia.
  - unfold stop_clear in Ho. rewrite Hact in Ho. injection Ho as <-. split_and!; simpl; eauto with lia.
  - unfold stop_loopexit, with_base in Ho. destruct (t_base t); [|done]. injection Ho as <-.
    split_and!; simpl; eauto with lia.
  - unfold stop_join in Hj. destruct (reverse (t_engines t)) as [|p ps] eqn:Er; [done|].
    destruct p; try done. injection Hj as <-. split_and!; [by destruct f|lia|].
    intros _ H0. rewrite (He H0 Hlt) in Er. done.
Qed.

(** C14: A stop is what Progress takes it for. From an active thread between two calls, after
    the three statements of [stop_progress_engine], and whatever steps of the engine, of
    the others and of the timer in between, the tracker is the one the function of
    Progress returns. *)
Theorem stop_is_atomic x l ls t ls' t' :
  runs_from l ls t -> t_caller t = Idle -> t_active t = true ->
  runs t ls' t' -> sum_list_with by_caller ls' = 3%nat ->
  Progress.stop_progress_engine (seen x t) = Done (seen x t').
Proof.
  intros H0 Hi Ha Hr Hn.
  assert (stopping_from t (sum_list_with by_caller ls') t') as Hst.
  { clear Hn. induction Hr as [|ls' t1 lab t2 Hr IH Hs].
    { split; [by split|]. by split. }
    rewrite sum_list_with_app. simpl. rewrite Nat.add_0_r.
    assert (by_caller lab = 1%nat \/ by_caller lab = 0%nat /\ not_caller lab) as [Hlab|[-> Hlab]]
      by (destruct lab; first [by left|by right]).
    2: { destruct (caller_frame t1 lab t2 Hlab Hs) as (Ea & Ec & Ee). rewrite Nat.add_0_r.
         destruct IH as (Hst & He & ?). unfold stopping_from, stopping in *. rewrite Ea, Ec. auto. }
    rewrite Hlab, Nat.add_1_r.
    destruct (decide (sum_list_with by_caller ls' < 3)%nat) as [Hlt|Hge]; [by eapply caller_step|].
    destruct (sum_list_with by_caller ls') as [|[|[|n]]]; [lia..|]. split; [done|]. split; [lia|done]. }
  rewrite Hn in Hst. destruct Hst as ([Hi' Ha'] & _ & Hne).
  destruct (runs_inv _ _ _ (runs_from_app _ _ _ _ _ H0 Hr)) as [Hc _ _].
  unfold coupled in Hc. rewrite Hi', Ha' in Hc.
  unfold Progress.stop_progress_engine, seen. simpl. rewrite Ha, Ha', Hc. specialize (Hne eq_refl).
  by destruct (t_engines t).
Qed.

(** The stop of a thread that is not there is undefined for Progress, too. *)
Theorem missing_thread x t :
  t_active t = true -> t_engines t = [] ->
  Progress.stop_progress_engine (seen x t) = Fault Uninitialised.
Proof. intros Ha He. unfold Progress.stop_progress_engine, seen. simpl. by rewrite Ha, He. Qed.
End Engine.

(** A start is reported here as Progress reports it. *)
Theorem launch_as_progress `{PMIx} g e t rc t' :
  start_progress_engine g e t = Done (rc, t') ->
  reported (launch_of g e) = (rc =? DSCHED_SUCCESS) /\
  engine_running t' = starts (launch_of g e).
Proof.
  intros (_ & Hr & ->)%start_status. split; [|done]. unfold reported, launch_of. simpl.
  destruct (have_setaffinity g); [|done]. destruct (progress_thread_cpus g); [|done]. simpl.
  by destruct (e_setaffinity e =? 0), (bind_progress_thread_reqd g).
Qed.

(** ** Examples *)

(** An implementation of the contract: a queue and a flag. *)
#[local] Instance queue_events : LibEvent nat.
Proof.
  refine {|
    evb := list (item nat) * bool;
    evb_active := fst;
    evb_pending := snd;
    event_base_new := ([], false);
    event_active := fun e b => (b.1 ++ [I_event e], b.2);
    event_add_block := fun b => (b.1, true);
    block_expires := fun b => (b.1 ++ [I_block], b.2);
    event_base_loopexit := fun b => (b.1 ++ [I_loopexit], b.2);
    event_base_loop := fun ran b =>
      match b with
      | (it :: l, pending) => Calls it (l, pending)
      | ([], pending) => if (ran : bool) || negb pending then Returns b else Blocks
      end
  |}; try done.
  - intros ran [q pending] it l. simpl. intros ->. by eexists.
  - intros [q pending]. simpl. by intros ->.
  - intros [q pending]. simpl. by intros -> ->.
  - intros [q pending]. simpl. by intros -> ->.
Defined.

(** The state a script of steps leads to: who moves next. *)
Definition next_state (l : label (E := nat)) (t : tracker) : option tracker :=
  match l with
  | L_engine i =>
      p ← t_engines t !! i; r ← progress_engine p t;
      match r with
      | Done (p, t) => Some (Trk (t_active t) (t_base t) (<[i := p]> (t_engines t)) (t_caller t) (t_ran t))
      | Fault _ => None
      end
  | L_caller =>
      match t_caller t with
      | Idle =>
          _ ← t_base t; match stop_clear false t with Done t => Some t | Fault _ => None end
      | Loopexit f => match stop_loopexit f t with Done t => Some t | Fault _ => None end
      | Join f => match stop_join f t with Some (Done t) => Some t | _ => None end
      end
  | L_resume l =>
      _ ← t_base t;
      match t_caller t, start_engine l t with Idle, Done t => Some t | _, _ => None end
  | L_post e => match with_base (event_active e) t with Done t => Some t | Fault _ => None end
  | L_expires => match with_base block_expires t with Done t => Some t | Fault _ => None end
  end.

Lemma next_step l t t' : next_state l t = Some t' -> step t l (Done t').
Proof.
  destruct l as [i| |l|e|]; unfold next_state.
  - intros Hs. apply bind_Some in Hs as (p & Hp & Hs). apply bind_Some in Hs as (r & Hr & Hs).
    pose proof (s_engine t i p r Hp Hr) as Hst. destruct r as [[p' t1]|]; [|done].
    by injection Hs as <-.
  - destruct (t_caller t) as [|f|f] eqn:Ec.
    + intros Hs. apply bind_Some in Hs as (b & Hb & Hs).
      destruct (stop_clear false t) as [t1|] eqn:Es; [|done]. injection Hs as <-. rewrite <- Es.
      apply s_pause; [done|by rewrite Hb|]. unfold stop_clear in Es. by destruct (t_active t).
    + destruct (stop_loopexit f t) as [t1|] eqn:Es; [|done]. intros [= <-]. rewrite <- Es.
      by apply s_loopexit.
    + destruct (stop_join f t) as [[t1|]|] eqn:Ej; try done. intros [= <-]. by eapply s_join.
  - intros Hs. apply bind_Some in Hs as (b & Hb & Hs). destruct (t_caller t) eqn:Ec; try done.
    destruct (start_engine l t) as [t1|] eqn:Es; [|done]. injection Hs as <-. rewrite <- Es.
    apply s_resume; [done|by rewrite Hb|]. unfold start_engine in Es. by destruct (t_active t).
  - destruct (with_base _ t) as [t1|] eqn:Es; [|done]. intros [= <-]. rewrite <- Es.
    apply s_post. unfold with_base in Es. by destruct (t_base t).
  - destruct (with_base _ t) as [t1|] eqn:Es; [|done]. intros [= <-]. rewrite <- Es.
    apply s_expires. unfold with_base in Es. by destruct (t_base t).
Qed.

(** A thread that starts, and is not bound. *)
Definition plain_launch : launch := Launch true false false false.
Definition initial : tracker :=
  match thread_init plain_launch with Done t => t | Fault _ => Trk false None [] Idle [] end.

Fixpoint script (ls : list label) (t : tracker) : option tracker :=
  match ls with [] => Some t | l :: ls => t ← next_state l t; script ls t end.

Lemma script_runs t0 ls0 ls t t' :
  runs t0 ls0 t -> script ls t = Some t' -> runs t0 (ls0 ++ ls) t'.
Proof.
  revert ls0 t. induction ls as [|l ls IH]; intros ls0 t H0 Hs.
  - injection Hs as <-. by rewrite app_nil_r.
  - apply bind_Some in Hs as (t1 & Hl & Hs). rewrite cons_middle, app_assoc.
    eapply IH; [|done]. eapply runs_snoc; [done|]. by apply next_step.
Qed.

(** Two posts; a pause in the middle of the first callback. *)
Definition sample_labels : list (label (E := nat)) :=
  [L_post 1%nat; L_engine 0; L_engine 0; L_post 2%nat; L_caller; L_expires; L_caller].
Definition sample_waiting : tracker :=
  Trk false (Some ([I_event 2%nat; I_block; I_loopexit], true)) [In_callback (I_event 1%nat)]
    (Join false) [].

Definition sample_before : tracker :=
  Trk true (Some ([I_event 2%nat], true)) [In_callback (I_event 1%nat)] Idle [].

Lemma sample_runs : runs initial sample_labels sample_waiting.
Proof. by apply (script_runs initial [] sample_labels initial); [constructor|]. Qed.

Definition sample_rest : list (label (E := nat)) := repeat (L_engine 0) 9.
Definition sample_paused : tracker := Trk false (Some ([], true)) [] Idle [1%nat; 2%nat].

Definition sample_ended : tracker := Trk false (Some ([], true)) [Cancelled] (Join false) [1%nat; 2%nat].

Lemma sample_pauses : runs initial (sample_labels ++ sample_rest ++ [L_caller]) sample_paused.
Proof. by apply (script_runs initial sample_labels _ _ _ sample_runs). Qed.

Lemma from_initial ls t : runs initial ls t -> runs_from plain_launch ls t.
Proof. intros Hr. split; [done|]. by exists initial. Qed.

Lemma engine_alone_witness :
  t_active sample_paused = false /\ t_engines sample_paused = [] /\
  forall o, step sample_waiting (L_engine 0) o -> exists t', o = Done t'.
Proof.
  split; [reflexivity|]. split.
  - apply (engine_alone plain_launch initial eq_refl _ _ sample_pauses);
      first [reflexivity|repeat constructor].
  - intros o. apply (engine_alone plain_launch initial eq_refl _ _ sample_runs);
      first [reflexivity|repeat constructor].
Defined.

Lemma engine_in_order_witness : [1; 2]%nat = [1; 2]%nat ++ events_of (E := nat) [].
Proof.
  apply (proj2 (engine_in_order plain_launch _ _ (from_initial _ _ sample_pauses)) ([], true)); reflexivity.
Defined.

Lemma stop_is_atomic_witness :
  let x := Tracker 1 (Some "dmeta-pri"%string) (Some 1) true true true true in
  Progress.stop_progress_engine x = Done (x <| ev_active := false |> <| engine_running := false |>).
Proof.
  intros x. apply (stop_is_atomic x plain_launch (take 4 sample_labels) sample_before
    (drop 4 sample_labels ++ sample_rest ++ [L_caller]) sample_paused); try reflexivity.
  - apply from_initial. by apply (script_runs initial [] (take 4 sample_labels) initial); [constructor|].
  - by apply (script_runs sample_before [] _ sample_before); [constructor|].
Defined.

Lemma stop_returns_witness :
  exists b, t_base sample_waiting = Some b /\
    (sum_list_with by_engine sample_rest <= 3 + 2 * (length (evb_active b) + 0))%nat.
Proof.
  destruct (stop_returns plain_launch _ _ false (from_initial _ _ sample_runs) eq_refl
    ltac:(repeat constructor) eq_refl) as (_ & b & Hb & Hw). exists b.
  split; [exact Hb|]. apply (Hw sample_rest sample_ended).
  - by apply (script_runs sample_waiting [] sample_rest sample_waiting); [constructor|].
  - repeat constructor; done.
Defined.

(** With a processor list the failure of the start is not reported: the tracker is
    active, and its pause joins a thread that is not there. *)
Example pause_joins_nothing :
  let l := Launch false true true false in
  reported l = true /\
  exists t0 t, thread_init (E := nat) l = Done t0 /\ runs t0 [L_caller; L_caller] t /\
    step t L_caller (Fault Uninitialised).
Proof.
  intros l. split; [reflexivity|]. do 2 eexists. split; [reflexivity|]. split.
  - eapply (script_runs _ [] _ _); [constructor|reflexivity].
  - by eapply s_join.
Qed.
