(* ===== verification/Mca.v ===== *)
(** The component frameworks: dmeta, dsched, dlog and dmetric under src/mca.

    Each framework has the same life: [open] constructs the list of active modules,
    [select] asks every component for a module and inserts it in priority order,
    [close] finalizes the modules and empties the list. The four copies of the code
    differ in the module type only, so they are instances of one definition. Opening
    and closing the components themselves is the MCA library's. *)

From S2P Require Import Prelude Pmix Constants Objects Meta Fifo Progress.

(** A module of a framework: [entry] is the framework's own function ([schedule],
    [log] or [compute]). *)
Record module_t (S F : Type) := Module {
  init : option (act S Z);
  finalize : option (act S unit);
  entry : option F
}.
Arguments Module {S F}. Arguments init {S F}. Arguments finalize {S F}. Arguments entry {S F}.

(** ** One framework *)

Section Framework.
Context {S F : Type} `{PMIx}.

(** What a component's query leaves in [module] and [priority], which keep what they
    had when it does not write them; [priority] starts uninitialised. *)
Record query_vars := QueryVars { q_module : option (module_t S F); q_priority : option Z }.

Record component := Component {
  component_name : string;
  query_component : option (query_vars -> act S (Z * query_vars))
}.

Record active_module := Active { pri : Z; module : module_t S F; of_component : string }.

Record globals := Globals {
  actives : list active_module;
  initialized : bool;
  selected : bool
}.
#[local] Instance eta_globals : Eta globals := fun g =>
  Globals (actives g) (initialized g) (selected g).

(** The framework's globals next to the rest of the state. *)
Definition fstate : Type := globals * S.

Definition on_globals (f : globals -> globals) : act fstate unit :=
  modify (fun s => (f s.1, s.2)).
Definition outside {A} (m : act S A) : act fstate A := fun s =>
  match m s.2 with Done (a, s') => Done (a, (s.1, s')) | Fault f => Fault f end.

(** Before the first module of strictly smaller priority, or at the end. *)
Fixpoint insert_active (new : active_module) (l : list active_module) : list active_module :=
  match l with
  | [] => [new]
  | mod_ :: l => if pri mod_ <? pri new then new :: mod_ :: l else mod_ :: insert_active new l
  end.

(** The body of the loop over the components. *)
Definition select_component (cli : component) (v : query_vars) : act fstate query_vars :=
  match query_component cli with
  | None => mret v
  | Some query =>
      '(rc, v) ← outside (query v);
      match q_module v with
      | Some nmodule =>
          if ok rc then
            rc ← match init nmodule with Some f => outside f | None => mret PMIX_SUCCESS end;
            if ok rc then
              match q_priority v with
              | Some priority =>
                  on_globals (fun g => g <| actives :=
                    insert_active (Active priority nmodule (component_name cli)) (actives g) |>) ;;
                  mret v
              | None => fail Uninitialised
              end
            else mret v
          else mret v
      | None => mret v
      end
  end.

Fixpoint select_loop (clis : list component) (v : query_vars) : act fstate unit :=
  match clis with
  | [] => mret tt
  | cli :: clis => v ← select_component cli v; select_loop clis v
  end.

Definition base_select (clis : list component) : act fstate Z :=
  g ← gets fst;
  if selected g then mret PMIX_SUCCESS else
  on_globals (fun g => g <| selected := true |>) ;;
  select_loop clis (QueryVars None None) ;;
  mret PMIX_SUCCESS.

(** [components_open] and [components_close] stand for the functions of the library
    that open and close the components. *)
Definition base_open (components_open : act S Z) : act fstate Z :=
  on_globals (fun g => g <| actives := [] |>) ;;
  on_globals (fun g => g <| initialized := true |>) ;;
  outside components_open.

Definition finalize_module (m : active_module) : act fstate unit :=
  match finalize (module m) with Some f => outside f | None => mret tt end.

Definition base_close (components_close : act S Z) : act fstate Z :=
  g ← gets fst;
  if negb (initialized g) then mret PMIX_SUCCESS else
  each finalize_module (actives g) ;;
  on_globals (fun g => g <| actives := [] |>) ;;
  rc ← outside components_close;
  on_globals (fun g => g <| initialized := false |>) ;;
  mret rc.

(** The state before the program starts. *)
Definition static_init : globals := Globals [] false false.

(** ** What selection computes *)

(** The modules the components offer and that initialize, in the order asked. *)
Fixpoint offers (clis : list component) (v : query_vars) : act S (list active_module) :=
  match clis with
  | [] => mret []
  | cli :: clis =>
      match query_component cli with
      | None => offers clis v
      | Some query =>
          '(rc, v) ← query v;
          match q_module v with
          | Some m =>
              if ok rc then
                rc ← match init m with Some f => f | None => mret PMIX_SUCCESS end;
                if ok rc then
                  match q_priority v with
                  | Some p => l ← offers clis v; mret (Active p m (component_name cli) :: l)
                  | None => fail Uninitialised
                  end
                else offers clis v
              else offers clis v
          | None => offers clis v
          end
      end
  end.

Definition descending : list active_module -> Prop := Sorted (fun a b => pri b <= pri a).

Lemma insert_active_perm x l : insert_active x l ≡ₚ x :: l.
Proof.
  induction l as [|y l IH]; [done|]. simpl. destruct (pri y <? pri x); [done|].
  rewrite IH. by apply Permutation_swap.
Qed.

Lemma insert_active_sorted x l : descending l -> descending (insert_active x l).
Proof.
  unfold descending. induction l as [|y l IH]; intros Hl; simpl; [by repeat constructor|].
  apply Sorted_inv in Hl as [Hl Hy]. destruct (Z.ltb_spec (pri y) (pri x)).
  - repeat constructor; try done. lia.
  - constructor; [by apply IH|]. destruct l as [|z l]; simpl; [constructor; lia|].
    apply HdRel_inv in Hy. destruct (Z.ltb_spec (pri z) (pri x)); constructor; lia.
Qed.

Lemma filter_none {A} (Q : A -> Prop) `{forall x, Decision (Q x)} (l : list A) :
  Forall (fun x => ~ Q x) l -> filter Q l = [].
Proof. induction 1 as [|x l Hx _ IH]; [done|]. by rewrite filter_cons, decide_False. Qed.

(** Modules of one priority stay in the order they were inserted. *)
Lemma insert_active_stable p x l :
  descending l ->
  filter (fun a => pri a = p) (insert_active x l) = filter (fun a => pri a = p) (l ++ [x]).
Proof.
  intros Hl. apply Sorted_StronglySorted in Hl; [|intros ???; lia].
  induction Hl as [|y l Hl IH Hy]; [done|]. simpl.
  destruct (Z.ltb_spec (pri y) (pri x)) as [Hlt|Hge].
  - change (y :: l ++ [x]) with ((y :: l) ++ [x]). rewrite filter_app, (filter_cons _ x). destruct (decide (pri x = p)) as [Hp|Hp].
    + rewrite (filter_none _ (y :: l)); [by rewrite filter_singleton_True|].
      apply Forall_cons. split; [lia|]. eapply Forall_impl; [exact Hy|]. intros z; simpl; lia.
    + by rewrite filter_singleton_False, app_nil_r.
  - rewrite !filter_cons, IH. done.
Qed.

Lemma select_loop_run clis v (g : globals) (s : S) acc s' :
  offers clis v s = Done (acc, s') ->
  select_loop clis v (g, s) = Done (tt, (g <| actives :=
    foldl (fun l x => insert_active x l) (actives g) acc |>, s')).
Proof.
  revert v g s acc. induction clis as [|cli clis IH]; intros v g s acc.
  { intros [= <- <-]. by destruct g. }
  simpl. unfold select_component, mbind, act_bind, outside. simpl.
  destruct (query_component cli) as [query|]; [|apply IH]. simpl.
  destruct (query v s) as [[[rc v1] s1]|]; [|done]. simpl.
  destruct (q_module v1) as [m|]; [|apply IH]. destruct (ok rc); [|apply IH].
  destruct (init m) as [f|]; simpl.
  - destruct (f s1) as [[rc1 s2]|]; [|done]. destruct (ok rc1); [|apply IH].
    destruct (q_priority v1) as [p|]; [|done]. simpl.
    destruct (offers clis v1 s2) as [[acc1 s3]|] eqn:E; [|done]. intros [= <- <-].
    exact (IH v1 (g <| actives := _ |>) s2 acc1 E).
  - destruct (ok PMIX_SUCCESS); [|apply IH].
    destruct (q_priority v1) as [p|]; [|done]. simpl.
    destruct (offers clis v1 s1) as [[acc1 s3]|] eqn:E; [|done]. intros [= <- <-].
    exact (IH v1 (g <| actives := _ |>) s1 acc1 E).
Qed.

Lemma insert_all acc l :
  descending l ->
  let r := foldl (fun l x => insert_active x l) l acc in
  descending r /\ r ≡ₚ l ++ acc /\
  forall p, filter (fun a => pri a = p) r = filter (fun a => pri a = p) (l ++ acc).
Proof.
  revert l. induction acc as [|x acc IH]; intros l Hl; simpl; [by rewrite app_nil_r|].
  destruct (IH (insert_active x l)) as (H1 & H2 & H3); [by apply insert_active_sorted|].
  split_and!; [done| |].
  - rewrite H2, insert_active_perm. by rewrite <- Permutation_middle.
  - intros p. rewrite H3. rewrite filter_app, insert_active_stable by done.
    rewrite !filter_app, filter_cons, filter_cons, filter_nil.
    destruct (decide (pri x = p)); by rewrite <- app_assoc.
Qed.

(** C20: Selection keeps the modules sorted: whatever the components answer, the
    active modules are in descending order of priority, they are exactly the modules
    that were offered and initialized, and those of equal priority stay in the order
    in which their components were asked. *)
Theorem select_sorts clis (g : globals) (s : S) acc s' :
  selected g = false -> descending (actives g) ->
  offers clis (QueryVars None None) s = Done (acc, s') ->
  exists l, base_select clis (g, s) = Done (PMIX_SUCCESS, (Globals l (initialized g) true, s')) /\
    descending l /\ l ≡ₚ actives g ++ acc /\
    forall p, filter (fun a => pri a = p) l = filter (fun a => pri a = p) (actives g ++ acc).
Proof.
  intros Hs Hd Ho. eexists. split; [|by apply insert_all].
  unfold base_select. rewrite gets_run. simpl. rewrite Hs. unfold on_globals.
  rewrite modify_run. erewrite act_bind_Done by (apply select_loop_run; exact Ho). done.
Qed.

(** A step of the code outside the framework that returns. *)
Definition returns {A} (m : act S A) : Prop := forall s, exists a s', m s = Done (a, s').

Lemma each_finalize l (g : globals) s :
  Forall (fun m => match finalize (module m) with Some f => returns f | None => True end) l ->
  exists s', each finalize_module l (g, s) = Done (tt, (g, s')).
Proof.
  intros Hall. revert s. induction Hall as [|m l Hm _ IH]; intros s; [by exists s|].
  simpl. assert (exists s1, finalize_module m (g, s) = Done (tt, (g, s1))) as [s1 E1].
  { unfold finalize_module. destruct (finalize (module m)) as [f|]; [|by exists s].
    destruct (Hm s) as ([] & s1 & E). exists s1. unfold outside. simpl. by rewrite E. }
  erewrite act_bind_Done by exact E1. apply IH.
Qed.

(** A framework that is closed and opened again selects no module, whatever its
    components offer: closing does not clear [selected], so the second selection
    takes the work for done, and reports success. *)
Theorem reopened_selects_nothing clis components_close components_open (g : globals) (s : S) :
  selected g = true ->
  Forall (fun m => match finalize (module m) with Some f => returns f | None => True end)
    (actives g) ->
  returns components_close -> returns components_open ->
  exists s', (base_close components_close ;; base_open components_open ;; base_select clis) (g, s)
    = Done (PMIX_SUCCESS, (Globals [] true true, s')).
Proof.
  intros Hs Hall Hc Ho.
  assert (exists rc g1 s1, base_close components_close (g, s) = Done (rc, (g1, s1)) /\
    selected g1 = true) as (rc & g1 & s1 & E1 & Hs1).
  { unfold base_close. rewrite gets_run. simpl.
    destruct (initialized g); simpl; [|by eexists _, g, s].
    destruct (each_finalize _ g s Hall) as (s1 & E1). erewrite act_bind_Done by exact E1.
    unfold on_globals. rewrite modify_run. simpl.
    destruct (Hc s1) as (rc & s2 & E2). unfold mbind, act_bind, outside. simpl. rewrite E2.
    by eexists _, _, _. }
  erewrite act_bind_Done by exact E1. destruct (Ho s1) as (rc2 & s2 & E2).
  exists s2. unfold base_open, base_select, on_globals, outside, mbind, act_bind, modify, gets.
  simpl. rewrite E2. simpl. by rewrite Hs1.
Qed.
End Framework.
Arguments globals S F : clear implicits.
Arguments active_module S F : clear implicits.
Arguments component S F : clear implicits.

(** ** Calling the modules in order *)

Section Call.
Context {S D : Type} `{PMIx}.

(** The loop shared by [dsched_log_base_log] and [dsched_metric_base_compute]. *)
Fixpoint base_call (data : D) (l : list (active_module S (D -> act S Z))) : act S Z :=
  match l with
  | [] => mret PMIX_SUCCESS
  | m :: l =>
      match entry (module m) with
      | Some f => rc ← f data; if ok rc then base_call data l else mret rc
      | None => base_call data l
      end
  end.

Definition dsched_log_base_log (data : D) (g : globals S (D -> act S Z)) : act S Z :=
  base_call data (actives g).
Definition dsched_metric_base_compute (data : D) (g : globals S (D -> act S Z)) : act S Z :=
  base_call data (actives g).

Lemma base_call_app data l1 l2 s s1 :
  base_call data l1 s = Done (PMIX_SUCCESS, s1) -> 
  base_call data (l1 ++ l2) s = base_call data l2 s1.
Proof.
  revert s. induction l1 as [|m l1 IH]; intros s; simpl; [by intros [= <-]|].
  destruct (entry (module m)) as [f|]; [|apply IH]. unfold mbind, act_bind.
  destruct (f data s) as [[rc s2]|]; [|done]. destruct (ok rc) eqn:E; [apply IH|].
  intros [= -> ->]. by rewrite ok_success in E.
Qed.

(** The log and metric frameworks call their modules in priority order and stop at
    the first that does not succeed: its status is the result, and the modules of
    lower priority are not called. *)
Theorem base_call_stops data (g : globals S (D -> act S Z)) l1 m l2 f s s1 rc s2 :
  actives g = l1 ++ m :: l2 -> base_call data l1 s = Done (PMIX_SUCCESS, s1) ->
  entry (module m) = Some f -> f data s1 = Done (rc, s2) -> rc <> PMIX_SUCCESS ->
  dsched_log_base_log data g s = Done (rc, s2) /\
  dsched_metric_base_compute data g s = Done (rc, s2).
Proof.
  intros El E1 Ef E2 Hrc. unfold dsched_log_base_log, dsched_metric_base_compute. rewrite El.
  erewrite base_call_app by exact E1. simpl. rewrite Ef. unfold mbind, act_bind. rewrite E2.
  apply ok_false in Hrc. by rewrite Hrc.
Qed.
End Call.

(** ** The modules this repository ships *)

(** The scheduler's state, the progress threads, and the [evbase] variables of the
    pri and fifo modules: the events of a module are set on the base in its variable, of
    which the scheduler's state says whether it is null. *)
Record world (P : Type -> Type) := World {
  w_sys : sys P;
  w_threads : threads;
  pri_evbase : option Z;
  fifo_evbase : option Z
}.
Arguments World {P}. Arguments w_sys {P}. Arguments w_threads {P}.
Arguments pri_evbase {P}. Arguments fifo_evbase {P}.
#[export] Instance eta_world {P} : Eta (world P) := fun w =>
  World (w_sys w) (w_threads w) (pri_evbase w) (fifo_evbase w).

Section Shipped.
Context {P : Type -> Type} `{PArray P} `{PMIx} (cfg : config) (e_pri e_fifo : env).

Definition on_threads {A} (f : threads -> outcome (A * threads)) : act (world P) A := fun w =>
  match f (w_threads w) with
  | Done (a, t) => Done (a, w <| w_threads := t |>)
  | Fault f => Fault f
  end.
Definition on_sys {A} (m : act (sys P) A) : act (world P) A := fun w =>
  match m (w_sys w) with
  | Done (a, s) => Done (a, w <| w_sys := s |>)
  | Fault f => Fault f
  end.

(** The bases that are null, once [b] is assigned to the variable of [owner]. *)
Definition assign_base (owner : base) (b : option Z) (nulls : list base) : list base :=
  let others := filter (fun x => x <> owner) nulls in
  match b with Some _ => others | None => owner :: others end.

Definition pri_myinit : act (world P) Z :=
  b ← on_threads (dsched_progress_thread_init cfg e_pri (Some "dmeta-pri"%string));
  modify (fun w => w <| pri_evbase := b |>) ;;
  on_sys (modify (fun s => s <| null_bases := assign_base PriBase b (null_bases s) |>)) ;;
  mret PMIX_SUCCESS.

Definition pri_finalize : act (world P) unit :=
  _ ← on_threads (dsched_progress_thread_finalize (Some "dmeta-pri"%string));
  mret tt.

Definition dsched_dmeta_pri_module : module_t (world P) (loc -> bool -> act (sys P) Z) :=
  Module (Some pri_myinit) (Some pri_finalize) (Some myschedule).

Definition fifo_init : act (world P) Z :=
  on_sys (modify (fun s => s <| fifo_reqs := [] |>)) ;;
  b ← on_threads (dsched_progress_thread_init cfg e_fifo (Some "dsched-fifo"%string));
  modify (fun w => w <| fifo_evbase := b |>) ;;
  on_sys (modify (fun s => s <| null_bases := assign_base FifoBase b (null_bases s) |>)) ;;
  mret (code_value DSCHED_SUCCESS).

Definition fifo_finalize : act (world P) Z :=
  on_sys fifo_destruct_reqs ;;
  _ ← on_threads (dsched_progress_thread_finalize (Some "dsched-fifo"%string));
  mret (code_value DSCHED_SUCCESS).

Definition dsched_sched_fifo_module : module_t (world P) (loc -> Z -> act (sys P) Z) :=
  Module (Some fifo_init) (Some (fifo_finalize ;; mret tt)) (Some fifo_schedule).

(** [data] is the list of items to log or compute from, which they do not read. *)
Definition stdfd_mylog {D} (data : D) : act (world P) Z := mret PMIX_SUCCESS.
Definition stdfd_myinit : act (world P) Z := mret PMIX_SUCCESS.
Definition stdfd_finalize : act (world P) unit := mret tt.
Definition dsched_dlog_stdfd_module {D} : module_t (world P) (D -> act (world P) Z) :=
  Module (Some stdfd_myinit) (Some stdfd_finalize) (Some stdfd_mylog).

Definition energy_mycompute {D} (data : D) : act (world P) Z := mret PMIX_SUCCESS.
Definition energy_myinit : act (world P) Z := mret PMIX_SUCCESS.
Definition energy_finalize : act (world P) unit := mret tt.
Definition dsched_dmetric_energy_module {D} : module_t (world P) (D -> act (world P) Z) :=
  Module (Some energy_myinit) (Some energy_finalize) (Some energy_mycompute).

(** A query that offers a module at a priority. *)
Definition component_query {F} (priority : Z) (m : module_t (world P) F)
    (v : query_vars (S := world P) (F := F)) : act (world P) (Z * query_vars) :=
  mret (PMIX_SUCCESS, QueryVars (Some m) (Some priority)).

Definition dmeta_pri_component : component (world P) (loc -> bool -> act (sys P) Z) :=
  Component "pri" (Some (component_query 5 dsched_dmeta_pri_module)).
Definition dlog_stdfd_component {D} : component (world P) (D -> act (world P) Z) :=
  Component "stdfd" (Some (component_query 5 dsched_dlog_stdfd_module)).
Definition dmetric_energy_component {D} : component (world P) (D -> act (world P) Z) :=
  Component "energy" (Some (component_query 5 dsched_dmetric_energy_module)).

(** [sched_register]: the default, unless the parameter is set. *)
Definition sched_register (param : option Z) : Z := default 1000 param.
Definition dsched_fifo_component (param : option Z)
    : component (world P) (loc -> Z -> act (sys P) Z) :=
  Component "fifo" (Some (component_query (sched_register param) dsched_sched_fifo_module)).

(** ** The four frameworks *)

Definition dsched_dmeta_base_select := base_select (S := world P) (F := loc -> bool -> act (sys P) Z).
Definition dsched_dsched_base_select := base_select (S := world P) (F := loc -> Z -> act (sys P) Z).
Definition dsched_dlog_base_select {D} := base_select (S := world P) (F := D -> act (world P) Z).
Definition dsched_dmetric_base_select {D} := base_select (S := world P) (F := D -> act (world P) Z).

Definition dsched_dmeta_base_open := base_open (S := world P) (F := loc -> bool -> act (sys P) Z).
Definition dsched_dsched_base_open := base_open (S := world P) (F := loc -> Z -> act (sys P) Z).
Definition dsched_dlog_base_open {D} := base_open (S := world P) (F := D -> act (world P) Z).
Definition dsched_dmetric_base_open {D} := base_open (S := world P) (F := D -> act (world P) Z).

Definition dsched_dmeta_base_close := base_close (S := world P) (F := loc -> bool -> act (sys P) Z).
Definition dsched_dsched_base_close := base_close (S := world P) (F := loc -> Z -> act (sys P) Z).
Definition dsched_dlog_base_close {D} := base_close (S := world P) (F := D -> act (world P) Z).
Definition dsched_dmetric_base_close {D} := base_close (S := world P) (F := D -> act (world P) Z).

(** What a framework's base iterates over. *)
Definition schedules {F} (g : globals (world P) F) : list (option F) :=
  (fun a => entry (module a)) <$> actives g.

Lemma assigned_is_null owner b nulls : owner <> MainBase ->
  is_null_base (assign_base owner b nulls) owner = bool_decide (b = None).
Proof.
  intros Ho. unfold assign_base.
  assert (is_null_base (match b with Some _ => filter (fun x => x <> owner) nulls
    | None => owner :: filter (fun x => x <> owner) nulls end) owner =
    bool_decide (owner ∈ match b with Some _ => filter (fun x => x <> owner) nulls
    | None => owner :: filter (fun x => x <> owner) nulls end)) as -> by (by destruct owner).
  apply bool_decide_ext. destruct b; [|set_solver]. rewrite list_elem_of_filter. naive_solver.
Qed.

Lemma other_is_null owner x b nulls : owner <> x ->
  is_null_base (assign_base owner b nulls) x = is_null_base nulls x.
Proof.
  intros Ho. unfold assign_base. destruct x; [done|..]; apply bool_decide_ext;
    destruct b; rewrite ?elem_of_cons, list_elem_of_filter; naive_solver.
Qed.

(** What the shipped configuration selects: after [open], selection makes pri the
    only meta module and fifo the only scheduler, so the lists the scheduling bases
    walk are those the pipeline is built from. An event base that could not be
    created is not noticed: the module is selected, with a null base. *)
Theorem shipped_selection param (w : world P) b1 t1 b2 t2 co1 co2 :
  dsched_progress_thread_init cfg e_pri (Some "dmeta-pri"%string) (w_threads w) = Done (b1, t1) ->
  dsched_progress_thread_init cfg e_fifo (Some "dsched-fifo"%string) t1 = Done (b2, t2) ->
  exists g1 g2 w1 w2,
    (dsched_dmeta_base_open (mret co1) ;; dsched_dmeta_base_select [dmeta_pri_component])
      (static_init, w) = Done (PMIX_SUCCESS, (g1, w1)) /\
    schedules g1 = [Some myschedule] /\ pri_evbase w1 = b1 /\
    is_null_base (null_bases (w_sys w1)) PriBase = bool_decide (b1 = None) /\
    (dsched_dsched_base_open (mret co2) ;;
     dsched_dsched_base_select [dsched_fifo_component param])
      (static_init, w1) = Done (PMIX_SUCCESS, (g2, w2)) /\
    schedules g2 = [Some fifo_schedule] /\ fifo_evbase w2 = b2 /\
    is_null_base (null_bases (w_sys w2)) PriBase = bool_decide (b1 = None) /\
    is_null_base (null_bases (w_sys w2)) FifoBase = bool_decide (b2 = None).
Proof.
  intros E1 E2.
  eexists _, _, _, _. split; [|split; [|split; [|split; [|split; [|split; [|split; [|split]]]]]]].
  - unfold dsched_dmeta_base_open, base_open, dsched_dmeta_base_select, base_select, select_loop,
      select_component, dmeta_pri_component, component_query, dsched_dmeta_pri_module, pri_myinit,
      on_threads, on_globals, outside, mbind, act_bind, modify, gets, mret, act_ret. simpl.
    rewrite ok_success. simpl. rewrite E1. simpl. rewrite ok_success. reflexivity.
  - reflexivity.
  - reflexivity.
  - by apply (assigned_is_null PriBase b1).
  - unfold dsched_dsched_base_open, base_open, dsched_dsched_base_select, base_select, select_loop,
      select_component, dsched_fifo_component, component_query, dsched_sched_fifo_module, fifo_init,
      on_threads, on_sys, on_globals, outside, mbind, act_bind, modify, gets, mret, act_ret. simpl.
    rewrite ok_success. simpl. rewrite E2. simpl.
    assert (ok (code_value DSCHED_SUCCESS) = true) as Hok
      by (apply ok_true; by rewrite pmix_success_zero). simpl in Hok. rewrite Hok. reflexivity.
  - reflexivity.
  - reflexivity.
  - etransitivity; [by apply (other_is_null FifoBase PriBase b2)|by apply (assigned_is_null PriBase b1)].
  - by apply (assigned_is_null FifoBase b2).
Qed.
End Shipped.

(** ** Examples *)

#[local] Existing Instance sample_pmix.

Definition offer (p : Z) (n : string) : component unit nat :=
  Component n (Some (fun v => mret (0, QueryVars (Some (Module None None (Some 0%nat))) (Some p)))).

Lemma select_sorts_witness :
  exists l, base_select [offer 5 "a"; offer 7 "b"; offer 5 "c"] (static_init, tt)
    = Done (0, (Globals l false true, tt)) /\ descending l.
Proof.
  destruct (select_sorts [offer 5 "a"; offer 7 "b"; offer 5 "c"] static_init tt
    [Active 5 (Module None None (Some 0%nat)) "a"; Active 7 (Module None None (Some 0%nat)) "b";
     Active 5 (Module None None (Some 0%nat)) "c"] tt) as (l & E & Hl & _);
    [reflexivity|constructor|reflexivity|].
  exists l. split; [exact E|exact Hl].
Defined.

Lemma reopened_selects_nothing_witness :
  exists s', (base_close (mret 0) ;; base_open (mret 0) ;; base_select [offer 5 "a"])
    (Globals [Active 5 (Module None None (Some 0%nat)) "a"] true true, tt)
    = Done (PMIX_SUCCESS, (Globals [] true true, s')).
Proof.
  apply (reopened_selects_nothing [offer 5 "a"] (mret 0) (mret 0)
    (Globals [Active 5 (Module None None (Some 0%nat)) "a"] true true) tt).
  - reflexivity.
  - repeat constructor.
  - intros s. by eexists _, _.
  - intros s. by eexists _, _.
Defined.

Lemma base_call_stops_witness :
  let m (rc : Z) n := Active 5 (Module None None (Some (fun (_ : unit) (s : list string) =>
    Done (rc, s ++ [n])))) n in
  dsched_log_base_log tt
    (Globals [m 0 "a"%string; m (-1) "b"%string; m 0 "c"%string] true true) []
    = Done (-1, ["a"; "b"]%string).
Proof.
  intros m.
  apply (base_call_stops tt
    (Globals [m 0 "a"%string; m (-1) "b"%string; m 0 "c"%string] true true)
    [m 0 "a"%string] (m (-1) "b"%string) [m 0 "c"%string]
    (fun (_ : unit) (s : list string) => Done (-1, s ++ ["b"%string])) []
    ["a"%string] (-1) ["a"; "b"]%string); try reflexivity. discriminate.
Defined.

Lemma shipped_selection_witness :
  let w := World (Sys 0 ∅ ∅ ∅ ∅ ∅ ∅ [] [] 0 [] [] [] []) (Threads false [] ∅ []) None None : world slots in
  exists g1 w1, (dsched_dmeta_base_open (mret 0) ;;
    dsched_dmeta_base_select [dmeta_pri_component plain (sample_env 1)]) (static_init, w)
    = Done (0, (g1, w1)) /\ pri_evbase w1 = Some 1.
Proof.
  intros w.
  destruct (shipped_selection (P := slots) plain (sample_env 1) (sample_env 2) None w (Some 1)
    (Threads true [Tracker 1 (Some "dmeta-pri"%string) (Some 1) true true true true] {[1]} [])
    (Some 2)
    (Threads true [Tracker 1 (Some "dmeta-pri"%string) (Some 1) true true true true;
                   Tracker 1 (Some "dsched-fifo"%string) (Some 2) true true true true] {[2; 1]} [])
    0 0) as (g1 & g2 & w1 & w2 & E & _ & Hb & _); [reflexivity..|].
  exists g1, w1. split; [exact E|exact Hb].
Defined.
