(* ===== verification/Query.v ===== *)
(** Queries: src/tools/dsched/queries.c.

    [dsched_query_fn] is the upcall; [_query] answers it in the scheduler's thread from
    the global arrays of nodes and topologies. An array that comes with a count, of
    queries or of qualifiers, is a list. *)

From S2P Require Import Prelude Pmix Constants Attr Globals Objects.

(** An entry of an information list under construction. *)
Inductive ritem :=
| RString (k : pmix_key) (s : cstr)
| RInt (k : pmix_key) (z : Z)
| RArray (k : pmix_key) (l : list ritem).

(** The library functions a query uses: the status PMIx_Info_list_add returns (the
    entry is on the list when it is success), the status and the size left in the
    data array by PMIx_Info_list_convert, and the XML hwloc exports a topology to. *)
Class QueryLib `{PMIx} := {
  info_list_add_rc : list ritem -> ritem -> Z;
  info_list_convert_rc : list ritem -> Z * Z;
  xml_export : option Z -> bool -> option string;
  (** The data array PMIx_Info_list_add copies into an entry. *)
  array_copy : list ritem -> nat;
  info_list_convert_size : forall l n,
    info_list_convert_rc l = (PMIX_SUCCESS, n) -> n = Z.of_nat (length l)
}.

(** A list that was released is [None]. *)
Definition info_list : Type := option (list ritem).

Section Query.
Context {P : Type -> Type} `{PArray P} `{QueryLib}.
Context (g : host) (pool : P dsched_node_t) (topologies : P dsched_topology_t).

Definition PMIx_Info_list_start : info_list := Some [].
Definition PMIx_Info_list_add (l : info_list) (x : ritem) : outcome (Z * info_list) :=
  match l with
  | None => Fault UseAfterFree
  | Some l =>
      let rc := info_list_add_rc l x in Done (rc, Some (if ok rc then l ++ [x] else l))
  end.
Definition PMIx_Info_list_convert (l : info_list) : outcome (Z * Z * list ritem) :=
  match l with
  | None => Fault UseAfterFree
  | Some l => let '(rc, size) := info_list_convert_rc l in
              Done (rc, size, if ok rc then l else [])
  end.
Definition PMIx_Info_list_release (l : info_list) : outcome info_list :=
  match l with None => Fault UseAfterFree | Some _ => Done None end.

(** The local variables that live across queries. *)
Record qvars := QVars { qv_ret : Z; qv_results : info_list; qv_node : option dsched_node_t }.
#[local] Instance eta_qvars : Eta qvars := fun v => QVars (qv_ret v) (qv_results v) (qv_node v).

(** A step of the loops goes on, or is [goto done]. *)
Inductive flow := Next (v : qvars) | Goto_done (v : qvars).

(** The loop over the qualifiers: [hostname] and [nodeid], or the error met. *)
Fixpoint scan_qualifiers (l : list pmix_info) (hostname : cstr) (nodeid : Z)
    : outcome (Z * cstr * Z) :=
  match l with
  | [] => Done (PMIX_SUCCESS, hostname, nodeid)
  | q :: l =>
      match ikey q with
      | PMIX_HOSTNAME => h ← data_string (ivalue q); scan_qualifiers l h nodeid
      | PMIX_NODEID =>
          let '(ret, n) := get_number (ivalue q) PMIX_UINT32 in
          if ok ret then scan_qualifiers l hostname n else Done (ret, hostname, nodeid)
      | _ => scan_qualifiers l hostname nodeid
      end
  end.

Definition query_node (q : pmix_query) (v : qvars) : outcome flow :=
  match q_qualifiers q with
  | [] => Done (Next v)
  | l =>
      '(ret, hostname, nodeid) ← scan_qualifiers l None UINT32_MAX;
      if negb (ok ret) then Done (Goto_done (v <| qv_ret := ret |>)) else
      if bool_decide (hostname = None) && (nodeid =? UINT32_MAX) then Done (Next v) else
      node ← dsched_node_match g pool None hostname nodeid;
      let v := v <| qv_node := node |> in
      match node with
      | None => Done (Goto_done (v <| qv_ret := PMIX_ERR_BAD_PARAM |>))
      | Some _ => Done (Next v)
      end
  end.

(** PMIX_HWLOC_XML_V1 and PMIX_HWLOC_XML_V2. *)
Definition query_topology (k : pmix_key) (v1 : bool) (v : qvars) : outcome flow :=
  match (n ← qv_node v; t ← node_topology n; topo_topo t) with
  | None => Done (Goto_done (v <| qv_ret := PMIX_ERR_BAD_PARAM |>))
  | Some topo =>
      match xml_export (Some topo) v1 with
      | None => Done (Next v)
      | Some xml =>
          '(rc, results) ← PMIx_Info_list_add (qv_results v) (RString k (Some xml));
          let v := v <| qv_results := results |> in
          if ok rc then Done (Next v) else Done (Goto_done (v <| qv_ret := rc |>))
      end
  end.

(** The entry of one node: its name, its aliases, the index of its topology. *)
Definition node_info (node : dsched_node_t) : outcome (list ritem) :=
  '(_, l) ← PMIx_Info_list_add PMIx_Info_list_start (RString PMIX_HOSTNAME (node_name node));
  '(_, l) ← (match node_aliases node with
             | Some a => PMIx_Info_list_add l (RString PMIX_HOSTNAME_ALIASES (Some (argv_join a ",")))
             | None => Done (PMIX_SUCCESS, l)
             end);
  match node_topology node with
  | None => Fault NullDeref
  | Some t =>
      '(_, l) ← PMIx_Info_list_add l (RInt PMIX_TOPOLOGY_INDEX (topo_index t));
      '(_, _, dry) ← PMIx_Info_list_convert l;
      _ ← PMIx_Info_list_release l;
      Done dry
  end.

Fixpoint add_nodes (nodes : list dsched_node_t) (nodelist : info_list) : outcome info_list :=
  match nodes with
  | [] => Done nodelist
  | node :: nodes =>
      dry ← node_info node;
      '(_, nodelist) ← PMIx_Info_list_add nodelist (RArray PMIX_NODE_INFO dry);
      add_nodes nodes nodelist
  end.

Fixpoint add_topologies (topos : list dsched_topology_t) (nodelist : info_list)
    : outcome info_list :=
  match topos with
  | [] => Done nodelist
  | topo :: topos =>
      match xml_export (topo_topo topo) false with
      | None => add_topologies topos nodelist
      | Some str =>
          '(_, nodelist) ← PMIx_Info_list_add nodelist (RString PMIX_HWLOC_XML_V2 (Some str));
          add_topologies topos nodelist
      end
  end.

(** What the loop over the array of nodes leaves in [node]: its last slot. *)
Definition last_slot : option dsched_node_t -> option dsched_node_t := fun node =>
  if pa_size pool =? 0 then node else pa_get pool (pa_size pool - 1).

(** PMIX_QUERY_ALLOCATION. The array is added to [nodelist], not to [results]. *)
Definition query_allocation (v : qvars) : outcome flow :=
  nodelist ← add_nodes (pa_items pool) PMIx_Info_list_start;
  let v := v <| qv_node := last_slot (qv_node v) |> in
  nodelist ← add_topologies (pa_items topologies) nodelist;
  '(_, _, dry) ← PMIx_Info_list_convert nodelist;
  nodelist ← PMIx_Info_list_release nodelist;
  '(rc, nodelist) ← PMIx_Info_list_add nodelist (RArray PMIX_QUERY_ALLOCATION dry);
  if ok rc then Done (Next v) else Done (Goto_done v).

Definition query_key (k : pmix_key) (v : qvars) : outcome flow :=
  match k with
  | PMIX_HWLOC_XML_V1 => query_topology PMIX_HWLOC_XML_V1 true v
  | PMIX_HWLOC_XML_V2 => query_topology PMIX_HWLOC_XML_V2 false v
  | PMIX_QUERY_ALLOCATION => query_allocation v
  | _ => Done (Next v)
  end.

Fixpoint query_keys (ks : list pmix_key) (v : qvars) : outcome flow :=
  match ks with
  | [] => Done (Next v)
  | k :: ks =>
      f ← query_key k v;
      match f with Next v => query_keys ks v | Goto_done v => Done (Goto_done v) end
  end.

(** The loop over the queries, up to [done:]. *)
Fixpoint query_loop (qs : list pmix_query) (v : qvars) : outcome qvars :=
  match qs with
  | [] => Done v
  | q :: qs =>
      f ← query_node q v;
      match f with
      | Goto_done v => Done v
      | Next v =>
          f ← query_keys (q_keys q) v;
          match f with Goto_done v => Done v | Next v => query_loop qs v end
      end
  end.

(** What the requestor's callback is called with. *)
Record qanswer := QAnswer { qa_status : Z; qa_info : list ritem; qa_ninfo : Z }.

(** The part after [done:]. *)
Definition query_done (ninfo : Z) (v : qvars) : outcome qanswer :=
  '(rc, size, info) ← PMIx_Info_list_convert (qv_results v);
  let ret := if ok rc then qv_ret v else rc in
  _ ← PMIx_Info_list_release (qv_results v);
  let ret := if ok ret then
               if size =? 0 then PMIX_ERR_NOT_FOUND
               else if size <? ninfo then PMIX_QUERY_PARTIAL_SUCCESS else PMIX_SUCCESS
             else ret in
  Done (QAnswer ret info size).

Definition answer_queries (queries : list pmix_query) (ninfo : Z) : outcome qanswer :=
  v ← query_loop queries (QVars PMIX_SUCCESS PMIx_Info_list_start None);
  query_done ninfo v.

(** PMIX_INFO_FREE: the value of each entry is destroyed. *)
Definition PMIX_INFO_FREE (l : list pmix_info) : outcome unit :=
  foldr (fun i rest => value_destruct (ivalue i) ;; rest) (Done tt) l.

(** The release function the callback is given: the answer and its caddy go. *)
Definition qrel (rcd : loc) : act (sys P) unit :=
  cd ← deref (A := dsched_shift_caddy_t P) (Some rcd);
  lift (PMIX_INFO_FREE (cd_info cd)) ;;
  release (A := dsched_shift_caddy_t P) sdes (Some rcd).

(** An entry as it is in the data array. *)
Definition info_of (x : ritem) : pmix_info :=
  match x with
  | RString k s => Info k (Value PMIX_STRING (UString (if s is Some s then SStr s else SNull)))
  | RInt k z => Info k (Value PMIX_INT (UNum PMIX_INT z))
  | RArray k l => Info k (Value PMIX_DATA_ARRAY (UDarray (Some (array_copy l))))
  end.

(** The whole handler. A second caddy carries the answer until [qrel]; the first one
    is released once the callback was called. *)
Definition _query (cd : loc) : act (sys P) qanswer :=
  c ← deref (A := dsched_shift_caddy_t P) (Some cd);
  a ← lift (answer_queries (cd_queries c) (cd_ninfo c));
  rcd ← new scon;
  assign (Some rcd) (fun c : dsched_shift_caddy_t P => c <| cd_ninfo := qa_ninfo a |>) ;;
  assign (Some rcd) (fun c : dsched_shift_caddy_t P => c <| cd_info := info_of <$> qa_info a |>) ;;
  call_cbfunc (cd_infocbfunc c) (qa_status a) (cd_cbdata c) ;;
  release sdes (Some cd) ;;
  mret a.

(** [None] is a null pointer. *)
Definition dsched_query_fn (proct : proc) (queries : option (list pmix_query)) (nqueries : Z)
    (cbfunc : option Z) (cbdata : Z) : act (sys P) Z :=
  match queries, cbfunc with
  | Some queries, Some _ =>
      cd ← new scon;
      assign (Some cd) (fun c : dsched_shift_caddy_t P => c <| cd_target := proct |>) ;;
      assign (Some cd) (fun c : dsched_shift_caddy_t P => c <| cd_queries := queries |>) ;;
      assign (Some cd) (fun c : dsched_shift_caddy_t P => c <| cd_nqueries := nqueries |>) ;;
      assign (Some cd) (fun c : dsched_shift_caddy_t P => c <| cd_infocbfunc := cbfunc |>) ;;
      assign (Some cd) (fun c : dsched_shift_caddy_t P => c <| cd_cbdata := cbdata |>) ;;
      DSCHED_THREADSHIFT (dsched_shift_caddy_t P) (Some cd) MainBase H_query ;;
      mret PMIX_SUCCESS
  | _, _ => mret PMIX_ERR_BAD_PARAM
  end.

(** ** Theorems *)

Lemma node_info_done node :
  (exists d, node_info node = Done d) \/ node_info node = Fault NullDeref.
Proof.
  unfold node_info, PMIx_Info_list_start. simpl.
  destruct (node_aliases node) as [a|]; simpl; (destruct (node_topology node) as [t|]; [left|by right]);
    simpl; destruct (info_list_convert_rc _) as [rc n]; by eexists.
Qed.

Lemma add_nodes_done nodes l :
  (exists l', add_nodes nodes (Some l) = Done (Some l')) \/
  add_nodes nodes (Some l) = Fault NullDeref.
Proof.
  revert l. induction nodes as [|node nodes IH]; intros l; [left; by exists l|]. simpl.
  destruct (node_info_done node) as [[d ->]| ->]; [|by right]. apply IH.
Qed.

Lemma add_topologies_done topos l :
  exists l', add_topologies topos (Some l) = Done (Some l').
Proof.
  revert l. induction topos as [|topo topos IH]; intros l; [by exists l|]. simpl.
  destruct (xml_export (topo_topo topo) false); apply IH.
Qed.

(** *** Queries that have an answer

    A host name has to come as a string, null or not, and the allocation may not be asked
    for. Then the handler meets no null pointer, whatever the nodes are, as long as they
    have names. *)

Definition is_string (v : pmix_value) : bool :=
  match vdata v with UZero | UString SNull | UString (SStr _) => true | _ => false end.

Definition qualifier_ok (i : pmix_info) : bool :=
  match ikey i with PMIX_HOSTNAME => is_string (ivalue i) | _ => true end.

Definition key_ok (k : pmix_key) : bool :=
  match k with PMIX_QUERY_ALLOCATION => false | _ => true end.

Definition query_ok (q : pmix_query) : bool :=
  forallb key_ok (q_keys q) && forallb qualifier_ok (q_qualifiers q).

Lemma is_string_read v : is_string v = true -> exists s, data_string v = Done s.
Proof. unfold is_string, data_string. destruct (vdata v) as [| | |[]| | | | | |]; try done; by eexists. Qed.

Lemma scan_qualifiers_done l hn id :
  forallb qualifier_ok l = true -> exists r, scan_qualifiers l hn id = Done r.
Proof.
  revert hn id. induction l as [|q l IH]; intros hn id; [by eexists|]. simpl.
  intros [Hq Hl]%andb_prop. unfold qualifier_ok in Hq. specialize (fun hn id => IH hn id Hl).
  destruct (ikey q); try apply IH.
  - destruct (is_string_read _ Hq) as [s ->]. apply IH.
  - destruct (get_number _ _) as [ret n]. destruct (ok ret); [apply IH|by eexists].
Qed.

Section Answerable.
Hypothesis named_host : is_Some (hostname g).
Hypothesis named_nodes : forall n, n ∈ pa_items pool -> is_Some (node_name n).

(** What a step leaves: the list under construction has not been released. *)
Definition building (f : flow) : Prop :=
  match f with Next v | Goto_done v => is_Some (qv_results v) end.

Lemma query_node_done q v : query_ok q = true -> is_Some (qv_results v) ->
  exists f, query_node q v = Done f /\ building f.
Proof.
  intros [_ Hq]%andb_prop Hv. unfold query_node. destruct (q_qualifiers q) as [|i l]; [by eexists|].
  destruct (scan_qualifiers_done (i :: l) None UINT32_MAX Hq) as [[[ret hn] id] ->]. cbn.
  destruct (ok ret); [|by eexists]. cbn. destruct (_ && _); [by eexists|].
  rewrite node_match_spec by done. cbn. case_match; by eexists.
Qed.

Lemma query_key_done k v : key_ok k = true -> is_Some (qv_results v) ->
  exists f, query_key k v = Done f /\ building f.
Proof.
  intros Hk Hv. pose proof Hv as [l Hl].
  assert (forall k v1, exists f, query_topology k v1 v = Done f /\ building f) as Ht.
  { intros k' v1. unfold query_topology. case_match; [|by eexists].
    destruct (xml_export _ v1); [|by eexists]. unfold PMIx_Info_list_add. rewrite Hl. cbn.
    destruct (ok _); (eexists; split; [reflexivity|by eexists]). }
  destruct k; try done; try apply Ht; by eexists.
Qed.

Lemma query_keys_done ks v : forallb key_ok ks = true -> is_Some (qv_results v) ->
  exists f, query_keys ks v = Done f /\ building f.
Proof.
  revert v. induction ks as [|k ks IH]; intros v; [by intros _ Hv; eexists|]. simpl.
  intros [Hk Hks]%andb_prop Hv. destruct (query_key_done k v Hk Hv) as (f & -> & Hf). simpl.
  destruct f as [v'|v']; [by apply IH|by eexists].
Qed.

Lemma query_loop_done qs v : forallb query_ok qs = true -> is_Some (qv_results v) ->
  exists v', query_loop qs v = Done v' /\ is_Some (qv_results v').
Proof.
  revert v. induction qs as [|q qs IH]; intros v; [by intros _ Hv; eexists|]. simpl.
  intros [Hq Hqs]%andb_prop Hv. destruct (query_node_done q v Hq Hv) as (f & -> & Hf). simpl.
  destruct f as [v1|v1]; [|by eexists].
  apply andb_prop in Hq as [Hk _]. destruct (query_keys_done _ v1 Hk Hf) as (f & -> & Hf'). simpl.
  destruct f as [v2|v2]; [by apply IH|by eexists].
Qed.

Lemma answer_queries_done qs ninfo :
  forallb query_ok qs = true -> exists a, answer_queries qs ninfo = Done a.
Proof.
  intros Hqs. unfold answer_queries, PMIx_Info_list_start.
  destruct (query_loop_done qs (QVars PMIX_SUCCESS (Some []) None) Hqs) as (v & -> & [l Hl]); [by eexists|].
  simpl. unfold query_done, PMIx_Info_list_convert. rewrite Hl.
  destruct (info_list_convert_rc l) as [rc n]. by eexists.
Qed.
End Answerable.

(** The handler, when it has an answer, as one update of the state: the requestor's
    callback is called once, the caddy of the query goes, and the one that carries the
    answer stays until [qrel]. *)
Definition answer_caddy (a : qanswer) : dsched_shift_caddy_t P :=
  scon <| cd_ninfo := qa_ninfo a |> <| cd_info := info_of <$> qa_info a |>.

Lemma query_run (s : sys P) cd c a :
  caddies s !! cd = Some (Cell 1 c) -> (cd < next s)%nat ->
  cd_allocations c = pa_empty -> cd_trk c = None ->
  answer_queries (cd_queries c) (cd_ninfo c) = Done a ->
  _query cd s = Done (a, s <| next := S (next s) |>
    <| caddies := delete cd (<[next s := Cell 1 (answer_caddy a)]> (caddies s)) |>
    <| replies := replies s ++ call (cd_infocbfunc c) (qa_status a) (cd_cbdata c) |>).
Proof.
  intros Hc Hlt Ha Ht E. unfold _query. run1. erewrite lift_run by exact E. repeat run1.
  rewrite !insert_insert_eq. unfold sdes, release_opt. rewrite Ha, Ht. by repeat run1.
Qed.

Lemma info_free_run l : PMIX_INFO_FREE (info_of <$> l) = Done tt.
Proof.
  unfold PMIX_INFO_FREE. induction l as [|x l IH]; [done|]. cbn. rewrite IH.
  destruct x as [k [s|]|k z|k r]; simpl; by rewrite value_destruct_frees.
Qed.

(** What the requestor is given can always be released by [qrel]. *)
Lemma qrel_run (s : sys P) rcd a :
  caddies s !! rcd = Some (Cell 1 (answer_caddy a)) ->
  qrel rcd s = Done (tt, s <| caddies := delete rcd (caddies s) |>).
Proof.
  intros Hc. unfold qrel. run1. erewrite lift_run by apply info_free_run.
  by eapply release_caddy_run.
Qed.

(** Nobody can query the allocation: whatever the nodes and the topologies are, a
    query with the key PMIX_QUERY_ALLOCATION either dereferences the null topology of
    a node or, when every node has one, adds the result to the list it has just
    released. *)
Theorem query_allocation_faults v :
  query_key PMIX_QUERY_ALLOCATION v = Fault NullDeref \/
  query_key PMIX_QUERY_ALLOCATION v = Fault UseAfterFree.
Proof.
  simpl. unfold query_allocation, PMIx_Info_list_start.
  destruct (add_nodes_done (pa_items pool) []) as [[l ->]| ->]; [right|by left]. simpl.
  destruct (add_topologies_done (pa_items topologies) l) as [l' ->]. simpl.
  by destruct (info_list_convert_rc l') as [rc n].
Qed.

(** The status of an answer. The number of results is compared with [cd->ninfo],
    which [dsched_query_fn] leaves at zero: an answer that leaves out some of the keys
    asked for is reported as a full success, never as a partial one; and a status
    set while the queries were examined is lost when the conversion fails. *)
Theorem query_status v l rc n :
  qv_results v = Some l -> info_list_convert_rc l = (rc, n) ->
  query_done (cd_ninfo (scon (P := P))) v = Done (QAnswer
    (if ok rc then
       if ok (qv_ret v) then if n =? 0 then PMIX_ERR_NOT_FOUND else PMIX_SUCCESS else qv_ret v
     else rc)
    (if ok rc then l else []) n).
Proof.
  intros Hl Hc. unfold query_done, PMIx_Info_list_convert, PMIx_Info_list_release. rewrite Hl, Hc.
  simpl. destruct (ok rc) eqn:Er; [|by rewrite Er].
  destruct (ok (qv_ret v)); [|done]. apply ok_true in Er. subst rc.
  apply info_list_convert_size in Hc. subst n.
  destruct (Z.ltb_spec (Z.of_nat (length l)) 0); [lia|done].
Qed.

(** The node one query names is still the node of the next one: a query for a
    topology without any qualifier, an error on its own, is answered with the
    topology of the node that the query before it named. *)
Theorem stale_node h n t topo xml :
  dsched_node_match g pool None (Some h) UINT32_MAX = Done (Some n) ->
  node_topology n = Some t -> topo_topo t = Some topo -> xml_export (Some topo) false = Some xml ->
  info_list_add_rc [] (RString PMIX_HWLOC_XML_V2 (Some xml)) = PMIX_SUCCESS ->
  let v := QVars PMIX_SUCCESS PMIx_Info_list_start None in
  let named := Query [] [Info PMIX_HOSTNAME (Value PMIX_STRING (UString (SStr h)))] in
  let unnamed := Query [PMIX_HWLOC_XML_V2] [] in
  query_loop [unnamed] v = Done (v <| qv_ret := PMIX_ERR_BAD_PARAM |>) /\
  query_loop [named; unnamed] v =
    Done (QVars PMIX_SUCCESS (Some [RString PMIX_HWLOC_XML_V2 (Some xml)]) (Some n)).
Proof.
  intros Hn Ht Htt Hx Ha v named unnamed. split; [done|].
  simpl. unfold query_node. simpl. rewrite ok_success. simpl. rewrite Hn. simpl.
  unfold query_topology. simpl. rewrite Ht. simpl. rewrite Htt. simpl. rewrite Hx. simpl. rewrite Ha.
  by rewrite ok_success.
Qed.
End Query.

(** ** Examples *)

#[local] Existing Instance sample_pmix.

#[local] Instance sample_query_lib : QueryLib.
Proof.
  refine {|
    info_list_add_rc := fun _ _ => 0;
    info_list_convert_rc := fun l => (0, Z.of_nat (length l));
    array_copy := fun l => length l;
    xml_export := fun t _ => match t with Some _ => Some "<topology/>"%string | None => None end
  |}.
  intros l n. simpl. by intros [= <-].
Defined.

Definition topo_node : dsched_node_t :=
  (sample_node "a" []) <| node_topology := Some (Topology 0 (Some 9) None) |>.

Lemma query_status_witness :
  query_done 0 (QVars 0 (Some [RInt PMIX_TOPOLOGY_INDEX 1]) None) =
  Done (QAnswer 0 [RInt PMIX_TOPOLOGY_INDEX 1] 1).
Proof.
  exact (query_status (P := slots) (QVars 0 (Some [RInt PMIX_TOPOLOGY_INDEX 1]) None)
    [RInt PMIX_TOPOLOGY_INDEX 1] 0 1 eq_refl eq_refl).
Defined.

Lemma stale_node_witness :
  query_loop (P := slots) (Host (Some "me"%string) None) [Some topo_node] []
    [Query [] [Info PMIX_HOSTNAME (Value PMIX_STRING (UString (SStr "a")))];
     Query [PMIX_HWLOC_XML_V2] []] (QVars 0 (Some []) None) =
  Done (QVars 0 (Some [RString PMIX_HWLOC_XML_V2 (Some "<topology/>"%string)]) (Some topo_node)).
Proof.
  exact (proj2 (stale_node (P := slots) (Host (Some "me"%string) None) [Some topo_node] [] "a"
    topo_node (Topology 0 (Some 9) None) 9 "<topology/>" eq_refl eq_refl eq_refl eq_refl eq_refl)).
Defined.
