(* ===== verification/Server.v ===== *)
(** The PMIx server side of the daemon: src/tools/dsched/server.c (start-up, the
    attributes it supports, lost connections) and src/tools/dsched/backend.c (tools
    that connect). *)

From S2P Require Import Prelude Pmix Constants Attr Globals Objects.

(** An entry of the list the server is initialised with; [SBool k None] is a null data
    pointer. *)
Inductive sentry :=
| SBool (k : pmix_key) (b : option bool)
| SString (k : pmix_key) (s : cstr)
| SRank (k : pmix_key) (r : Z)
| SPointer (k : pmix_key) (p : Z).

(** The library calls of the start-up and of a tool connection, by their statuses. *)
Class ServerLib `{PMIx} := {
  list_add_rc : list sentry -> sentry -> Z;
  list_convert_rc : list sentry -> Z;
  tool_init_rc : list sentry -> Z;
  register_attributes_rc : string -> list string -> Z;
  register_handler_rc : Z;
  set_server_module_rc : Z;
  (** PMIx_server_register_nspace: its status, and the one its callback reports. *)
  register_nspace_rc : string -> Z * Z
}.

(** What the start-up has asked of the library. *)
Inductive libcall :=
| L_tool_init (infos : list sentry)
| L_register_attributes (function : string) (attrs : list string)
| L_register_event_handler
| L_set_server_module.

(** The part of [dsched_globals] the server uses. *)
Record server := Srv {
  server_initialized : bool;
  myid : proc;
  sv_hostname : cstr;
  sv_aliases : option (list string);
  keep_fqdn_hostnames : bool;
  evbase : Z;
  tmpdir : cstr;
  report_uri : cstr;
  sv_progress_thread_cpus : cstr;
  sv_bind_reqd : bool;
  tools : list proc;
  controller_connected : bool;
  syscontroller : proc
}.
#[export] Instance eta_server : Eta server := fun s =>
  Srv (server_initialized s) (myid s) (sv_hostname s) (sv_aliases s) (keep_fqdn_hostnames s)
    (evbase s) (tmpdir s) (report_uri s) (sv_progress_thread_cpus s) (sv_bind_reqd s) (tools s)
    (controller_connected s) (syscontroller s).

(** ** Start-up *)

Definition query_attrs : list string :=
  ["PMIX_QUERY_NAMESPACES"; "PMIX_QUERY_NAMESPACE_INFO"; "PMIX_QUERY_SPAWN_SUPPORT";
   "PMIX_QUERY_DEBUG_SUPPORT"; "PMIX_HWLOC_XML_V1"; "PMIX_HWLOC_XML_V2"; "PMIX_PROC_URI";
   "PMIX_QUERY_PROC_TABLE"; "PMIX_QUERY_LOCAL_PROC_TABLE"; "PMIX_QUERY_NUM_PSETS";
   "PMIX_QUERY_PSET_NAMES"; "PMIX_JOB_SIZE"; "PMIX_QUERY_NUM_GROUPS";
   "PMIX_QUERY_GROUP_NAMES"; "PMIX_QUERY_GROUP_MEMBERSHIP"]%string.

(** The entry for session control depends on the version of the library. *)
Definition dsched_attributes (session_control : bool) : list (string * list string) :=
  [("PMIx_Query_info", query_attrs);
   ("PMIx_Query_info_nb",
    app query_attrs ["PMIX_QUERY_ALLOCATION"; "PMIX_QUERY_ALLOC_STATUS"]);
   ("PMIx_Log", ["NONE"]); ("PMIx_Log_nb", ["NONE"]);
   ("PMIx_Register_event_handler", ["NONE"]); ("PMIx_Deregister_event_handler", ["N/A"]);
   ("PMIx_Notify_event", ["NONE"]);
   ("PMIx_Allocate_resources",
    ["PMIX_ALLOC_REQ_ID"; "PMIX_ALLOC_NUM_NODES"; "PMIX_ALLOC_NODE_LIST";
     "PMIX_ALLOC_NUM_CPUS"; "PMIX_ALLOC_NUM_CPU_LIST"; "PMIX_ALLOC_CPU_LIST";
     "PMIX_ALLOC_MEM_SIZE"; "PMIX_ALLOC_TIME"; "PMIX_ALLOC_QUEUE";
     "PMIX_ALLOC_PREEMPTIBLE"])]%string ++
  (if session_control
   then [("PMIx_Session_control",
          ["PMIX_SESSION_CTRL_ID"; "PMIX_SESSION_APP"; "PMIX_SESSION_PAUSE";
           "PMIX_SESSION_RESUME"; "PMIX_SESSION_TERMINATE"; "PMIX_SESSION_PREEMPT";
           "PMIX_SESSION_RESTORE"; "PMIX_SESSION_SIGNAL"; "PMIX_SESSION_COMPLETE"])]%string
   else []) ++
  [(""%string, [])].

Section Server.
Context {P : Type -> Type} `{PArray P} `{ServerLib}.

(** The steps of the start-up: a status that ends it, or what it goes on with. *)
Definition step (A : Type) : Type := Z + A.
#[local] Instance step_ret : MRet step := fun A a => inr a.
#[local] Instance step_bind : MBind step := fun A B k m =>
  match m with inl rc => inl rc | inr a => k a end.

Definition add_entry (e : sentry) (l : list sentry) : step (list sentry) :=
  let rc := list_add_rc l e in if ok rc then inr (l ++ [e]) else inl rc.

(** [PMIx_Info_list_add] with its status ignored. *)
Definition add_unchecked (e : sentry) (l : list sentry) : list sentry :=
  if ok (list_add_rc l e) then l ++ [e] else l.

(** [if (NULL != s)] around an addition. *)
Definition add_string_opt (k : pmix_key) (s : cstr) (l : list sentry) : step (list sentry) :=
  if s then add_entry (SString k s) l else inr l.

Definition server_infos (g : server) : step (list sentry) :=
  l ← add_entry (SBool PMIX_SERVER_SCHEDULER None) [];
  l ← add_entry (SString PMIX_TOOL_NSPACE (Some (nspace (myid g)))) l;
  l ← add_entry (SRank PMIX_TOOL_RANK (rank (myid g))) l;
  l ← add_entry (SString PMIX_HOSTNAME (sv_hostname g)) l;
  l ← add_string_opt PMIX_HOSTNAME_ALIASES ((fun a => argv_join a ",") <$> sv_aliases g) l;
  l ← add_entry (SBool PMIX_HOSTNAME_KEEP_FQDN (Some (keep_fqdn_hostnames g))) l;
  l ← add_entry (SPointer PMIX_EXTERNAL_AUX_EVENT_BASE (evbase g)) l;
  l ← add_entry (SString PMIX_SERVER_TMPDIR (tmpdir g)) l;
  l ← add_string_opt PMIX_TCP_REPORT_URI (report_uri g) l;
  let l := if sv_progress_thread_cpus g
           then add_unchecked (SBool PMIX_BIND_REQUIRED (Some (sv_bind_reqd g)))
                  (add_unchecked (SString PMIX_BIND_PROGRESS_THREAD (sv_progress_thread_cpus g)) l)
           else l in
  l ← add_entry (SBool PMIX_SERVER_REMOTE_CONNECTIONS None) l;
  l ← add_entry (SBool PMIX_CONNECT_TO_SYS_CONTROLLER None) l;
  add_entry (SBool PMIX_TOOL_CONNECT_OPTIONAL None) l.

(** The loop over the attribute table, up to its entry with an empty name. *)
Fixpoint register_attributes (table : list (string * list string)) : Z * list libcall :=
  match table with
  | [] => (PMIX_SUCCESS, [])
  | (function, attrs) :: table =>
      if String.eqb function "" then (PMIX_SUCCESS, []) else
      let rc := register_attributes_rc function attrs in
      if ok rc
      then let '(rc, calls) := register_attributes table in
           (rc, L_register_attributes function attrs :: calls)
      else (rc, [L_register_attributes function attrs])
  end.

(** The status, the calls made, and the globals. *)
Definition dsched_server_init (session_control : bool) (g : server) : Z * list libcall * server :=
  if server_initialized g then (PMIX_SUCCESS, [], g) else
  let g := g <| server_initialized := true |> in
  match server_infos g with
  | inl rc => (rc, [], g)
  | inr infos =>
      let rc := list_convert_rc infos in
      if negb (ok rc) then (rc, [], g) else
      let rc := tool_init_rc infos in
      if negb (ok rc) then (rc, [L_tool_init infos], g) else
      let '(rc, calls) := register_attributes (dsched_attributes session_control) in
      if negb (ok rc) then (rc, L_tool_init infos :: calls, g) else
      let calls := L_tool_init infos :: calls ++ [L_register_event_handler] in
      if negb (ok register_handler_rc) then (register_handler_rc, calls, g) else
      let calls := calls ++ [L_set_server_module] in
      if negb (ok set_server_module_rc) then (set_server_module_rc, calls, g) else
      (PMIX_SUCCESS, calls, g)
  end.

(** Whether PMIx_tool_finalize is called. *)
Definition dsched_server_finalize (g : server) : bool := server_initialized g.

(** ** Connections *)

Record daemon := Daemon { dm_sys : sys P; dm_srv : server }.
#[export] Instance eta_daemon : Eta daemon := fun d => Daemon (dm_sys d) (dm_srv d).

Definition in_sys {A} (m : act (sys P) A) : act daemon A := fun d =>
  match m (dm_sys d) with
  | Done (a, s) => Done (a, d <| dm_sys := s |>)
  | Fault f => Fault f
  end.
Definition on_srv (f : server -> server) : act daemon unit :=
  modify (fun d => d <| dm_srv := f (dm_srv d) |>).

(** The first attached tool that is [source] leaves the list. *)
Fixpoint remove_tool (source : proc) (l : list proc) : list proc :=
  match l with
  | [] => []
  | tl :: l => if check_procid tl source then l else tl :: remove_tool source l
  end.

Definition lost_connection_hdlr (source : proc) (cbfunc : option Z) (cbdata : Z)
    : act daemon unit :=
  on_srv (fun g => g <| tools := remove_tool source (tools g) |>) ;;
  in_sys (call_cbfunc cbfunc PMIX_EVENT_ACTION_COMPLETE cbdata).

Definition register_tool (ns : string) : act daemon Z :=
  on_srv (fun g => g <| tools := tools g ++ [load_procid (Some ns) 0] |>) ;;
  let '(ret, status) := register_nspace_rc ns in
  mret (if ok ret then status else ret).

(** The loop over the directives: the caddy it fills, or the error that ends it. *)
Definition tool_number (c : dsched_shift_caddy_t P) (i : pmix_info) (t : dtype)
    (f : Z -> dsched_shift_caddy_t P -> dsched_shift_caddy_t P)
    : outcome (Z + dsched_shift_caddy_t P) :=
  let '(xrc, n) := get_number (ivalue i) t in
  Done (if ok xrc then inr (f n c) else inl xrc).

Definition tool_info (c : dsched_shift_caddy_t P) (i : pmix_info)
    : outcome (Z + dsched_shift_caddy_t P) :=
  match ikey i with
  | PMIX_EVENT_SILENT_TERMINATION => Done (inr (c <| cd_flag := value_true (ivalue i) |>))
  | PMIX_USERID => tool_number c i PMIX_UINT32 (fun n c => c <| cd_uid := n |>)
  | PMIX_GRPID => tool_number c i PMIX_UINT32 (fun n c => c <| cd_gid := n |>)
  | PMIX_NSPACE =>
      x ← data_string (ivalue i);
      Done (inr (c <| cd_target := Proc (load_nspace (default ""%string x)) (rank (cd_target c)) |>))
  | PMIX_RANK =>
      r ← data_rank (ivalue i);
      Done (inr (c <| cd_target := Proc (nspace (cd_target c)) r |>))
  | PMIX_HOSTNAME =>
      x ← data_string (ivalue i); x ← strdup x; Done (inr (c <| cd_hostname := x |>))
  | PMIX_CMD_LINE =>
      x ← data_string (ivalue i); x ← strdup x; Done (inr (c <| cd_cmdline := x |>))
  | PMIX_LAUNCHER => Done (inr (c <| cd_launcher := value_true (ivalue i) |>))
  | PMIX_SERVER_SYS_CONTROLLER => Done (inr (c <| cd_scheduler := value_true (ivalue i) |>))
  | PMIX_PROC_PID => tool_number c i PMIX_PID (fun n c => c <| cd_pid := n |>)
  | _ => Done (inr c)
  end.

Fixpoint tool_infos (c : dsched_shift_caddy_t P) (l : list pmix_info)
    : outcome (Z + dsched_shift_caddy_t P) :=
  match l with
  | [] => Done (inr c)
  | i :: l =>
      r ← tool_info c i;
      match r with inl xrc => Done (inl xrc) | inr c => tool_infos c l end
  end.

(** Directives that can be read: strings and ranks come as such, and a host name and a
    command line are not null. *)
Definition tool_info_ok (i : pmix_info) : bool :=
  match ikey i, vdata (ivalue i) with
  | PMIX_NSPACE, (UZero | UString SNull | UString (SStr _)) => true
  | PMIX_NSPACE, _ => false
  | PMIX_RANK, (UZero | UNum PMIX_PROC_RANK _) => true
  | PMIX_RANK, _ => false
  | (PMIX_HOSTNAME | PMIX_CMD_LINE), UString (SStr _) => true
  | (PMIX_HOSTNAME | PMIX_CMD_LINE), _ => false
  | _, _ => true
  end.

Lemma tool_infos_done l c : forallb tool_info_ok l = true -> exists r, tool_infos c l = Done r.
Proof.
  revert c. induction l as [|i l IH]; intros c; [by eexists|]. simpl.
  intros [Hi Hl]%andb_prop.
  assert (exists r, tool_info c i = Done r) as [r ->].
  { unfold tool_info, tool_info_ok, tool_number, data_string, data_rank in *.
    destruct (ikey i); try (by eexists); try (destruct (get_number _ _); by eexists);
      destruct (vdata (ivalue i)) as [| |t z|[]| | | | | |]; try discriminate Hi; try (by eexists);
      destruct t; try discriminate Hi; by eexists. }
  simpl. destruct r; [by eexists|by apply IH].
Qed.

(** The status a tool is answered with. *)
Definition tool_status (c : dsched_shift_caddy_t P) : act daemon Z :=
  if nspace_invalid (nspace (cd_target c)) || (rank (cd_target c) =? PMIX_RANK_INVALID)
  then mret PMIX_ERR_BAD_PARAM
  else register_tool (nspace (cd_target c)).

Definition _toolconn (cd : loc) : act daemon unit :=
  c ← in_sys (deref (A := dsched_shift_caddy_t P) (Some cd));
  r ← lift (tool_infos c (cd_info c));
  match r with
  | inl xrc =>
      in_sys (call_cbfunc (cd_toolcbfunc c) xrc (cd_cbdata c)) ;;
      in_sys (release (A := dsched_shift_caddy_t P) sdes (Some cd))
  | inr c =>
      in_sys (assign (Some cd) (fun _ => c)) ;;
      (if cd_scheduler c then
         on_srv (fun g => g <| controller_connected := true |>
                            <| syscontroller := load_procid (Some (nspace (cd_target c)))
                                                  (rank (cd_target c)) |>)
       else mret tt) ;;
      xrc ← tool_status c;
      in_sys (call_cbfunc (cd_toolcbfunc c) xrc (cd_cbdata c)) ;;
      in_sys (release (A := dsched_shift_caddy_t P) sdes (Some cd))
  end.

(** The caddy of a connection: the tool's rank is zero until it says otherwise. *)
Definition tool_caddy (info : list pmix_info) (ninfo : Z) (cbfunc : option Z) (cbdata : Z)
    : dsched_shift_caddy_t P :=
  (scon (P := P)) <| cd_info := info |> <| cd_ninfo := ninfo |> <| cd_toolcbfunc := cbfunc |>
    <| cd_cbdata := cbdata |> <| cd_target := Proc (nspace (load_procid None PMIX_RANK_INVALID)) 0 |>.

Definition dsched_tool_connected_fn (info : list pmix_info) (ninfo : Z) (cbfunc : option Z)
    (cbdata : Z) : act (sys P) Z :=
  cd ← new scon;
  assign (Some cd) (fun _ => tool_caddy info ninfo cbfunc cbdata) ;;
  DSCHED_THREADSHIFT (dsched_shift_caddy_t P) (Some cd) MainBase H_toolconn ;;
  mret PMIX_SUCCESS.

(** ** Theorems *)

Lemma register_attributes_ok table :
  (forall f attrs, register_attributes_rc f attrs = PMIX_SUCCESS) ->
  (forall f attrs, (f, attrs) ∈ table -> f <> ""%string) ->
  register_attributes (table ++ [(""%string, [])]) =
    (PMIX_SUCCESS, (fun e => L_register_attributes e.1 e.2) <$> table).
Proof.
  intros Hok Hne. induction table as [|[f attrs] table IH]; [done|]. simpl.
  rewrite Hok, ok_success.
  destruct (String.eqb_spec f "") as [->|_]; [by destruct (Hne "" attrs ltac:(set_solver))|].
  rewrite IH; [done|]. intros f' attrs' Hin. apply (Hne f' attrs'). set_solver.
Qed.

(** The list the server library is initialised with. *)
Definition expected_infos (g : server) : list sentry :=
  [SBool PMIX_SERVER_SCHEDULER None; SString PMIX_TOOL_NSPACE (Some (nspace (myid g)));
   SRank PMIX_TOOL_RANK (rank (myid g)); SString PMIX_HOSTNAME (sv_hostname g)] ++
  match sv_aliases g with
  | Some a => [SString PMIX_HOSTNAME_ALIASES (Some (argv_join a ","))] | None => [] end ++
  [SBool PMIX_HOSTNAME_KEEP_FQDN (Some (keep_fqdn_hostnames g));
   SPointer PMIX_EXTERNAL_AUX_EVENT_BASE (evbase g); SString PMIX_SERVER_TMPDIR (tmpdir g)] ++
  match report_uri g with
  | Some u => [SString PMIX_TCP_REPORT_URI (Some u)] | None => [] end ++
  match sv_progress_thread_cpus g with
  | Some c => [SString PMIX_BIND_PROGRESS_THREAD (Some c);
               SBool PMIX_BIND_REQUIRED (Some (sv_bind_reqd g))]
  | None => [] end ++
  [SBool PMIX_SERVER_REMOTE_CONNECTIONS None; SBool PMIX_CONNECT_TO_SYS_CONTROLLER None;
   SBool PMIX_TOOL_CONNECT_OPTIONAL None].

Lemma add_entry_ok e l : (forall l e, list_add_rc l e = PMIX_SUCCESS) -> add_entry e l = inr (l ++ [e]).
Proof. intros Hok. unfold add_entry. by rewrite Hok, ok_success. Qed.

Lemma server_infos_ok g :
  (forall l e, list_add_rc l e = PMIX_SUCCESS) -> server_infos g = inr (expected_infos g).
Proof.
  intros Hok. unfold server_infos, add_string_opt, add_unchecked, mbind, step_bind, expected_infos.
  rewrite !add_entry_ok by done.
  destruct (sv_aliases g), (report_uri g), (sv_progress_thread_cpus g); simpl;
    rewrite ?add_entry_ok, ?Hok, ?ok_success by done; simpl;
    rewrite ?add_entry_ok, ?Hok, ?ok_success by done; simpl;
    rewrite ?add_entry_ok, ?Hok, ?ok_success by done; done.
Qed.

(** C28: The start-up, when the library accepts everything: it is initialised once, as
    a scheduler that takes remote connections and does not require the system
    controller, with the identity, the names and the directories of this daemon; then
    every supported function is registered, in the order of the table, then the
    handler of lost connections, and the upcalls last of all. *)
Theorem server_init_calls sc g :
  server_initialized g = false ->
  (forall l e, list_add_rc l e = PMIX_SUCCESS) ->
  (forall l, list_convert_rc l = PMIX_SUCCESS) -> (forall l, tool_init_rc l = PMIX_SUCCESS) ->
  (forall f attrs, register_attributes_rc f attrs = PMIX_SUCCESS) ->
  register_handler_rc = PMIX_SUCCESS -> set_server_module_rc = PMIX_SUCCESS ->
  exists table, dsched_attributes sc = table ++ [(""%string, [])] /\
    dsched_server_init sc g =
      (PMIX_SUCCESS,
       L_tool_init (expected_infos g) ::
       ((fun e => L_register_attributes e.1 e.2) <$> table) ++
       [L_register_event_handler; L_set_server_module],
       g <| server_initialized := true |>).
Proof.
  intros Hi Ha Hc Ht Hr Hh Hm.
  exists (take (length (dsched_attributes sc) - 1) (dsched_attributes sc)).
  split; [by destruct sc|]. unfold dsched_server_init. rewrite Hi.
  rewrite server_infos_ok by done. simpl negb. rewrite Hc, Ht, ok_success. simpl negb. cbv iota.
  assert (dsched_attributes sc =
    take (length (dsched_attributes sc) - 1) (dsched_attributes sc) ++ [(""%string, [])])
    as Htab by (by destruct sc).
  rewrite Htab at 1. rewrite register_attributes_ok; [|done|].
  - rewrite ok_success, Hh, ok_success, Hm, ok_success. cbn [negb].
    by rewrite <- app_comm_cons, <- app_assoc.
  - intros f attrs Hin. destruct sc; vm_compute in Hin;
      repeat (apply elem_of_cons in Hin as [Hin|Hin]; [by simplify_eq|]); by apply elem_of_nil in Hin.
Qed.

(** A start-up that failed is taken for done: calling it again returns success
    without a single call to the library, because the flag is raised before anything
    is attempted and never lowered. *)
Theorem server_init_not_retried sc g rc calls g' :
  dsched_server_init sc g = (rc, calls, g') ->
  dsched_server_init sc g' = (PMIX_SUCCESS, [], g').
Proof.
  intros E. assert (server_initialized g' = true) as Hi.
  { revert E. unfold dsched_server_init. destruct (server_initialized g) eqn:Hg;
      [intros [= <- <- <-]; done|].
    destruct (server_infos _) as [rc0|infos]; [intros [= <- <- <-]; done|].
    destruct (negb (ok (list_convert_rc infos))); [intros [= <- <- <-]; done|].
    destruct (negb (ok (tool_init_rc infos))); [intros [= <- <- <-]; done|].
    destruct (register_attributes _) as [rc1 calls1].
    destruct (negb (ok rc1)); [intros [= <- <- <-]; done|].
    destruct (negb (ok register_handler_rc)); [intros [= <- <- <-]; done|].
    destruct (negb (ok set_server_module_rc)); intros [= <- <- <-]; done. }
  unfold dsched_server_init. by rewrite Hi.
Qed.

Lemma tool_info_reply c i c' :
  tool_info c i = Done (inr c') ->
  cd_toolcbfunc c' = cd_toolcbfunc c /\ cd_cbdata c' = cd_cbdata c /\
  cd_allocations c' = cd_allocations c /\ cd_trk c' = cd_trk c.
Proof.
  unfold tool_info, tool_number. intros E.
  destruct (ikey i); try (destruct (data_string (ivalue i)) as [[x|]|]; simpl in E);
    try (destruct (data_rank (ivalue i)); simpl in E);
    try (destruct (get_number (ivalue i) _) as [xrc n]; destruct (ok xrc));
    by simplify_eq/=.
Qed.

Lemma tool_infos_reply l c c' :
  tool_infos c l = Done (inr c') ->
  cd_toolcbfunc c' = cd_toolcbfunc c /\ cd_cbdata c' = cd_cbdata c /\
  cd_allocations c' = cd_allocations c /\ cd_trk c' = cd_trk c.
Proof.
  revert c. induction l as [|i l IH]; intros c; simpl; [by intros [= <-]|].
  destruct (tool_info c i) as [[xrc|c1]|] eqn:E; [done| |done].
  simpl. intros (-> & -> & -> & ->)%IH. by apply tool_info_reply in E.
Qed.

Lemma in_sys_run {A B} (m : act (sys P) A) (d : daemon) a s (k : A -> act daemon B) :
  m (dm_sys d) = Done (a, s) -> (in_sys m ≫= k) d = k a (d <| dm_sys := s |>).
Proof. intros E. unfold in_sys, mbind, act_bind. by rewrite E. Qed.

(** What a tool with the directives [r] is answered, and what it leaves behind. *)
Definition nameless (c : dsched_shift_caddy_t P) : bool :=
  nspace_invalid (nspace (cd_target c)) || (rank (cd_target c) =? PMIX_RANK_INVALID).

Definition tool_answer (r : Z + dsched_shift_caddy_t P) : Z :=
  match r with
  | inl xrc => xrc
  | inr c =>
      if nameless c then PMIX_ERR_BAD_PARAM
      else let '(ret, status) := register_nspace_rc (nspace (cd_target c)) in
           if ok ret then status else ret
  end.

Definition srv_connected (r : Z + dsched_shift_caddy_t P) (g : server) : server :=
  match r with
  | inl _ => g
  | inr c =>
      let g := if cd_scheduler c
        then g <| controller_connected := true |>
               <| syscontroller := load_procid (Some (nspace (cd_target c))) (rank (cd_target c)) |>
        else g in
      if nameless c then g
      else g <| tools := tools g ++ [load_procid (Some (nspace (cd_target c))) 0] |>
  end.

(** The whole handler, as one update of the state. *)
Lemma toolconn_run (s : sys P) g cd c r :
  caddies s !! cd = Some (Cell 1 c) ->
  cd_allocations c = pa_empty -> cd_trk c = None -> tool_infos c (cd_info c) = Done r ->
  _toolconn cd (Daemon s g) = Done (tt, Daemon
    (s <| replies := replies s ++ call (cd_toolcbfunc c) (tool_answer r) (cd_cbdata c) |>
       <| caddies := delete cd (caddies s) |>) (srv_connected r g)).
Proof.
  intros Hc Ha Ht Hr.
  assert (deref (A := dsched_shift_caddy_t P) (Some cd) s = Done (c, s)) as Hd
    by (rewrite <- bind_tail; by erewrite deref_run by exact Hc).
  unfold _toolconn. erewrite in_sys_run by exact Hd. erewrite lift_run by exact Hr.
  destruct r as [xrc|c'].
  - erewrite in_sys_run by apply call_run. rewrite <- bind_tail.
    erewrite in_sys_run by (eapply (release_caddy_run _ cd c); done). reflexivity.
  - destruct (tool_infos_reply _ _ _ Hr) as (Ef & Ed & Ea & Et).
    rewrite Ha in Ea. rewrite Ht in Et.
    assert (assign (Some cd) (fun _ => c') s =
      Done (tt, s <| caddies := <[cd := Cell 1 c']> (caddies s) |>)) as Has
      by (rewrite <- bind_tail; by erewrite assign_run by exact Hc).
    erewrite in_sys_run by exact Has.
    set (g' := if cd_scheduler c'
      then g <| controller_connected := true |>
             <| syscontroller := load_procid (Some (nspace (cd_target c'))) (rank (cd_target c')) |>
      else g).
    erewrite (act_bind_Done (if cd_scheduler c' then _ else _) _ _ tt
      (Daemon (s <| caddies := <[cd := Cell 1 c']> (caddies s) |>) g'))
      by (unfold g'; by destruct (cd_scheduler c')).
    assert (forall st g1, (in_sys (call_cbfunc (cd_toolcbfunc c') st (cd_cbdata c')) ;;
        in_sys (release (A := dsched_shift_caddy_t P) sdes (Some cd)))
        (Daemon (s <| caddies := <[cd := Cell 1 c']> (caddies s) |>) g1) =
      Done (tt, Daemon (s <| replies := replies s ++ call (cd_toolcbfunc c) st (cd_cbdata c) |>
                          <| caddies := delete cd (caddies s) |>) g1)) as Hend.
    { intros st g1. erewrite in_sys_run by apply call_run. rewrite <- bind_tail.
      erewrite in_sys_run by (eapply (release_caddy_run _ cd c');
        [simpl; apply lookup_insert_eq|done..]).
      unfold mret, act_ret. simpl. by rewrite delete_insert_eq, Ef, Ed. }
    unfold tool_status, tool_answer, srv_connected. fold (nameless c'). fold g'.
    destruct (nameless c').
    + rewrite ret_run. apply Hend.
    + unfold register_tool, on_srv. rewrite bind_assoc, modify_run.
      destruct (register_nspace_rc _) as [ret status]. rewrite ret_run. apply Hend.
Qed.


Lemma remove_tool_spec source l :
  (remove_tool source l = l /\ Forall (fun t => check_procid t source = false) l) \/
  exists l1 t l2, l = l1 ++ t :: l2 /\ remove_tool source l = l1 ++ l2 /\
    check_procid t source = true /\ Forall (fun t => check_procid t source = false) l1.
Proof.
  induction l as [|t l IH]; [left; split; [done|constructor]|]. simpl.
  destruct (check_procid t source) eqn:E.
  - right. exists [], t, l. by repeat constructor.
  - destruct IH as [[-> Hl]|(l1 & t' & l2 & -> & -> & Ht & Hl)].
    + left. split; [done|]. by constructor.
    + right. exists (t :: l1), t', l2. split_and!; [done..|]. by constructor.
Qed.

(** When a connection is lost, the event is acknowledged exactly once, and the
    first attached tool with the name of the source, and no other, is forgotten. *)
Theorem lost_connection_spec (d : daemon) source cbfunc cbdata :
  exists d', lost_connection_hdlr source cbfunc cbdata d = Done (tt, d') /\
    replies (dm_sys d') =
      replies (dm_sys d) ++ call cbfunc PMIX_EVENT_ACTION_COMPLETE cbdata /\
    ((Forall (fun t => check_procid t source = false) (tools (dm_srv d)) /\
      tools (dm_srv d') = tools (dm_srv d)) \/
     exists l1 t l2, tools (dm_srv d) = l1 ++ t :: l2 /\ tools (dm_srv d') = l1 ++ l2 /\
       check_procid t source = true /\ Forall (fun t => check_procid t source = false) l1).
Proof.
  eexists. split.
  { unfold lost_connection_hdlr, on_srv. rewrite modify_run, <- bind_tail.
    erewrite in_sys_run by apply call_run. reflexivity. }
  simpl. split; [done|]. destruct (remove_tool_spec source (tools (dm_srv d)))
    as [[-> ?]|(l1 & t & l2 & -> & -> & ? & ?)]; [by left|]. right. by exists l1, t, l2.
Qed.

(** A tool is recorded under rank zero, whatever its own rank: when the name it
    loses its connection under is not that of rank zero of its namespace, it stays in
    the list for ever, and so does a tool whose registration failed. *)
Theorem tool_never_forgotten (d : daemon) ns source cbfunc cbdata :
  check_procid (load_procid (Some ns) 0) source = false ->
  exists d', (register_tool ns ;; lost_connection_hdlr source cbfunc cbdata) d = Done (tt, d') /\
    load_procid (Some ns) 0 ∈ tools (dm_srv d').
Proof.
  intros Hne. unfold register_tool. rewrite bind_assoc. unfold on_srv. rewrite modify_run.
  destruct (register_nspace_rc ns) as [ret status]. rewrite ret_run.
  destruct (lost_connection_spec (d <| dm_srv := (fun g => g <| tools := tools g ++
    [load_procid (Some ns) 0] |>) (dm_srv d) |>) source cbfunc cbdata)
    as (d' & E & _ & [[_ Ht]|(l1 & t & l2 & El & Ht & Hc & _)]); exists d'; (split; [exact E|]);
    rewrite Ht; simpl in *; [set_solver|].
  destruct (decide (t = load_procid (Some ns) 0)) as [->|Hd]; [congruence|].
  assert (load_procid (Some ns) 0 ∈ l1 ++ t :: l2) as Hin by (rewrite <- El; set_solver).
  set_solver.
Qed.
End Server.

(** ** Examples *)

#[local] Existing Instance sample_pmix.

(** A library whose start-up succeeds, or fails with [rc]; registrations succeed. *)
Definition sample_server_lib (rc : Z) : ServerLib := {|
  list_add_rc := fun _ _ => 0;
  list_convert_rc := fun _ => 0;
  tool_init_rc := fun _ => rc;
  register_attributes_rc := fun _ _ => 0;
  register_handler_rc := 0;
  set_server_module_rc := 0;
  register_nspace_rc := fun _ => (0, 0)
|}.

Definition sample_srv : server :=
  Srv false (Proc "dsched" 0) (Some "me"%string) None true 1 (Some "/tmp"%string) None None false
    [Proc "other" 0] false (Proc "" 0).

Lemma server_init_calls_witness :
  exists calls g', @dsched_server_init _ (sample_server_lib 0) true sample_srv = (0, calls, g') /\
    length calls = 12%nat.
Proof.
  destruct (@server_init_calls _ (sample_server_lib 0) true sample_srv) as (table & Ht & E);
    try done.
  eexists _, _. split; [exact E|]. simpl. rewrite length_app, length_fmap.
  apply (f_equal length) in Ht. rewrite length_app in Ht. simpl in Ht. simpl. lia.
Defined.

Lemma server_init_not_retried_witness :
  @dsched_server_init _ (sample_server_lib (-25)) true
    (sample_srv <| server_initialized := true |>) =
  (0, [], sample_srv <| server_initialized := true |>).
Proof.
  apply (@server_init_not_retried _ (sample_server_lib (-25)) true sample_srv (-25)
    [L_tool_init (expected_infos sample_srv)] (sample_srv <| server_initialized := true |>)).
  reflexivity.
Defined.

(** A tool that gives its namespace and rank. *)
Definition sample_tool : list pmix_info :=
  [Info PMIX_NSPACE (Value PMIX_STRING (UString (SStr "tool")));
   Info PMIX_RANK (Value PMIX_PROC_RANK (UNum PMIX_PROC_RANK 3))].
Definition sample_daemon : daemon (P := slots) :=
  Daemon (Sys 1 ∅ ∅ {[0%nat := Cell 1 (tool_caddy sample_tool 2 (Some 7) 5)]} ∅ ∅ ∅ [] [] 0 [] [] [] [])
    sample_srv.


Lemma tool_never_forgotten_witness :
  exists d', (@register_tool slots _ (sample_server_lib 0) "tool" ;;
    lost_connection_hdlr (Proc "tool" 3) (Some 7) 5) sample_daemon = Done (tt, d') /\
    Proc "tool" 0 ∈ tools (dm_srv d').
Proof.
  apply (@tool_never_forgotten slots _ (sample_server_lib 0) sample_daemon "tool" (Proc "tool" 3)
    (Some 7) 5). reflexivity.
Defined.
