(* ===== verification/System.v ===== *)
(** The daemon once it is up: the upcalls of session.c, queries.c and backend.c in
    src/tools/dsched, the handlers they make run, the lost connections of server.c and
    the release of the answers to queries, interleaved in any order on one state.

    Pipeline states what it asks of the handlers of queries and connections as the
    interface [Sides]; the instance [system_sides] is the proof that [_query] and
    [_toolconn] meet it. The machine [lives] runs the real upcalls and the real
    handlers; it is tracked, step by step, by the machine of Pipeline. *)

From S2P Require Import Prelude Pmix Constants Attr Globals Objects Session Meta Fifo Pipeline Resources Query Server.

(** The array of nodes as a query reads it: every pointer dereferenced. *)
Class NodeView (P : Type -> Type) `{PArray P} := {
  view : gmap loc (cell dsched_node_t) -> P loc -> P dsched_node_t;
  view_size : forall m a, pa_size (view m a) = pa_size a;
  view_get : forall m a i, pa_get (view m a) i = (l ← pa_get a i; body <$> m !! l)
}.

Lemma slots_get_map {A B} (f : A -> option B) (a : list (option A)) i :
  slots_get (map (fun p => p ≫= f) a) i = slots_get a i ≫= f.
Proof.
  unfold slots_get. destruct (0 <=? i); [|done]. generalize (Z.to_nat i) as n. clear i.
  induction a as [|[x|] a IH]; intros [|n]; simpl; (done || apply IH).
Qed.

#[export] Instance slots_view : NodeView slots.
Proof.
  refine {| view := fun m (a : list (option loc)) =>
    map (fun p : option loc => p ≫= fun l => body <$> m !! l) a |}.
  - intros m a. simpl. by rewrite length_map.
  - intros m a i. apply (slots_get_map (fun l => body <$> m !! l)).
Defined.

Section System.
Context {P : Type -> Type} `{PArray P} `{PMIx} `{!QueryLib} `{!ServerLib} `{!NodeView P}.
Context (h : host) (topologies : P dsched_topology_t).

(** ** The handlers *)

(** What [dsched_globals.nodes] holds: a node that was freed may not be read. *)
Definition all_alive (m : gmap loc (cell dsched_node_t)) (a : P loc) : bool :=
  forallb (fun l => bool_decide (is_Some (m !! l))) (pa_items a).

Definition pool_seen : act (sys P) (P dsched_node_t) := fun s =>
  if all_alive (nodes s) (g_nodes s) then Done (view (nodes s) (g_nodes s), s)
  else Fault UseAfterFree.

Definition query_handler (cd : loc) : act (sys P) unit :=
  pool ← pool_seen; _query h pool topologies cd ;; mret tt.

(** [_toolconn] seen from the state it shares with the pipeline. *)
Definition toolconn_handler (g : server) (cd : loc) : act (sys P) unit := fun s =>
  match _toolconn cd (Daemon s g) with
  | Done (_, d) => Done (tt, dm_sys d)
  | Fault f => Fault f
  end.

Definition side_handlers (g : server) (f : handler) (cd : loc) : act (sys P) unit :=
  match f with
  | H_query => query_handler cd
  | H_toolconn => toolconn_handler g cd
  | _ => mret tt
  end.

Section Modules.
Context (metas_ : list (meta_module (P := P))) (scheds_ : list (sched_module (P := P))).

(** Run the [i]-th active event. *)
Definition run_next (i : nat) : act (daemon (P := P)) unit := fun d =>
  match events (dm_sys d) !! i with
  | Some (Ev _ H_toolconn cd) =>
      _toolconn cd (d <| dm_sys := (dm_sys d) <| events := delete i (events (dm_sys d)) |> |>)
  | _ => in_sys (run_nth (side_handlers (dm_srv d)) metas_ scheds_ i) d
  end.

Fixpoint run_all (n : nat) : act (daemon (P := P)) unit :=
  match n with O => mret tt | S n => run_next 0 ;; run_all n end.
End Modules.

(** ** The upcalls *)

Inductive request :=
| Allocates (client : proc) (directive' : Z) (data : list pmix_info) (cbfunc : option Z)
    (cbdata now : Z)
| Controls (client : proc) (sid : Z) (directives : list pmix_info) (cbfunc : option Z) (cbdata : Z)
| Queries (proct : proc) (queries : option (list pmix_query)) (nqueries : Z)
    (cbfunc : option Z) (cbdata : Z)
| Connects (info : list pmix_info) (ninfo : Z) (cbfunc : option Z) (cbdata : Z).

Definition receive (q : request) : act (daemon (P := P)) Z :=
  in_sys match q with
  | Allocates c dir data f x now => dsched_alloc_fn c dir data f x now
  | Controls c sid dirs f x => dsched_session_ctrl_fn c sid dirs f x
  | Queries p qs n f x => dsched_query_fn p qs n f x
  | Connects info n f x => dsched_tool_connected_fn info n f x
  end.

(** The upcall of the pipeline a request is, unless it is refused. *)
Definition query_caddy (p : proc) (qs : list pmix_query) (n : Z) (f : option Z) (x : Z)
    : dsched_shift_caddy_t P :=
  (scon (P := P)) <| cd_target := p |> <| cd_queries := qs |> <| cd_nqueries := n |>
    <| cd_infocbfunc := f |> <| cd_cbdata := x |>.

Definition upcall_of (q : request) : option (upcall (P := P)) :=
  match q with
  | Allocates c dir data f x now => Some (Up_alloc c dir data f x now)
  | Controls c sid dirs f x => Some (Up_ctrl c sid dirs f x)
  | Queries p (Some qs) n (Some f) x => Some (Up_other H_query (query_caddy p qs n (Some f) x))
  | Queries _ _ _ _ _ => None
  | Connects info n f x => Some (Up_other H_toolconn (tool_caddy info n f x))
  end.

Definition received (q : request) (s : sys P) : sys P :=
  match upcall_of q with Some u => after_submit u s | None => s end.

Lemma receive_run q (d : daemon (P := P)) :
  receive q d = Done (if upcall_of q then PMIX_SUCCESS else PMIX_ERR_BAD_PARAM,
                      d <| dm_sys := received q (dm_sys d) |>).
Proof.
  unfold receive, in_sys, received. destruct q as [c dir data f x now|c sid dirs f x|p [qs|] n [f|] x|info n f x];
    try (by destruct d).
  - pose proof (submit_run (Up_alloc (P := P) c dir data f x now) (dm_sys d)) as E.
    cbn [submit] in E. by rewrite E.
  - pose proof (submit_run (Up_ctrl (P := P) c sid dirs f x) (dm_sys d)) as E.
    cbn [submit] in E. by rewrite E.
  - assert (dsched_query_fn p (Some qs) n (Some f) x (dm_sys d) = Done (PMIX_SUCCESS,
      after_submit (Up_other H_query (query_caddy p qs n (Some f) x)) (dm_sys d))) as ->.
    { unfold dsched_query_fn. repeat run1. by rewrite !insert_insert_eq. }
    done.
  - assert (dsched_tool_connected_fn info n f x (dm_sys d) = Done (PMIX_SUCCESS,
      after_submit (Up_other H_toolconn (tool_caddy info n f x)) (dm_sys d))) as ->.
    { unfold dsched_tool_connected_fn. repeat run1. by rewrite !insert_insert_eq. }
    done.
Qed.

(** ** The interface *)

Section Interface.
Context (pool : gmap loc (cell dsched_node_t)) (arr : P loc).

Definition fresh_caddy (c : dsched_shift_caddy_t P) : Prop :=
  cd_allocations c = pa_empty /\ cd_trk c = None.

Definition query_answer (c : dsched_shift_caddy_t P) : outcome qanswer :=
  answer_queries h (view pool arr) topologies (cd_queries c) (cd_ninfo c).

(** The outcome of the directives of a tool that connects. *)
Definition tool_of (c : dsched_shift_caddy_t P) : Z + dsched_shift_caddy_t P :=
  match tool_infos c (cd_info c) with Done r => r | Fault _ => inl PMIX_SUCCESS end.

Definition system_ok (f : handler) (c : dsched_shift_caddy_t P) : Prop :=
  match f with
  | H_query => fresh_caddy c /\ all_alive pool arr = true /\ exists a, query_answer c = Done a
  | H_toolconn => fresh_caddy c /\ exists r, tool_infos c (cd_info c) = Done r
  | _ => False
  end.

Definition system_says (f : handler) (c : dsched_shift_caddy_t P) : list reply :=
  match f with
  | H_query =>
      match query_answer c with
      | Done a => call (cd_infocbfunc c) (qa_status a) (cd_cbdata c)
      | Fault _ => []
      end
  | H_toolconn => call (cd_toolcbfunc c) (tool_answer (tool_of c)) (cd_cbdata c)
  | _ => []
  end.

Lemma toolconn_step (g : server) cd c (s : sys P) :
  fresh_caddy c -> (exists r, tool_infos c (cd_info c) = Done r) ->
  caddies s !! cd = Some (Cell 1 c) ->
  _toolconn cd (Daemon s g) = Done (tt, Daemon
    (s <| replies := replies s ++ system_says H_toolconn c |> <| caddies := delete cd (caddies s) |>)
    (srv_connected (tool_of c) g)).
Proof.
  intros [Ha Ht] [r Hr] Hc. rewrite (toolconn_run s g cd c r) by done. simpl.
  unfold tool_of. by rewrite Hr.
Qed.

(** The answer of a query waits in a caddy for its release. *)
Definition system_new (f : handler) (c : dsched_shift_caddy_t P) : option (dsched_shift_caddy_t P) :=
  match f, query_answer c with H_query, Done a => Some (answer_caddy a) | _, _ => None end.

#[export] Instance system_sides (g : server) : Sides (side_handlers g) pool arr.
Proof.
  refine {| side_ok := system_ok; side_says := system_says; side_new := system_new |}.
  - intros [] c; simpl; first [tauto | intros _; tauto].
  - intros f c obj s Hok Hc Hlt Hn Hg. destruct f; try (by destruct Hok).
    + destruct Hok as ([Ha Ht] & Hal & a & Hans). unfold side_effect, system_new, system_says.
      simpl. unfold query_handler, pool_seen, mbind, act_bind. rewrite Hn, Hg, Hal, Hans.
      rewrite (query_run h (view pool arr) topologies s obj c a) by done.
      unfold mret, act_ret. simpl. by rewrite Hn, Hg.
    + destruct Hok as [Hf Hr]. simpl. unfold toolconn_handler.
      rewrite (toolconn_step g obj c s) by done. unfold side_effect, system_new.
      by destruct (query_answer c).
Defined.
End Interface.

(** ** The daemon's life *)

(** A connection that is lost: its peer, and what the library wants called. *)
Record loss := Loss { l_source : proc; l_cbfunc : option Z; l_cbdata : Z }.

Definition ack (l : loss) : list reply := call (l_cbfunc l) PMIX_EVENT_ACTION_COMPLETE (l_cbdata l).

(** Requests whose handlers can run to their end when the daemon works on the nodes it
    came up with: those the interface of Pipeline admits, and those that are refused. *)
Definition welcome (d0 : daemon (P := P)) (q : request) : Prop :=
  match upcall_of q with
  | Some u => acceptable (side_handlers (dm_srv d0))
      (pool := nodes (dm_sys d0)) (arr := g_nodes (dm_sys d0)) u
  | None => True
  end.

(** *** Requests as they come in

    What is asked of the arguments of an upcall: the directives of an allocation decode
    without an error and ask for a number of nodes that fits a C int, and the values of a
    query and of a tool's directives have the types their keys say. A query for the
    allocation is never answered. *)

Definition request_ok (q : request) : Prop :=
  match q with
  | Allocates c dir data f x now =>
      exists d, decode (alloc_request c dir data f x now) = Done d /\
        d_rcerr d = PMIX_SUCCESS /\ 0 <= num_nodes (d_req d)
  | Controls _ _ _ _ _ => True
  | Queries _ (Some qs) _ (Some _) _ => forallb query_ok qs = true
  | Queries _ _ _ _ _ => True
  | Connects info _ _ _ => forallb tool_info_ok info = true
  end.

(** The host and the nodes have names, and no node of the pool was freed. *)
Definition named_pool (pool : gmap loc (cell dsched_node_t)) (arr : P loc) : Prop :=
  is_Some (hostname h) /\
  forall l, l ∈ pa_items arr -> exists c, pool !! l = Some c /\ is_Some (node_name (body c)).

Lemma named_alive pool arr : named_pool pool arr -> all_alive pool arr = true.
Proof.
  intros [_ Hn]. unfold all_alive. apply forallb_forall. intros l Hl%list_elem_of_In.
  destruct (Hn l Hl) as (c & -> & _). by apply bool_decide_eq_true.
Qed.

Lemma named_view pool arr n :
  named_pool pool arr -> n ∈ pa_items (view pool arr) -> is_Some (node_name n).
Proof.
  intros [_ Hn] [i Hi]%elem_of_pa_items. rewrite view_get in Hi.
  apply bind_Some in Hi as (l & Hl & Hb). apply fmap_Some in Hb as (c & Hc & ->).
  destruct (Hn l) as (c' & Hc' & Hm); [apply elem_of_pa_items; eauto|]. by simplify_eq.
Qed.

(** No handler can fail on such a request. *)
Lemma request_welcome (d0 : daemon) q :
  named_pool (nodes (dm_sys d0)) (g_nodes (dm_sys d0)) -> request_ok q -> welcome d0 q.
Proof.
  intros Hp Hq. destruct q as [c dir data f x now|c sid dirs f x|p [qs|] n [f|] x|info n f x];
    unfold welcome; cbn [upcall_of]; try done.
  - split; [done|]. split; [by apply named_alive|]. unfold query_answer.
    apply answer_queries_done; [apply Hp|by intros; eapply named_view|exact Hq].
  - split; [done|]. by apply tool_infos_done.
Qed.

(** The caddy the handler of the [i]-th event gives to its requestor, whose library is
    to release it with [qrel]: that of the answer to a query. *)
Definition handed (i : nat) (d : daemon (P := P)) : list loc :=
  match events (dm_sys d) !! i with Some (Ev _ H_query _) => [next (dm_sys d)] | _ => [] end.

(** From [d0], after the requests [qs], the losses [ls] and [k] handlers, interleaved
    in any way, and the release of some answers, the daemon is in the state [d];
    [held] are the answers that were given and not released yet. *)
Inductive lives (metas_ : list (meta_module (P := P))) (scheds_ : list (sched_module (P := P)))
    (d0 : daemon) : list request -> list loss -> nat -> list loc -> daemon -> Prop :=
| lives_start : lives metas_ scheds_ d0 [] [] 0 [] d0
| lives_receive qs ls k held d q rc d' :
    lives metas_ scheds_ d0 qs ls k held d -> receive q d = Done (rc, d') ->
    lives metas_ scheds_ d0 (qs ++ [q]) ls k held d'
| lives_run qs ls k held d i d' :
    lives metas_ scheds_ d0 qs ls k held d -> (i < length (events (dm_sys d)))%nat ->
    run_next metas_ scheds_ i d = Done (tt, d') ->
    lives metas_ scheds_ d0 qs ls (S k) (held ++ handed i d) d'
| lives_lose qs ls k held d l d' :
    lives metas_ scheds_ d0 qs ls k held d ->
    lost_connection_hdlr (l_source l) (l_cbfunc l) (l_cbdata l) d = Done (tt, d') ->
    lives metas_ scheds_ d0 qs (ls ++ [l]) k held d'
| lives_release qs ls k held d i rcd d' :
    lives metas_ scheds_ d0 qs ls k held d -> held !! i = Some rcd ->
    in_sys (qrel rcd) d = Done (tt, d') ->
    lives metas_ scheds_ d0 qs ls k (delete i held) d'.

(** ** What the server remembers

    The history of the server's part of the globals: the tools that got connected,
    with what their directives came to, and the peers that were lost. *)
Inductive sact := S_connect (r : Z + dsched_shift_caddy_t P) | S_lose (source : proc).

Definition srv_act (g : server) (a : sact) : server :=
  match a with
  | S_connect r => srv_connected r g
  | S_lose p => g <| tools := remove_tool p (tools g) |>
  end.

Definition connects : list sact -> list (Z + dsched_shift_caddy_t P) :=
  omap (fun a => match a with S_connect r => Some r | S_lose _ => None end).
Definition losses : list sact -> list proc :=
  omap (fun a => match a with S_lose p => Some p | S_connect _ => None end).

Definition connecting (u : upcall (P := P)) : list (Z + dsched_shift_caddy_t P) :=
  match u with Up_other H_toolconn c => [tool_of c] | _ => [] end.
Definition t_connecting (t : token (P := P)) : list (Z + dsched_shift_caddy_t P) :=
  match t_stage t with SOther H_toolconn c => [tool_of c] | _ => [] end.

(** ** The answers to queries *)

Section Answers.
Context (pool : gmap loc (cell dsched_node_t)) (arr : P loc) (g : server).

#[local] Abbreviation others := (side_handlers g).
#[local] Abbreviation after := (after_run others (pool := pool) (arr := arr)).
#[local] Abbreviation new_of := (side_new others (pool := pool) (arr := arr)).

Definition u_answers (u : upcall (P := P)) : nat :=
  match u with Up_other h c => if new_of h c then 1 else 0 | _ => 0 end.
Definition t_answers (t : token (P := P)) : nat :=
  match t_stage t with SOther h c => if new_of h c then 1 else 0 | _ => 0 end.

(** The answers given are caddies of their own, that no request in flight has. *)
Record holding (held : list loc) (s : sys P) (ts : list (token (P := P))) : Prop := {
  ho_caddy l : l ∈ held -> exists a, caddies s !! l = Some (Cell 1 (answer_caddy a));
  ho_fresh l : l ∈ held -> (l < next s)%nat;
  ho_apart l : l ∈ held -> l ∉ owned ts;
  ho_nodup : NoDup held
}.

(** Steps that leave the answers alone. *)
Lemma holding_step held s s' ts ts' :
  holding held s ts -> (next s <= next s')%nat ->
  (forall l, l ∈ held -> caddies s' !! l = caddies s !! l /\ l ∉ owned ts') ->
  holding held s' ts'.
Proof.
  intros [Hc Hf Ha Hn] Hle Hs. split; [..|done].
  - intros l Hl. rewrite (proj1 (Hs l Hl)). by apply Hc.
  - intros l Hl. specialize (Hf l Hl). lia.
  - intros l Hl. by apply Hs.
Qed.

Lemma holding_submit held s ts u :
  holding held s ts -> holding held (after_submit u s) (ts ++ [start_of u (next s)]).
Proof.
  intros Hh. apply (holding_step held s _ ts); [done|by destruct u; simpl; lia|].
  intros l Hl. pose proof (ho_fresh _ _ _ Hh l Hl). split.
  - destruct u; simpl; rewrite ?lookup_insert_ne by lia; done.
  - rewrite owned_app, not_elem_of_app. split; [by apply (ho_apart _ _ _ Hh)|].
    destruct u; unfold owned, t_owns; simpl; rewrite !elem_of_cons, elem_of_nil; lia.
Qed.

Lemma holding_release held s ts i rcd :
  holding held s ts -> held !! i = Some rcd ->
  holding (delete i held) (s <| caddies := delete rcd (caddies s) |>) ts.
Proof.
  intros [Hc Hf Ha Hn] Hi. assert (forall l, l ∈ delete i held -> l ∈ held /\ rcd <> l) as Hd.
  { pose proof (delete_Permutation held i rcd Hi) as Hp. rewrite Hp in Hn.
    apply NoDup_cons in Hn as [Hn _]. intros l Hl. split; [rewrite Hp; by right|]. by intros ->. }
  split.
  - intros l Hl. simpl. destruct (Hd l Hl). rewrite lookup_delete_ne by done. by apply Hc.
  - intros l Hl. by apply Hf, Hd.
  - intros l Hl. by apply Ha, Hd.
  - eapply sublist_NoDup; [exact Hn|apply sublist_delete].
Qed.

Lemma holding_add held s ts l a :
  holding held s ts -> caddies s !! l = Some (Cell 1 (answer_caddy a)) -> (l < next s)%nat ->
  l ∉ owned ts -> l ∉ held -> holding (held ++ [l]) s ts.
Proof.
  intros [Hc Hf Ha Hn] Hl Hlt Ho Hh. split.
  - intros l' [Hl'| ->%list_elem_of_singleton]%elem_of_app; [by apply Hc|by exists a].
  - intros l' [Hl'| ->%list_elem_of_singleton]%elem_of_app; [by apply Hf|done].
  - intros l' [Hl'| ->%list_elem_of_singleton]%elem_of_app; [by apply Ha|done].
  - apply NoDup_app. split; [done|]. split; [|apply NoDup_singleton].
    intros l' Hl' ->%list_elem_of_singleton. done.
Qed.

(** What the handler of a token hands over. *)
Lemma handed_token s gs i t :
  events s !! i = Some (t_event t) -> t_ok others (pool := pool) (arr := arr) s t ->
  (handed i (Daemon s gs) = [] /\ t_answers t = 0%nat) \/
  (exists cd q c a, t = Token cd q (SOther H_query c) /\ new_of H_query c = Some (answer_caddy a) /\
     handed i (Daemon s gs) = [next s]).
Proof.
  intros He Hok. unfold handed. simpl. rewrite He.
  destruct t as [cd q [d| |h' c| |mt r|mt r|mt r trk scd|mt r trk scd|mt r trk|mt r trk]];
    try (by left). destruct Hok as [Hok _]. destruct h'; try (by destruct Hok).
  - right. destruct Hok as (_ & _ & a & Ha). exists cd, q, c, a. split; [done|].
    simpl. unfold system_new. by rewrite Ha.
  - left. split; [done|]. unfold t_answers. simpl. unfold system_new. by destruct (query_answer pool arr c).
Qed.

Lemma holding_run held s us k ts told i t gs :
  tracks others (pool := pool) (arr := arr) s us k ts told -> ts !! i = Some t -> holding held s ts ->
  holding (held ++ handed i (Daemon s gs)) (after i t s) (delete i ts ++ t_next t s) /\
  length (handed i (Daemon s gs)) = t_answers t.
Proof.
  intros Ht Hi Hh. destruct (tracks_effect _ _ _ _ _ _ _ _ Ht Hi) as (_ & Hinv & Ht').
  pose proof (delete_Permutation ts i t Hi) as Hp.
  assert (Hown : forall l, l ∉ owned ts -> l ∉ t_owns t /\ l ∉ owned (delete i ts)).
  { intros l Hl. rewrite (bind_Permutation t_owns _ _ Hp) in Hl.
    by apply not_elem_of_app in Hl. }
  assert (holding held (after i t s) (delete i ts ++ t_next t s)) as Hh'.
  { apply (holding_step held s _ ts); [done|apply after_run_next|]. intros l Hl.
    pose proof (ho_fresh _ _ _ Hh l Hl) as Hlt.
    destruct (Hown l (ho_apart _ _ _ Hh l Hl)) as [Hoff Hrest]. split.
    - by apply (after_run_same others s i t _ l Hinv).
    - rewrite owned_app, not_elem_of_app. split; [done|].
      intros [Hl'|Hl']%next_owned; [done|lia]. }
  pose proof (inv_ok _ _ _ (tr_inv _ _ _ _ _ _ Ht)) as Hok. rewrite Forall_forall in Hok.
  specialize (Hok t (list_elem_of_lookup_2 _ _ _ Hi)).
  destruct (handed_token s gs i t) as [[-> ->]|(cd & q & c & a & -> & Hnew & ->)];
    [by rewrite (tr_events _ _ _ _ _ _ Ht), list_lookup_fmap, Hi|done|by rewrite app_nil_r|].
  pose proof (inv_fresh _ _ _ (tr_inv _ _ _ _ _ _ Ht)) as Hfr. rewrite Forall_forall in Hfr.
  assert (cd < next s)%nat as Hcd.
  { apply Hfr, t_loc_owned with (t := Token cd q (SOther H_query c)). by eapply list_elem_of_lookup_2. }
  split; [|unfold t_answers; simpl in *; by rewrite Hnew].
  apply (holding_add _ _ _ _ a); [done|..].
  - unfold after_run, effect, side_effect. simpl in *. rewrite Hnew. simpl.
    rewrite lookup_delete_ne by lia. apply lookup_insert_eq.
  - unfold after_run, effect, side_effect. simpl in *. rewrite Hnew. simpl. lia.
  - simpl. rewrite app_nil_r. intros Hl. assert (next s ∈ owned ts) as Hl'.
    { rewrite (bind_Permutation t_owns _ _ Hp). apply elem_of_app. by right. }
    apply Hfr in Hl'. lia.
  - intros Hl. apply (ho_fresh _ _ _ Hh) in Hl. lia.
Qed.
End Answers.

Section Mirror.
Context (n : loc) (pool : gmap loc (cell dsched_node_t)) (arr : P loc) (g0 : server).

(** The objects are those of the requests in flight, those that stay and the answers:
    some of those that were given are gone, the others are held. *)
Definition counted (s : sys P) (us : list upcall) (held : list loc) (ts : list token) : Prop :=
  exists gone, counts (side_handlers g0) (pool := pool) (arr := arr) s us gone ts /\
    (length held + gone + sum_list_with (t_answers pool arr g0) ts =
     sum_list_with (u_answers pool arr g0) us)%nat.

(** The daemon against the tokens of the pipeline and the history of the server. *)
Record mirrors (d : daemon) (us : list upcall) (ls : list loss) (k : nat) (held : list loc)
    (ts : list token) (log : list sact) : Prop := {
  mi_tracks : tracks (side_handlers g0) (pool := pool) (arr := arr) (dm_sys d) us k ts (ls ≫= ack);
  mi_srv : dm_srv d = foldl srv_act g0 log;
  mi_connects : connects log ++ (ts ≫= t_connecting) ≡ₚ us ≫= connecting;
  mi_losses : losses log = l_source <$> ls;
  mi_holding : holding held (dm_sys d) ts;
  mi_counted : counted (dm_sys d) us held ts
}.

Lemma mirrors_start : mirrors (Daemon (initial pool arr n) g0) [] [] 0 [] [] [].
Proof.
  split; [apply tracks_initial|done..| |].
  - split; try (by intros l ?%elem_of_nil). apply NoDup_nil_2.
  - exists 0%nat. split; [apply counts_initial|done].
Qed.

Lemma mirrors_submit d us ls k held ts log u :
  acceptable (side_handlers g0) (pool := pool) (arr := arr) u -> mirrors d us ls k held ts log ->
  mirrors (d <| dm_sys := after_submit u (dm_sys d) |>) (us ++ [u]) ls k held
    (ts ++ [start_of u (next (dm_sys d))]) log.
Proof.
  intros Hu [Ht Hg Hc Hl Hh (gone & Hn & Hs)].
  split; [by apply tracks_submit|done| |done|by apply holding_submit|].
  - rewrite !bind_app, app_assoc, Hc. by destruct u as [| |[] c].
  - exists gone. split; [by apply counts_submit|]. rewrite !sum_list_with_app, <- Hs. simpl.
    replace (t_answers pool arr g0 (start_of u _)) with (u_answers pool arr g0 u) by (by destruct u).
    lia.
Qed.

Lemma mirrors_release d us ls k held ts log i rcd :
  mirrors d us ls k held ts log -> held !! i = Some rcd ->
  exists d', in_sys (qrel rcd) d = Done (tt, d') /\ mirrors d' us ls k (delete i held) ts log.
Proof.
  intros [Ht Hg Hc Hl Hh (gone & Hn & Hs)] Hi.
  assert (rcd ∈ held) as Hin by (by eapply list_elem_of_lookup_2).
  destruct (ho_caddy _ _ _ Hh rcd Hin) as [a Ha].
  eexists. split; [unfold in_sys; by rewrite (qrel_run _ _ a)|].
  split; simpl; [|done..|by apply holding_release|].
  - apply tracks_release; [done|]. by apply (ho_apart _ _ _ Hh).
  - exists (S gone). split; [by eapply counts_release|].
    pose proof (length_delete held i ltac:(by eexists)) as Hd.
    apply lookup_lt_Some in Hi. lia.
Qed.

Lemma mirrors_lose d us ls k held ts log l :
  mirrors d us ls k held ts log ->
  exists d', lost_connection_hdlr (l_source l) (l_cbfunc l) (l_cbdata l) d = Done (tt, d') /\
    mirrors d' us (ls ++ [l]) k held ts (log ++ [S_lose (l_source l)]).
Proof.
  intros [Ht Hg Hc Hl Hh (gone & Hn & Hs)]. eexists. split.
  { unfold lost_connection_hdlr, on_srv. rewrite modify_run, <- bind_tail.
    erewrite in_sys_run by apply call_run. reflexivity. }
  split; simpl.
  - rewrite bind_app. simpl. rewrite app_nil_r. by apply tracks_told.
  - by rewrite foldl_app, <- Hg.
  - unfold connects. rewrite omap_app. simpl. by rewrite app_nil_r.
  - unfold losses in *. rewrite omap_app, fmap_app, Hl. done.
  - by destruct Hh.
  - exists gone. split; [by destruct Hn|done].
Qed.

(** Only the connections of tools use the server's part of the globals. *)
Lemma run_next_pipeline i (d : daemon) e :
  events (dm_sys d) !! i = Some e -> ev_fn e <> H_toolconn ->
  run_next meta_actives sched_actives i d = in_sys (run_event (side_handlers g0) i) d.
Proof.
  intros He Hf. unfold run_next, in_sys, run_event, run_nth. rewrite He.
  destruct e as [b [] cd]; simpl in *; (done || congruence).
Qed.

Lemma not_connecting (t : token (P := P)) : ev_fn (t_event t) <> H_toolconn -> t_connecting t = [].
Proof. destruct t as [? ? [| |[] c| | | | | | |]]; simpl; intros ?; (done || congruence). Qed.

(** The step of a tool's connection. *)
Lemma run_next_toolconn i (d : daemon) us k ts told t s' :
  tracks (side_handlers g0) (pool := pool) (arr := arr) (dm_sys d) us k ts told ->
  ts !! i = Some t -> ev_fn (t_event t) = H_toolconn ->
  run_event (side_handlers g0) i (dm_sys d) = Done (tt, s') ->
  exists r, t_connecting t = [r] /\
    run_next meta_actives sched_actives i d = Done (tt, Daemon s' (srv_connected r (dm_srv d))).
Proof.
  intros Ht Hi Hf Hrun. destruct d as [s g]. simpl in *.
  assert (Hei : events s !! i = Some (t_event t))
    by (by rewrite (tr_events _ _ _ _ _ _ Ht), list_lookup_fmap, Hi).
  pose proof (inv_ok _ _ _ (tr_inv _ _ _ _ _ _ Ht)) as Hok.
  rewrite Forall_forall in Hok. specialize (Hok t (list_elem_of_lookup_2 _ _ _ Hi)).
  destruct t as [cd q [| |[] c| | | | | | |]]; try discriminate Hf.
  destruct Hok as [[Hfresh Hr] Hc]. exists (tool_of c). split; [done|].
  unfold run_event, run_nth in Hrun. unfold run_next. simpl in *. rewrite Hei in Hrun |- *.
  simpl in Hrun. unfold toolconn_handler in Hrun.
  rewrite (toolconn_step pool arr _ cd c) in Hrun by done.
  change (_toolconn cd (Daemon (s <| events := delete i (events s) |>) g) =
    Done (tt, Daemon s' (srv_connected (tool_of c) g))).
  rewrite (toolconn_step pool arr g cd c) by done. by injection Hrun as <-.
Qed.

Lemma mirrors_run d us ls k held ts log i :
  mirrors d us ls k held ts log -> (i < length (events (dm_sys d)))%nat ->
  exists d' ts' log', run_next meta_actives sched_actives i d = Done (tt, d') /\
    mirrors d' us ls (S k) (held ++ handed i d) ts' log'.
Proof.
  intros [Ht Hg Hc Hl Hh (gone & Hn & Hs)] Hlen.
  pose proof (tr_events _ _ _ _ _ _ Ht) as He. rewrite He, length_fmap in Hlen.
  apply lookup_lt_is_Some in Hlen as [t Hi].
  destruct (tracks_effect _ _ _ _ _ _ _ _ Ht Hi) as (Hrun & _ & Ht').
  pose proof (counts_run _ _ _ _ _ _ _ _ _ Ht Hi Hn) as Hn'.
  destruct (holding_run pool arr g0 held _ _ _ _ _ _ _ (dm_srv d) Ht Hi Hh) as [Hh' Hlen].
  replace (Daemon (dm_sys d) (dm_srv d)) with d in Hh', Hlen by (by destruct d).
  assert (Hnew : t_next t (dm_sys d) ≫= t_connecting = [] /\
    sum_list_with (t_answers pool arr g0) (t_next t (dm_sys d)) = 0%nat)
    by (by destruct t as [r q []]). destruct Hnew as [Hnew Hnew'].
  pose proof (delete_Permutation ts i t Hi) as Hp.
  assert (Hct : counted (after_run (side_handlers g0) (pool := pool) (arr := arr) i t (dm_sys d)) us (held ++ handed i d)
      (delete i ts ++ t_next t (dm_sys d))).
  { exists gone. split; [done|]. rewrite sum_list_with_app, length_app, Hnew', Hlen, <- Hs.
    rewrite (sum_list_with_Permutation_proper _ _ _ Hp). simpl. lia. }
  assert (Hpc : ts ≫= t_connecting ≡ₚ t_connecting t ++ (delete i ts ≫= t_connecting))
    by (by rewrite (bind_Permutation t_connecting _ _ Hp)).
  destruct (decide (ev_fn (t_event t) = H_toolconn)) as [Htool|Hother].
  - destruct (run_next_toolconn i d us k ts _ t _ Ht Hi Htool Hrun) as (r & Hr & Hrun').
    eexists _, _, (log ++ [S_connect r]). split; [exact Hrun'|].
    split; [exact Ht'| | | |exact Hh'|exact Hct].
    + by rewrite foldl_app, <- Hg.
    + unfold connects in *. rewrite omap_app, bind_app, Hnew, app_nil_r, <- Hc, Hpc, Hr.
      by rewrite <- app_assoc.
    + unfold losses in *. by rewrite omap_app, app_nil_r.
  - eexists (d <| dm_sys := _ |>), _, log. split.
    { rewrite (run_next_pipeline i d (t_event t)); [|by rewrite He, list_lookup_fmap, Hi|done].
      unfold in_sys. rewrite Hrun. reflexivity. }
    split; [exact Ht'|done| |done|exact Hh'|exact Hct].
    by rewrite bind_app, Hnew, app_nil_r, <- Hc, Hpc, not_connecting.
Qed.

Lemma mirrors_drain d us ls k held ts log :
  mirrors d us ls k held ts log ->
  let total := sum_list_with handlers us in
  exists d' held' log', run_all meta_actives sched_actives (total - k) d = Done (tt, d') /\
    mirrors d' us ls total held' [] log'.
Proof.
  intros Hm total. remember (total - k)%nat as w eqn:Ew. revert d k held ts log Ew Hm.
  induction w as [|w IH]; intros d k held ts log Ew Hm;
    pose proof (tr_work _ _ _ _ _ _ (mi_tracks _ _ _ _ _ _ _ Hm)) as Hwork; fold total in Hwork.
  - exists d, held, log. split; [done|]. assert (ts = []) as -> by (apply no_work_left; lia).
    simpl in Hwork. by replace total with k by lia.
  - destruct ts as [|t ts]; [simpl in Hwork; lia|].
    assert (0 < length (events (dm_sys d)))%nat as Hlt
      by (rewrite (tr_events _ _ _ _ _ _ (mi_tracks _ _ _ _ _ _ _ Hm)); simpl; lia).
    destruct (mirrors_run _ _ _ _ _ _ _ _ Hm Hlt) as (d1 & ts1 & log1 & Hrun & Hm1).
    destruct (IH d1 (S k) (held ++ handed 0 d) ts1 log1) as (d' & held' & log' & Hd' & Hm'); [lia|done|].
    exists d', held', log'. split; [|done]. simpl. erewrite act_bind_Done by exact Hrun. done.
Qed.

(** What a daemon that came up with this pool has lived is mirrored. *)
Lemma lives_mirrors qs ls k held d :
  Forall (welcome (Daemon (initial pool arr n) g0)) qs ->
  lives meta_actives sched_actives (Daemon (initial pool arr n) g0) qs ls k held d ->
  exists ts log, mirrors d (omap upcall_of qs) ls k held ts log.
Proof.
  intros Hw Hl. induction Hl as [|qs ls k held d q rc d' _ IH Hr|qs ls k held d i d' _ IH Hlt Hr
                             |qs ls k held d l d' _ IH Hl|qs ls k held d i rcd d' _ IH Hi Hr];
    [|apply Forall_app in Hw as [Hw [Hq _]%Forall_cons]; destruct (IH Hw) as (ts & log & IH')
     |destruct (IH Hw) as (ts & log & IH')..]; try clear IH; try rename IH' into IH.
  - exists [], []. apply mirrors_start.
  - rewrite receive_run in Hr. injection Hr as _ <-. rewrite omap_app. unfold received, welcome in *.
    simpl in *. destruct (upcall_of q) as [u|]; simpl.
    + do 2 eexists. by apply mirrors_submit.
    + rewrite app_nil_r. exists ts, log. by destruct d.
  - destruct (mirrors_run _ _ _ _ _ _ _ _ IH Hlt) as (d1 & ts1 & log1 & Hrun & Hm).
    rewrite Hrun in Hr. injection Hr as <-. by exists ts1, log1.
  - destruct (mirrors_lose _ _ _ _ _ _ _ l IH) as (d1 & Hrun & Hm).
    rewrite Hrun in Hl. injection Hl as <-. by do 2 eexists.
  - destruct (mirrors_release _ _ _ _ _ _ _ _ _ IH Hi) as (d1 & Hrun & Hm).
    rewrite Hrun in Hr. injection Hr as <-. by do 2 eexists.
Qed.
End Mirror.

(** ** Properties *)

(** What the requestors and the library have to be called with in the end. *)
Definition all_owed (d0 : daemon (P := P)) (qs : list request) (ls : list loss) : list reply :=
  (omap upcall_of qs ≫= owed (side_handlers (dm_srv d0))
     (pool := nodes (dm_sys d0)) (arr := g_nodes (dm_sys d0))) ++ (ls ≫= ack).

Definition all_work (qs : list request) : nat := sum_list_with handlers (omap upcall_of qs).

(** A mirrored daemon never faults, answers nobody wrongly, and comes to rest. *)
Lemma mirrors_answers n pool arr g0 d qs ls k held ts log :
  let d0 := Daemon (initial pool arr n) g0 in
  mirrors pool arr g0 d (omap upcall_of qs) ls k held ts log ->
  (forall i, (i < length (events (dm_sys d)))%nat ->
    exists d', run_next meta_actives sched_actives i d = Done (tt, d')) /\
  (forall rcd, rcd ∈ held -> exists d', in_sys (qrel rcd) d = Done (tt, d')) /\
  replies (dm_sys d) ⊆+ all_owed d0 qs ls /\
  nodes (dm_sys d) = pool /\ g_nodes (dm_sys d) = arr /\
  exists d', run_all meta_actives sched_actives (all_work qs - k) d = Done (tt, d') /\
    events (dm_sys d') = [] /\ replies (dm_sys d') ≡ₚ all_owed d0 qs ls.
Proof.
  intros d0 Hm. pose proof (mi_tracks _ _ _ _ _ _ _ _ _ _ Hm) as Ht.
  destruct (tr_pool _ _ _ _ _ _ Ht) as [Hn Hg].
  split; [|split; [|split; [|split; [done|split; [done|]]]]].
  - intros i Hi. destruct (mirrors_run _ _ _ _ _ _ _ _ _ _ _ Hm Hi) as (d' & _ & _ & Hrun & _). by exists d'.
  - intros rcd [i Hi]%list_elem_of_lookup.
    destruct (mirrors_release _ _ _ _ _ _ _ _ _ _ _ _ Hm Hi) as (d' & Hrun & _). by exists d'.
  - assert (replies (dm_sys d) ++ (ts ≫= t_due (side_handlers g0)) ≡ₚ all_owed d0 qs ls) as <-
      by (by apply (tr_replies _ _ _ _ _ _ Ht)). by apply submseteq_inserts_r.
  - destruct (mirrors_drain _ _ _ _ _ _ _ _ _ _ Hm) as (d' & held' & log' & Hrun & Hm'). exists d'.
    split; [exact Hrun|]. destruct (mi_tracks _ _ _ _ _ _ _ _ _ _ Hm') as [He _ Hr _ _].
    split; [done|]. by rewrite app_nil_r in Hr.
Qed.


(** C9: What the daemon remembers of tools, when its requests can be served: whatever the
    interleaving, the server's part of the globals is the result of a history in which
    every connection of a tool appears at most once, and exactly once when no event is
    left, and every lost connection appears once, in the order the losses came in: nothing
    else ever changes it. *)
Theorem daemon_remembers n pool arr g0 qs ls k held d :
  Forall (welcome (Daemon (initial pool arr n) g0)) qs ->
  lives meta_actives sched_actives (Daemon (initial pool arr n) g0) qs ls k held d ->
  exists log, dm_srv d = foldl srv_act g0 log /\ losses log = l_source <$> ls /\
    connects log ⊆+ omap upcall_of qs ≫= connecting /\
    (events (dm_sys d) = [] -> connects log ≡ₚ omap upcall_of qs ≫= connecting).
Proof.
  intros Hw (ts & log & Hm)%lives_mirrors; [|done]. destruct Hm as [Ht Hg Hc Hl _ _]. exists log.
  split; [done|]. split; [done|]. split.
  - rewrite <- Hc. by apply submseteq_inserts_r.
  - rewrite (tr_events _ _ _ _ _ _ Ht). intros ->%fmap_nil_inv. by rewrite <- Hc, app_nil_r.
Qed.

Definition allocates (q : request) : nat :=
  match q with Allocates _ _ _ _ _ _ => 1 | _ => 0 end.
Definition submits (q : request) : nat :=
  match q with Allocates _ _ _ _ _ _ | Controls _ _ _ _ _ => 1 | _ => 0 end.

(** What stays of an upcall, class by class. *)
Lemma kept_split pool arr g0 us :
  sum_list_with (kept_caddies (side_handlers g0) (pool := pool) (arr := arr)) us =
  (sum_list_with is_allocation us + sum_list_with (u_answers pool arr g0) us)%nat.
Proof.
  induction us as [|u us IH]; [done|]. cbn [sum_list_with]. rewrite IH.
  replace (kept_caddies _ u) with (is_allocation u + u_answers pool arr g0 u)%nat by (by destruct u).
  lia.
Qed.

Lemma requests_counted qs :
  sum_list_with is_allocation (omap upcall_of qs) = sum_list_with allocates qs /\
  sum_list_with is_request (omap upcall_of qs) = sum_list_with submits qs.
Proof.
  induction qs as [|q qs [IH1 IH2]]; [done|].
  destruct q as [| |p [l|] m [f|] x|]; csimpl; by rewrite IH1, IH2.
Qed.


(** ** Schedules

    A life given as the list of its moves, for the examples. *)

Inductive happening :=
| Receive (q : request) | RunNext (i : nat) | Lose (l : loss) | Release (i : nat).

Section Schedules.
Context (metas_ : list (meta_module (P := P))) (scheds_ : list (sched_module (P := P))).

Definition done_or {A} (o : outcome (A * daemon (P := P))) : option daemon :=
  match o with Done (_, d) => Some d | Fault _ => None end.

Definition happen (m : happening) (hd : list loc * daemon (P := P))
    : option (list loc * daemon) :=
  let '(held, d) := hd in
  match m with
  | Receive q => pair held <$> done_or (receive q d)
  | RunNext i =>
      if (i <? length (events (dm_sys d)))%nat
      then pair (held ++ handed i d) <$> done_or (run_next metas_ scheds_ i d) else None
  | Lose l =>
      pair held <$> done_or (lost_connection_hdlr (l_source l) (l_cbfunc l) (l_cbdata l) d)
  | Release i => rcd ← held !! i; pair (delete i held) <$> done_or (in_sys (qrel rcd) d)
  end.

Fixpoint live (ms : list happening) (hd : list loc * daemon (P := P)) : option (list loc * daemon) :=
  match ms with [] => Some hd | m :: ms => hd ← happen m hd; live ms hd end.

Definition asked (ms : list happening) : list request :=
  omap (fun m => match m with Receive q => Some q | _ => None end) ms.
Definition lost (ms : list happening) : list loss :=
  omap (fun m => match m with Lose l => Some l | _ => None end) ms.
Definition handled (ms : list happening) : nat :=
  length (omap (fun m => match m with RunNext i => Some i | _ => None end) ms).

Lemma done_or_Some {A} (o : outcome (A * daemon (P := P))) d :
  done_or o = Some d -> exists x, o = Done (x, d).
Proof. destruct o as [[x d']|]; intros E; simplify_eq/=. by exists x. Qed.

Lemma live_lives ms d0 qs ls k held d held' d' :
  lives metas_ scheds_ d0 qs ls k held d ->
  live ms (held, d) = Some (held', d') ->
  lives metas_ scheds_ d0 (qs ++ asked ms) (ls ++ lost ms) (k + handled ms) held' d'.
Proof.
  revert qs ls k held d. induction ms as [|m ms IH]; intros qs ls k held d Hl Hp.
  - injection Hp as <- <-. by rewrite !app_nil_r, Nat.add_0_r.
  - apply bind_Some in Hp as ([held1 d1] & Hm & Hp). destruct m as [q|i|l|i]; unfold happen in Hm.
    + apply fmap_Some in Hm as (d2 & (rc & Hr)%done_or_Some & E). injection E as -> ->.
      replace (qs ++ asked (Receive q :: ms)) with ((qs ++ [q]) ++ asked ms)
        by (by rewrite <- app_assoc).
      eapply IH; [by eapply lives_receive|done..].
    + destruct (Nat.ltb_spec i (length (events (dm_sys d)))); [|done].
      apply fmap_Some in Hm as (d2 & ([] & Hr)%done_or_Some & E). injection E as -> ->.
      change (handled (RunNext i :: ms)) with (S (handled ms)). rewrite <- Nat.add_succ_comm.
      eapply IH; [by eapply lives_run|done..].
    + apply fmap_Some in Hm as (d2 & ([] & Hr)%done_or_Some & E). injection E as -> ->.
      replace (ls ++ lost (Lose l :: ms)) with ((ls ++ [l]) ++ lost ms)
        by (by rewrite <- app_assoc).
      eapply IH; [by eapply lives_lose|done..].
    + apply bind_Some in Hm as (rcd & Hi & Hm).
      apply fmap_Some in Hm as (d2 & ([] & Hr)%done_or_Some & E). injection E as -> ->.
      eapply IH; [by eapply lives_release|done..].
Qed.
End Schedules.
End System.

(** ** Examples *)

#[local] Existing Instance sample_pmix.
#[local] Existing Instance sample_query_lib.
#[local] Instance sample_lib : ServerLib := sample_server_lib 0.

Definition sample_host : host := Host (Some "me"%string) None.
Definition sample_daemon0 : daemon (P := slots) := Daemon sample_start sample_srv.

(** A tool that connects, asks for nodes and for a topology, releases the answer and
    is lost. *)
Definition sample_life : list happening :=
  [Receive (Connects sample_tool 2 (Some 7) 1); 
   Receive (Allocates (Proc "tool" 3) 1 [not_waiting] (Some 7) 2 0); RunNext 1; RunNext 0;
   Receive (Queries (Proc "tool" 3) None 0 (Some 7) 3);
   Receive (Queries (Proc "tool" 3) (Some [Query [PMIX_HWLOC_XML_V2] []]) 1 (Some 7) 4);
   RunNext 0; Lose (Loss (Proc "other" 0) (Some 8) 9); RunNext 0; Release 0].

(** The same, until no event is left. *)
Definition sample_rest : list happening := sample_life ++ repeat (RunNext 0) 6.

Definition sample_lived (ms : list happening) : list loc * daemon (P := slots) :=
  default ([], sample_daemon0)
    (live sample_host [] meta_actives sched_actives ms ([], sample_daemon0)).

Definition lived_on (ms : list happening) : bool :=
  match live sample_host [] meta_actives sched_actives ms ([], sample_daemon0) with
  | Some _ => true | None => false
  end.

Lemma sample_lives ms :
  lived_on ms = true ->
  lives sample_host [] meta_actives sched_actives sample_daemon0 (asked ms)
    (lost ms) (handled ms) (sample_lived ms).1 (sample_lived ms).2.
Proof.
  intros Hl. unfold lived_on in Hl. unfold sample_lived.
  destruct (live _ _ _ _ ms _) as [[held d]|] eqn:E; [simpl|done].
  apply (live_lives sample_host [] _ _ ms sample_daemon0 [] [] 0 [] sample_daemon0);
    [constructor|done].
Qed.

Lemma sample_requests : Forall request_ok (asked sample_life).
Proof.
  repeat constructor. eexists. split; [reflexivity|]. split; [reflexivity|]. by vm_compute.
Qed.

Lemma sample_named : named_pool sample_host sample_pool ([Some 0%nat; Some 1%nat] : slots loc).
Proof.
  split; [by eexists|]. intros l Hl. vm_compute in Hl.
  repeat (apply elem_of_cons in Hl as [->|Hl]; [eexists; split; [reflexivity|by eexists]|]).
  by apply elem_of_nil in Hl.
Qed.

Lemma sample_welcome : Forall (welcome sample_host [] sample_daemon0) (asked sample_life).
Proof.
  eapply Forall_impl; [apply sample_requests|]. intros q. apply request_welcome, sample_named.
Qed.

Lemma sample_life_lives :
  lives sample_host [] meta_actives sched_actives sample_daemon0 (asked sample_life)
    (lost sample_life) (handled sample_life) (sample_lived sample_life).1 (sample_lived sample_life).2.
Proof.
  apply sample_lives. vm_compute; reflexivity.
Qed.

Lemma sample_rest_lives :
  lives sample_host [] meta_actives sched_actives sample_daemon0 (asked sample_rest)
    (lost sample_rest) (handled sample_rest) (sample_lived sample_rest).1 (sample_lived sample_rest).2.
Proof.
  apply sample_lives. vm_compute; reflexivity.
Qed.


Lemma daemon_remembers_witness :
  exists log : list (sact (P := slots)), tools (foldl srv_act sample_srv log) = [Proc "tool" 0] /\
    losses log = [Proc "other" 0] /\ (length (connects log) <= 1)%nat.
Proof.
  destruct (daemon_remembers sample_host [] 2 sample_pool [Some 0%nat; Some 1%nat] sample_srv
    _ _ _ _ _ sample_welcome sample_life_lives) as (log & Hg & Hl & Hc & _).
  exists log. rewrite <- Hg. split; [by vm_compute|]. split; [exact Hl|].
  apply submseteq_length in Hc. vm_compute in Hc. exact Hc.
Defined.

