(* ===== verification/Params.v ===== *)
(** MCA parameters: src/runtime/dsched_mca_params.c. Defaults are read from the
    system and user parameter files and from the override file, and merged into the
    environment; settings of the command line overwrite them; the scheduler's own
    parameters are then registered and read back. *)

From S2P Require Import Prelude Pmix Constants.

(** A pmix_mca_base_var_file_value_t: a variable and its value, possibly null. *)
Record entry := Entry { mbvfv_var : string; mbvfv_value : cstr }.

(** The functions of the library, and the environment the C library keeps. *)
Class ParamLib `{PMIx} := {
  (** pmix_home_directory and pmix_os_path(false, ..., NULL). *)
  home_directory : cstr;
  os_path : list cstr -> cstr;
  (** pmix_mca_base_parse_paramfile: a status, and the list with what it read. *)
  parse_paramfile : cstr -> list entry -> Z * list entry;
  (** pmix_pmdl_base_check_pmix_param: whether the library owns the parameter. *)
  check_pmix_param : string -> bool;
  (** pmix_mca_base_var_register: what the storage holds afterwards, given the
      environment and what it holds before. *)
  var_string : string -> gmap string string -> cstr -> cstr;
  var_int : string -> gmap string string -> Z -> Z;
  var_bool : string -> gmap string string -> bool -> bool;
  (** pmix_output_open: the stream the n-th call returns. *)
  output_open : nat -> Z
}.

(** The state: the environment, the variables [pmix_show_help] warned about, the
    streams opened so far and the verbosities set, oldest first. *)
Record penv := Penv {
  environ : gmap string string;
  warned : list string;
  opened_streams : nat;
  verbosities : list (Z * Z)
}.
#[export] Instance eta_penv : Eta penv := fun e =>
  Penv (environ e) (warned e) (opened_streams e) (verbosities e).

(** The fields of dsched_globals this file keeps, and its static [passed_thru] and
    [gen_verbose]. *)
Record params_globals := Params {
  clean_output : Z;
  p_tmpdir : cstr;
  param_files : cstr;
  override_param_file : cstr;
  suppress_override_warning : bool;
  verbosity : Z;
  output : Z;
  pmix_output : Z;
  p_progress_thread_cpus : cstr;
  p_bind_progress_thread_reqd : bool;
  p_keep_fqdn_hostnames : bool;
  p_strip_prefixes : cstr;
  passed_thru : bool;
  gen_verbose : Z
}.
#[export] Instance eta_params : Eta params_globals := fun g =>
  Params (clean_output g) (p_tmpdir g) (param_files g) (override_param_file g)
    (suppress_override_warning g) (verbosity g) (output g) (pmix_output g)
    (p_progress_thread_cpus g) (p_bind_progress_thread_reqd g) (p_keep_fqdn_hostnames g)
    (p_strip_prefixes g) (passed_thru g) (gen_verbose g).

(** ** The C library: environment and strings *)

Definition equals : Ascii.ascii := Ascii.ascii_of_nat 61.

(** setenv refuses a name that is empty or holds an equals sign. *)
Definition valid_name (name : string) : bool :=
  negb (String.eqb name "") && negb (bool_decide (is_Some (cut equals name))).

Definition setenv (name : string) (value : cstr) (overwrite : bool) : act penv unit := fun e =>
  match value with
  | None => Fault NullDeref
  | Some value =>
      if valid_name name && (overwrite || bool_decide (environ e !! name = None))
      then Done (tt, e <| environ := <[name := value]> (environ e) |>)
      else Done (tt, e)
  end.

Definition show_help (name : string) : act penv unit :=
  modify (fun e => e <| warned := warned e ++ [name] |>).

Section Params.
Context `{ParamLib}.

(** ** Preloading the parameter files *)

(** A file that is not there is no error. *)
Definition parse_passes (rc : Z) : bool := ok rc || bool_decide (rc = PMIX_ERR_NOT_FOUND).

(** The loop over the files of [param_files], all into one list. *)
Fixpoint parse_files (paths : list string) (params : list entry) : Z + list entry :=
  match paths with
  | [] => inr params
  | path :: paths =>
      let '(rc, params) := parse_paramfile (Some path) params in
      if parse_passes rc then parse_files paths params else inl rc
  end.

(** The system-level and the user-level list, or the status that ends the call. *)
Definition read_defaults (sysconfdir : cstr) (g : params_globals)
    : outcome (Z + (list entry * list entry)) :=
  match param_files g with
  | None =>
      let '(rc, params) :=
        parse_paramfile (os_path [sysconfdir; Some "dsched-mca-params.conf"%string]) [] in
      if negb (parse_passes rc) then Done (inl rc) else
      let '(rc, params2) :=
        parse_paramfile (os_path [home_directory; Some ".dsched"%string;
                                  Some "mca-params.conf"%string]) [] in
      if negb (parse_passes rc) then Done (inl rc) else Done (inr (params, params2))
  | Some files =>
      match argv_split files (Ascii.ascii_of_nat 44) with
      | None => Fault NullDeref
      | Some paths =>
          Done match parse_files paths [] with
               | inl rc => inl rc
               | inr params => inr (params, [])
               end
      end
  end.

(** The first entry of [params2] with a variable, and the list without it. *)
Fixpoint take_match (var : string) (params2 : list entry) : option (entry * list entry) :=
  match params2 with
  | [] => None
  | fv2 :: rest =>
      if String.eqb var (mbvfv_var fv2) then Some (fv2, rest)
      else '(fv, rest) ← take_match var rest; Some (fv, fv2 :: rest)
  end.

(** The loop over [params]: the final list, and what is left of [params2]. *)
Fixpoint cross_check (params params2 pfinal : list entry) : list entry * list entry :=
  match params with
  | [] => (pfinal, params2)
  | fv :: params =>
      match take_match (mbvfv_var fv) params2 with
      | Some (fv2, rest) => cross_check params rest (pfinal ++ [fv2])
      | None => cross_check params params2 (pfinal ++ [fv])
      end
  end.

Definition merge_defaults (params params2 : list entry) : list entry :=
  let '(pfinal, rest) := cross_check params params2 [] in pfinal ++ rest.

(** The entry of [params], if any, that replaces [fv]. *)
Definition override_entry (suppress : bool) (params : list entry) (fv : entry) : act penv entry :=
  match take_match (mbvfv_var fv) params with
  | None => mret fv
  | Some (fv2, _) =>
      (if suppress then mret tt else show_help (mbvfv_var fv)) ;;
      value ← lift (strdup (mbvfv_value fv2));
      mret (Entry (mbvfv_var fv2) value)
  end.

Fixpoint override_entries (suppress : bool) (params pfinal : list entry) : act penv (list entry) :=
  match pfinal with
  | [] => mret []
  | fv :: pfinal =>
      fv ← override_entry suppress params fv;
      pfinal ← override_entries suppress params pfinal;
      mret (fv :: pfinal)
  end.

Definition env_name (var : string) : string :=
  if check_pmix_param var then ("PMIX_MCA_" ++ var)%string else ("DSCHED_MCA_" ++ var)%string.

(** Set one variable of the override file, whatever the environment has. *)
Definition force_env (suppress : bool) (fv : entry) : act penv unit :=
  let tmp := env_name (mbvfv_var fv) in
  e ← gets environ;
  (if negb suppress && negb (bool_decide (e !! tmp = None)) then show_help tmp else mret tt) ;;
  setenv tmp (mbvfv_value fv) true.

(** Set one default, unless the environment has it. *)
Definition default_env (fv : entry) : act penv unit :=
  setenv (env_name (mbvfv_var fv)) (mbvfv_value fv) false.

(** The override file: the status that ends the call, or the list to go on with. *)
Definition apply_overrides (g : params_globals) (pfinal : list entry)
    : act penv (Z + list entry) :=
  match override_param_file g with
  | None => mret (inr pfinal)
  | Some file =>
      let '(rc, params) := parse_paramfile (Some file) [] in
      if negb (parse_passes rc) then mret (inl rc) else
      match params with
      | [] => mret (inr pfinal)
      | _ :: _ =>
          pfinal ← override_entries (suppress_override_warning g) params pfinal;
          each (force_env (suppress_override_warning g)) params ;;
          mret (inr pfinal)
      end
  end.

Definition dsched_preload_default_mca_params (sysconfdir : cstr) (g : params_globals)
    : act penv Z :=
  defaults ← lift (read_defaults sysconfdir g);
  match defaults with
  | inl rc => mret rc
  | inr (params, params2) =>
      r ← apply_overrides g (merge_defaults params params2);
      match r with
      | inl rc => mret rc
      | inr pfinal => each default_env pfinal ;; mret (code_value DSCHED_SUCCESS)
      end
  end.

(** ** Command line *)

(** The three options the code looks up, each with its values, an array that is
    null for an option without one. *)
Record cli := Cli {
  cli_pmixmca : option (option (list string));
  cli_mca : option (option (list string));
  cli_dmca : option (option (list string))
}.

(** The loop over the values of one option. The equals sign is overwritten in place,
    so what is left of a value is the name. *)
Fixpoint promote_values (prefix : string) (values : list string) : act penv (list string) :=
  match values with
  | [] => mret []
  | v :: values =>
      match cut equals v with
      | None => fail NullDeref
      | Some (name, value) =>
          setenv (prefix ++ name)%string (Some value) true ;;
          values ← promote_values prefix values;
          mret (name :: values)
      end
  end.

Definition promote (prefix : string) (opt : option (option (list string)))
    : act penv (option (option (list string))) :=
  match opt with
  | None => mret None
  | Some None => fail NullDeref
  | Some (Some values) => values ← promote_values prefix values; mret (Some (Some values))
  end.

Definition dsched_process_cli_mca_params (c : cli) : act penv (Z * cli) :=
  a ← promote "PMIX_MCA_" (cli_pmixmca c);
  b ← promote "DSCHED_MCA_" (cli_mca c);
  d ← promote "DSCHED_MCA_" (cli_dmca c);
  mret (code_value DSCHED_SUCCESS, Cli a b d).

(** ** Registration *)

Definition open_stream : act penv Z := fun e =>
  Done (output_open (opened_streams e), e <| opened_streams := S (opened_streams e) |>).

Definition set_verbosity (stream level : Z) : act penv unit :=
  modify (fun e => e <| verbosities := verbosities e ++ [(stream, level)] |>).

(** The scheduler's own verbosity: both streams are opened. *)
Definition open_verbose (g : params_globals) : act penv (params_globals * bool) :=
  if 0 <? verbosity g then
    o ← open_stream;
    set_verbosity o (verbosity g) ;;
    p ← open_stream;
    set_verbosity p (verbosity g) ;;
    mret (g <| output := o |> <| pmix_output := p |>, true)
  else mret (g, false).

(** The verbosity of the library's server. *)
Definition open_server_verbose (g : params_globals) (opened : bool) : act penv params_globals :=
  if (0 <? gen_verbose g) && (verbosity g <? gen_verbose g) then
    p ← (if opened then mret (pmix_output g) else open_stream);
    set_verbosity p (gen_verbose g) ;;
    mret (g <| pmix_output := p |>)
  else mret g.

Definition dsched_register_params (sysconfdir : cstr) (g : params_globals)
    : act penv (Z * params_globals) :=
  if passed_thru g then mret (code_value DSCHED_SUCCESS, g) else
  let g := g <| passed_thru := true |> in
  s ← open_stream;
  env ← gets environ;
  let g := g <| clean_output := s |> <| p_tmpdir := var_string "dsched_tmpdir" env None |> in
  home ← lift (print_s home_directory);
  sysconf ← lift (print_s sysconfdir);
  let files := (home ++ "/.dsched/mca-params.conf," ++ sysconf ++ "/dsched-mca-params.conf")%string in
  let g := g <| param_files := var_string "dsched_param_files" env (Some files) |>
             <| override_param_file :=
                  var_string "dsched_override_param_file" env (override_param_file g) |>
             <| suppress_override_warning :=
                  var_bool "dsched_suppress_override_warning" env (suppress_override_warning g) |>
             <| verbosity := var_int "dsched_verbose" env (verbosity g) |> in
  '(g, opened) ← open_verbose g;
  let g := g <| gen_verbose := var_int "pmix_server_verbose" env (gen_verbose g) |> in
  g ← open_server_verbose g opened;
  mret (code_value DSCHED_SUCCESS,
    g <| p_progress_thread_cpus :=
           var_string "dsched_progress_thread_cpus" env (p_progress_thread_cpus g) |>
      <| p_bind_progress_thread_reqd :=
           var_bool "dsched_bind_progress_thread_reqd" env (p_bind_progress_thread_reqd g) |>
      <| p_keep_fqdn_hostnames :=
           var_bool "dsched_keep_fqdn_hostnames" env (p_keep_fqdn_hostnames g) |>
      <| p_strip_prefixes := var_string "dsched_strip_prefix" env (p_strip_prefixes g) |>).

(** ** What the environment holds afterwards *)

(** The value of the first, or last, entry with a variable. *)
Fixpoint first_value (v : string) (l : list entry) : cstr :=
  match l with
  | [] => None
  | fv :: l => if String.eqb v (mbvfv_var fv) then mbvfv_value fv else first_value v l
  end.

Definition last_value (v : string) (l : list entry) : cstr := first_value v (rev l).

(** An entry as a parameter file gives it: a name without an equals sign, a value. *)
Definition well_formed (fv : entry) : Prop :=
  cut equals (mbvfv_var fv) = None /\ is_Some (mbvfv_value fv).

(** What the override file holds. *)
Definition override_list (g : params_globals) : Z + list entry :=
  match override_param_file g with
  | None => inr []
  | Some file =>
      let '(rc, params) := parse_paramfile (Some file) [] in
      if parse_passes rc then inr params else inl rc
  end.

(** [a], or [b] when there is none. *)
Definition or_else (a b : cstr) : cstr := match a with Some x => Some x | None => b end.

Lemma or_else_assoc a b c : or_else (or_else a b) c = or_else a (or_else b c).
Proof. by destruct a. Qed.

Lemma env_name_inj v w : env_name v = env_name w -> v = w.
Proof.
  unfold env_name. destruct (check_pmix_param v), (check_pmix_param w); simpl;
    intros E; by simplify_eq.
Qed.

Lemma prefixed_valid p v : p <> ""%string -> cut equals p = None -> cut equals v = None ->
  valid_name (p ++ v)%string = true.
Proof.
  intros Hp Hc Hv. unfold valid_name. rewrite cut_app_None by done. by destruct p.
Qed.

Lemma env_name_valid v : cut equals v = None -> valid_name (env_name v) = true.
Proof.
  intros Hv. unfold env_name. by destruct (check_pmix_param v); apply prefixed_valid.
Qed.

Lemma first_value_app v l1 l2 : Forall well_formed l1 ->
  first_value v (l1 ++ l2) = or_else (first_value v l1) (first_value v l2).
Proof.
  induction 1 as [|fv l1 [_ [x Hx]] _ IH]; [done|]. simpl.
  destruct (String.eqb v (mbvfv_var fv)); [by rewrite Hx|done].
Qed.

Lemma take_match_spec var l :
  match take_match var l with
  | None => first_value var l = None /\ Forall (fun fv => var <> mbvfv_var fv) l
  | Some (fv, rest) => mbvfv_var fv = var /\ first_value var l = mbvfv_value fv /\
      fv :: rest ≡ₚ l /\ forall w, w <> var -> first_value w rest = first_value w l
  end.
Proof.
  induction l as [|x l IH]; simpl; [by split|].
  destruct (String.eqb_spec var (mbvfv_var x)) as [E|Hn].
  { repeat split; [done..|]. intros w Hw.
    by destruct (String.eqb_spec w (mbvfv_var x)); [congruence|]. }
  destruct (take_match var l) as [[fv rest]|]; simpl.
  - destruct IH as (-> & -> & Hp & Hw). repeat split; [|].
    + rewrite <- Hp. apply Permutation_swap.
    + intros w Hne. by rewrite Hw.
  - destruct IH as [-> Hall]. by split; [|constructor].
Qed.

Lemma cross_check_good params params2 pfinal :
  Forall well_formed params -> Forall well_formed params2 -> Forall well_formed pfinal ->
  let '(pf, rest) := cross_check params params2 pfinal in
  Forall well_formed (pf ++ rest) /\
  forall v, first_value v (pf ++ rest) =
    or_else (first_value v pfinal) (or_else (first_value v params2) (first_value v params)).
Proof.
  intros Hp. revert params2 pfinal. induction Hp as [|fv params Hfv Hp IH];
    intros params2 pfinal H2 Hf; simpl.
  { split; [by apply Forall_app|]. intros v. rewrite first_value_app by done.
    by destruct (first_value v params2). }
  pose proof (take_match_spec (mbvfv_var fv) params2) as Ht.
  destruct (take_match (mbvfv_var fv) params2) as [[fv2 rest]|].
  - destruct Ht as (Hvar & Hval & Hperm & Hrest).
    rewrite <- Hperm in H2. apply Forall_cons in H2 as [Hfv2 H2].
    specialize (IH rest (pfinal ++ [fv2]) H2 ltac:(by apply Forall_app; auto)).
    destruct (cross_check params rest (pfinal ++ [fv2])) as [pf r]. destruct IH as [Hg IH].
    split; [done|]. intros v. rewrite IH, first_value_app, or_else_assoc by done. f_equal. simpl.
    rewrite Hvar. destruct (String.eqb_spec v (mbvfv_var fv)) as [->|Hne].
    + rewrite Hval. by destruct Hfv2 as [_ [x ->]].
    + by rewrite Hrest.
  - destruct Ht as [Hval _].
    specialize (IH params2 (pfinal ++ [fv]) H2 ltac:(by apply Forall_app; auto)).
    destruct (cross_check params params2 (pfinal ++ [fv])) as [pf r]. destruct IH as [Hg IH].
    split; [done|]. intros v. rewrite IH, first_value_app, or_else_assoc by done. f_equal. simpl.
    destruct (String.eqb_spec v (mbvfv_var fv)) as [->|Hne]; [|done].
    rewrite Hval. by destruct Hfv as [_ [x ->]].
Qed.

(** The final list has the variables of both, the user's entry first. *)
Lemma merge_defaults_spec sys user :
  Forall well_formed sys -> Forall well_formed user ->
  Forall well_formed (merge_defaults sys user) /\
  forall v, first_value v (merge_defaults sys user) =
    or_else (first_value v user) (first_value v sys).
Proof.
  intros Hs Hu. unfold merge_defaults.
  pose proof (cross_check_good sys user [] Hs Hu ltac:(constructor)) as Hc.
  by destruct (cross_check sys user []).
Qed.

Lemma setenv_spec name x overwrite e :
  valid_name name = true ->
  exists e', setenv name (Some x) overwrite e = Done (tt, e') /\
    environ e' !! name = (if overwrite then Some x else or_else (environ e !! name) (Some x)) /\
    forall n, n <> name -> environ e' !! n = environ e !! n.
Proof.
  intros Hn. unfold setenv. rewrite Hn. simpl. destruct overwrite; simpl.
  { eexists; split; [done|]. simpl. split; [by simplify_map_eq|]. intros. by simplify_map_eq. }
  case_bool_decide as Ho; (eexists; split; [done|]); simpl.
  - rewrite Ho. split; [by simplify_map_eq|]. intros. by simplify_map_eq.
  - by destruct (environ e !! name).
Qed.

(** A name no entry of the list sets. *)
Definition unset_by (l : list entry) (n : string) : Prop :=
  Forall (fun fv => n <> env_name (mbvfv_var fv)) l.

Lemma default_env_all l e : Forall well_formed l ->
  exists e', each default_env l e = Done (tt, e') /\
    (forall v, environ e' !! env_name v = or_else (environ e !! env_name v) (first_value v l)) /\
    forall n, unset_by l n -> environ e' !! n = environ e !! n.
Proof.
  intros Hl. revert e. induction Hl as [|fv l [Hc [x Hx]] _ IH]; intros e.
  { exists e. split; [done|]. split; [|done]. intros v. by destruct (environ e !! env_name v). }
  destruct (setenv_spec (env_name (mbvfv_var fv)) x false e) as (e1 & E1 & Hset & Hother).
  { by apply env_name_valid. }
  destruct (IH e1) as (e' & E' & Hv & Hn). exists e'.
  split.
  { cbn [each]. erewrite act_bind_Done; [exact E'|]. unfold default_env. by rewrite Hx. }
  split.
  - intros v. rewrite Hv. cbn [first_value].
    destruct (String.eqb_spec v (mbvfv_var fv)) as [->|Hne].
    + rewrite Hset, Hx. simpl. by destruct (environ e !! _).
    + rewrite Hother; [done|]. intros E. by apply env_name_inj in E.
  - intros n Hun. apply Forall_cons in Hun as [Hun1 Hun]. by rewrite Hn, Hother.
Qed.

Lemma force_env_run suppress fv e x :
  mbvfv_value fv = Some x -> cut equals (mbvfv_var fv) = None ->
  exists e', force_env suppress fv e = Done (tt, e') /\
    environ e' !! env_name (mbvfv_var fv) = Some x /\
    forall n, n <> env_name (mbvfv_var fv) -> environ e' !! n = environ e !! n.
Proof.
  intros Hx Hc. unfold force_env. rewrite Hx.
  set (w := negb suppress && negb (bool_decide (environ e !! env_name (mbvfv_var fv) = None))).
  destruct (setenv_spec (env_name (mbvfv_var fv)) x true
              (if w then e <| warned := warned e ++ [env_name (mbvfv_var fv)] |> else e))
    as (e' & E & Hset & Hother); [by apply env_name_valid|].
  exists e'. split.
  - run_act. fold w. by destruct w.
  - split; [done|]. intros n Hn. rewrite Hother by done. by destruct w.
Qed.

Lemma force_env_all suppress l e : Forall well_formed l ->
  exists e', each (force_env suppress) l e = Done (tt, e') /\
    (forall v, environ e' !! env_name v = or_else (last_value v l) (environ e !! env_name v)) /\
    forall n, unset_by l n -> environ e' !! n = environ e !! n.
Proof.
  intros Hl. revert e. induction Hl as [|fv l [Hc [x Hx]] Hl IH]; intros e; [by exists e|].
  destruct (force_env_run suppress fv e x Hx Hc) as (e1 & E1 & Hset & Hother).
  destruct (IH e1) as (e' & E' & Hv & Hn). exists e'.
  split; [cbn [each]; by erewrite act_bind_Done|]. split.
  - intros v. rewrite Hv. unfold last_value. simpl. rewrite first_value_app by by apply Forall_rev.
    rewrite or_else_assoc. f_equal. simpl.
    destruct (String.eqb_spec v (mbvfv_var fv)) as [->|Hne]; [by rewrite Hset, Hx|].
    apply Hother. intros E. by apply env_name_inj in E.
  - intros n Hun. apply Forall_cons in Hun as [Hun1 Hun]. by rewrite Hn, Hother.
Qed.

(** The override file keeps the variables of the final list, and the values of those
    it does not set. *)
Lemma override_entries_run suppress params l e :
  Forall well_formed params -> Forall well_formed l ->
  exists l' e', override_entries suppress params l e = Done (l', e') /\
    environ e' = environ e /\ Forall well_formed l' /\
    (mbvfv_var <$> l') = (mbvfv_var <$> l) /\
    forall v, first_value v params = None -> first_value v l' = first_value v l.
Proof.
  intros Hp Hl. revert e. induction Hl as [|fv l Hfv Hl IH]; intros e; [by exists [], e|].
  assert (exists fv' e1, override_entry suppress params fv e = Done (fv', e1) /\
      environ e1 = environ e /\ well_formed fv' /\ mbvfv_var fv' = mbvfv_var fv /\
      (first_value (mbvfv_var fv) params = None -> fv' = fv)) as (fv' & e1 & E1 & He & Hg & Hv & Hk).
  { unfold override_entry. pose proof (take_match_spec (mbvfv_var fv) params) as Ht.
    destruct (take_match (mbvfv_var fv) params) as [[fv2 rest]|]; [|by exists fv, e].
    destruct Ht as (Hvar & Hval & Hperm & _). rewrite <- Hperm in Hp.
    apply Forall_cons in Hp as [[_ [x Hx]] _]. rewrite Hval, Hvar.
    exists (Entry (mbvfv_var fv) (Some x)). unfold well_formed. rewrite Hx.
    run_act. destruct Hfv as [Hc _].
    destruct suppress; simpl; eexists; (split; [done|]); repeat split; (done || by eauto). }
  destruct (IH e1) as (l' & e' & E' & He' & Hg' & Hv' & Hf').
  exists (fv' :: l'), e'. split.
  { cbn [override_entries]. erewrite act_bind_Done by exact E1. by erewrite act_bind_Done. }
  split; [congruence|]. split; [by constructor|]. split; [cbn; congruence|].
  intros v Hno. cbn [first_value]. rewrite Hv, Hf' by done.
  destruct (String.eqb_spec v (mbvfv_var fv)) as [->|]; [by rewrite Hk|done].
Qed.

(** ** The command line *)

Definition value_ok (v : string) : bool := bool_decide (is_Some (cut equals v)).

Definition option_ok (opt : option (option (list string))) : bool :=
  match opt with None => true | Some None => false | Some (Some l) => forallb value_ok l end.

Definition cli_ok (c : cli) : bool :=
  option_ok (cli_pmixmca c) && option_ok (cli_mca c) && option_ok (cli_dmca c).

(** What an option sets, in order. *)
Definition option_settings (prefix : string) (opt : option (option (list string))) : list entry :=
  omap (fun v => '(a, b) ← cut equals v; Some (Entry (prefix ++ a)%string (Some b)))
    (default [] (default None opt)).

Definition cli_settings (c : cli) : list entry :=
  option_settings "PMIX_MCA_" (cli_pmixmca c) ++ option_settings "DSCHED_MCA_" (cli_mca c) ++
  option_settings "DSCHED_MCA_" (cli_dmca c).

Lemma option_settings_wf prefix opt :
  cut equals prefix = None -> Forall well_formed (option_settings prefix opt).
Proof.
  intros Hc. unfold option_settings. apply Forall_forall. intros fv Hfv.
  apply list_elem_of_omap in Hfv as (v & _ & Hv).
  destruct (cut equals v) as [[a b]|] eqn:Ev; simpl in Hv; [|done]. injection Hv as <-.
  split; [|by eexists]. apply cut_app_None; [done|by eapply cut_name].
Qed.

Lemma last_value_app n l1 l2 : Forall well_formed l2 ->
  last_value n (l1 ++ l2) = or_else (last_value n l2) (last_value n l1).
Proof.
  intros Hl. unfold last_value. rewrite rev_app_distr. apply first_value_app. by apply Forall_rev.
Qed.

Lemma promote_values_run prefix l e :
  prefix <> ""%string -> cut equals prefix = None ->
  if forallb value_ok l then
    exists l' e', promote_values prefix l e = Done (l', e') /\
      (forall n, environ e' !! n =
         or_else (last_value n (option_settings prefix (Some (Some l)))) (environ e !! n)) /\
      (l <> [] -> forallb value_ok l' = false)
  else promote_values prefix l e = Fault NullDeref.
Proof.
  intros Hp Hc. revert e. induction l as [|v l IH]; intros e; [by exists [], e|].
  cbn [forallb promote_values]. unfold value_ok at 1.
  destruct (cut equals v) as [[a b]|] eqn:Ev; simpl; [|done].
  destruct (setenv_spec (prefix ++ a)%string b true e) as (e1 & E1 & Hset & Hother).
  { apply prefixed_valid; [done..|]. by eapply cut_name. }
  specialize (IH e1). destruct (forallb value_ok l).
  - destruct IH as (l' & e' & E' & Hn & _). exists (a :: l'), e'.
    split; [by do 2 (erewrite act_bind_Done by eassumption)|].
    split; [|intros _; simpl; unfold value_ok; by rewrite (cut_name _ _ _ _ Ev)].
    intros n. rewrite Hn.
    change (v :: l) with ([v] ++ l). unfold option_settings. simpl. rewrite Ev. simpl.
    change (Entry (prefix ++ a)%string (Some b) :: ?l) with ([Entry (prefix ++ a)%string (Some b)] ++ l).
    rewrite last_value_app by by apply (option_settings_wf prefix (Some (Some l))).
    rewrite or_else_assoc. f_equal. cbn.
    destruct (String.eqb_spec n (prefix ++ a)%string) as [->|Hne]; [done|by apply Hother].
  - by erewrite act_bind_Done, act_bind_Fault by eassumption.
Qed.

(** One option: what it leaves of its values, and of the environment. *)
Lemma promote_run prefix opt e :
  prefix <> ""%string -> cut equals prefix = None ->
  if option_ok opt then
    exists opt' e', promote prefix opt e = Done (opt', e') /\
      (forall n, environ e' !! n =
         or_else (last_value n (option_settings prefix opt)) (environ e !! n)) /\
      (option_settings prefix opt <> [] -> option_ok opt' = false)
  else promote prefix opt e = Fault NullDeref.
Proof.
  intros Hp Hc. destruct opt as [[l|]|]; simpl; [|done|by exists None, e].
  pose proof (promote_values_run prefix l e Hp Hc) as Hl.
  destruct (forallb value_ok l).
  - destruct Hl as (l' & e' & E' & Hn & Hs). exists (Some (Some l')), e'.
    split; [by erewrite act_bind_Done by eassumption|]. split; [done|].
    intros Hne. apply Hs. by intros ->.
  - by erewrite act_bind_Fault by eassumption.
Qed.

Lemma process_cli_fault c e :
  cli_ok c = false -> dsched_process_cli_mca_params c e = Fault NullDeref.
Proof.
  intros Hok. unfold dsched_process_cli_mca_params.
  pose proof (promote_run "PMIX_MCA_" (cli_pmixmca c) e ltac:(done) ltac:(done)) as H1.
  unfold cli_ok in Hok. destruct (option_ok (cli_pmixmca c)); [|by erewrite act_bind_Fault].
  destruct H1 as (a & e1 & E1 & _ & _). erewrite act_bind_Done by exact E1.
  pose proof (promote_run "DSCHED_MCA_" (cli_mca c) e1 ltac:(done) ltac:(done)) as H2.
  destruct (option_ok (cli_mca c)); [|by erewrite act_bind_Fault].
  destruct H2 as (b & e2 & E2 & _ & _). erewrite act_bind_Done by exact E2.
  pose proof (promote_run "DSCHED_MCA_" (cli_dmca c) e2 ltac:(done) ltac:(done)) as H3.
  simpl in Hok. rewrite Hok in H3. by erewrite act_bind_Fault.
Qed.

Lemma process_cli_run c e : cli_ok c = true ->
  exists c' e', dsched_process_cli_mca_params c e = Done ((code_value DSCHED_SUCCESS, c'), e') /\
    (forall n, environ e' !! n = or_else (last_value n (cli_settings c)) (environ e !! n)) /\
    (cli_settings c <> [] -> cli_ok c' = false).
Proof.
  intros Hok. unfold cli_ok in Hok. apply andb_true_iff in Hok as [[Ha Hb]%andb_true_iff Hd].
  pose proof (promote_run "PMIX_MCA_" (cli_pmixmca c) e ltac:(done) ltac:(done)) as H1.
  rewrite Ha in H1. destruct H1 as (a & e1 & E1 & N1 & O1).
  pose proof (promote_run "DSCHED_MCA_" (cli_mca c) e1 ltac:(done) ltac:(done)) as H2.
  rewrite Hb in H2. destruct H2 as (b & e2 & E2 & N2 & O2).
  pose proof (promote_run "DSCHED_MCA_" (cli_dmca c) e2 ltac:(done) ltac:(done)) as H3.
  rewrite Hd in H3. destruct H3 as (d & e3 & E3 & N3 & O3).
  exists (Cli a b d), e3. unfold dsched_process_cli_mca_params, cli_ok, cli_settings. split.
  { by do 3 (erewrite act_bind_Done by eassumption). }
  split.
  - intros n. rewrite N3, N2, N1, !last_value_app, !or_else_assoc; [done|..];
      rewrite ?Forall_app; auto using option_settings_wf.
  - intros Hne. simpl.
    destruct (option_settings "PMIX_MCA_" (cli_pmixmca c)); [|by rewrite O1].
    destruct (option_settings "DSCHED_MCA_" (cli_mca c)); [|by rewrite O2, andb_false_r].
    rewrite O3, andb_false_r; [done|]. by intros E; rewrite E in Hne.
Qed.

Lemma cross_check_elem params params2 pfinal fv :
  let '(pf, rest) := cross_check params params2 pfinal in
  fv ∈ pf ++ rest -> fv ∈ pfinal ++ params ++ params2.
Proof.
  revert params2 pfinal. induction params as [|p params IH]; intros params2 pfinal; simpl; [done|].
  pose proof (take_match_spec (mbvfv_var p) params2) as Ht.
  destruct (take_match (mbvfv_var p) params2) as [[fv2 rest]|].
  - destruct Ht as (_ & _ & Hperm & _). specialize (IH rest (pfinal ++ [fv2])).
    destruct (cross_check params rest (pfinal ++ [fv2])). intros Hin%IH. rewrite <- Hperm. set_solver.
  - specialize (IH params2 (pfinal ++ [p])).
    destruct (cross_check params params2 (pfinal ++ [p])). intros Hin%IH. set_solver.
Qed.

Lemma merge_unset sys user n : unset_by (sys ++ user) n -> unset_by (merge_defaults sys user) n.
Proof.
  unfold unset_by. rewrite !Forall_forall. intros Hn fv Hfv. apply Hn. unfold merge_defaults in Hfv.
  pose proof (cross_check_elem sys user [] fv) as Hc.
  destruct (cross_check sys user []). by apply Hc.
Qed.

Lemma unset_by_vars l l' n : mbvfv_var <$> l' = mbvfv_var <$> l -> unset_by l n -> unset_by l' n.
Proof.
  unfold unset_by. intros E.
  rewrite <- !(Forall_fmap mbvfv_var (fun v => n <> env_name v)). by rewrite E.
Qed.

Lemma first_value_None v l : Forall well_formed l ->
  first_value v l = None <-> Forall (fun fv => v <> mbvfv_var fv) l.
Proof.
  induction 1 as [|fv l [_ [x Hx]] _ IH]; simpl; [done|]. rewrite Forall_cons.
  destruct (String.eqb_spec v (mbvfv_var fv)); [by rewrite Hx; split; [|intros []]|].
  rewrite IH. tauto.
Qed.

Lemma last_value_None v l : Forall well_formed l -> last_value v l = None -> first_value v l = None.
Proof.
  intros Hl Hn. apply first_value_None; [done|]. apply first_value_None in Hn; [|by apply Forall_rev].
  apply Forall_rev in Hn. by rewrite rev_involutive in Hn.
Qed.

(** The override file is applied to the environment and to the final list. *)
Lemma apply_overrides_run g over l e :
  override_list g = inr over -> Forall well_formed over -> Forall well_formed l ->
  exists l' e', apply_overrides g l e = Done (inr l', e') /\ Forall well_formed l' /\
    mbvfv_var <$> l' = mbvfv_var <$> l /\
    (forall v, first_value v over = None -> first_value v l' = first_value v l) /\
    (forall v, environ e' !! env_name v = or_else (last_value v over) (environ e !! env_name v)) /\
    forall n, unset_by over n -> environ e' !! n = environ e !! n.
Proof.
  unfold override_list, apply_overrides. intros Ho Hover Hl.
  destruct (override_param_file g) as [file|].
  2:{ injection Ho as <-. by exists l, e. }
  destruct (parse_paramfile (Some file) []) as [rc params].
  destruct (parse_passes rc); [|done]. injection Ho as ->. simpl.
  destruct over as [|p over]; [by exists l, e|].
  destruct (override_entries_run (suppress_override_warning g) _ l e Hover Hl)
    as (l' & e1 & E1 & He1 & Hl' & Hvars & Hfirst).
  destruct (force_env_all (suppress_override_warning g) _ e1 Hover) as (e2 & E2 & Hv & Hn).
  exists l', e2. split; [by do 2 (erewrite act_bind_Done by eassumption)|].
  repeat split; [done..| |].
  - intros v. by rewrite Hv, He1.
  - intros n Hun. by rewrite Hn, He1.
Qed.

(** ** Properties *)

(** C18: Where a parameter gets its value from, when every entry of the files has a
    value (one without crashes the program). After the files are preloaded, the
    environment gives every variable the last value of the override file; failing
    that what it already had; failing that the first of the user's file, and only
    then the first of the system's. No other name of the environment changes. *)
Theorem preload_precedence sysconfdir g e sys user over :
  read_defaults sysconfdir g = Done (inr (sys, user)) -> override_list g = inr over ->
  Forall well_formed sys -> Forall well_formed user -> Forall well_formed over ->
  exists e', dsched_preload_default_mca_params sysconfdir g e =
      Done (code_value DSCHED_SUCCESS, e') /\
    (forall v, environ e' !! env_name v =
       or_else (last_value v over) (or_else (environ e !! env_name v)
         (or_else (first_value v user) (first_value v sys)))) /\
    forall n, unset_by (sys ++ user ++ over) n -> environ e' !! n = environ e !! n.
Proof.
  intros Hd Ho Hsys Huser Hover.
  destruct (merge_defaults_spec sys user Hsys Huser) as [Hm Hfirst].
  destruct (apply_overrides_run g over _ e Ho Hover Hm) as (l' & e1 & E1 & Hl' & Hvars & Hf & Hv1 & Hn1).
  destruct (default_env_all l' e1 Hl') as (e2 & E2 & Hv2 & Hn2). exists e2. split; [|split].
  - unfold dsched_preload_default_mca_params. rewrite Hd.
    erewrite act_bind_Done by done. cbv beta iota.
    erewrite act_bind_Done by exact E1. cbv beta iota. by erewrite act_bind_Done by exact E2.
  - intros v. rewrite Hv2, Hv1, or_else_assoc.
    destruct (last_value v over) eqn:El; [done|]. simpl.
    by rewrite Hf, Hfirst by by apply last_value_None.
  - intros n Hun. unfold unset_by in Hun. rewrite app_assoc, Forall_app in Hun. destruct Hun.
    rewrite Hn2, Hn1; [done..|]. by eapply unset_by_vars, merge_unset.
Qed.

(** Preloading sets all or nothing: when it does not report success, because a
    file cannot be read, the environment is as it was. *)
Theorem preload_all_or_nothing sysconfdir g e rc e' :
  dsched_preload_default_mca_params sysconfdir g e = Done (rc, e') -> rc <> DSCHED_SUCCESS ->
  e' = e.
Proof.
  intros E Hrc. unfold dsched_preload_default_mca_params in E.
  apply act_bind_inv in E as (d & e1 & E1 & E).
  destruct (read_defaults sysconfdir g); [|done]. injection E1 as -> <-.
  destruct d as [rc1|[sys user]]; [by injection E|].
  apply act_bind_inv in E as (r & e2 & E2 & E). destruct r as [rc2|l].
  - injection E as -> ->. unfold apply_overrides in E2.
    destruct (override_param_file g) as [file|]; [|done].
    destruct (parse_paramfile (Some file) []) as [rc3 params].
    destruct (parse_passes rc3); [|by injection E2].
    destruct params; [done|]. by repeat (apply act_bind_inv in E2 as (? & ? & _ & E2)).
  - apply act_bind_inv in E as (? & ? & _ & E). by injection E.
Qed.

(** The parameters of the command line. When every value given has an equals
    sign, each name is set to the last value given for it, over whatever the
    environment had, and no other name changes; a value without one brings the
    program down. Reading the same command line again does so too: the equals signs
    are overwritten in place. *)
Theorem cli_params_final c e :
  if cli_ok c then
    exists c' e', dsched_process_cli_mca_params c e = Done ((code_value DSCHED_SUCCESS, c'), e') /\
      (forall n, environ e' !! n = or_else (last_value n (cli_settings c)) (environ e !! n)) /\
      (cli_settings c <> [] -> forall e2, dsched_process_cli_mca_params c' e2 = Fault NullDeref)
  else dsched_process_cli_mca_params c e = Fault NullDeref.
Proof.
  destruct (cli_ok c) eqn:Hok; [|by apply process_cli_fault].
  destruct (process_cli_run c e Hok) as (c' & e' & E & Hn & Hs).
  exists c', e'. repeat split; [done..|]. intros Hne e2. by apply process_cli_fault, Hs.
Qed.
End Params.

(** ** Examples *)

#[local] Existing Instance sample_pmix.

Definition sample_file (path : cstr) : Z * list entry :=
  match path with
  | Some "etc"%string =>
      (0, [Entry "verbose" (Some "1"%string); Entry "tmpdir" (Some "/s"%string)])
  | Some "home"%string => (0, [Entry "verbose" (Some "2"%string)])
  | Some "over"%string => (0, [Entry "tmpdir" (Some "/o"%string)])
  | Some "bad"%string => (-1, [])
  | _ => (-46, [])
  end.

#[local] Instance sample_params_lib : ParamLib := {|
  home_directory := Some "home"%string;
  os_path := fun l => match l with p :: _ => p | [] => None end;
  parse_paramfile := fun path l => let '(rc, m) := sample_file path in (rc, l ++ m);
  check_pmix_param := fun _ => false;
  var_string := fun _ _ x => x;
  var_int := fun _ _ x => x;
  var_bool := fun _ _ x => x;
  output_open := Z.of_nat
|}.

Definition sample_params (over : string) : params_globals :=
  Params 0 None None (Some over) false 0 0 0 None false false None false (-1).

Definition sample_penv : penv := Penv ∅ [] 0 [].

Lemma preload_precedence_witness :
  exists e', dsched_preload_default_mca_params (Some "etc"%string) (sample_params "over")
      sample_penv = Done (0, e') /\
    environ e' !! "DSCHED_MCA_verbose"%string = Some "2"%string /\
    environ e' !! "DSCHED_MCA_tmpdir"%string = Some "/o"%string.
Proof.
  destruct (preload_precedence (Some "etc"%string) (sample_params "over") sample_penv
    [Entry "verbose" (Some "1"%string); Entry "tmpdir" (Some "/s"%string)]
    [Entry "verbose" (Some "2"%string)] [Entry "tmpdir" (Some "/o"%string)]
    ltac:(by vm_compute) ltac:(by vm_compute)) as (e' & E & Hv & _);
    [repeat constructor; eexists; reflexivity..|].
  exists e'. split; [exact E|]. split; [exact (Hv "verbose"%string)|exact (Hv "tmpdir"%string)].
Defined.

Lemma preload_all_or_nothing_witness :
  exists e', dsched_preload_default_mca_params (Some "etc"%string) (sample_params "bad")
      sample_penv = Done (-1, e') /\ e' = sample_penv.
Proof.
  exists sample_penv. split; [by vm_compute|].
  apply (preload_all_or_nothing (Some "etc"%string) (sample_params "bad") _ (-1));
    [by vm_compute|done].
Defined.
