(* ===== verification/Startup.v ===== *)
(** Start-up of the runtime: src/runtime/dsched_rte.c (the version of the PMIx
    library, the name of this host), src/util/dsched_session_dir.c (the session
    directory) and the event base of src/event/event.c. *)

From stdpp Require Import pretty.
From S2P Require Import Prelude Pmix Constants Attr Globals.

(** ** Versions *)

(** A version triplet; the code passes its parts one by one. *)
Record version := Version { v_major : Z; v_minor : Z; v_release : Z }.

Definition check_range (v lim : version) : bool :=
  if v_major lim <? v_major v then true
  else if v_major v <? v_major lim then false
  else if v_minor lim <? v_minor v then true
  else if v_minor v <? v_minor lim then false
  else if v_release v <? v_release lim then false
  else true.

Definition make_version_string (major minor release : Z) (greek repo : cstr) : string :=
  let str := (pretty major ++ "." ++ pretty minor)%string in
  let str := if 0 <=? release then (str ++ "." ++ pretty release)%string else str in
  let str := match greek with Some greek => (str ++ greek)%string | None => str end in
  match repo with Some repo => (str ++ repo)%string | None => str end.

(** ** The libraries and the system *)

Class RteLib `{PMIx} := {
  (** What sscanf reads in PMIx_Get_version(): nothing when it has another form. *)
  pmix_version : option version;
  (** The limits and the version of the build. *)
  min_version : version;
  max_version : version;
  dsched_version : version;
  dsched_greek : cstr;
  (** Opening the installation directories, and what they hold. *)
  dinstalldirs_open : Z;
  pmixlibdir : cstr;
  (** stat(path, &buf) succeeds. *)
  stat_ok : cstr -> bool;
  (** pmix_init_util(NULL, 0, path) and pmix_mca_base_var_init(). *)
  init_util_rc : cstr -> Z;
  var_init_rc : Z;
  (** gethostname, pmix_ifgetaliases, pmix_net_isaddr. *)
  host_name : string;
  if_aliases : option (list string) -> option (list string);
  net_isaddr : string -> bool;
  (** PMIx_Argv_append_unique_nosize. *)
  append_unique : option (list string) -> string -> option (list string);
  append_unique_elem l s x :
    x ∈ default [] (append_unique l s) <-> x = s \/ x ∈ default [] l;
  (** event_base_new. *)
  event_base_new : option Z;
  (** pmix_tmp_directory, and the status of pmix_os_dirpath_create(path, S_IRWXU). *)
  tmp_directory : cstr;
  dirpath_create : cstr -> Z;
  PMIX_ERR_EXISTS : Z;
  PMIX_ERR_FATAL : Z;
  exists_not_success : PMIX_ERR_EXISTS <> PMIX_SUCCESS
}.

(** The globals this file reads and writes. *)
Record rte := Rte {
  rt_host : host;
  rt_strip_prefixes : cstr;
  rt_keep_fqdn : bool;
  rt_basename : cstr;
  rt_evbase : option Z;
  rt_evactive : bool;
  event_initialized : bool;
  util_initialized : bool;
  pmix_tool_basename : cstr;
  pmix_tool_version : cstr
}.
#[export] Instance eta_rte : Eta rte := fun g =>
  Rte (rt_host g) (rt_strip_prefixes g) (rt_keep_fqdn g) (rt_basename g) (rt_evbase g)
    (rt_evactive g) (event_initialized g) (util_initialized g) (pmix_tool_basename g)
    (pmix_tool_version g).

Section Startup.
Context `{RteLib}.

(** ** The event base *)

Definition dsched_event_base_open (g : rte) : Z * rte :=
  if event_initialized g then (code_value DSCHED_SUCCESS, g) else
  match event_base_new with
  | None => (code_value DSCHED_ERROR, g <| rt_evbase := None |>)
  | Some b => (code_value DSCHED_SUCCESS,
               g <| rt_evbase := Some b |> <| event_initialized := true |>)
  end.

(** The base that is freed, when one is; the pointer to it is kept. *)
Definition dsched_event_base_close (g : rte) : option (option Z) * Z * rte :=
  if negb (event_initialized g) then (None, code_value DSCHED_SUCCESS, g) else
  (Some (rt_evbase g), code_value DSCHED_SUCCESS, g <| event_initialized := false |>).

(** ** The name of this host *)

(** The loop that skips up to the first digit that is not zero. *)
Fixpoint skip_to_number (s : string) : string :=
  match s with
  | EmptyString => EmptyString
  | String c s' =>
      let n := Z.of_nat (Ascii.nat_of_ascii c) in
      if (n <=? 48) || (57 <? n) then skip_to_number s' else s
  end.

(** The loop over the prefixes: the name that is left, when one matches. *)
Fixpoint strip_name (prefixes : list string) (name : string) : option string :=
  match prefixes with
  | [] => None
  | p :: prefixes =>
      match after_prefix p name with
      | Some rest =>
          match skip_to_number rest with EmptyString => Some rest | number => Some number end
      | None => strip_name prefixes name
      end
  end.

(** The name before FQDN handling, and the aliases. *)
Definition stripped_host (g : rte) : outcome (string * option (list string)) :=
  let als := if_aliases (aliases (rt_host g)) in
  match rt_strip_prefixes g with
  | None => Done (host_name, als)
  | Some pre =>
      if net_isaddr host_name then Done (host_name, als) else
      match argv_split pre (Ascii.ascii_of_nat 44) with
      | None => Fault NullDeref
      | Some prefixes =>
          Done match strip_name prefixes host_name with
               | Some name => (name, append_unique als name)
               | None => (host_name, als)
               end
      end
  end.

Definition dot : Ascii.ascii := Ascii.ascii_of_nat 46.

Definition set_hostname (g : rte) : outcome host :=
  '(name, als) ← stripped_host g;
  Done
    (if net_isaddr name then Host (Some name) als else
     match cut dot name with
     | None => Host (Some name) als
     | Some (short, _) =>
         if rt_keep_fqdn g then Host (Some name) (append_unique als short)
         else Host (Some short) (append_unique als name)
     end).

(** ** dsched_init_util *)

(** From the installation directories on. *)
Definition init_frameworks (g : rte) : outcome (Z * rte) :=
  if negb (dinstalldirs_open =? DSCHED_SUCCESS) then Done (dinstalldirs_open, g) else
  path ← (if stat_ok pmixlibdir
          then dir ← print_s pmixlibdir; Done (Some ("dsched@" ++ dir)%string)
          else Done None);
  if negb (ok (init_util_rc path)) then Done (init_util_rc path, g) else
  if negb (var_init_rc =? DSCHED_SUCCESS) then Done (var_init_rc, g) else
  h ← set_hostname g;
  let '(ret, g) := dsched_event_base_open (g <| rt_host := h |>) in
  if ret =? DSCHED_SUCCESS then Done (code_value DSCHED_SUCCESS, g <| rt_evactive := true |>)
  else Done (ret, g).

Definition tool_version_string : string :=
  make_version_string (v_major dsched_version) (v_minor dsched_version)
    (v_release dsched_version) dsched_greek None.

Definition dsched_init_util (g : rte) : outcome (Z * rte) :=
  if util_initialized g then Done (code_value DSCHED_SUCCESS, g) else
  let g := g <| util_initialized := true |> in
  match pmix_version with
  | None => Fault Uninitialised
  | Some v =>
      if negb (check_range v min_version) then Done (code_value DSCHED_ERR_SILENT, g) else
      if check_range v max_version then Done (code_value DSCHED_ERR_SILENT, g) else
      init_frameworks (g <| pmix_tool_version := Some tool_version_string |>
                         <| pmix_tool_basename := rt_basename g |>)
  end.

(** ** The session directory *)

(** The calls that touch the file system, with the status of a creation. *)
Inductive dircall := D_create (path : cstr) (rc : Z) | D_destroy (path : string) | D_rmdir (path : string).

Record session_dir := SessionDir {
  sd_tmpdir : cstr;
  prohibited_session_dirs : cstr;
  tmpdir_created : bool;
  setup_base_complete : bool;
  dircalls : list dircall
}.
#[export] Instance eta_session_dir : Eta session_dir := fun s =>
  SessionDir (sd_tmpdir s) (prohibited_session_dirs s) (tmpdir_created s)
    (setup_base_complete s) (dircalls s).

(** The prefixes of the prohibited directories match the name. *)
Definition prohibited (dirs : cstr) (tmpdir : cstr) : bool :=
  match dirs, tmpdir with
  | Some dirs, Some tmpdir =>
      existsb (fun p => bool_decide (is_Some (after_prefix p tmpdir)))
        (default [] (argv_split dirs (Ascii.ascii_of_nat 44)))
  | _, _ => false
  end.

(** The second half of the initialization: the check and the creation. *)
Definition create_session_dir (s : session_dir) : Z * session_dir :=
  if prohibited (prohibited_session_dirs s) (sd_tmpdir s) then (PMIX_ERR_FATAL, s) else
  let rc := dirpath_create (sd_tmpdir s) in
  let s := s <| dircalls := dircalls s ++ [D_create (sd_tmpdir s) rc] |> in
  if negb (ok rc) && negb (bool_decide (rc = PMIX_ERR_EXISTS)) then (rc, s) else
  (PMIX_SUCCESS, if bool_decide (rc = PMIX_ERR_EXISTS) then s else s <| tmpdir_created := true |>).

Definition dsched_session_dir_init (s : session_dir) : outcome (Z * session_dir) :=
  if setup_base_complete s then Done (PMIX_SUCCESS, s) else
  let s := s <| setup_base_complete := true |> in
  s ← match sd_tmpdir s with
      | Some _ => Done s
      | None => d ← strdup tmp_directory; Done (s <| sd_tmpdir := if mem_ok then d else None |>)
      end;
  Done (create_session_dir s).

Definition dsched_session_dir_finalize (s : session_dir) : session_dir :=
  match tmpdir_created s, sd_tmpdir s with
  | true, Some tmpdir =>
      s <| dircalls := dircalls s ++ [D_destroy tmpdir; D_rmdir tmpdir] |> <| sd_tmpdir := None |>
  | _, _ => s
  end.
End Startup.

(** ** Facts *)

(** A triplet of 32-bit numbers as one number. *)
Definition parts_ok (v : version) : Prop :=
  0 <= v_major v < 2 ^ 32 /\ 0 <= v_minor v < 2 ^ 32 /\ 0 <= v_release v < 2 ^ 32.

Definition number (v : version) : Z := v_major v * 2 ^ 64 + v_minor v * 2 ^ 32 + v_release v.

Lemma check_range_number v lim :
  parts_ok v -> parts_ok lim -> check_range v lim = (number lim <=? number v).
Proof.
  intros (? & ? & ?) (? & ? & ?). unfold check_range, number.
  repeat match goal with |- context [Z.ltb ?a ?b] => destruct (Z.ltb_spec a b) end;
    destruct (Z.leb_spec (v_major lim * 2 ^ 64 + v_minor lim * 2 ^ 32 + v_release lim)
                         (v_major v * 2 ^ 64 + v_minor v * 2 ^ 32 + v_release v)); lia.
Qed.

Section Facts.
Context `{RteLib}.

(** The name check on a host that has a name. *)
Lemma check_local_true h name x :
  hostname h = Some x ->
  name = x \/ name ∈ default [] (aliases h) -> dsched_check_host_is_local h (Some name) = Done true.
Proof.
  intros Hx Hn. rewrite check_host_is_local_spec by by eexists. f_equal. unfold is_local.
  destruct Hn as [->|Hn].
  - by rewrite bool_decide_true.
  - apply argv_mem_true in Hn. by rewrite Hn, !orb_true_r.
Qed.

(** The host [dsched_init_util] names does not depend on what it sets before. *)
Lemma init_util_host g g' :
  dsched_init_util g = Done (code_value DSCHED_SUCCESS, g') -> util_initialized g = false ->
  set_hostname g = Done (rt_host g').
Proof.
  unfold dsched_init_util. intros Hg Hu. rewrite Hu in Hg.
  destruct pmix_version as [v|]; [|done].
  destruct (negb (check_range v min_version)); [done|]. destruct (check_range v max_version); [done|].
  unfold init_frameworks in Hg.
  destruct (negb _) eqn:E1 in Hg; [injection Hg as Hrc _; by rewrite Hrc in E1|]. clear E1.
  destruct (if stat_ok pmixlibdir then _ else _) as [path|]; [|done]. cbn [mbind outcome_bind] in Hg.
  destruct (negb (ok _)) eqn:E2 in Hg.
  { injection Hg as Hrc _. apply negb_true_iff, ok_false in E2. by rewrite pmix_success_zero in E2. }
  destruct (negb _) eqn:E3 in Hg; [injection Hg as Hrc _; by rewrite Hrc in E3|]. clear E2 E3.
  match type of Hg with context [set_hostname ?x] =>
    change (set_hostname x) with (set_hostname g) in Hg end.
  destruct (set_hostname g) as [h|]; [|done]. cbn [mbind outcome_bind] in Hg.
  unfold dsched_event_base_open in Hg. destruct (event_initialized _); [by injection Hg as <-|].
  destruct event_base_new; by simplify_eq/=.
Qed.

(** ** Properties *)

(** Opening the event base twice makes one base, and closing it twice frees that base
    once; between the two the pointer to the freed base stays in the globals, and the
    next opening replaces it. *)
Theorem event_base_life g b :
  event_base_new = Some b -> event_initialized g = false ->
  let opened := (dsched_event_base_open g).2 in
  let closed := (dsched_event_base_close opened).2 in
  rt_evbase opened = Some b /\
  dsched_event_base_open opened = (code_value DSCHED_SUCCESS, opened) /\
  dsched_event_base_close opened = (Some (Some b), code_value DSCHED_SUCCESS, closed) /\
  dsched_event_base_close closed = (None, code_value DSCHED_SUCCESS, closed) /\
  rt_evbase closed = Some b /\ dsched_event_base_open closed = (code_value DSCHED_SUCCESS, opened).
Proof.
  intros Hnew Hg. unfold dsched_event_base_open. rewrite Hg, Hnew. cbn.
  unfold dsched_event_base_close. cbn. by destruct g.
Qed.

(** C35: The program starts only with a library in its window: whatever the version
    triplet, initialization goes past the version test exactly when the version is at
    least the minimum and less than the maximum in the order of versions, and ends
    with [DSCHED_ERR_SILENT] otherwise. *)
Theorem version_window g v :
  util_initialized g = false -> pmix_version = Some v ->
  parts_ok v -> parts_ok min_version -> parts_ok max_version ->
  dsched_init_util g =
    let g := g <| util_initialized := true |> in
    if (number min_version <=? number v) && (number v <? number max_version)
    then init_frameworks (g <| pmix_tool_version := Some tool_version_string |>
                            <| pmix_tool_basename := rt_basename g |>)
    else Done (code_value DSCHED_ERR_SILENT, g).
Proof.
  intros Hg Hv Hp Hmin Hmax. unfold dsched_init_util. rewrite Hg, Hv, !check_range_number by done.
  simpl. destruct (Z.leb_spec (number min_version) (number v)); simpl; [|done].
  by destruct (Z.leb_spec (number max_version) (number v)), (Z.ltb_spec (number v) (number max_version));
    try lia.
Qed.

(** The host knows its own names. Without a prefix to strip, every name of the
    host is recognised as local once the host name is set: the name the system gives,
    its first component when it is not an address, and the aliases of its interfaces. *)
Theorem own_names_local g h name :
  set_hostname g = Done h -> rt_strip_prefixes g = None ->
  name = host_name \/
    (net_isaddr host_name = false /\ exists rest, cut dot host_name = Some (name, rest)) \/
    name ∈ default [] (if_aliases (aliases (rt_host g))) ->
  dsched_check_host_is_local h (Some name) = Done true.
Proof.
  intros E Hs Hn. unfold set_hostname, stripped_host in E. rewrite Hs in E. simpl in E.
  destruct (net_isaddr host_name).
  { injection E as <-. eapply check_local_true; [done|]. simpl. naive_solver. }
  destruct (cut dot host_name) as [[short rest]|].
  - destruct (rt_keep_fqdn g); injection E as <-; (eapply check_local_true; [done|]);
      simpl; rewrite append_unique_elem; naive_solver.
  - injection E as <-. eapply check_local_true; [done|]. simpl. naive_solver.
Qed.

Lemma strip_name_suffix prefixes name r :
  strip_name prefixes name = Some r ->
  exists p zeroes, p ∈ prefixes /\ name = (p ++ zeroes ++ r)%string.
Proof.
  induction prefixes as [|p prefixes IH]; simpl; [done|].
  destruct (after_prefix p name) as [rest|] eqn:Ep.
  - apply after_prefix_app in Ep as ->.
    assert (exists z, rest = (z ++ skip_to_number rest)%string) as [z Hz].
    { clear. induction rest as [|c rest [z Hz]]; [by exists ""%string|]. cbn [skip_to_number].
      destruct (_ || _); [|by exists ""%string]. exists (String c z).
      change (String c rest = String c (z ++ skip_to_number rest)). by f_equal. }
    intros E. exists p.
    destruct (skip_to_number rest) eqn:Er; injection E as <-;
      [exists ""%string|exists z; rewrite <- Hz]; split; (done || set_solver).
  - intros (q & z & Hq & ->)%IH. exists q, z. split; [set_solver|done].
Qed.

(** Stripping a prefix loses the name of the host. The name kept is what follows
    one of the prefixes and the characters up to a digit that is not zero; the alias
    recorded is that name again, so that the name the system gives is no longer
    recognised as local, unless it is an alias of an interface. *)
Theorem stripped_name_unknown g pre prefixes name :
  rt_strip_prefixes g = Some pre -> argv_split pre (Ascii.ascii_of_nat 44) = Some prefixes ->
  net_isaddr host_name = false -> strip_name prefixes host_name = Some name ->
  name <> host_name -> cut dot name = None ->
  exists h p zeroes, set_hostname g = Done h /\ hostname h = Some name /\
    p ∈ prefixes /\ host_name = (p ++ zeroes ++ name)%string /\
    dsched_check_host_is_local h (Some host_name) =
      Done (existsb (String.eqb host_name)
        (["localhost"; "127.0.0.1"]%string ++ default [] (if_aliases (aliases (rt_host g))))).
Proof.
  intros Hs Hsplit Haddr Hstrip Hne Hdot.
  destruct (strip_name_suffix _ _ _ Hstrip) as (p & z & Hp & Hz).
  exists (Host (Some name) (append_unique (if_aliases (aliases (rt_host g))) name)), p, z.
  split.
  { unfold set_hostname, stripped_host. rewrite Hs, Haddr, Hsplit, Hstrip. simpl. rewrite Hdot.
    by destruct (net_isaddr name). }
  repeat split; [done..|].
  rewrite check_host_is_local_spec by by eexists. f_equal. unfold is_local. simpl.
  rewrite bool_decide_false by congruence. rewrite <- orb_assoc. simpl. do 2 f_equal.
  apply eq_iff_eq_true. rewrite argv_mem_true, append_unique_elem, existsb_exists.
  split.
  - intros [E|Hin]; [congruence|]. exists host_name. split; [by apply list_elem_of_In|apply String.eqb_refl].
  - intros (x & Hx%list_elem_of_In & ->%String.eqb_eq). by right.
Qed.

(** The calls a program makes on its session directory. *)
Inductive dirop := Init | Finalize.

Fixpoint run_dirops (ops : list dirop) (s : session_dir) : outcome session_dir :=
  match ops with
  | [] => Done s
  | Init :: ops => '(_, s) ← dsched_session_dir_init s; run_dirops ops s
  | Finalize :: ops => run_dirops ops (dsched_session_dir_finalize s)
  end.

(** The life of the directory [p] from [init] on, with the calls made. *)
Inductive dir_life (dirs : cstr) : session_dir -> Prop :=
| life_unmade tmpdir complete :
    dir_life dirs (SessionDir tmpdir dirs false complete [])
| life_failed tmpdir p rc :
    rc <> PMIX_SUCCESS -> prohibited dirs p = false ->
    dir_life dirs (SessionDir tmpdir dirs false true [D_create p rc])
| life_made p :
    prohibited dirs p = false ->
    dir_life dirs (SessionDir p dirs true true [D_create p PMIX_SUCCESS])
| life_ended p :
    prohibited dirs (Some p) = false ->
    dir_life dirs (SessionDir None dirs true true
      [D_create (Some p) PMIX_SUCCESS; D_destroy p; D_rmdir p]).

Lemma init_keeps_life dirs s rc s' :
  dir_life dirs s -> dsched_session_dir_init s = Done (rc, s') -> dir_life dirs s'.
Proof.
  intros Hs E. unfold dsched_session_dir_init in E.
  destruct Hs as [tmpdir [|]|tmpdir p rc0 Hrc Hp|p Hp|p Hp]; simpl in E;
    try (injection E as <- <-; by constructor).
  assert (exists t, create_session_dir (SessionDir t dirs false true []) = (rc, s')) as [t E'].
  { destruct tmpdir as [d|]; [exists (Some d)|destruct tmp_directory as [d|]; [|done];
      exists (if mem_ok then Some d else None)]; by injection E. }
  clear E. unfold create_session_dir in E'. simpl in E'.
  destruct (prohibited dirs t) eqn:Hp; [injection E' as <- <-; constructor|].
  destruct (bool_decide_reflect (dirpath_create t = PMIX_ERR_EXISTS)) as [He|He].
  - rewrite andb_false_r in E'. injection E' as <- <-. rewrite He.
    constructor; [apply exists_not_success|done].
  - rewrite andb_true_r in E'. destruct (ok (dirpath_create t)) eqn:Hok; injection E' as <- <-.
    + apply ok_true in Hok. rewrite Hok. by constructor.
    + apply ok_false in Hok. by constructor.
Qed.

Lemma finalize_keeps_life dirs s : dir_life dirs s -> dir_life dirs (dsched_session_dir_finalize s).
Proof.
  destruct 1 as [tmpdir complete|tmpdir p rc Hrc Hp|[p|] Hp|p Hp]; by constructor.
Qed.

(** C33: The session directory. Whatever the sequence of initializations and clean-ups,
    the file system sees at most one creation, never of a directory under a
    prohibited prefix; and a directory is only removed when the program has created
    it itself, once. *)
Theorem session_dir_owned ops tmpdir dirs s :
  run_dirops ops (SessionDir tmpdir dirs false false []) = Done s ->
  dircalls s = [] \/
  (exists p rc, prohibited dirs p = false /\ dircalls s = [D_create p rc]) \/
  (exists p, prohibited dirs (Some p) = false /\
     dircalls s = [D_create (Some p) PMIX_SUCCESS; D_destroy p; D_rmdir p]).
Proof.
  assert (Hlife : dir_life dirs (SessionDir tmpdir dirs false false [])) by constructor.
  revert Hlife. generalize (SessionDir tmpdir dirs false false []) as s0.
  induction ops as [|[] ops IH]; intros s0 Hs0 E; simpl in E.
  - injection E as <-. destruct Hs0; naive_solver.
  - destruct (dsched_session_dir_init s0) as [[rc s1]|] eqn:E1; [|done]. simpl in E.
    by apply (IH s1); [eapply init_keeps_life|].
  - by eapply IH; [apply finalize_keeps_life|].
Qed.
End Facts.

(** ** Examples *)

#[local] Existing Instance sample_pmix.

#[local] Instance sample_rte_lib : RteLib.
Proof.
  refine {|
    pmix_version := Some (Version 6 0 1);
    min_version := Version 6 0 0; max_version := Version 7 0 0;
    dsched_version := Version 1 0 0; dsched_greek := Some "a1"%string;
    dinstalldirs_open := 0; pmixlibdir := None; stat_ok := fun _ => false;
    init_util_rc := fun _ => 0; var_init_rc := 0;
    host_name := "node007.cluster.org"%string;
    if_aliases := fun _ => Some ["10.0.0.7"%string];
    net_isaddr := fun _ => false;
    append_unique := fun l s => Some (default [] l ++ [s]);
    event_base_new := Some 1;
    tmp_directory := Some "/tmp"%string;
    dirpath_create := fun _ => 0;
    PMIX_ERR_EXISTS := -11; PMIX_ERR_FATAL := -5
  |}; [intros; simpl; set_solver|done].
Defined.

Definition sample_rte (strip : cstr) : rte :=
  Rte (Host None None) strip false (Some "dsched"%string) None false false false None None.

Lemma version_window_witness :
  dsched_init_util (sample_rte None) =
    init_frameworks ((sample_rte None) <| util_initialized := true |>
      <| pmix_tool_version := Some "1.0.0a1"%string |>
      <| pmix_tool_basename := Some "dsched"%string |>).
Proof.
  exact (version_window (sample_rte None) (Version 6 0 1) eq_refl eq_refl
    ltac:(repeat split; simpl; lia) ltac:(repeat split; simpl; lia) ltac:(repeat split; simpl; lia)).
Defined.

Lemma own_names_local_witness :
  exists h, set_hostname (sample_rte None) = Done h /\
    dsched_check_host_is_local h (Some "node007"%string) = Done true.
Proof.
  eexists. split; [reflexivity|].
  apply (own_names_local (sample_rte None)); [reflexivity..|].
  right; left. split; [reflexivity|by eexists].
Defined.

Definition plain_host : RteLib := {|
  pmix_version := None;
  min_version := Version 6 0 0; max_version := Version 7 0 0;
  dsched_version := Version 1 0 0; dsched_greek := None;
  dinstalldirs_open := 0; pmixlibdir := None; stat_ok := fun _ => false;
  init_util_rc := fun _ => 0; var_init_rc := 0;
  host_name := "node007"%string;
  if_aliases := fun _ => Some ["10.0.0.7"%string];
  net_isaddr := fun _ => false;
  append_unique := @append_unique _ sample_rte_lib;
  append_unique_elem := @append_unique_elem _ sample_rte_lib;
  event_base_new := Some 1;
  tmp_directory := Some "/tmp"%string;
  dirpath_create := fun _ => 0;
  PMIX_ERR_EXISTS := -11; PMIX_ERR_FATAL := -5;
  exists_not_success := @exists_not_success _ sample_rte_lib
|}.

Lemma stripped_name_unknown_witness :
  exists h, @set_hostname _ plain_host (sample_rte (Some "node"%string)) = Done h /\
    hostname h = Some "7"%string /\
    dsched_check_host_is_local h (Some "node007"%string) = Done false.
Proof.
  destruct (@stripped_name_unknown _ plain_host (sample_rte (Some "node"%string)) "node"
    ["node"%string] "7" eq_refl eq_refl eq_refl eq_refl ltac:(done) eq_refl)
    as (h & p & z & E & Hh & _ & _ & Hl).
  exists h. split; [exact E|]. split; [exact Hh|exact Hl].
Defined.

Lemma session_dir_owned_witness :
  exists s, run_dirops [Init; Finalize; Finalize; Init] (SessionDir None None false false []) = Done s /\
    dircalls s <> [] /\
    ((exists p rc, prohibited None p = false /\ dircalls s = [D_create p rc]) \/
     (exists p, prohibited None (Some p) = false /\
       dircalls s = [D_create (Some p) PMIX_SUCCESS; D_destroy p; D_rmdir p])).
Proof.
  eexists. split; [reflexivity|]. split; [done|].
  destruct (session_dir_owned [Init; Finalize; Finalize; Init] None None
    (SessionDir None None true true
      [D_create (Some "/tmp"%string) 0; D_destroy "/tmp"; D_rmdir "/tmp"])) as [E|E];
    [reflexivity|discriminate E|exact E].
Defined.
