(* ===== verification/Dirs.v ===== *)
(** Installation directories: src/mca/dinstalldirs. The components (the environment
    and the build configuration) offer values for seventeen directories; the first
    value offered for each is kept, and references of one directory to others,
    [${name}] or [@{name}], are expanded. *)

From S2P Require Import Prelude Pmix Constants.

(** The fields of pmix_pinstall_dirs_t, in the order of the code. *)
Inductive field :=
| prefix | exec_prefix | bindir | sbindir | libexecdir | datarootdir | datadir
| sysconfdir | sharedstatedir | localstatedir | libdir | includedir | infodir | mandir
| pmixdatadir | pmixlibdir | pmixincludedir.

#[export] Instance field_eq_dec : EqDecision field.
Proof. solve_decision. Defined.

Definition all_fields : list field :=
  [prefix; exec_prefix; bindir; sbindir; libexecdir; datarootdir; datadir; sysconfdir;
   sharedstatedir; localstatedir; libdir; includedir; infodir; mandir; pmixdatadir;
   pmixlibdir; pmixincludedir].

Definition install_dirs : Type := field -> cstr.

Definition set_dir (f : field) (v : cstr) (dirs : install_dirs) : install_dirs :=
  fun f' => if decide (f' = f) then v else dirs f'.

Definition dsched_dinstall_dirs : install_dirs := fun _ => None.

(** The name a reference uses. *)
Definition field_name (f : field) : string :=
  match f with
  | prefix => "prefix" | exec_prefix => "exec_prefix" | bindir => "bindir"
  | sbindir => "sbindir" | libexecdir => "libexecdir" | datarootdir => "datarootdir"
  | datadir => "datadir" | sysconfdir => "sysconfdir" | sharedstatedir => "sharedstatedir"
  | localstatedir => "localstatedir" | libdir => "libdir" | includedir => "includedir"
  | infodir => "infodir" | mandir => "mandir" | pmixdatadir => "pkgdatadir"
  | pmixlibdir => "pkglibdir" | pmixincludedir => "pkgincludedir"
  end.

Definition env_name (f : field) : string :=
  match f with
  | prefix => "DSCHED_PREFIX" | exec_prefix => "DSCHED_EXEC_PREFIX"
  | bindir => "DSCHED_BINDIR" | sbindir => "DSCHED_SBINDIR"
  | libexecdir => "DSCHED_LIBEXECDIR" | datarootdir => "DSCHED_DATAROOTDIR"
  | datadir => "DSCHED_DATADIR" | sysconfdir => "DSCHED_SYSCONFDIR"
  | sharedstatedir => "DSCHED_SHAREDSTATEDIR" | localstatedir => "DSCHED_LOCALSTATEDIR"
  | libdir => "DSCHED_LIBDIR" | includedir => "DSCHED_INCLUDEDIR"
  | infodir => "DSCHED_INFODIR" | mandir => "DSCHED_MANDIR"
  | pmixdatadir => "DSCHED_PKGDATADIR" | pmixlibdir => "DSCHED_PKGLIBDIR"
  | pmixincludedir => "DSCHED_PKGINCLUDEDIR"
  end.

(** [dinstalldirs_env_open]: an empty variable counts as none. *)
Definition dinstalldirs_env_open (env : gmap string string) : install_dirs := fun f =>
  match env !! env_name f with
  | Some EmptyString => None
  | x => x
  end.

(** strstr(s, pat): what comes before and after the first occurrence. *)
Fixpoint strstr (pat s : string) : option (string * string) :=
  match after_prefix pat s with
  | Some rest => Some (EmptyString, rest)
  | None =>
      match s with
      | EmptyString => None
      | String c s => '(a, b) ← strstr pat s; Some (String c a, b)
      end
  end.

(** [dir + destdir_offset]. *)
Fixpoint skip (n : nat) (s : string) : outcome string :=
  match n, s with
  | O, _ => Done s
  | S n, String _ s => skip n s
  | S _, EmptyString => Fault OutOfBounds
  end.

Definition dir_value (offset : nat) (dir : cstr) : outcome string :=
  match dir with Some dir => skip offset dir | None => Fault NullDeref end.

Definition reference (mark : string) (f : field) : string :=
  (mark ++ "{" ++ field_name f ++ "}")%string.

(** EXPAND_STRING2: the first reference with a dollar, or else with an at sign. *)
Definition expand_string (dirs : install_dirs) (offset : nat) (f : field) (retval : string)
    : outcome (string * bool) :=
  match strstr (reference "$" f) retval with
  | Some (tmp, end_pos) => v ← dir_value offset (dirs f); Done ((tmp ++ v ++ end_pos)%string, true)
  | None =>
      match strstr (reference "@" f) retval with
      | Some (tmp, end_pos) =>
          v ← dir_value offset (dirs f); Done ((tmp ++ v ++ end_pos)%string, true)
      | None => Done (retval, false)
      end
  end.

(** One turn of the loop: every field once. *)
Fixpoint expand_pass (dirs : install_dirs) (offset : nat) (fs : list field) (retval : string)
    : outcome (string * bool) :=
  match fs with
  | [] => Done (retval, false)
  | f :: fs =>
      '(retval, c) ← expand_string dirs offset f retval;
      '(retval, changed) ← expand_pass dirs offset fs retval;
      Done (retval, c || changed)
  end.

(** [do ... while (changed)]: no result when [fuel] turns are not enough. *)
Fixpoint expand_loop (fuel : nat) (dirs : install_dirs) (offset : nat) (retval : string)
    : option (outcome string) :=
  match fuel with
  | O => None
  | S fuel =>
      match expand_pass dirs offset all_fields retval with
      | Done (retval, true) => expand_loop fuel dirs offset retval
      | Done (retval, false) => Some (Done retval)
      | Fault x => Some (Fault x)
      end
  end.

Definition is_mark (c : Ascii.ascii) : bool :=
  Ascii.eqb c (Ascii.ascii_of_nat 36) || Ascii.eqb c (Ascii.ascii_of_nat 64).

(** The number of dollar and at signs. *)
Fixpoint marks (s : string) : nat :=
  match s with
  | EmptyString => 0
  | String c s => (if is_mark c then 1 else 0) + marks s
  end.

Section Dirs.
(** pmix_os_path(false, destdir, path, NULL). *)
Context (os_path : string -> string -> string).

(** [is_setup] prepends DSCHED_DESTDIR, when it is set. *)
Definition dsched_dinstall_dirs_expand_internal (fuel : nat) (dirs : install_dirs)
    (env : gmap string string) (input : cstr) (is_setup : bool) : option (outcome string) :=
  let destdir := if is_setup then env !! "DSCHED_DESTDIR"%string else None in
  let destdir_offset := String.length (default ""%string destdir) in
  match input with
  | None => Some (Fault NullDeref)
  | Some input =>
      let needs_expand := negb (Nat.eqb (marks input) 0) in
      r ← (if needs_expand then expand_loop fuel dirs destdir_offset input
           else Some (Done input));
      Some (retval ← r;
            Done match destdir with Some d => os_path d retval | None => retval end)
  end.

Definition dsched_dinstall_dirs_expand (fuel : nat) (dirs : install_dirs)
    (env : gmap string string) (input : cstr) : option (outcome string) :=
  dsched_dinstall_dirs_expand_internal fuel dirs env input false.

Definition dsched_dinstall_dirs_expand_setup (fuel : nat) (dirs : install_dirs)
    (env : gmap string string) (input : cstr) : option (outcome string) :=
  dsched_dinstall_dirs_expand_internal fuel dirs env input true.

(** CONDITIONAL_COPY of every field. *)
Definition conditional_copy (target origin : install_dirs) : install_dirs := fun f =>
  match target f with Some v => Some v | None => origin f end.

(** Expand the fields in place, one after the other. *)
Fixpoint expand_fields (fuel : nat) (env : gmap string string) (fs : list field)
    (dirs : install_dirs) : option (outcome install_dirs) :=
  match fs with
  | [] => Some (Done dirs)
  | f :: fs =>
      r ← dsched_dinstall_dirs_expand_setup fuel dirs env (dirs f);
      match r with
      | Done v => expand_fields fuel env fs (set_dir f (Some v) dirs)
      | Fault x => Some (Fault x)
      end
  end.

(** [components_open] is the status of the library's function that opens the
    components, [components] what each of them then offers. *)
Definition dsched_dinstalldirs_base_open `{PMIx} (fuel : nat) (env : gmap string string)
    (components_open : Z) (components : list install_dirs) (dirs : install_dirs)
    : option (outcome (Z * install_dirs)) :=
  if negb (ok components_open) then Some (Done (code_value DSCHED_ERROR, dirs)) else
  r ← expand_fields fuel env all_fields (foldl conditional_copy dirs components);
  Some (dirs ← r; Done (PMIX_SUCCESS, dirs)).

(** Every directory is freed and forgotten; [components_close] is the library's. *)
Definition dsched_dinstalldirs_base_close (components_close : Z) (dirs : install_dirs)
    : Z * install_dirs := (components_close, dsched_dinstall_dirs).
End Dirs.

(** ** Facts on references *)

Lemma marks_app a b : marks (a ++ b)%string = (marks a + marks b)%nat.
Proof.
  induction a as [|c a IH]; [done|].
  change (((if is_mark c then 1 else 0) + marks (a ++ b))%nat =
          ((if is_mark c then 1 else 0) + marks a + marks b)%nat). lia.
Qed.

Lemma strstr_app pat s a b : strstr pat s = Some (a, b) -> s = (a ++ pat ++ b)%string.
Proof.
  revert a; induction s as [|c s IH]; intros a E; cbn [strstr] in E;
    destruct (after_prefix pat _) as [rest|] eqn:Ep.
  - injection E as <- <-. by apply after_prefix_app in Ep.
  - done.
  - injection E as <- <-. by apply after_prefix_app in Ep.
  - destruct (strstr pat s) as [[a' b']|]; [|done]. injection E as <- <-.
    change (String c s = String c (a' ++ pat ++ b')). f_equal. by apply IH.
Qed.

Lemma reference_marks mark f : marks mark = 1%nat -> marks (reference mark f) = 1%nat.
Proof. intros Hm. unfold reference. rewrite marks_app, Hm. by destruct f. Qed.

(** A string without a mark holds no reference. *)
Lemma strstr_unmarked mark f s :
  marks mark = 1%nat -> marks s = 0%nat -> strstr (reference mark f) s = None.
Proof.
  intros Hm Hs. destruct (strstr (reference mark f) s) as [[a b]|] eqn:E; [|done].
  apply strstr_app in E as ->. rewrite !marks_app, reference_marks in Hs by done. lia.
Qed.

(** A step either leaves the string alone, without a reference to the field, or
    takes a mark away. *)
Lemma expand_string_marks dirs offset f retval v :
  dir_value offset (dirs f) = Done v -> marks v = 0%nat ->
  exists r c, expand_string dirs offset f retval = Done (r, c) /\
    if c : bool then marks retval = S (marks r)
    else r = retval /\ strstr (reference "$" f) retval = None /\
         strstr (reference "@" f) retval = None.
Proof.
  intros Hv Hm. unfold expand_string. rewrite Hv.
  destruct (strstr (reference "$" f) retval) as [[a b]|] eqn:E1.
  { apply strstr_app in E1 as ->. do 2 eexists. split; [done|]. simpl.
    rewrite !marks_app, reference_marks by done. lia. }
  destruct (strstr (reference "@" f) retval) as [[a b]|] eqn:E2; [|by do 2 eexists].
  apply strstr_app in E2 as ->. do 2 eexists. split; [done|]. simpl.
  rewrite !marks_app, reference_marks by done. lia.
Qed.

(** Every directory is there and holds no mark. *)
Definition unmarked (dirs : install_dirs) (offset : nat) : Prop :=
  forall f, exists v, dir_value offset (dirs f) = Done v /\ marks v = 0%nat.

Definition unreferenced (s : string) (f : field) : Prop :=
  strstr (reference "$" f) s = None /\ strstr (reference "@" f) s = None.

Lemma expand_pass_marks dirs offset fs retval :
  unmarked dirs offset ->
  exists r c, expand_pass dirs offset fs retval = Done (r, c) /\
    if c : bool then (marks r < marks retval)%nat else r = retval /\ Forall (unreferenced retval) fs.
Proof.
  intros Hd. revert retval. induction fs as [|f fs IH]; intros retval; [by do 2 eexists|].
  destruct (Hd f) as (v & Hv & Hm).
  destruct (expand_string_marks dirs offset f retval v Hv Hm) as (r1 & c1 & E1 & H1).
  destruct (IH r1) as (r2 & c2 & E2 & H2). exists r2, (c1 || c2).
  split; [simpl; rewrite E1; simpl; by rewrite E2|].
  destruct c1; simpl.
  - destruct c2; [lia|destruct H2 as [-> _]; lia].
  - destruct H1 as (-> & Ha & Hb). destruct c2; [done|]. destruct H2 as [-> H2].
    split; [done|by constructor].
Qed.

Lemma expand_loop_ends fuel dirs offset retval :
  unmarked dirs offset -> (marks retval < fuel)%nat ->
  exists r, expand_loop fuel dirs offset retval = Some (Done r) /\
    forall f, unreferenced r f.
Proof.
  intros Hd. revert retval. induction fuel as [|fuel IH]; intros retval Hf; [lia|]. cbn [expand_loop].
  destruct (expand_pass_marks dirs offset all_fields retval Hd) as (r & c & -> & Hr).
  destruct c; [apply IH; lia|]. destruct Hr as [-> Hall]. exists retval. split; [done|].
  intros f. rewrite Forall_forall in Hall. apply Hall. by destruct f; repeat constructor.
Qed.

(** ** Layouts *)

(** What a component offers for a directory: a path, or a place under another. *)
Inductive place := Plain (path : string) | Under (g : field) (tail : string).

Definition raw (p : place) : string :=
  match p with Plain path => path | Under g tail => (reference "$" g ++ tail)%string end.

Definition place_unmarked (p : place) : Prop :=
  marks match p with Plain path => path | Under _ tail => tail end = 0%nat.

Lemma expand_string_unmarked dirs offset f s :
  marks s = 0%nat -> expand_string dirs offset f s = Done (s, false).
Proof. intros Hs. unfold expand_string. by rewrite !strstr_unmarked. Qed.

Lemma expand_pass_unmarked dirs offset fs s :
  marks s = 0%nat -> expand_pass dirs offset fs s = Done (s, false).
Proof.
  intros Hs. induction fs as [|f fs IH]; [done|]. simpl.
  rewrite expand_string_unmarked by done. simpl. by rewrite IH.
Qed.

(** The only reference in a place under another directory. *)
Lemma strstr_under mark f g tail :
  mark = "$"%string \/ mark = "@"%string -> marks tail = 0%nat ->
  strstr (reference mark f) (reference "$" g ++ tail) =
    if bool_decide (mark = "$"%string /\ f = g) then Some (""%string, tail) else None.
Proof.
  intros Hmark Ht. set (s := (reference "$" g ++ tail)%string).
  assert (Hrest : exists rest, s = String (Ascii.ascii_of_nat 36) rest /\ marks rest = 0%nat).
  { exists ("{" ++ field_name g ++ "}" ++ tail)%string. split; [by destruct g|].
    rewrite !marks_app, Ht. by destruct g. }
  assert (Hp : after_prefix (reference mark f) s =
    if bool_decide (mark = "$"%string /\ f = g) then Some tail else None).
  { subst s. destruct (bool_decide_reflect (mark = "$"%string /\ f = g)) as [[-> ->]|Hn].
    - by apply after_prefix_app.
    - destruct Hmark as [->| ->]; [|by destruct f].
      destruct f, g; (reflexivity || by destruct Hn). }
  destruct Hrest as (rest & Hs & Hr). rewrite Hs in Hp |- *. cbn [strstr]. rewrite Hp.
  case_bool_decide; [done|]. rewrite strstr_unmarked; [done| |done].
  by destruct Hmark as [->| ->].
Qed.

Lemma expand_string_under dirs offset f g tail v :
  marks tail = 0%nat -> dir_value offset (dirs g) = Done v ->
  expand_string dirs offset f (reference "$" g ++ tail) =
    Done (if decide (f = g) then ((v ++ tail)%string, true) else ((reference "$" g ++ tail)%string, false)).
Proof.
  intros Ht Hv. unfold expand_string. rewrite !strstr_under by (auto; done).
  destruct (decide (f = g)) as [->|Hn].
  - rewrite bool_decide_true by done. by rewrite Hv.
  - rewrite !bool_decide_false; [done|..]; naive_solver.
Qed.

Lemma expand_pass_under dirs offset fs g tail v :
  marks tail = 0%nat -> marks v = 0%nat -> dir_value offset (dirs g) = Done v -> g ∈ fs ->
  expand_pass dirs offset fs (reference "$" g ++ tail) = Done ((v ++ tail)%string, true).
Proof.
  intros Ht Hm Hv. induction fs as [|f fs IH]; intros Hin; [by apply elem_of_nil in Hin|].
  cbn [expand_pass]. rewrite (expand_string_under _ _ _ _ _ v) by done. cbn [mbind outcome_bind].
  destruct (decide (f = g)) as [->|Hn].
  - by rewrite expand_pass_unmarked by (rewrite marks_app; lia).
  - rewrite IH; [done|]. apply elem_of_cons in Hin as [->|]; done.
Qed.

Lemma expand_pass_elsewhere dirs offset fs g tail v :
  marks tail = 0%nat -> dir_value offset (dirs g) = Done v -> g ∉ fs ->
  expand_pass dirs offset fs (reference "$" g ++ tail) =
    Done ((reference "$" g ++ tail)%string, false).
Proof.
  intros Ht Hv. induction fs as [|f fs IH]; intros Hin; [done|].
  rewrite not_elem_of_cons in Hin. destruct Hin as [Hn Hin].
  cbn [expand_pass]. rewrite (expand_string_under _ _ _ _ _ v), decide_False by done.
  cbn [mbind outcome_bind]. by rewrite IH.
Qed.

Lemma all_fields_all f : f ∈ all_fields.
Proof. by destruct f; repeat constructor. Qed.

Lemma expand_loop_under fuel dirs offset g tail v :
  marks tail = 0%nat -> marks v = 0%nat -> dir_value offset (dirs g) = Done v ->
  expand_loop (2 + fuel) dirs offset (reference "$" g ++ tail) = Some (Done (v ++ tail)%string).
Proof.
  intros Ht Hm Hv. change (2 + fuel)%nat with (S (S fuel)). cbn [expand_loop].
  rewrite (expand_pass_under _ _ _ _ _ v) by (apply all_fields_all || done).
  by rewrite expand_pass_unmarked by (rewrite marks_app; lia).
Qed.

(** A directory that is its own reference. *)
Lemma expand_pass_self dirs :
  dir_value 0 (dirs prefix) = Done "${prefix}"%string ->
  expand_pass dirs 0 all_fields "${prefix}" = Done ("${prefix}"%string, true).
Proof.
  intros Hv.
  assert (Hcons : forall fs, prefix ∉ fs ->
    expand_pass dirs 0 (prefix :: fs) "${prefix}" = Done ("${prefix}"%string, true)).
  { intros fs Hn. cbn [expand_pass].
    assert (expand_string dirs 0 prefix "${prefix}" = Done ("${prefix}"%string, true)) as ->
      by exact (expand_string_under dirs 0 prefix prefix "" _ eq_refl Hv).
    cbn [mbind outcome_bind].
    assert (expand_pass dirs 0 fs "${prefix}" = Done ("${prefix}"%string, false)) as ->; [|done].
    exact (expand_pass_elsewhere dirs 0 fs prefix "" _ eq_refl Hv Hn). }
  apply (Hcons (tail all_fields)). apply (bool_decide_unpack _). by vm_compute.
Qed.

(** The first value the components offer for a directory. *)
Fixpoint first_offered (components : list install_dirs) (f : field) : cstr :=
  match components with
  | [] => None
  | c :: components => match c f with Some v => Some v | None => first_offered components f end
  end.

Lemma copies_first_offered components dirs f :
  foldl conditional_copy dirs components f =
    match dirs f with Some v => Some v | None => first_offered components f end.
Proof.
  revert dirs. induction components as [|c components IH]; intros dirs; simpl; [by destruct (dirs f)|].
  rewrite IH. unfold conditional_copy. destruct (dirs f); [done|]. by destruct (c f).
Qed.

(** A layout refers to earlier directories only, in the order of the code. *)
Definition ordered (lay : field -> place) : Prop :=
  forall done f fs g tail, all_fields = done ++ f :: fs -> lay f = Under g tail -> g ∈ done.

(** The path a layout gives every directory. *)
Definition resolves (lay : field -> place) (value : field -> string) : Prop :=
  forall f, value f = match lay f with Plain path => path | Under g tail => (value g ++ tail)%string end.

Lemma skip_app d v : skip (String.length d) (d ++ v) = Done v.
Proof. induction d as [|c d IH]; [done|exact IH]. Qed.

Section Layouts.
Context (os_path : string -> string -> string).

(** Where the directories go: DSCHED_DESTDIR, when it is set, comes before the path. *)
Definition destdir (env : gmap string string) : cstr := env !! "DSCHED_DESTDIR"%string.
Definition staged (env : gmap string string) (path : string) : string :=
  (default "" (destdir env) ++ path)%string.

(** pmix_os_path puts an absolute path behind another one. *)
Definition joins (env : gmap string string) (path : string) : Prop :=
  forall d, destdir env = Some d -> os_path d path = (d ++ path)%string.

Lemma expand_setup_place fuel dirs env p v :
  joins env v -> place_unmarked p ->
  match p with
  | Plain path => v = path
  | Under g tail => exists w, dirs g = Some (staged env w) /\ marks w = 0%nat /\ v = (w ++ tail)%string
  end ->
  dsched_dinstall_dirs_expand_setup os_path (2 + fuel) dirs env (Some (raw p)) =
    Some (Done (staged env v)) /\
  marks v = 0%nat.
Proof.
  intros He Hp Hv. unfold dsched_dinstall_dirs_expand_setup, dsched_dinstall_dirs_expand_internal.
  assert (Done match destdir env with Some d => os_path d v | None => v end = Done (staged env v)) as Hj.
  { unfold staged, joins in *. destruct (destdir env) as [d|]; [by rewrite He|done]. }
  fold (destdir env). destruct p as [path|g tail]; unfold place_unmarked in Hp; simpl raw.
  - subst v. rewrite Hp. cbn. by rewrite Hj.
  - destruct Hv as (w & Hg & Hw & ->). split; [|rewrite marks_app; lia].
    rewrite marks_app, reference_marks by done.
    change (negb (Nat.eqb (1 + marks tail) 0)) with true. cbv iota.
    rewrite (expand_loop_under _ _ _ _ _ w); [cbn; by rewrite Hj|done|done|].
    rewrite Hg. apply skip_app.
Qed.

Lemma expand_fields_layout fuel env lay value :
  (forall f, joins env (value f)) -> ordered lay -> (forall f, place_unmarked (lay f)) ->
  resolves lay value ->
  forall fs done dirs, all_fields = done ++ fs ->
    (forall f, f ∈ done -> dirs f = Some (staged env (value f)) /\ marks (value f) = 0%nat) ->
    (forall f, f ∈ fs -> dirs f = Some (raw (lay f))) ->
    exists dirs', expand_fields os_path (2 + fuel) env fs dirs = Some (Done dirs') /\
      forall f, dirs' f = Some (staged env (value f)).
Proof.
  intros He Hord Hun Hres. induction fs as [|f fs IH]; intros before dirs Hall Hdone Hraw.
  { exists dirs. split; [done|]. intros f. apply Hdone. rewrite app_nil_r in Hall.
    rewrite <- Hall. apply all_fields_all. }
  assert (Hf : dsched_dinstall_dirs_expand_setup os_path (2 + fuel) dirs env (dirs f) =
      Some (Done (staged env (value f))) /\ marks (value f) = 0%nat).
  { rewrite (Hraw f) by set_solver. apply expand_setup_place; [done..|].
    rewrite Hres. destruct (lay f) as [path|g tail] eqn:Ef; [done|].
    destruct (Hdone g (Hord _ _ _ _ _ Hall Ef)) as [Hg Hm]. eauto. }
  destruct Hf as [Hf Hm]. cbn [expand_fields]. rewrite Hf. cbn [mbind option_bind].
  assert (Hnd : NoDup all_fields) by (apply (bool_decide_unpack _); by vm_compute).
  rewrite Hall, NoDup_app, NoDup_cons in Hnd. destruct Hnd as (_ & Hnot & Hnf & _).
  apply (IH (before ++ [f])); [by rewrite <- app_assoc| |].
  - intros f' [Hin|Hin]%elem_of_app; [|apply list_elem_of_singleton in Hin as ->]; unfold set_dir.
    + rewrite decide_False; [by apply Hdone|]. intros ->. by apply (Hnot f Hin), elem_of_cons; left.
    + by rewrite decide_True.
  - intros f' Hin. unfold set_dir. rewrite decide_False by (by intros ->).
    apply Hraw. by apply elem_of_cons; right.
Qed.

(** ** Properties *)

(** C34: The expansion of a string ends. When no directory holds a mark itself, one
    turn more than the string has marks is enough, and the result refers to no
    directory any more. *)
Theorem expansion_ends fuel dirs offset s :
  unmarked dirs offset -> (marks s < fuel)%nat ->
  exists r, expand_loop fuel dirs offset s = Some (Done r) /\ forall f, unreferenced r f.
Proof. apply expand_loop_ends. Qed.


(** A directory that refers to itself hangs the program: with the prefix of the
    environment set to its own reference, opening the framework never returns. *)
Theorem self_reference_hangs `{PMIx} fuel env components :
  env !! "DSCHED_DESTDIR"%string = None ->
  env !! "DSCHED_PREFIX"%string = Some "${prefix}"%string ->
  dsched_dinstalldirs_base_open os_path fuel env PMIX_SUCCESS
    (dinstalldirs_env_open env :: components) dsched_dinstall_dirs = None.
Proof.
  intros He Hp. unfold dsched_dinstalldirs_base_open. rewrite ok_success. cbn [negb].
  assert (Hd : foldl conditional_copy dsched_dinstall_dirs (dinstalldirs_env_open env :: components)
    prefix = Some "${prefix}"%string).
  { rewrite copies_first_offered. cbn. unfold dinstalldirs_env_open. cbn [env_name]. by rewrite Hp. }
  revert Hd. generalize (foldl conditional_copy dsched_dinstall_dirs
    (dinstalldirs_env_open env :: components)) as dirs. intros dirs Hd.
  assert (Hloop : forall n, expand_loop n dirs 0 "${prefix}" = None).
  { induction n as [|n IH]; [done|]. cbn [expand_loop].
    by rewrite expand_pass_self by by rewrite Hd. }
  assert (dsched_dinstall_dirs_expand_setup os_path fuel dirs env (dirs prefix) = None) as E.
  { unfold dsched_dinstall_dirs_expand_setup, dsched_dinstall_dirs_expand_internal.
    rewrite He, Hd. change (negb (Nat.eqb (marks "${prefix}") 0)) with true. cbv iota.
    change (String.length (default ""%string None)) with 0%nat. by rewrite Hloop. }
  cbn [expand_fields all_fields]. by rewrite E.
Qed.
End Layouts.

(** ** Examples *)

#[local] Existing Instance sample_pmix.

Definition ordered_at (lay : field -> place) (i : nat) : bool :=
  match all_fields !! i with
  | Some f => match lay f with Under g _ => bool_decide (g ∈ take i all_fields) | Plain _ => true end
  | None => true
  end.

Lemma ordered_check lay : forallb (ordered_at lay) (seq 0 17) = true -> ordered lay.
Proof.
  intros Hc before f fs g tail Hall Hf. rewrite forallb_forall in Hc.
  assert (length before < 17)%nat as Hlen.
  { apply (f_equal length) in Hall. rewrite length_app in Hall.
    change (length all_fields) with 17%nat in Hall. cbn in Hall. lia. }
  specialize (Hc (length before) (proj2 (in_seq 17 0 (length before)) ltac:(lia))). unfold ordered_at in Hc.
  rewrite Hall, list_lookup_middle, Hf, take_app_length in Hc by done.
  by apply bool_decide_eq_true in Hc.
Qed.

(** The layout of a configuration with [--prefix=/opt/dsched]. *)
Definition default_layout (f : field) : place :=
  match f with
  | prefix => Plain "/opt/dsched"
  | exec_prefix => Under prefix ""
  | bindir => Under exec_prefix "/bin"
  | sbindir => Under exec_prefix "/sbin"
  | libexecdir => Under exec_prefix "/libexec"
  | datarootdir => Under prefix "/share"
  | datadir => Under datarootdir ""
  | sysconfdir => Under prefix "/etc"
  | sharedstatedir => Under prefix "/com"
  | localstatedir => Under prefix "/var"
  | libdir => Under exec_prefix "/lib"
  | includedir => Under prefix "/include"
  | infodir => Under datarootdir "/info"
  | mandir => Under datarootdir "/man"
  | pmixdatadir => Under datadir "/dsched"
  | pmixlibdir => Under libdir "/dsched"
  | pmixincludedir => Under includedir "/dsched"
  end.

Definition default_paths (f : field) : string :=
  match f with
  | prefix => "/opt/dsched" | exec_prefix => "/opt/dsched" | bindir => "/opt/dsched/bin"
  | sbindir => "/opt/dsched/sbin" | libexecdir => "/opt/dsched/libexec"
  | datarootdir => "/opt/dsched/share" | datadir => "/opt/dsched/share"
  | sysconfdir => "/opt/dsched/etc" | sharedstatedir => "/opt/dsched/com"
  | localstatedir => "/opt/dsched/var" | libdir => "/opt/dsched/lib"
  | includedir => "/opt/dsched/include" | infodir => "/opt/dsched/share/info"
  | mandir => "/opt/dsched/share/man" | pmixdatadir => "/opt/dsched/share/dsched"
  | pmixlibdir => "/opt/dsched/lib/dsched" | pmixincludedir => "/opt/dsched/include/dsched"
  end.

(** A separator comes before each part that does not begin with one. *)
Definition sample_os_path (destdir path : string) : string :=
  let part s := match after_prefix "/" s with Some _ => s | None => ("/" ++ s)%string end in
  (part destdir ++ part path)%string.

Definition staging : gmap string string := {["DSCHED_DESTDIR"%string := "/tmp/buildroot"%string]}.

Lemma expansion_ends_witness :
  exists r, expand_loop 3 (fun f => Some (default_paths f)) 0 "-I${includedir} -L@{libdir}" =
      Some (Done r) /\ forall f, unreferenced r f.
Proof.
  apply (expansion_ends 3 (fun f => Some (default_paths f)) 0 "-I${includedir} -L@{libdir}").
  - intros f. exists (default_paths f). split; [reflexivity|by destruct f].
  - vm_compute. lia.
Defined.


Definition self_prefix : gmap string string :=
  {["DSCHED_PREFIX"%string := "${prefix}"%string]}.

Lemma self_reference_hangs_witness :
  dsched_dinstalldirs_base_open sample_os_path 1000 self_prefix 0
    [dinstalldirs_env_open self_prefix; fun f => Some (raw (default_layout f))]
    dsched_dinstall_dirs = None.
Proof.
  exact (self_reference_hangs sample_os_path 1000 self_prefix
    [fun f => Some (raw (default_layout f))] eq_refl eq_refl).
Defined.
