(* ===== verification/Ddl.v ===== *)
(** * Dynamic loading: src/mca/ddl

    The wrappers of the framework (base/), the module and the component that use the
    dynamic linker of the system (ddlopen/) and those on top of libltdl (dlibltdl/).
    Handles are cells of a heap, a directory stream is an open resource of the state,
    and the calls of the dynamic linker are recorded in order. *)

From Stdlib Require Import Ascii.
From S2P Require Import Prelude Pmix Constants.

(** ** The state *)

(** [struct dsched_ddl_handle_t]; [filename] is there on a debug build. *)
Record dsched_ddl_handle_t := Handle { dlopen_handle : Z; filename : cstr }.

(** What [err_msg] points to: a null pointer, a string of the linker's, or one that
    was allocated for the caller. *)
Inductive errmsg :=
| MsgNull
| MsgInternal (s : string)
| MsgAllocated (s : string).

Inductive os_call :=
| Dlopen (file : cstr) (flags : Z)
| Dlsym (h : Z) (symbol : string)
| Dlclose (h : Z).

Record ddl_state := DdlState {
  handles : gmap loc dsched_ddl_handle_t;
  next_handle : loc;
  open_dirs : gset nat;
  calls : list os_call;
  allocated : list string
}.
#[export] Instance eta_ddl_state : Eta ddl_state := fun s =>
  DdlState (handles s) (next_handle s) (open_dirs s) (calls s) (allocated s).

(** The system: its files, its directories in the order readdir gives their entries,
    and the dynamic linker. *)
Class Os `{PMIx} := {
  (** stat: whether there is such a file, and whether it is a regular one. *)
  stat : string -> option bool;
  opendir : string -> option (list string);
  RTLD_LAZY : Z; RTLD_LOCAL : Z; RTLD_GLOBAL : Z;
  dlopen : cstr -> Z -> option Z;
  dlsym : Z -> string -> option Z;
  dlclose : Z -> Z;
  dlerror : string;
  DSCHED_ENV_SEP : Ascii.ascii;
  ENABLE_DEBUG : bool
}.

(** PMIx_Argv_split: there is nothing to split in a null string. *)
Definition split_argv `{PMIx} (s : cstr) (c : Ascii.ascii) : option (list string) :=
  s ≫= fun s => argv_split s c.

Definition record (c : os_call) : act ddl_state unit :=
  modify (fun s => s <| calls := calls s ++ [c] |>).

(** A handle read through a pointer. *)
Definition handle_at (h : loc) : act ddl_state dsched_ddl_handle_t := fun s =>
  match handles s !! h with
  | Some x => Done (x, s)
  | None => Fault UseAfterFree
  end.

Definition new_handle (x : dsched_ddl_handle_t) : act ddl_state loc := fun s =>
  Done (next_handle s, s <| handles := <[next_handle s := x]> (handles s) |>
                         <| next_handle := S (next_handle s) |>).

Definition free_handle (h : loc) : act ddl_state unit :=
  handle_at h ;; modify (fun s => s <| handles := delete h (handles s) |>).

(** ** The ddlopen module *)

Section Ddlopen.
Context `{Os}.

(** The handle, and what is written to [*err_msg], if anything. *)
Definition do_ddlopen (fname : cstr) (flags : Z) (err_msg : bool)
    : act ddl_state (option Z * option errmsg) :=
  record (Dlopen fname flags) ;;
  let handle := dlopen fname flags in
  mret (handle,
    if err_msg then
      Some (match handle with Some _ => MsgNull | None => MsgInternal dlerror end)
    else None).

(** The loop over the suffixes; [msg] is what was last written to [*err_msg]. *)
Fixpoint try_suffixes (fname : string) (flags : Z) (err_msg : bool) (msg : option errmsg)
    (suffixes : list string) : act ddl_state (option Z * option errmsg) :=
  match suffixes with
  | [] => mret (None, msg)
  | ext :: suffixes =>
      let name := (fname ++ ext)%string in
      match stat name with
      | None =>
          if err_msg then
            let text := ("File " ++ name ++ " not found")%string in
            modify (fun s => s <| allocated := allocated s ++ [text] |>) ;;
            try_suffixes fname flags err_msg (Some (MsgAllocated text)) suffixes
          else try_suffixes fname flags err_msg msg suffixes
      | Some _ => do_ddlopen (Some name) flags err_msg
      end
  end.

Definition open_flags (private_namespace : bool) : Z :=
  Z.lor RTLD_LAZY (if private_namespace then RTLD_LOCAL else RTLD_GLOBAL).

(** [filename_suffixes] is the field of the component. *)
Definition ddlopen_open (filename_suffixes : option (list string)) (fname : cstr)
    (use_ext private_namespace err_msg : bool)
    : act ddl_state (Z * option loc * option errmsg) :=
  let flags := open_flags private_namespace in
  '(local_handle, msg) ←
    match use_ext, fname with
    | true, Some f =>
        match filename_suffixes with
        | None => fail NullDeref
        | Some l => try_suffixes f flags err_msg None l
        end
    | _, _ => do_ddlopen fname flags err_msg
    end;
  match local_handle with
  | Some lh =>
      let name := if ENABLE_DEBUG then Some (default "(null)" fname) else None in
      h ← new_handle (Handle lh name);
      mret (code_value DSCHED_SUCCESS, Some h, msg)
  | None => mret (code_value DSCHED_ERROR, None, msg)
  end.

(** The status, [*ptr], and what is written to [*err_msg]. *)
Definition ddlopen_lookup (handle : option loc) (symbol : cstr) (err_msg : bool)
    : act ddl_state (Z * option Z * option errmsg) :=
  match handle, symbol with
  | Some h, Some sym =>
      x ← handle_at h;
      record (Dlsym (dlopen_handle x) sym) ;;
      match dlsym (dlopen_handle x) sym with
      | Some p => mret (code_value DSCHED_SUCCESS, Some p, None)
      | None => mret (code_value DSCHED_ERROR, None,
                      if err_msg then Some (MsgInternal dlerror) else None)
      end
  | _, _ => fail AssertFailed
  end.

Definition ddlopen_close (handle : option loc) : act ddl_state Z :=
  match handle with
  | None => fail AssertFailed
  | Some h =>
      x ← handle_at h;
      record (Dlclose (dlopen_handle x)) ;;
      let ret := dlclose (dlopen_handle x) in
      free_handle h ;;
      mret ret
  end.

(** *** Scanning directories *)

(** strrchr(s, c): the string cut before the last [c]. *)
Fixpoint strrchr (c : Ascii.ascii) (s : string) : option (string * string) :=
  match s with
  | EmptyString => None
  | String x s' =>
      match strrchr c s' with
      | Some (a, b) => Some (String x a, b)
      | None => if Ascii.eqb x c then Some (EmptyString, s) else None
      end
  end.

(** What an entry is known as: its path up to the last dot, nothing when the file is
    skipped, and an error when it cannot be examined. *)
Definition entry_name (dir d_name : string) : option (option string) :=
  let abs_name := (dir ++ "/" ++ d_name)%string in
  match stat abs_name with
  | None => None
  | Some false => Some None
  | Some true =>
      match strrchr "."%char abs_name with
      | Some (base, ptr) =>
          if String.eqb ptr ".la" || String.eqb ptr ".lo" then Some None
          else if String.eqb ptr ".o" then Some None
          else Some (Some base)
      | None => Some (Some abs_name)
      end
  end.

(** The loop over the entries of a directory: an error, or the files kept. *)
Fixpoint scan_entries (dir : string) (entries : list string) (good_files : list string)
    : Z + list string :=
  match entries with
  | [] => inr good_files
  | d_name :: entries =>
      match entry_name dir d_name with
      | None => inl (code_value DSCHED_ERR_IN_ERRNO)
      | Some None => scan_entries dir entries good_files
      | Some (Some name) =>
          let found := existsb (String.eqb name) good_files in
          scan_entries dir entries (if found then good_files else good_files ++ [name])
      end
  end.

Definition closedir (dp : nat) : act ddl_state unit := fun s =>
  if bool_decide (dp ∈ open_dirs s)
  then Done (tt, s <| open_dirs := open_dirs s ∖ {[dp]} |>)
  else Fault UseAfterFree.

(** A stream that opendir returns is none of the open ones. *)
Definition new_dir : act ddl_state nat := fun s =>
  let dp := fresh (open_dirs s) in Done (dp, s <| open_dirs := {[dp]} ∪ open_dirs s |>).

(** The loop over the directories: the result and the variable [dp] at its end. *)
Fixpoint scan_dirs (dirs : list string) (good_files : list string)
    : act ddl_state ((Z + list string) * option nat) :=
  match dirs with
  | [] => mret (inr good_files, None)
  | dir :: dirs =>
      match opendir dir with
      | None => mret (inl (code_value DSCHED_ERR_IN_ERRNO), None)
      | Some entries =>
          dp ← new_dir;
          match scan_entries dir entries good_files with
          | inl ret => mret (inl ret, Some dp)
          | inr good_files => closedir dp ;; scan_dirs dirs good_files
          end
      end
  end.

(** The callback is called until it fails; [data] is what its context holds. *)
Fixpoint invoke {D} (func : string -> D -> Z * D) (files : list string) (data : D) : Z * D :=
  match files with
  | [] => (code_value DSCHED_SUCCESS, data)
  | f :: files =>
      let '(ret, data) := func f data in
      if ret =? code_value DSCHED_SUCCESS then invoke func files data else (ret, data)
  end.

Definition ddlopen_foreachfile {D} (search_path : cstr) (func : string -> D -> Z * D) (data : D)
    : act ddl_state (Z * D) :=
  let dirs := split_argv search_path DSCHED_ENV_SEP in
  '(r, dp) ← scan_dirs (default [] dirs) [];
  let '(ret, data) :=
    match r with
    | inl ret => (ret, data)
    | inr good_files => invoke func good_files data
    end in
  match dp with Some d => closedir d | None => mret tt end ;;
  mret (ret, data).
End Ddlopen.

(** ** The ddlopen component *)

Record ddlopen_component := DdlopenComponent {
  filename_suffixes_mca_storage : cstr;
  filename_suffixes : option (list string)
}.

Section Component.
Context `{Os}.

(** pmix_mca_base_component_var_register: a status, and the value of the storage once
    the settings of the parameter are looked up. *)
Context (var_register : cstr -> Z * cstr).

Definition ddlopen_component_register (c : ddlopen_component) : Z * ddlopen_component :=
  let '(ret, value) := var_register (Some ".so,.dylib,.dll,.sl"%string) in
  let c := DdlopenComponent value (filename_suffixes c) in
  if ret <? 0 then (ret, c)
  else (code_value DSCHED_SUCCESS,
        DdlopenComponent value (split_argv value ","%char)).

Definition ddlopen_component_open (c : ddlopen_component) : Z * ddlopen_component :=
  (code_value DSCHED_SUCCESS, c).

Definition ddlopen_component_close (c : ddlopen_component) : Z * ddlopen_component :=
  (code_value DSCHED_SUCCESS, DdlopenComponent (filename_suffixes_mca_storage c) None).

End Component.

(** ** The framework *)

(** [dsched_ddl_base_module_t]. *)
Record ddl_module (D : Type) := DdlModule {
  open : option (cstr -> bool -> bool -> bool -> act ddl_state (Z * option loc * option errmsg));
  close : option (option loc -> act ddl_state Z);
  lookup : option (option loc -> cstr -> bool -> act ddl_state (Z * option Z * option errmsg));
  foreachfile : option (cstr -> (string -> D -> Z * D) -> D -> act ddl_state (Z * D))
}.
Arguments DdlModule {D}. Arguments open {D}. Arguments close {D}.
Arguments lookup {D}. Arguments foreachfile {D}.

Definition dsched_ddl_ddlopen_module `{Os} {D} (c : ddlopen_component) : ddl_module D :=
  {| open := Some (ddlopen_open (filename_suffixes c));
     close := Some ddlopen_close;
     lookup := Some ddlopen_lookup;
     foreachfile := Some ddlopen_foreachfile |}.

(** The priority and the module a query gives. *)
Definition ddlopen_component_query `{Os} {D} (c : ddlopen_component) : Z * Z * ddl_module D :=
  (code_value DSCHED_SUCCESS, 80, dsched_ddl_ddlopen_module c).

Section Framework.
Context {D : Type}.

(** [dsched_ddl] and [dsched_ddl_base_selected_component], named by its number. *)
Record ddl_globals := DdlGlobals { dsched_ddl : option (ddl_module D); selected_component : option nat }.

(** [*handle] is null first. *)
Definition dsched_ddl_open (g : ddl_globals) (fname : cstr) (use_ext private_namespace err_msg : bool)
    : act ddl_state (Z * option loc * option errmsg) :=
  match dsched_ddl g with
  | Some m => match open m with
              | Some f => f fname use_ext private_namespace err_msg
              | None => mret (code_value DSCHED_ERR_NOT_SUPPORTED, None, None)
              end
  | None => mret (code_value DSCHED_ERR_NOT_SUPPORTED, None, None)
  end.

(** [*ptr] is not written when there is no module. *)
Definition dsched_ddl_lookup (g : ddl_globals) (handle : option loc) (symbol : cstr) (err_msg : bool)
    : act ddl_state (Z * option (option Z) * option errmsg) :=
  match dsched_ddl g with
  | Some m => match lookup m with
              | Some f => '(rc, p, msg) ← f handle symbol err_msg; mret (rc, Some p, msg)
              | None => mret (code_value DSCHED_ERR_NOT_SUPPORTED, None, None)
              end
  | None => mret (code_value DSCHED_ERR_NOT_SUPPORTED, None, None)
  end.

Definition dsched_ddl_close (g : ddl_globals) (handle : option loc) : act ddl_state Z :=
  match dsched_ddl g with
  | Some m => match close m with
              | Some f => f handle
              | None => mret (code_value DSCHED_ERR_NOT_SUPPORTED)
              end
  | None => mret (code_value DSCHED_ERR_NOT_SUPPORTED)
  end.

Definition dsched_ddl_foreachfile (g : ddl_globals) (search_path : cstr)
    (cb_func : string -> D -> Z * D) (context : D) : act ddl_state (Z * D) :=
  match dsched_ddl g with
  | Some m => match foreachfile m with
              | Some f => f search_path cb_func context
              | None => mret (code_value DSCHED_ERR_NOT_SUPPORTED, context)
              end
  | None => mret (code_value DSCHED_ERR_NOT_SUPPORTED, context)
  end.

(** pmix_mca_base_framework_components_open and _close, and pmix_mca_base_select with
    the winner, if there is one. *)
Context `{PMIx} (components_open : Z -> Z) (components_close : Z)
  (mca_select : Z * option (ddl_module D) * option nat).

Definition dsched_ddl_base_open (flags : Z) : Z := components_open flags.
Definition dsched_ddl_base_close : Z := components_close.
Definition dsched_ddl_base_select (g : ddl_globals) : Z * ddl_globals :=
  let '(rc, best_module, best_component) := mca_select in
  if negb (rc =? PMIX_SUCCESS) then (PMIX_ERROR, g)
  else (PMIX_SUCCESS, DdlGlobals best_module best_component).
End Framework.
Arguments ddl_globals : clear implicits.

(** ** The dlibltdl module and component

    libltdl tries the suffixes itself; what it is asked goes by an advice, one of the
    four its component prepares. *)

Inductive advice := private_noext | private_ext | public_noext | public_ext.

#[export] Instance advice_eq_dec : EqDecision advice.
Proof. solve_decision. Defined.

Inductive advice_setting := AdviceInit | AdviceGlobal | AdviceExt.

Class Ltdl := {
  HAVE_LT_DLADVISE : bool;
  LTDL_DEBUG : bool;
  lt_dlopenadvise : cstr -> advice -> option Z;
  lt_dlopenext : cstr -> option Z;
  lt_dlopen : cstr -> option Z;
  lt_dlsym : Z -> string -> option Z;
  lt_dlclose : Z -> Z;
  lt_dlerror : string;
  lt_dlforeachfile : forall D, string -> (string -> D -> Z * D) -> D -> Z * D;
  (** lt_dlinit, and lt_dladvise_init, lt_dladvise_global and lt_dladvise_ext of an
      advice: whether they fail. *)
  lt_dlinit : bool;
  lt_dladvise : advice_setting -> advice -> bool
}.

Section Libltdl.
Context `{Ltdl}.

Definition dlibltddl_open (fname : cstr) (use_ext private_namespace err_msg : bool)
    : act ddl_state (Z * option loc * option errmsg) :=
  let local_handle :=
    if HAVE_LT_DLADVISE then
      if use_ext && private_namespace then lt_dlopenadvise fname private_ext
      else if use_ext && negb private_namespace then lt_dlopenadvise fname public_ext
      else if negb use_ext && private_namespace then lt_dlopenadvise fname private_noext
      else lt_dlopenadvise fname public_noext
    else if use_ext then lt_dlopenext fname else lt_dlopen fname in
  match local_handle with
  | Some lh =>
      h ← new_handle (Handle lh (if LTDL_DEBUG then Some (default "(null)" fname) else None));
      mret (code_value DSCHED_SUCCESS, Some h, if err_msg then Some MsgNull else None)
  | None =>
      mret (code_value DSCHED_ERROR, None, if err_msg then Some (MsgAllocated lt_dlerror) else None)
  end.

Definition dlibltddl_lookup (handle : option loc) (symbol : cstr) (err_msg : bool)
    : act ddl_state (Z * option Z * option errmsg) :=
  match handle, symbol with
  | Some h, Some sym =>
      x ← handle_at h;
      match lt_dlsym (dlopen_handle x) sym with
      | Some p => mret (code_value DSCHED_SUCCESS, Some p, if err_msg then Some MsgNull else None)
      | None => mret (code_value DSCHED_ERROR, None,
                      if err_msg then Some (MsgAllocated lt_dlerror) else None)
      end
  | _, _ => fail AssertFailed
  end.

Definition dlibltddl_close (handle : option loc) : act ddl_state Z :=
  match handle with
  | None => fail AssertFailed
  | Some h =>
      x ← handle_at h;
      free_handle h ;;
      mret (lt_dlclose (dlopen_handle x))
  end.

Definition dlibltddl_foreachfile {D} (search_path : cstr) (func : string -> D -> Z * D) (data : D)
    : act ddl_state (Z * D) :=
  match search_path with
  | None => fail AssertFailed
  | Some p =>
      let '(ret, data) := lt_dlforeachfile D p func data in
      mret (if ret =? 0 then code_value DSCHED_SUCCESS else code_value DSCHED_ERROR, data)
  end.

Definition dsched_ddl_dlibltddl_module {D} : ddl_module D :=
  {| open := Some dlibltddl_open; close := Some dlibltddl_close;
     lookup := Some dlibltddl_lookup; foreachfile := Some dlibltddl_foreachfile |}.

(** The static record of the component: the advices that exist, and how often the
    library was initialised. *)
Record ltdl_state := LtdlState { lt_users : Z; advices : list advice }.

(** A parameter is registered: its name, the value its storage has, and the storage,
    which is a variable of the function that registers it. *)
Record registered := Registered { reg_name : string; reg_default : bool; reg_local : bool }.

Definition dlibltddl_component_register : Z * registered :=
  let supported := HAVE_LT_DLADVISE in
  (code_value DSCHED_SUCCESS, Registered "have_lt_dladvise" supported true).

(** One call on an advice: whether it fails. *)
Definition advise (x : advice_setting) (a : advice) (s : ltdl_state) : bool * ltdl_state :=
  if lt_dladvise x a then (true, s)
  else (false, match x with
               | AdviceInit => LtdlState (lt_users s) (advices s ++ [a])
               | _ => s
               end).

(** [a || b || ...]: from left to right, up to the first call that fails. *)
Fixpoint advise_any (xs : list advice_setting) (a : advice) (s : ltdl_state) : bool * ltdl_state :=
  match xs with
  | [] => (false, s)
  | x :: xs => let '(failed, s) := advise x a s in
               if failed then (true, s) else advise_any xs a s
  end.

Definition dlibltddl_component_open (s : ltdl_state) : Z * ltdl_state :=
  if lt_dlinit then (code_value DSCHED_ERROR, s) else
  let s := LtdlState (lt_users s + 1) (advices s) in
  if HAVE_LT_DLADVISE then
    let '(failed, s) := advise_any [AdviceInit] private_noext s in
    if failed then (code_value DSCHED_ERR_OUT_OF_RESOURCE, s) else
    let '(failed, s) := advise_any [AdviceInit; AdviceExt] private_ext s in
    if failed then (code_value DSCHED_ERR_OUT_OF_RESOURCE, s) else
    let '(failed, s) := advise_any [AdviceInit; AdviceGlobal] public_noext s in
    if failed then (code_value DSCHED_ERR_OUT_OF_RESOURCE, s) else
    let '(failed, s) := advise_any [AdviceInit; AdviceGlobal; AdviceExt] public_ext s in
    if failed then (code_value DSCHED_ERR_OUT_OF_RESOURCE, s) else
    (code_value DSCHED_SUCCESS, s)
  else (code_value DSCHED_SUCCESS, s).

(** lt_dladvise_destroy of an advice, which may not exist. *)
Definition advise_destroy (a : advice) (s : ltdl_state) : ltdl_state :=
  LtdlState (lt_users s) (filter (fun b => b <> a) (advices s)).

Definition dlibltddl_component_close (s : ltdl_state) : Z * ltdl_state :=
  let s := if HAVE_LT_DLADVISE then
             let s := advise_destroy private_noext s in
             let s := advise_destroy private_ext s in
             let s := advise_destroy public_noext s in
             advise_destroy public_ext s
           else s in
  (code_value DSCHED_SUCCESS, LtdlState (lt_users s - 1) (advices s)).

Definition dlibltddl_component_query {D} : Z * Z * ddl_module D :=
  (code_value DSCHED_SUCCESS, 50, dsched_ddl_dlibltddl_module).
End Libltdl.

(** ** What scanning computes *)

(** The first occurrence of every element, in order. *)
Fixpoint first_occurrences (l : list string) : list string :=
  match l with
  | [] => []
  | x :: l => x :: filter (fun y => y <> x) (first_occurrences l)
  end.

Lemma elem_of_first_occurrences x l : x ∈ first_occurrences l <-> x ∈ l.
Proof.
  induction l as [|y l IH]; simpl; [done|]. rewrite !elem_of_cons, list_elem_of_filter, IH.
  destruct (decide (x = y)); tauto.
Qed.

Lemma NoDup_first_occurrences l : NoDup (first_occurrences l).
Proof.
  induction l as [|y l IH]; simpl; constructor; [|by apply NoDup_filter].
  rewrite list_elem_of_filter. tauto.
Qed.

Definition add_file (good_files : list string) (name : string) : list string :=
  if existsb (String.eqb name) good_files then good_files else good_files ++ [name].

Lemma existsb_eqb name l : existsb (String.eqb name) l = bool_decide (name ∈ l).
Proof.
  apply eq_true_iff_eq. rewrite existsb_exists, bool_decide_eq_true. split.
  - intros (x & Hx & ->%String.eqb_eq). by apply list_elem_of_In.
  - intros Hx. exists name. split; [by apply list_elem_of_In|apply String.eqb_refl].
Qed.

Lemma foldl_add_file names good_files :
  foldl add_file good_files names =
  good_files ++ filter (fun y => y ∉ good_files) (first_occurrences names).
Proof.
  revert good_files; induction names as [|x l IH]; intros good; simpl; [by rewrite app_nil_r|].
  rewrite IH. unfold add_file. rewrite existsb_eqb. case_bool_decide as Hx.
  - rewrite filter_cons_False by tauto. f_equal. rewrite list_filter_filter. apply list_filter_iff.
    intros y. split; [|tauto]. intros Hy. split; [done|]. by intros ->.
  - rewrite filter_cons_True, <- app_assoc by done. simpl. do 2 f_equal. rewrite list_filter_filter.
    apply list_filter_iff. intros y. set_solver.
Qed.

Section Scan.
Context `{Os}.

(** The names found in a directory, and in a list of directories. *)
Definition names_in (dir : string) : option (list string) :=
  entries ← opendir dir; names ← mapM (entry_name dir) entries; Some (omap id names).
Definition found (dirs : list string) : option (list string) := mjoin <$> mapM names_in dirs.

Lemma scan_entries_spec dir entries good :
  scan_entries dir entries good =
  match mapM (entry_name dir) entries with
  | Some names => inr (foldl add_file good (omap id names))
  | None => inl (code_value DSCHED_ERR_IN_ERRNO)
  end.
Proof.
  revert good; induction entries as [|e entries IH]; intros good; [done|]. simpl.
  destruct (entry_name dir e) as [[name|]|]; simpl; [| |done]; rewrite IH;
    by destruct (mapM (entry_name dir) entries).
Qed.

Lemma close_new_dir s :
  closedir (fresh (open_dirs s))
    (s <| open_dirs := {[fresh (open_dirs s)]} ∪ open_dirs s |>) = Done (tt, s).
Proof.
  unfold closedir. pose proof (is_fresh (open_dirs s)) as Hf.
  rewrite bool_decide_true by (simpl; set_solver). do 2 f_equal. destruct s as [hs n ds cs al].
  simpl in *. f_equal. set_solver.
Qed.

(** At the end of the loop, the stream in [dp], if any, is the only new one. *)
Definition with_dp (dp : option nat) (s : ddl_state) : ddl_state :=
  match dp with Some d => s <| open_dirs := {[d]} ∪ open_dirs s |> | None => s end.

Lemma scan_dirs_spec dirs good s : exists dp,
  (dp = None \/ dp = Some (fresh (open_dirs s))) /\
  scan_dirs dirs good s =
  Done ((match found dirs with
         | Some names => inr (foldl add_file good names)
         | None => inl (code_value DSCHED_ERR_IN_ERRNO)
         end, dp), with_dp dp s).
Proof.
  unfold found. revert good; induction dirs as [|dir dirs IH]; intros good; [exists None; by split; [left|]|].
  assert (names_in dir = match opendir dir with
      | Some entries => option_map (omap id) (mapM (entry_name dir) entries)
      | None => None
      end) as E by (unfold names_in; by destruct (opendir dir)).
  cbn [scan_dirs mapM]. rewrite E. clear E.
  destruct (opendir dir) as [entries|]; [|exists None; by split; [left|]].
  erewrite act_bind_Done by done. rewrite scan_entries_spec.
  destruct (mapM (entry_name dir) entries) as [names|];
    [|exists (Some (fresh (open_dirs s))); (by split; [right|])].
  rewrite (act_bind_Done _ _ _ _ _ (close_new_dir s)).
  destruct (IH (foldl add_file good (omap id names))) as (dp & Hdp & ->). exists dp. split; [done|].
  destruct (mapM names_in dirs) as [rest|]; cbn; [|done]. by rewrite foldl_app.
Qed.
End Scan.

(** *** What the scan is to find

    Said of the files, without the code's loops: their paths in the order of the
    directories and of their entries, which of them have a name, and which. *)

Definition no_dot (s : string) : Prop := "."%char ∉ String.list_ascii_of_string s.

(** The path ends in a suffix, the text after its last dot, that is skipped. *)
Definition libtool_or_object (p : string) : Prop :=
  exists n x, p = (n ++ "." ++ x)%string /\ x ∈ ["la"; "lo"; "o"]%string.

(** The name under which the file is passed on: its path without its suffix. *)
Inductive known_as : string -> string -> Prop :=
| known_cut n x : no_dot x -> x ∉ ["la"; "lo"; "o"]%string -> known_as (n ++ "." ++ x)%string n
| known_whole p : no_dot p -> known_as p p.

Section Files.
Context `{Os}.

Definition path_of (dir e : string) : string := (dir ++ "/" ++ e)%string.

(** The paths of all entries of the directories. *)
Definition paths (dirs : list string) : list string :=
  dirs ≫= fun dir => map (path_of dir) (default [] (opendir dir)).

(** Every directory can be opened and every entry examined. *)
Definition readable (dirs : list string) : Prop :=
  Forall (fun dir => is_Some (opendir dir)) dirs /\ Forall (fun p => is_Some (stat p)) (paths dirs).

(** The names of the regular files that are not skipped, in order, repeated when
    several files have the same. *)
Inductive names_of : list string -> list string -> Prop :=
| names_nil : names_of [] []
| names_skip p ps ns : stat p = Some false \/ libtool_or_object p -> names_of ps ns ->
    names_of (p :: ps) ns
| names_keep p n ps ns : stat p = Some true -> known_as p n -> names_of ps ns ->
    names_of (p :: ps) (n :: ns).

(** The callback goes over the names until it reports something else than a success. *)
Definition called_on {D} (func : string -> D -> Z * D) (data : D) : list string -> Z * D :=
  foldl (fun r n => if bool_decide (r.1 = code_value DSCHED_SUCCESS) then func n r.2 else r)
    (code_value DSCHED_SUCCESS, data).

Lemma strrchr_None c s : strrchr c s = None <-> c ∉ String.list_ascii_of_string s.
Proof.
  induction s as [|x s IH]; simpl; [by split; [|]; try set_solver|].
  rewrite not_elem_of_cons, <- IH. destruct (strrchr c s) as [[]|]; [by split; [|intros []]|].
  destruct (Ascii.eqb_spec x c); naive_solver.
Qed.

Lemma strrchr_Some c s a b : strrchr c s = Some (a, b) ->
  exists x, b = String c x /\ s = (a ++ String c x)%string /\ c ∉ String.list_ascii_of_string x.
Proof.
  revert a b; induction s as [|y s IH]; intros a b; [done|]. simpl.
  destruct (strrchr c s) as [[a' b']|] eqn:E.
  - intros [= <- <-]. destruct (IH _ _ eq_refl) as (x & -> & -> & Hx). by exists x.
  - destruct (Ascii.eqb_spec y c) as [->|]; [|done]. intros [= <- <-]. exists s.
    split_and!; [done..|]. by apply strrchr_None.
Qed.

Lemma strrchr_cut c n x : c ∉ String.list_ascii_of_string x ->
  strrchr c (n ++ String c x)%string = Some (n, String c x).
Proof.
  intros Hx%strrchr_None. induction n as [|y n IH]; simpl; [by rewrite Hx, Ascii.eqb_refl|]. by rewrite IH.
Qed.

Lemma strrchr_dot n x : no_dot x ->
  strrchr "."%char (n ++ "." ++ x)%string = Some (n, String "."%char x).
Proof. apply strrchr_cut. Qed.

Lemma suffix_skipped x : x ∈ ["la"; "lo"; "o"]%string <->
  String.eqb (String "." x) ".la" || String.eqb (String "." x) ".lo" = true \/
  String.eqb (String "." x) ".o" = true.
Proof.
  rewrite orb_true_iff, !String.eqb_eq, !elem_of_cons, elem_of_nil. naive_solver.
Qed.

(** The suffixes that are skipped have no dot of their own. *)
Lemma skipped_no_dot x : x ∈ ["la"; "lo"; "o"]%string -> no_dot x.
Proof. rewrite !elem_of_cons, elem_of_nil. unfold no_dot. intros [->|[->|[->|[]]]]; simpl; set_solver. Qed.

Lemma entry_skipped dir e :
  is_Some (stat (path_of dir e)) -> stat (path_of dir e) = Some false \/ libtool_or_object (path_of dir e) ->
  entry_name dir e = Some None.
Proof.
  unfold entry_name. fold (path_of dir e). intros [b ->] [[= ->]|(n & x & -> & Hx)]; [done|].
  destruct b; [|done]. rewrite strrchr_dot by (by apply skipped_no_dot).
  apply suffix_skipped in Hx as [-> | ->]; [done|]. by destruct (_ || _).
Qed.

Lemma entry_kept dir e n :
  stat (path_of dir e) = Some true -> known_as (path_of dir e) n -> entry_name dir e = Some (Some n).
Proof.
  unfold entry_name. fold (path_of dir e). intros -> Hk. destruct Hk as [n x Hd Hx|p Hd].
  - rewrite strrchr_dot by done. rewrite suffix_skipped in Hx.
    destruct (_ || _), (String.eqb _ ".o"); naive_solver.
  - by apply strrchr_None in Hd as ->.
Qed.

(** A file that can be examined is skipped or has a name. *)
Lemma entry_cases dir e : is_Some (stat (path_of dir e)) ->
  (stat (path_of dir e) = Some false \/ libtool_or_object (path_of dir e)) \/
  stat (path_of dir e) = Some true /\ exists n, known_as (path_of dir e) n.
Proof.
  intros [[] E]; [|by left; left]. destruct (strrchr "."%char (path_of dir e)) as [[n b]|] eqn:Ec.
  - destruct (strrchr_Some _ _ _ _ Ec) as (x & -> & Hp & Hx).
    destruct (decide (x ∈ ["la"; "lo"; "o"]%string)) as [Hs|Hs].
    + left; right. by exists n, x.
    + right. split; [done|]. exists n. rewrite Hp. by apply known_cut.
  - right. split; [done|]. exists (path_of dir e). by apply known_whole, strrchr_None.
Qed.

Lemma names_in_spec dir entries ns :
  Forall (fun p => is_Some (stat p)) (map (path_of dir) entries) ->
  names_of (map (path_of dir) entries) ns ->
  omap id <$> mapM (entry_name dir) entries = Some ns.
Proof.
  revert ns; induction entries as [|e entries IH]; intros ns Hst Hn; [by inversion Hn|].
  simpl in Hst, Hn |- *. apply Forall_cons in Hst as [Hs Hst].
  inversion Hn as [|p ps ns' Hskip Hrest|p n ps ns' Hreg Hk Hrest]; subst.
  - rewrite entry_skipped by done. simpl. specialize (IH _ Hst Hrest).
    destruct (mapM (entry_name dir) entries); [|done]. done.
  - rewrite (entry_kept dir e n) by done. simpl. specialize (IH _ Hst Hrest).
    destruct (mapM (entry_name dir) entries); [|done]. injection IH as <-. done.
Qed.

Lemma names_exist dir entries : Forall (fun p => is_Some (stat p)) (map (path_of dir) entries) ->
  exists ns, names_of (map (path_of dir) entries) ns.
Proof.
  induction entries as [|e entries IH]; simpl; [by exists []; constructor|].
  intros [Hs Hst]%Forall_cons. destruct (IH Hst) as [ns Hns].
  destruct (entry_cases dir e Hs) as [Hskip|(Hreg & n & Hk)];
    [exists ns; by apply names_skip|exists (n :: ns); by apply names_keep].
Qed.
Lemma names_of_app ps qs ns : names_of (ps ++ qs) ns ->
  exists n1 n2, ns = n1 ++ n2 /\ names_of ps n1 /\ names_of qs n2.
Proof.
  revert ns; induction ps as [|p ps IH]; intros ns Hn; [exists [], ns; by split_and!; [|constructor|]|].
  simpl in Hn. inversion Hn as [|? ? ? Hskip Hrest|? n ? ns' Hreg Hk Hrest]; subst;
    destruct (IH _ Hrest) as (n1 & n2 & -> & H1 & H2).
  - exists n1, n2. split_and!; [done|by apply names_skip|done].
  - exists (n :: n1), n2. split_and!; [done|by apply names_keep|done].
Qed.

Lemma app_names_of ps qs n1 n2 : names_of ps n1 -> names_of qs n2 -> names_of (ps ++ qs) (n1 ++ n2).
Proof.
  intros H1 H2. induction H1; simpl; [done|by apply names_skip|by apply names_keep].
Qed.

Lemma names_in_readable dir entries : opendir dir = Some entries ->
  names_in dir = omap id <$> mapM (entry_name dir) entries.
Proof. intros E. unfold names_in. rewrite E. simpl. by destruct (mapM _ _). Qed.

(** The scan finds the names of the files. *)
Lemma found_names dirs ns : readable dirs -> names_of (paths dirs) ns -> found dirs = Some ns.
Proof.
  revert ns; induction dirs as [|dir dirs IH]; intros ns [Ho Hp] Hn; [by inversion Hn|].
  apply Forall_cons in Ho as [[entries Ee] Ho].
  change (paths (dir :: dirs)) with (map (path_of dir) (default [] (opendir dir)) ++ paths dirs) in *.
  rewrite Ee in *. simpl in Hp, Hn. apply Forall_app in Hp as [Hp1 Hp2].
  apply names_of_app in Hn as (n1 & n2 & -> & H1 & H2).
  specialize (IH n2 (conj Ho Hp2) H2). unfold found in *. cbn [mapM].
  rewrite (names_in_readable dir entries Ee), (names_in_spec _ _ _ Hp1 H1).
  cbn. destruct (mapM names_in dirs) as [l|]; [|done]. cbn in *. by injection IH as <-.
Qed.

Lemma names_found dirs : readable dirs -> exists ns, names_of (paths dirs) ns.
Proof.
  induction dirs as [|dir dirs IH]; intros [Ho Hp]; [exists []; constructor|].
  apply Forall_cons in Ho as [[entries Ee] Ho].
  change (paths (dir :: dirs)) with (map (path_of dir) (default [] (opendir dir)) ++ paths dirs) in *.
  rewrite Ee in *. simpl in Hp |- *. apply Forall_app in Hp as [Hp1 Hp2].
  destruct (names_exist dir entries Hp1) as [n1 H1], (IH (conj Ho Hp2)) as [n2 H2].
  exists (n1 ++ n2). by apply app_names_of.
Qed.

(** A scan that finds names has examined every entry. *)
Lemma found_readable dirs ns : found dirs = Some ns -> readable dirs.
Proof.
  revert ns; unfold found; induction dirs as [|dir dirs IH]; intros ns; [intros _; split; constructor|].
  change (paths (dir :: dirs)) with (map (path_of dir) (default [] (opendir dir)) ++ paths dirs).
  cbn [mapM]. destruct (names_in dir) as [n|] eqn:En; [|done]. cbn.
  destruct (mapM names_in dirs) as [rest|]; [|done]. intros _.
  unfold names_in in En. destruct (opendir dir) as [entries|] eqn:Ee; [|done]. cbn in En.
  destruct (mapM (entry_name dir) entries) as [l|] eqn:El; [|done].
  destruct (IH _ eq_refl) as [Ho Hp]. unfold readable. rewrite Forall_cons.
  change (paths (dir :: dirs)) with (map (path_of dir) (default [] (opendir dir)) ++ paths dirs).
  rewrite Ee. cbn. split; [by split; [by eexists|]|]. apply Forall_app. split; [|done].
  apply mapM_Some_1 in El. apply Forall_fmap. clear - El.
  induction El as [|e x es xs Hx _ IH]; constructor; [|done]. unfold entry_name in Hx. simpl.
  fold (path_of dir e) in Hx. by destruct (stat (path_of dir e)).
Qed.

Lemma invoke_called_on {D} (func : string -> D -> Z * D) names data :
  invoke func names data = called_on func data names.
Proof.
  unfold called_on. revert data; induction names as [|n names IH]; intros data; [done|].
  cbn [invoke foldl fst snd]. rewrite bool_decide_true by done. destruct (func n data) as [rc d].
  destruct (Z.eqb_spec rc (code_value DSCHED_SUCCESS)) as [->|Hrc]; [apply IH|].
  clear IH. induction names as [|m names IH]; [done|]. cbn [foldl fst]. by rewrite bool_decide_false.
Qed.
End Files.

Section Foreachfile.
Context `{Os}.

(** The scan does not depend on the streams and on the growing list of files, and
    closes, once, every stream it opened. *)
Lemma foreachfile_found {D} path (func : string -> D -> Z * D) data s :
  ddlopen_foreachfile path func data s =
  Done (match found (default [] (split_argv path DSCHED_ENV_SEP)) with
        | Some names => invoke func (first_occurrences names) data
        | None => (code_value DSCHED_ERR_IN_ERRNO, data)
        end, s).
Proof.
  unfold ddlopen_foreachfile.
  destruct (scan_dirs_spec (default [] (split_argv path DSCHED_ENV_SEP)) [] s) as (dp & Hdp & E).
  erewrite act_bind_Done by exact E. clear E.
  assert (forall r : Z * D,
    (match dp with Some d => closedir d | None => mret tt end ;; mret r) (with_dp dp s) = Done (r, s)) as Hclose.
  { intros r. destruct Hdp as [-> | ->]; [done|]. simpl with_dp.
    by rewrite (act_bind_Done _ _ _ _ _ (close_new_dir s)). }
  destruct (found _) as [names|]; [|apply Hclose].
  rewrite foldl_add_file. rewrite (list_filter_iff _ (fun _ => True)) by set_solver.
  replace (filter (fun _ => True) (first_occurrences names)) with (first_occurrences names).
  - change ([] ++ ?l) with l. destruct (invoke func (first_occurrences names) data). apply Hclose.
  - clear. induction (first_occurrences names) as [|x l IH]; [done|].
    by rewrite filter_cons_True, <- IH.
Qed.

(** C23: what [ddlopen_foreachfile] does, said of the files on the path alone. When
    some directory cannot be opened or some entry not examined, it reports so and never
    calls the callback. Otherwise it takes the regular files whose path does not end in
    ".la", ".lo" or ".o", in the order of the directories and of their entries, names each
    by its whole path up to the last dot, or by the path when it has none, and calls the
    callback on the first file of every name, until the callback fails; the list of the
    names exists and is the only one. On every path the streams it opened are closed, once,
    and nothing else of the state changes. *)
Theorem foreachfile_reference {D} path (func : string -> D -> Z * D) data s :
  let dirs := default [] (split_argv path DSCHED_ENV_SEP) in
  (readable dirs ->
     (exists names, names_of (paths dirs) names) /\
     forall names, names_of (paths dirs) names ->
       ddlopen_foreachfile path func data s =
       Done (called_on func data (first_occurrences names), s)) /\
  (~ readable dirs ->
     ddlopen_foreachfile path func data s = Done (code_value DSCHED_ERR_IN_ERRNO, data, s)).
Proof.
  intros dirs. rewrite foreachfile_found. fold dirs. split.
  - intros Hr. split; [by apply names_found|]. intros names Hn.
    by rewrite (found_names dirs names Hr Hn), invoke_called_on.
  - intros Hr. destruct (found dirs) as [names|] eqn:E; [|done].
    by apply found_readable in E.
Qed.

(** The header promises one call with "foo" for the files of that basename. The callback
    is given the path instead, so that files of one basename in two directories are two. *)
Theorem callback_given_path dir base sfx :
  stat (path_of dir (base ++ "." ++ sfx)) = Some true -> no_dot sfx ->
  sfx ∉ ["la"; "lo"; "o"]%string ->
  entry_name dir (base ++ "." ++ sfx) = Some (Some (path_of dir base)).
Proof.
  intros Hs Hd Hx. apply entry_kept; [done|].
  assert (path_of dir (base ++ "." ++ sfx) = (path_of dir base ++ "." ++ sfx)%string) as ->
    by (unfold path_of; by rewrite !string_app_assoc).
  by apply known_cut.
Qed.

Lemma invoke_all {D} (func : string -> D -> Z * D) files data :
  (forall f d, (func f d).1 = code_value DSCHED_SUCCESS) ->
  invoke func files data = (code_value DSCHED_SUCCESS, foldl (fun d f => (func f d).2) data files).
Proof.
  intros Hf. revert data; induction files as [|f files IH]; intros data; [done|]. cbn [invoke foldl].
  pose proof (Hf f data) as E. destruct (func f data) as [ret d]. simpl in E. subst ret.
  rewrite Z.eqb_refl. apply IH.
Qed.

Lemma foldl_snoc (files l : list string) : foldl (fun d f => d ++ [f]) l files = l ++ files.
Proof.
  revert l; induction files as [|f files IH]; intros l; simpl; [by rewrite app_nil_r|].
  by rewrite IH, <- app_assoc.
Qed.

(** A callback that succeeds is called exactly once for every name, however many
    files of whatever suffixes have it. *)
Theorem foreachfile_once path names s :
  found (default [] (split_argv path DSCHED_ENV_SEP)) = Some names ->
  exists called,
    ddlopen_foreachfile path (fun f l => (code_value DSCHED_SUCCESS, l ++ [f])) [] s =
      Done ((code_value DSCHED_SUCCESS, called), s) /\
    NoDup called /\ forall n, n ∈ called <-> n ∈ names.
Proof.
  intros Hn. exists (first_occurrences names). rewrite foreachfile_found, Hn.
  rewrite invoke_all by done. cbn [snd]. rewrite foldl_snoc. split; [done|].
  split; [apply NoDup_first_occurrences|intros n; apply elem_of_first_occurrences].
Qed.

Lemma strrchr_app_None c s t : strrchr c t = None ->
  strrchr c (s ++ t)%string = option_map (fun '(a, b) => (a, (b ++ t)%string)) (strrchr c s).
Proof.
  intros Ht. induction s as [|x s IH]; [done|].
  change (String x s ++ t)%string with (String x (s ++ t)). cbn [strrchr]. rewrite IH.
  destruct (strrchr c s) as [[a b]|]; simpl; [done|]. by destruct (Ascii.eqb x c).
Qed.

(** The last dot is looked for in the whole path. When a directory has one in its
    name, every file of it without a suffix is known by the same name, a prefix of
    the directory's, which is no file of it. *)
Theorem dotted_directory dir base rest e :
  strrchr "."%char dir = Some (base, rest) ->
  strrchr "."%char ("/" ++ e)%string = None ->
  stat (dir ++ "/" ++ e)%string = Some true ->
  entry_name dir e = Some (Some base).
Proof.
  intros Hdir He Hst. unfold entry_name. rewrite Hst, (strrchr_app_None _ _ _ He), Hdir. cbn [option_map].
  assert (forall t, In t [".la"; ".lo"; ".o"]%string -> String.eqb (rest ++ "/" ++ e) t = false) as Hne.
  { intros t Ht. apply String.eqb_neq.
    destruct rest as [|a [|b [|c r]]]; destruct Ht as [<-|[<-|[<-|[]]]]; try discriminate.
    all: by destruct r. }
  rewrite !Hne by (simpl; tauto). done.
Qed.
End Foreachfile.

(** ** Opening, looking up and closing *)

Section Handles.
Context `{Os}.

(** The messages written for the suffixes that are tried in vain. *)
Definition not_found (fname : string) (exts : list string) : list string :=
  map (fun ext => ("File " ++ (fname ++ ext) ++ " not found")%string) exts.

Definition missing (fname ext : string) : Prop := stat (fname ++ ext)%string = None.

Lemma try_suffixes_missing fname flags err_msg msg pre post s :
  Forall (missing fname) pre ->
  try_suffixes fname flags err_msg msg (pre ++ post) s =
  try_suffixes fname flags err_msg
    (if err_msg then from_option (Some ∘ MsgAllocated) msg (last (not_found fname pre)) else msg) post
    (if err_msg then s <| allocated := allocated s ++ not_found fname pre |> else s).
Proof.
  intros Hm. revert msg s. induction Hm as [|ext pre Hext _ IH]; intros msg s.
  - destruct err_msg; [|done]. simpl. rewrite app_nil_r. by destruct s.
  - simpl app. cbn [try_suffixes]. unfold missing in Hext. rewrite Hext.
    destruct err_msg; [|by rewrite IH].
    erewrite act_bind_Done by done. rewrite IH. simpl not_found. simpl allocated.
    rewrite <- app_assoc. f_equal. rewrite last_cons. by destruct (last (not_found fname pre)).
Qed.

(** The effect of one call of dlopen, as [ddlopen_open] sees it. *)
Definition opened (fname file : cstr) (flags : Z) (err_msg : bool) (s : ddl_state)
    : (Z * option loc * option errmsg) * ddl_state :=
  let s := s <| calls := calls s ++ [Dlopen file flags] |> in
  match dlopen file flags with
  | Some lh =>
      ((code_value DSCHED_SUCCESS, Some (next_handle s), if err_msg then Some MsgNull else None),
       s <| handles := <[next_handle s :=
              Handle lh (if ENABLE_DEBUG then Some (default "(null)" fname) else None)]> (handles s) |>
         <| next_handle := S (next_handle s) |>)
  | None =>
      ((code_value DSCHED_ERROR, None, if err_msg then Some (MsgInternal dlerror) else None), s)
  end.

(** Asked to try suffixes, [ddlopen_open] hands to the dynamic linker the first
    existing file and no other, even when that one cannot be loaded and a later one
    could; asked not to, or for the process itself, the name as it is. *)
Theorem open_takes_first_existing sfx fname priv err_msg s :
  (forall pre ext post, sfx = pre ++ ext :: post ->
     Forall (missing fname) pre -> ~ missing fname ext ->
     ddlopen_open (Some sfx) (Some fname) true priv err_msg s =
     Done (opened (Some fname) (Some (fname ++ ext)%string) (open_flags priv) err_msg
             (if err_msg then s <| allocated := allocated s ++ not_found fname pre |> else s))) /\
  ddlopen_open (Some sfx) (Some fname) false priv err_msg s =
    Done (opened (Some fname) (Some fname) (open_flags priv) err_msg s) /\
  ddlopen_open (Some sfx) None true priv err_msg s =
    Done (opened None None (open_flags priv) err_msg s).
Proof.
  assert (forall fn file s0,
    ('(local_handle, msg) ← do_ddlopen file (open_flags priv) err_msg;
     match local_handle with
     | Some lh =>
         h ← new_handle (Handle lh (if ENABLE_DEBUG then Some (default "(null)" fn) else None));
         mret (code_value DSCHED_SUCCESS, Some h, msg)
     | None => mret (code_value DSCHED_ERROR, None, msg)
     end) s0 = Done (opened fn file (open_flags priv) err_msg s0)) as Hone.
  { intros fn file s0. unfold do_ddlopen, opened, record. run_act. by destruct (dlopen file _), err_msg. }
  split; [|split; apply Hone].
  intros pre ext post -> Hpre Hext. unfold ddlopen_open, missing in *.
  rewrite <- Hone. unfold mbind at 1 3, act_bind at 1 3.
  rewrite try_suffixes_missing by done. cbn [try_suffixes].
  by destruct (stat (fname ++ ext)) as [b|]; [destruct err_msg|].
Qed.

(** No suffix gives a file: nothing is loaded, and the caller is handed the last of
    the messages, each in memory of its own that nobody else refers to. *)
Theorem open_leaks_messages pre ext fname priv s :
  Forall (missing fname) (pre ++ [ext]) ->
  ddlopen_open (Some (pre ++ [ext])) (Some fname) true priv true s =
  Done (code_value DSCHED_ERROR, None,
        Some (MsgAllocated ("File " ++ (fname ++ ext) ++ " not found")%string),
        s <| allocated := allocated s ++ not_found fname (pre ++ [ext]) |>).
Proof.
  intros Hm. unfold ddlopen_open. unfold mbind at 1, act_bind at 1.
  rewrite <- (app_nil_r (pre ++ [ext])), try_suffixes_missing, app_nil_r by done.
  cbn [try_suffixes].
  assert (last (not_found fname (pre ++ [ext])) = Some ("File " ++ (fname ++ ext) ++ " not found")%string) as ->
    by (unfold not_found; rewrite map_app; apply last_snoc).
  done.
Qed.

(** A component that was closed, or whose list of suffixes splits to nothing, has
    no suffixes to try, and opening a file with them reads through a null pointer. *)
Theorem open_without_suffixes (c : ddlopen_component) fname priv err_msg s :
  ddlopen_open (filename_suffixes (ddlopen_component_close c).2) (Some fname) true priv err_msg s =
    Fault NullDeref /\
  forall var_register value, var_register (Some ".so,.dylib,.dll,.sl"%string) = (0, value) ->
    split_argv value ","%char = None ->
    (ddlopen_component_register var_register c).1 = code_value DSCHED_SUCCESS /\
    ddlopen_open (filename_suffixes (ddlopen_component_register var_register c).2)
      (Some fname) true priv err_msg s = Fault NullDeref.
Proof.
  split; [done|]. intros reg value Hreg Hsplit. unfold ddlopen_component_register.
  rewrite Hreg. simpl. by rewrite Hsplit.
Qed.

(** The life of a handle. After a successful open, a lookup asks the linker for
    the symbol in the object that was loaded; close closes that object, and gives
    back the memory of the handle, so that nothing can be looked up and the handle
    cannot be closed again. *)
Theorem handle_life sfx fname priv err_msg h msg s s' :
  ddlopen_open sfx fname false priv err_msg s = Done (code_value DSCHED_SUCCESS, Some h, msg, s') ->
  exists lh, dlopen fname (open_flags priv) = Some lh /\
  (forall sym, exists s1 m1, ddlopen_lookup (Some h) (Some sym) err_msg s' =
     Done (if dlsym lh sym then code_value DSCHED_SUCCESS else code_value DSCHED_ERROR,
           dlsym lh sym, m1, s1) /\ handles s1 = handles s') /\
  exists s2, ddlopen_close (Some h) s' = Done (dlclose lh, s2) /\
    calls s2 = calls s ++ [Dlopen fname (open_flags priv); Dlclose lh] /\
    (handles s !! h = None -> handles s2 = handles s) /\
    (forall sym, ddlopen_lookup (Some h) (Some sym) err_msg s2 = Fault UseAfterFree) /\
    ddlopen_close (Some h) s2 = Fault UseAfterFree.
Proof.
  unfold ddlopen_open, do_ddlopen, record. run_act.
  destruct (dlopen fname (open_flags priv)) as [lh|]; [|done]. simpl. intros [= <- _ <-].
  exists lh. split; [done|]. split.
  - intros sym. unfold ddlopen_lookup, handle_at, record. run_act. simplify_map_eq.
    destruct (dlsym lh sym); do 2 eexists; (split; [done|]); done.
  - eexists. unfold ddlopen_close, ddlopen_lookup, free_handle, handle_at, record. run_act. simplify_map_eq.
    split; [done|]. simpl. rewrite <- app_assoc. split; [done|].
    rewrite lookup_delete_eq. split; [|by split; [intros sym|]].
    intros Hf. by rewrite delete_insert_id.
Qed.
End Handles.

(** The advice stands for the two flags, whether or not the library is asked to
    advise: the file that is opened is the one its advice, or the function for its
    extension, gives. *)
Theorem advice_spec `{Ltdl} fname use_ext priv err_msg s :
  HAVE_LT_DLADVISE = true ->
  let a := match use_ext, priv with
           | true, true => private_ext | true, false => public_ext
           | false, true => private_noext | false, false => public_noext
           end in
  exists h msg s', dlibltddl_open fname use_ext priv err_msg s =
    Done (if lt_dlopenadvise fname a then code_value DSCHED_SUCCESS else code_value DSCHED_ERROR,
          h, msg, s') /\
    (h = None <-> lt_dlopenadvise fname a = None).
Proof.
  intros Ha. unfold dlibltddl_open. rewrite Ha.
  destruct use_ext, priv; simpl; destruct (lt_dlopenadvise fname _); do 3 eexists;
    (split; [done|]); by split.
Qed.

(** The dlibltdl component, opened and closed, leaves nothing behind, whatever
    call failed in between: closing it destroys every advice and takes back one use of
    the library. Opened without an error it has one use more, and the four advices when
    they are supported; but an opening that fails, which the framework does not follow
    with a close, keeps the use of the library it made and the advices it had made. *)
Theorem ltdl_open_close `{Ltdl} n rc s :
  dlibltddl_component_open (LtdlState n []) = (rc, s) ->
  lt_dlinit = false ->
  lt_users s = n + 1 /\
  dlibltddl_component_close s = (code_value DSCHED_SUCCESS, LtdlState n []) /\
  (rc = code_value DSCHED_SUCCESS ->
   advices s = if HAVE_LT_DLADVISE then [private_noext; private_ext; public_noext; public_ext] else []) /\
  (rc <> code_value DSCHED_SUCCESS ->
   rc = code_value DSCHED_ERR_OUT_OF_RESOURCE /\ HAVE_LT_DLADVISE = true /\
   (advices s = [] <-> lt_dladvise AdviceInit private_noext = true)).
Proof.
  intros Hopen Hinit. unfold dlibltddl_component_open in Hopen. rewrite Hinit in Hopen.
  unfold dlibltddl_component_close.
  destruct HAVE_LT_DLADVISE; simpl in Hopen; unfold advise in Hopen; simpl in Hopen;
    repeat match type of Hopen with
           | context [lt_dladvise ?x ?a] => destruct (lt_dladvise x a); simpl in Hopen
           end; injection Hopen as <- <-; vm_compute code_value;
    unfold advise_destroy; cbn -[Z.add Z.sub];
    (split; [done|split; [do 2 f_equal; lia|split; intros; try done; naive_solver]]).
Qed.

(** ** An example *)

#[local] Existing Instance sample_pmix.

#[local] Instance sample_os : Os := {|
  stat := fun f =>
    if bool_decide (f ∈ ["/l/a.la"; "/l/a.so"; "/l/a.sl"; "/l/b.so"; "/m.d/x"; "/m.d/y"]%string)
    then Some true
    else if bool_decide (f ∈ ["/l/."; "/m.d/."]%string) then Some false else None;
  opendir := fun d =>
    if String.eqb d "/l" then Some ["."; "a.la"; "b.so"; "a.so"; "a.sl"]%string
    else if String.eqb d "/m.d" then Some ["."; "x"; "y"]%string else None;
  RTLD_LAZY := 1; RTLD_LOCAL := 0; RTLD_GLOBAL := 256;
  dlopen := fun f _ => if bool_decide (f = Some "/l/a.sl"%string) then Some 7 else None;
  dlsym := fun h s => if String.eqb s "init" then Some (h + 100) else None;
  dlclose := fun _ => 0;
  dlerror := "cannot load"%string;
  DSCHED_ENV_SEP := ":"%char;
  ENABLE_DEBUG := true
|}.

Definition start : ddl_state := DdlState ∅ 0 ∅ [] [].

(** The dot of the directory's name makes one name of two files. *)
Example scan_two_directories :
  found (default [] (split_argv (Some "/l:/m.d"%string) ":"%char)) =
  Some ["/l/b"; "/l/a"; "/l/a"; "/m"; "/m"]%string.
Proof. reflexivity. Qed.

(** Four files are taken for three: "/m.d/x" and "/m.d/y" are both known as "/m". *)
Example scan_calls :
  ddlopen_foreachfile (Some "/l:/m.d"%string)
    (fun f l => (code_value DSCHED_SUCCESS, l ++ [f])) [] start =
  Done (0, ["/l/b"; "/l/a"; "/m"]%string, start).
Proof. reflexivity. Qed.

Lemma foreachfile_once_witness :
  exists called,
    ddlopen_foreachfile (Some "/l:/m.d"%string)
      (fun f l => (code_value DSCHED_SUCCESS, l ++ [f])) [] start =
      Done ((code_value DSCHED_SUCCESS, called), start) /\
    NoDup called /\ forall n, n ∈ called <-> n ∈ ["/l/b"; "/l/a"; "/l/a"; "/m"; "/m"]%string.
Proof. exact (foreachfile_once (Some "/l:/m.d"%string) _ start eq_refl). Defined.

Lemma dotted_directory_witness : entry_name "/m.d" "x" = Some (Some "/m"%string).
Proof. exact (dotted_directory "/m.d" "/m" ".d" "x" eq_refl eq_refl eq_refl). Defined.

(** "a.so" exists and cannot be loaded; "a.sl" could be. *)
Lemma open_takes_first_existing_witness :
  ddlopen_open (Some [".dll"; ".so"; ".sl"]%string) (Some "/l/a"%string) true true true start =
  Done (opened (Some "/l/a"%string) (Some "/l/a.so"%string) 1 true
          (start <| allocated := ["File /l/a.dll not found"%string] |>)).
Proof.
  refine (proj1 (open_takes_first_existing [".dll"; ".so"; ".sl"]%string "/l/a" true true start)
    [".dll"%string] ".so" [".sl"%string] eq_refl _ _); [by constructor|discriminate].
Defined.

Lemma open_without_suffixes_witness :
  ddlopen_open (filename_suffixes (ddlopen_component_close (DdlopenComponent None (Some [".so"%string]))).2)
    (Some "/l/a"%string) true false false start = Fault NullDeref /\
  (ddlopen_component_register (fun _ => (0, Some EmptyString)) (DdlopenComponent None None)).1 = 0.
Proof.
  pose proof (open_without_suffixes (DdlopenComponent None (Some [".so"%string])) "/l/a" false false start)
    as [Hc Hr].
  split; [exact Hc|exact (proj1 (Hr (fun _ => (0, Some EmptyString)) (Some EmptyString) eq_refl eq_refl))].
Defined.

Definition open_start : ddl_state :=
  match ddlopen_open None (Some "/l/a.sl"%string) false false false start with
  | Done (_, s) => s
  | Fault _ => start
  end.

Lemma handle_life_witness :
  exists s2, ddlopen_close (Some 0%nat) open_start = Done (0, s2) /\
    ddlopen_close (Some 0%nat) s2 = Fault UseAfterFree.
Proof.
  destruct (handle_life None (Some "/l/a.sl"%string) false false 0%nat None start open_start ltac:(by vm_compute))
    as (lh & [= <-] & _ & s2 & Hc & _ & _ & _ & Hu).
  exists s2. split; [exact Hc|exact Hu].
Defined.

(** A libltdl whose advice cannot be told to try extensions. *)
#[local] Instance sample_ltdl : Ltdl := {|
  HAVE_LT_DLADVISE := true;
  LTDL_DEBUG := false;
  lt_dlopenadvise := fun f a => if bool_decide (a = private_noext) then Some 3 else None;
  lt_dlopenext := fun _ => None;
  lt_dlopen := fun _ => Some 3;
  lt_dlsym := fun _ _ => None;
  lt_dlclose := fun _ => 0;
  lt_dlerror := "no such file"%string;
  lt_dlforeachfile := fun D _ _ data => (0, data);
  lt_dlinit := false;
  lt_dladvise := fun x _ => match x with AdviceExt => true | _ => false end
|}.

Lemma ltdl_open_close_witness :
  let rs := dlibltddl_component_open (LtdlState 2 []) in
  rs.1 = code_value DSCHED_ERR_OUT_OF_RESOURCE /\ lt_users rs.2 = 3 /\
  advices rs.2 = [private_noext; private_ext] /\
  dlibltddl_component_close rs.2 = (code_value DSCHED_SUCCESS, LtdlState 2 []).
Proof.
  destruct (ltdl_open_close (H := sample_ltdl) 2 (code_value DSCHED_ERR_OUT_OF_RESOURCE)
    (LtdlState 3 [private_noext; private_ext]) ltac:(vm_compute; reflexivity) eq_refl) as (Hu & Hc & _ & _).
  split; [reflexivity|]. split; [exact Hu|]. split; [reflexivity|]. exact Hc.
Defined.
