(* ===== verification/Daemon.v ===== *)
(** * Becoming a daemon: src/util/dsched_daemon_init.c

    The descriptors of a process are a finite map from numbers to open files, and
    [open] returns the lowest number that is free, as POSIX has it. fork is given by
    what it returned; the parent's function [wait_dvm] is that of
    tools/dsched/dsched.c. *)

From Stdlib Require Import Ascii.
From S2P Require Import Prelude Constants.

(** ** Processes *)

Inductive file :=
| NullReadOnly                     (** /dev/null, O_RDONLY *)
| NullReadWrite                    (** /dev/null, O_RDWR | O_CREAT | O_TRUNC *)
| OtherFile (n : nat).

Record process := Process {
  fds : gmap nat file;
  cwd : string;
  session_leader : bool
}.
#[export] Instance eta_process : Eta process := fun p =>
  Process (fds p) (cwd p) (session_leader p).

(** The lowest number that is not in use. *)
Definition lowest_free (m : gmap nat file) : nat :=
  from_option fst (size m) (list_find (fun n => m !! n = None) (seq 0 (size m))).

Definition open_file (f : file) (p : process) : nat * process :=
  let fd := lowest_free (fds p) in (fd, p <| fds := <[fd := f]> (fds p) |>).

(** dup2(a, b) of an open descriptor [a]. *)
Definition dup2 (a b : nat) (p : process) : process :=
  match fds p !! a with
  | Some f => p <| fds := <[b := f]> (fds p) |>
  | None => p
  end.

Definition close_fd (fd : nat) (p : process) : process := p <| fds := delete fd (fds p) |>.

(** What fork returned: an error, the child's number, or zero. *)
Inductive forked := ForkError | InParent (child : Z) | InChild.

(** What becomes of the process: the call returns, or the process exits. *)
Inductive fate := Returned (rc : Z) (p : process) | Exited (rc : Z).

(** The system: the features configure found, whether setsid succeeds, chdir, and
    opening /dev/null for reading and for writing. *)
Record posix := Posix {
  HAVE_FORK : bool;
  HAVE_SETSID : bool;
  setsid_ok : bool;
  chdir_ok : string -> bool;
  open_read_ok : bool;
  open_write_ok : bool
}.

Definition setsid (os : posix) (p : process) : process :=
  if setsid_ok os then p <| session_leader := true |> else p.

Definition STDIN_FILENO : nat := 0.
Definition STDOUT_FILENO : nat := 1.
Definition STDERR_FILENO : nat := 2.

(** Connect the input, and the outputs, to /dev/null once it is opened. *)
Definition connect_input (p : process) : process :=
  let '(fd, p) := open_file NullReadOnly p in
  let p := dup2 fd STDIN_FILENO p in
  if negb (Nat.eqb fd STDIN_FILENO) then close_fd fd p else p.

Definition connect_outputs (p : process) : process :=
  let '(fd, p) := open_file NullReadWrite p in
  let p := dup2 fd STDOUT_FILENO p in
  let p := dup2 fd STDERR_FILENO p in
  if negb (Nat.eqb fd STDOUT_FILENO) && negb (Nat.eqb fd STDERR_FILENO)
  then close_fd fd p else p.

(** The child from there on. *)
Definition connect_null (os : posix) (p : process) : fate :=
  if negb (open_read_ok os) then Returned (code_value DSCHED_ERR_FATAL) p else
  let p := connect_input p in
  if open_write_ok os then Returned (code_value DSCHED_SUCCESS) (connect_outputs p)
  else Returned (code_value DSCHED_ERR_FATAL) p.

Definition dsched_daemon_init_callback (os : posix) (fork : forked) (working_dir : cstr)
    (parent_fn : option (Z -> Z)) (p : process) : fate :=
  if negb (HAVE_FORK os) then Returned (code_value DSCHED_ERR_NOT_SUPPORTED) p else
  match fork with
  | ForkError => Returned (code_value DSCHED_ERROR) p
  | InParent pid => Exited (match parent_fn with Some f => f pid | None => 0 end)
  | InChild =>
      let p := if HAVE_SETSID os then setsid os p else p in
      match working_dir with
      | None => connect_null os p
      | Some dir =>
          if chdir_ok os dir then connect_null os (p <| cwd := dir |>)
          else Returned (code_value DSCHED_ERR_FATAL) p
      end
  end.

Definition dsched_daemon_init (os : posix) (fork : forked) (working_dir : cstr) (p : process) : fate :=
  dsched_daemon_init_callback os fork working_dir None p.

(** ** wait_dvm *)

(** What a read of the pipe gives: an interruption, another error, the end of the
    pipe, or a byte. *)
Inductive read_result := ReadEintr | ReadError | ReadEof | ReadByte (b : Ascii.ascii).

(** How the child ended, as waitpid reports it. *)
Inductive wait_status := WExited (status : Z) | WSignaled (sig : Z).

(** The loop over the interruptions, on the results the pipe gives one after another;
    [None] when there are no more results and the process is still waiting. *)
Fixpoint read_reply (reads : list read_result) : option read_result :=
  match reads with
  | [] => None
  | ReadEintr :: reads => read_reply reads
  | r :: _ => Some r
  end.

Definition wait_dvm (reads : list read_result) (waitpid : Z -> wait_status) (pid : Z) : option Z :=
  r ← read_reply reads;
  Some match r with
       | ReadByte b => if Ascii.eqb b "K"%char then 0 else 255
       | ReadEof => match waitpid pid with WExited status => uint 8 status | WSignaled _ => 255 end
       | _ => 255
       end.

(** ** The descriptors of the daemon *)

Lemma lowest_free_spec m :
  m !! lowest_free m = None /\ forall n, (n < lowest_free m)%nat -> is_Some (m !! n).
Proof.
  unfold lowest_free. destruct (list_find _ _) as [[n x]|] eqn:E; simpl.
  - apply list_find_Some in E as (Hn & Hx & Hlt). apply lookup_seq in Hn as [-> Hn]. simpl in *.
    split; [done|]. intros k Hk. apply not_eq_None_Some. apply (Hlt k k); [|done].
    apply lookup_seq_lt. lia.
  - apply list_find_None in E. rewrite Forall_forall in E.
    assert (forall n, (n < size m)%nat -> is_Some (m !! n)) as Hall.
    { intros n Hn. apply not_eq_None_Some, E. apply elem_of_seq. lia. }
    split; [|done]. destruct (m !! size m) as [f|] eqn:Em; [|done]. exfalso.
    assert (list_to_set (seq 0 (S (size m))) ⊆ dom m) as Hsub.
    { intros k Hk. rewrite elem_of_list_to_set, elem_of_seq in Hk. apply elem_of_dom.
      destruct (decide (k = size m)) as [->|]; [by eexists|apply Hall; lia]. }
    apply subseteq_size in Hsub. rewrite size_list_to_set in Hsub by apply NoDup_seq.
    rewrite size_dom, length_seq in Hsub. lia.
Qed.

(** Opening, copying to [n], and closing the other one leaves just the copy: the
    lowest free number is below every other free one. *)
Lemma open_dup_close f m n :
  let fd := lowest_free m in
  let m' := <[n := f]> (<[fd := f]> m) in
  (if negb (Nat.eqb fd n) then delete fd m' else m') = <[n := f]> m.
Proof.
  intros fd m'. subst m'. pose proof (proj1 (lowest_free_spec m)) as Hf. fold fd in Hf.
  destruct (Nat.eqb_spec fd n) as [->|Hn]; simpl; [apply insert_insert_eq|].
  rewrite delete_insert_ne by done. by rewrite delete_insert_id.
Qed.

(** What the standard streams of a daemon are. *)
Definition daemon_streams (m : gmap nat file) : gmap nat file :=
  <[STDERR_FILENO := NullReadWrite]>
    (<[STDOUT_FILENO := NullReadWrite]> (<[STDIN_FILENO := NullReadOnly]> m)).

Lemma two_copies (f : file) (m : gmap nat file) fd : m !! fd = None ->
  let m' := <[2%nat := f]> (<[1%nat := f]> (<[fd := f]> m)) in
  (if negb (Nat.eqb fd 1) && negb (Nat.eqb fd 2) then delete fd m' else m') =
  <[2%nat := f]> (<[1%nat := f]> m).
Proof.
  intros Hf m'. subst m'.
  destruct (Nat.eqb_spec fd 1) as [->|H1]; simpl; [by rewrite insert_insert_eq|].
  destruct (Nat.eqb_spec fd 2) as [->|H2]; simpl.
  - rewrite (insert_insert_ne _ 1%nat 2%nat) by done. by rewrite insert_insert_eq.
  - rewrite !delete_insert_ne by done. by rewrite delete_insert_id.
Qed.

Lemma dup2_open a b f p : fds p !! a = Some f -> dup2 a b p = p <| fds := <[b := f]> (fds p) |>.
Proof. intros Ha. unfold dup2. by rewrite Ha. Qed.

Lemma connect_input_spec p : connect_input p = p <| fds := <[STDIN_FILENO := NullReadOnly]> (fds p) |>.
Proof.
  unfold connect_input, open_file.
  rewrite (dup2_open _ _ NullReadOnly) by (apply lookup_insert_eq).
  rewrite <- (open_dup_close NullReadOnly (fds p) STDIN_FILENO).
  by destruct (negb (lowest_free (fds p) =? STDIN_FILENO)%nat).
Qed.

Lemma connect_outputs_spec p :
  connect_outputs p =
  p <| fds := <[STDERR_FILENO := NullReadWrite]> (<[STDOUT_FILENO := NullReadWrite]> (fds p)) |>.
Proof.
  pose proof (proj1 (lowest_free_spec (fds p))) as Hf.
  unfold connect_outputs, open_file. set (fd := lowest_free (fds p)) in *.
  rewrite (dup2_open fd STDOUT_FILENO NullReadWrite) by (apply lookup_insert_eq).
  rewrite (dup2_open fd STDERR_FILENO NullReadWrite).
  - unfold STDOUT_FILENO, STDERR_FILENO. rewrite <- (two_copies NullReadWrite (fds p) fd Hf).
    by destruct (negb (fd =? 1)%nat && negb (fd =? 2)%nat).
  - simpl. destruct (decide (fd = STDOUT_FILENO)) as [E|]; [rewrite E; apply lookup_insert_eq|].
    rewrite lookup_insert_ne by done. apply lookup_insert_eq.
Qed.

(** C26: whatever descriptors the process starts with, open or closed standard
    streams included, the daemon's input is /dev/null for reading, its two outputs
    are /dev/null, and every other descriptor is as it was: none is leaked and none
    lost, as the write end of the pipe the parent waits on must not be. It leads a
    session of its own when the system lets it, and works where it was told to. *)
Theorem daemon_descriptors os dir parent_fn p :
  HAVE_FORK os = true -> open_read_ok os = true -> open_write_ok os = true ->
  (forall d, dir = Some d -> chdir_ok os d = true) ->
  exists q, dsched_daemon_init_callback os InChild dir parent_fn p =
    Returned (code_value DSCHED_SUCCESS) q /\
  fds q = daemon_streams (fds p) /\
  (forall fd, (2 < fd)%nat -> fds q !! fd = fds p !! fd) /\
  cwd q = default (cwd p) dir /\
  session_leader q = session_leader p || (HAVE_SETSID os && setsid_ok os).
Proof.
  intros Hfork Hr Hw Hdir.
  assert (forall p, connect_null os p =
    Returned (code_value DSCHED_SUCCESS) (p <| fds := daemon_streams (fds p) |>)) as Hnull.
  { intros p0. unfold connect_null. by rewrite Hr, Hw, connect_input_spec, connect_outputs_spec. }
  unfold dsched_daemon_init_callback. rewrite Hfork. cbn [negb].
  set (p0 := if HAVE_SETSID os then setsid os p else p).
  assert (fds p0 = fds p /\ cwd p0 = cwd p /\
    session_leader p0 = session_leader p || (HAVE_SETSID os && setsid_ok os)) as (Hfds & Hcwd & Hlead).
  { subst p0. unfold setsid. destruct (HAVE_SETSID os), (setsid_ok os); simpl;
      rewrite ?orb_false_r, ?orb_true_r; done. }
  assert (forall fd, (2 < fd)%nat -> daemon_streams (fds p) !! fd = fds p !! fd) as Hrest.
  { intros fd Hfd. unfold daemon_streams, STDIN_FILENO, STDOUT_FILENO, STDERR_FILENO.
    by rewrite !lookup_insert_ne by lia. }
  destruct dir as [d|]; [rewrite (Hdir d eq_refl)|]; rewrite Hnull; eexists;
    (split; [done|]); simpl; rewrite Hfds; done.
Qed.

(** An error leaves the caller running in the foreground of its terminal: nothing of
    the process has changed when there is no second process, and the child of a
    failure has only what precedes the failing call. *)
Theorem daemon_errors os dir parent_fn p :
  (HAVE_FORK os = false -> forall fork, dsched_daemon_init_callback os fork dir parent_fn p =
     Returned (code_value DSCHED_ERR_NOT_SUPPORTED) p) /\
  (HAVE_FORK os = true ->
     dsched_daemon_init_callback os ForkError dir parent_fn p = Returned (code_value DSCHED_ERROR) p /\
     forall d, dir = Some d -> chdir_ok os d = false ->
     exists q, dsched_daemon_init_callback os InChild dir parent_fn p =
       Returned (code_value DSCHED_ERR_FATAL) q /\ fds q = fds p /\ cwd q = cwd p).
Proof.
  unfold dsched_daemon_init_callback. split; [by intros ->|]. intros ->. split; [done|].
  intros d -> Hd. cbn [negb]. rewrite Hd. eexists. split; [done|].
  unfold setsid. by destruct (HAVE_SETSID os), (setsid_ok os).
Qed.

(** The parent ends with the status of the daemon whenever the pipe is closed
    without a byte, after any number of interruptions, and nothing but a byte 'K'
    makes it end with 0 while the daemon runs on. *)
Theorem parent_status n r reads waitpid child os dir p :
  HAVE_FORK os = true -> r <> ReadEintr ->
  let status := match r with
    | ReadByte b => if Ascii.eqb b "K"%char then 0 else 255
    | ReadEof => match waitpid child with WExited st => st mod 256 | WSignaled _ => 255 end
    | _ => 255
    end in
  wait_dvm (replicate n ReadEintr ++ r :: reads) waitpid child = Some status /\
  dsched_daemon_init_callback os (InParent child) dir
    (Some (fun pid => default 0 (wait_dvm (replicate n ReadEintr ++ r :: reads) waitpid pid))) p =
    Exited status.
Proof.
  intros Hfork Hr status.
  assert (forall pid, wait_dvm (replicate n ReadEintr ++ r :: reads) waitpid pid =
    Some match r with
    | ReadByte b => if Ascii.eqb b "K"%char then 0 else 255
    | ReadEof => match waitpid pid with WExited st => st mod 256 | WSignaled _ => 255 end
    | _ => 255
    end) as E.
  { intros pid. unfold wait_dvm.
    assert (read_reply (replicate n ReadEintr ++ r :: reads) = Some r) as ->
      by (induction n as [|n IH]; [by destruct r|done]).
    by destruct r. }
  split; [apply E|]. unfold dsched_daemon_init_callback. rewrite Hfork. cbn [negb]. by rewrite E.
Qed.

Definition linux : posix := Posix true true true (fun _ => true) true true.

(** Started with its standard input and error closed, and a pipe on 5 and 6. *)
Definition started : process :=
  Process {[1%nat := OtherFile 1; 5%nat := OtherFile 5; 6%nat := OtherFile 6]} "/home" false.

Lemma daemon_descriptors_witness :
  exists q, dsched_daemon_init_callback linux InChild None None started =
    Returned (code_value DSCHED_SUCCESS) q /\ fds q !! 6%nat = Some (OtherFile 6).
Proof.
  destruct (daemon_descriptors linux None None started eq_refl eq_refl eq_refl ltac:(discriminate))
    as (q & Hq & _ & Hrest & _).
  exists q. split; [exact Hq|]. rewrite (Hrest 6%nat ltac:(lia)). reflexivity.
Defined.

Lemma parent_status_witness :
  wait_dvm [ReadEintr; ReadEintr; ReadEof] (fun _ => WExited 259) 7 = Some 3.
Proof.
  exact (proj1 (parent_status 2 ReadEof [] (fun _ => WExited 259) 7 linux None started eq_refl
    ltac:(discriminate))).
Defined.
