(* ===== verification/Signals.v ===== *)
(** * Abort signals: src/tools/dsched/dsched.c

    The handler of the signals, [abort_signal_callback], runs in between any two
    steps of the program; it writes to a pipe whose event runs [clean_abort] on the
    event base. Both, and the death of the parent that a keepalive pipe announces,
    are transitions of one small machine. *)

From S2P Require Import Prelude.

(** Where the main thread is: before its event loop, in the loop, or in the body of
    [clean_abort] after one of its calls; or the process has exited. *)
Inductive place := Starting | Looping | Locked | ServerDown | DirGone | Exited (status : Z).

Inductive cleanup := FinalizeServer | FinalizeDir.

Record abort := Abort_state {
  at_ : place;
  first : bool;
  second : bool;
  keepalive : bool;
  abort_inprogress : bool;                    (** the lock is held *)
  forcibly_die : bool;
  term_bytes : nat;                           (** what the pipe holds *)
  term_added : bool;                          (** the event on the pipe is pending *)
  died_events : nat;                          (** active events of [parent_died_fn] *)
  cleanups : list cleanup;
  messages : nat
}.
#[export] Instance eta_abort : Eta abort := fun s =>
  Abort_state (at_ s) (first s) (second s) (keepalive s) (abort_inprogress s) (forcibly_die s)
    (term_bytes s) (term_added s) (died_events s) (cleanups s) (messages s).

(** ** The handlers *)

(** [write_ok]: whether the write the handler makes succeeds. *)
Definition abort_signal_callback (write_ok : bool) (s : abort) : abort :=
  if first s then
    let s := s <| first := false |> in
    if write_ok then s <| term_bytes := S (term_bytes s) |> else s <| at_ := Exited 1 |>
  else if second s then
    if write_ok then s <| messages := S (messages s) |> <| second := false |>
    else s <| at_ := Exited 1 |>
  else
    s <| cleanups := cleanups s ++ [FinalizeServer; FinalizeDir] |> <| at_ := Exited 1 |>.

(** Up to its first call; [arg] is whether there is an object to release. An event
    that is not persistent is no longer pending when its handler runs. *)
Definition clean_abort (arg : bool) (s : abort) : abort :=
  if keepalive s && negb arg then s else
  if abort_inprogress s then
    if forcibly_die s then s <| at_ := Exited 1 |>
    else s <| messages := S (messages s) |> <| forcibly_die := true |> <| term_added := true |>
  else s <| abort_inprogress := true |> <| at_ := Locked |>.

(** The calls at its end, one by one. *)
Definition clean_abort_rest (s : abort) : abort :=
  match at_ s with
  | Locked => s <| cleanups := cleanups s ++ [FinalizeServer] |> <| at_ := ServerDown |>
  | ServerDown => s <| cleanups := cleanups s ++ [FinalizeDir] |> <| at_ := DirGone |>
  | DirGone => s <| at_ := Exited 1 |>
  | _ => s
  end.

(** The library goes on, and an event is activated on the base. *)
Definition parent_died_fn (s : abort) : abort := s <| died_events := S (died_events s) |>.

(** The status is kept and the waiting thread woken. *)
Definition evhandler_reg_callbk (status : Z) (lock : option Z * bool) : option Z * bool :=
  (Some status, true).

(** ** Steps *)

Inductive move :=
| Signal (write_ok : bool)
| Loop                                        (** the event loop is entered *)
| TermEvent                                   (** the event on the pipe runs *)
| DiedEvent                                   (** the event of the parent's death runs *)
| ParentDies                                  (** the library notifies *)
| Resume.                                     (** [clean_abort] goes on *)

Definition exited (s : abort) : bool := match at_ s with Exited _ => true | _ => false end.

Inductive step : abort -> move -> abort -> Prop :=
| step_signal s w : exited s = false -> step s (Signal w) (abort_signal_callback w s)
| step_loop s : at_ s = Starting -> step s Loop (s <| at_ := Looping |>)
| step_term s : at_ s = Looping -> term_added s = true -> (0 < term_bytes s)%nat ->
    step s TermEvent (clean_abort false (s <| term_added := false |>))
| step_died s n : at_ s = Looping -> died_events s = S n ->
    step s DiedEvent (clean_abort true (s <| died_events := n |>))
| step_dies s : exited s = false -> keepalive s = true -> step s ParentDies (parent_died_fn s)
| step_resume s : at_ s = Locked \/ at_ s = ServerDown \/ at_ s = DirGone ->
    step s Resume (clean_abort_rest s).

Inductive steps : abort -> list move -> abort -> Prop :=
| steps_nil s : steps s [] s
| steps_snoc s ms s1 m s2 : steps s ms s1 -> step s1 m s2 -> steps s (ms ++ [m]) s2.

(** What [main] leaves once the handlers are set. *)
Definition trapped (keepalive : bool) : abort :=
  Abort_state Starting true true keepalive false false 0 true 0 [] 0.

(** A run given as the list of its moves. *)
Definition may_move (s : abort) (m : move) : bool :=
  match m with
  | Signal _ => negb (exited s)
  | Loop => match at_ s with Starting => true | _ => false end
  | TermEvent => match at_ s with Looping => term_added s && Nat.ltb 0 (term_bytes s) | _ => false end
  | DiedEvent => match at_ s with Looping => Nat.ltb 0 (died_events s) | _ => false end
  | ParentDies => negb (exited s) && keepalive s
  | Resume => match at_ s with Locked | ServerDown | DirGone => true | _ => false end
  end.

Definition after_move (s : abort) (m : move) : abort :=
  match m with
  | Signal w => abort_signal_callback w s
  | Loop => s <| at_ := Looping |>
  | TermEvent => clean_abort false (s <| term_added := false |>)
  | DiedEvent => clean_abort true (s <| died_events := pred (died_events s) |>)
  | ParentDies => parent_died_fn s
  | Resume => clean_abort_rest s
  end.

Definition move_fn (s : abort) (m : move) : option abort :=
  if may_move s m then Some (after_move s m) else None.

Fixpoint play (s : abort) (ms : list move) : option abort :=
  match ms with
  | [] => Some s
  | m :: ms => s ← move_fn s m; play s ms
  end.

Lemma move_fn_step s m s' : move_fn s m = Some s' -> step s m s'.
Proof.
  unfold move_fn. destruct (may_move s m) eqn:Hm; [|done]. intros [= <-].
  destruct m; simpl in *.
  - constructor. by apply negb_true_iff.
  - constructor. by destruct (at_ s).
  - assert (at_ s = Looping) as E by (by destruct (at_ s)). rewrite E in Hm.
    apply andb_true_iff in Hm as [? ?%Nat.ltb_lt]. by apply step_term.
  - assert (at_ s = Looping) as E by (by destruct (at_ s)). rewrite E in Hm.
    apply Nat.ltb_lt in Hm. apply step_died; [done|lia].
  - apply andb_true_iff in Hm as [?%negb_true_iff ?]. by constructor.
  - constructor. destruct (at_ s); auto; done.
Qed.

Lemma play_steps s0 ms0 s ms s' :
  steps s0 ms0 s -> play s ms = Some s' -> steps s0 (ms0 ++ ms) s'.
Proof.
  revert ms0 s; induction ms as [|m ms IH]; intros ms0 s Hs; simpl.
  { intros [= <-]. by rewrite app_nil_r. }
  destruct (move_fn s m) as [s1|] eqn:E; [|done]. cbn. intros Hp.
  replace (ms0 ++ m :: ms) with ((ms0 ++ [m]) ++ ms) by (by rewrite <- app_assoc).
  eapply IH; [|exact Hp]. eapply steps_snoc; [done|]. by apply move_fn_step.
Qed.

Lemma played s0 ms s : play s0 ms = Some s -> steps s0 ms s.
Proof. apply (play_steps s0 [] s0). constructor. Qed.

(** ** The invariant *)

#[export] Instance move_eq_dec : EqDecision move.
Proof. solve_decision. Defined.

Definition is_signal (m : move) : bool := match m with Signal _ => true | _ => false end.
Definition signals (ms : list move) : nat := length (filter (fun m => is_signal m = true) ms).

#[local] Arguments signals : simpl never.

(** The calls [clean_abort] has made when the main thread is there. *)
Definition made_at (p : place) : list cleanup :=
  match p with
  | ServerDown => [FinalizeServer]
  | DirGone => [FinalizeServer; FinalizeDir]
  | _ => []
  end.

(** Of a state reached with [k] signals. *)
Record inv (k : nat) (s : abort) : Prop := {
  inv_status : forall st, at_ s = Exited st -> st = 1;
  inv_flags : exited s = false ->
    (k <= 2)%nat /\ first s = bool_decide (k = 0)%nat /\ second s = bool_decide (k <= 1)%nat;
  inv_lock : at_ s = Starting \/ at_ s = Looping -> abort_inprogress s = false;
  inv_die : forcibly_die s = false;
  inv_made : exited s = false -> cleanups s = made_at (at_ s);
  inv_exit : exited s = true -> (k <= 2)%nat -> cleanups s `prefix_of` [FinalizeServer; FinalizeDir]
}.

Lemma trapped_inv ka : inv 0 (trapped ka).
Proof. split; simpl; try done. intros _. split; [lia|done]. Qed.

Lemma made_prefix p : made_at p `prefix_of` [FinalizeServer; FinalizeDir].
Proof. destruct p; simpl; repeat apply prefix_cons; apply prefix_nil. Qed.

Lemma clean_abort_inv k b s : at_ s = Looping -> inv k s -> inv k (clean_abort b s).
Proof.
  intros Hat [Hst Hfl Hlk Hdie Hmade Hex]. unfold clean_abort.
  destruct (keepalive s && negb b); [by split|]. rewrite Hlk by auto.
  assert (exited s = false) as Hne by (unfold exited; by rewrite Hat).
  specialize (Hmade Hne). rewrite Hat in Hmade.
  split; simpl; try done; [intros _; by apply Hfl|by intros [|]].
Qed.

Lemma step_inv k s m s' : step s m s' -> inv k s ->
  inv (if is_signal m then S k else k) s'.
Proof.
  intros Hs Hinv. pose proof Hinv as [Hst Hfl Hlk Hdie Hmade Hex]. destruct Hs as [s w Hne|s Hat|s Hat Hadd _|s n Hat Hn|s Hne _|s Hat]; simpl.
  - destruct (Hfl Hne) as (Hk & Hf & Hse). specialize (Hmade Hne).
    unfold abort_signal_callback. rewrite Hf, Hse. unfold exited in *.
    destruct k as [|[|[|k]]]; [..|lia]; simpl; [destruct w..|]; split; simpl; try done;
      try (intros ? [= <-]; done); try (intros _ _; rewrite Hmade; apply made_prefix); try lia.
    all: first [by intros [|] | by intros _; split; [lia|]].
  - split; simpl; try done; [intros _; apply Hfl; unfold exited; by rewrite Hat
      |intros _; apply Hlk; by left|rewrite Hmade; unfold exited; by rewrite Hat].
  - by apply clean_abort_inv.
  - apply clean_abort_inv; [done|]. by split.
  - by split.
  - assert (exited s = false) as Hne by (unfold exited; by destruct Hat as [->|[->| ->]]).
    specialize (Hmade Hne). specialize (Hfl Hne). unfold clean_abort_rest.
    destruct Hat as [Hat|[Hat|Hat]]; rewrite Hat in *; split; simpl; try done; try by intros [|].
    + by rewrite Hmade.
    + by rewrite Hmade.
    + by intros ? [= <-].
    + intros _ _. by rewrite Hmade.
Qed.

Lemma steps_inv ka ms s : steps (trapped ka) ms s -> inv (signals ms) s.
Proof.
  intros Hs. remember (trapped ka) as s0 eqn:E0. induction Hs as [s|s0 ms s1 m s2 _ IH Hstep]; subst.
  - apply trapped_inv.
  - specialize (IH eq_refl). eapply step_inv in IH; [|exact Hstep].
    unfold signals. rewrite filter_app, length_app, filter_cons. simpl.
    destruct (is_signal m); [rewrite decide_True by done|rewrite decide_False by done]; simpl;
      [by rewrite Nat.add_1_r|by rewrite Nat.add_0_r].
Qed.

(** With the pipe of a living parent, the event of the first signal does nothing. *)
Record ignoring (ms : list move) (s : abort) : Prop := {
  ign_keep : keepalive s = true;
  ign_died : died_events s = 0%nat;
  ign_at : exited s = false -> at_ s = Starting \/ at_ s = Looping;
  ign_lives : (signals ms <= 2)%nat -> exited s = false
}.

Lemma signals_snoc ms m : signals (ms ++ [m]) = (signals ms + if is_signal m then 1 else 0)%nat.
Proof.
  unfold signals. rewrite filter_app, length_app, filter_cons.
  destruct (is_signal m); [rewrite decide_True by done|rewrite decide_False by done]; done.
Qed.

Lemma steps_ignoring ms s : Forall (fun m => m <> ParentDies /\ m <> Signal false) ms ->
  steps (trapped true) ms s -> ignoring ms s.
Proof.
  intros Hms Hs. remember (trapped true) as s0 eqn:E0.
  induction Hs as [s|s0 ms s1 m s2 Hs IH Hstep]; subst; [by split; [| |left|]|].
  apply Forall_app in Hms as [Hms [[Hm Hw] _]%Forall_cons]. specialize (IH Hms eq_refl).
  pose proof (steps_inv _ _ _ Hs) as Hinv. destruct IH as [Hk Hd Hat Hl].
  destruct Hstep as [s w Hne|s Ha|s Ha _ _|s n Ha Hn|s Hne _|s Ha]; simpl in *.
  - destruct w; [|done]. destruct (inv_flags _ _ Hinv Hne) as (_ & Hf & Hse).
    unfold abort_signal_callback. rewrite Hf, Hse.
    destruct (signals ms) as [|[|k]] eqn:Ek; simpl; split; simpl; try done; auto;
      rewrite signals_snoc, Ek; simpl; lia.
  - split; simpl; try done. by right.
  - unfold clean_abort. simpl. rewrite Hk. simpl. split; simpl; try done.
    all: intros _; first [by right | unfold exited; simpl; by rewrite Ha].
  - congruence.
  - done.
  - exfalso. assert (exited s = false) as Hne by (unfold exited; by destruct Ha as [->|[->| ->]]).
    destruct (Hat Hne) as [E|E]; rewrite E in Ha; by destruct Ha as [|[|]].
Qed.

(** C24: a third signal always gets through: wherever the main thread is, even in the
    middle of the clean-up, a signal is taken as long as the process lives, and after
    three of them it has exited; its status is then 1, as it is on every path. *)
Theorem three_signals_exit ka ms s :
  steps (trapped ka) ms s ->
  (forall st, at_ s = Exited st -> st = 1) /\
  ((3 <= signals ms)%nat -> at_ s = Exited 1) /\
  (exited s = false -> forall w, step s (Signal w) (abort_signal_callback w s)).
Proof.
  intros Hs. apply steps_inv in Hs as Hinv. split; [apply Hinv|]. split.
  - intros H3. destruct (exited s) eqn:E; [|apply (inv_flags _ _ Hinv) in E; lia].
    unfold exited in E. destruct (at_ s) as [| | | | |st] eqn:Ea; try done.
    by rewrite (inv_status _ _ Hinv _ Ea).
  - intros E w. by constructor.
Qed.

(** [clean_abort] never finds an abort in progress: its first run exits the
    process, so the lock is free whenever the event loop runs it, the branch that
    asks for another ctrl-c is dead, and [forcibly_die] is never set. *)
Theorem abort_never_contended ka ms s :
  steps (trapped ka) ms s ->
  forcibly_die s = false /\ (at_ s = Looping -> abort_inprogress s = false).
Proof. intros Hs. apply steps_inv in Hs as Hinv. split; [apply Hinv|]. intros E. apply Hinv. by right. Qed.

(** The third signal comes while [clean_abort] is at work. *)
Definition interrupted : list move :=
  [Loop; Signal true; TermEvent; Resume; Signal true; Signal true].

(** C31: the clean-up runs in order and at most once as long as there are no more than
    two signals, and the third signal can run it again: it interrupts [clean_abort]
    after the library was finalized, and finalizes it a second time. *)
Theorem cleanup_at_most_once ka ms s :
  steps (trapped ka) ms s ->
  ((signals ms <= 2)%nat -> cleanups s `prefix_of` [FinalizeServer; FinalizeDir]) /\
  exists ms' s', steps (trapped false) ms' s' /\ signals ms' = 3%nat /\
    cleanups s' = [FinalizeServer; FinalizeServer; FinalizeDir].
Proof.
  intros Hs. apply steps_inv in Hs as Hinv. split.
  - intros Hk. destruct (exited s) eqn:E; [by apply Hinv|]. rewrite (inv_made _ _ Hinv E). apply made_prefix.
  - exists interrupted, (default (trapped false) (play (trapped false) interrupted)).
    split; [apply played; vm_compute; reflexivity|]. by vm_compute.
Qed.

(** A scheduler started with a keepalive pipe does not end on a signal while its
    parent lives: the first two signals, whatever else happens, leave it running and
    nothing cleaned up, and only the second says so on the terminal. *)
Theorem keepalive_ignores_signals ms s :
  steps (trapped true) ms s -> Forall (fun m => m <> ParentDies /\ m <> Signal false) ms ->
  (signals ms <= 2)%nat ->
  (at_ s = Starting \/ at_ s = Looping) /\ cleanups s = [].
Proof.
  intros Hs Hms H2. pose proof (steps_ignoring _ _ Hms Hs) as [_ _ Hat Hl].
  pose proof (steps_inv _ _ _ Hs) as Hinv. specialize (Hl H2). split; [by apply Hat|].
  rewrite (inv_made _ _ Hinv Hl). by destruct (Hat Hl) as [-> | ->].
Qed.

(** ** Examples *)

Definition one_abort : list move := [Loop; Signal true; TermEvent; Resume; Resume; Resume].
Definition aborted : abort := default (trapped false) (play (trapped false) one_abort).

Lemma one_signal_aborts : steps (trapped false) one_abort aborted.
Proof. apply played. vm_compute. reflexivity. Qed.

Lemma three_signals_exit_witness :
  at_ aborted = Exited 1 /\ forall st, at_ aborted = Exited st -> st = 1.
Proof.
  split; [reflexivity|]. exact (proj1 (three_signals_exit false one_abort aborted one_signal_aborts)).
Defined.

Lemma abort_never_contended_witness : forcibly_die aborted = false.
Proof. exact (proj1 (abort_never_contended false one_abort aborted one_signal_aborts)). Defined.

Lemma cleanup_at_most_once_witness : cleanups aborted `prefix_of` [FinalizeServer; FinalizeDir].
Proof.
  exact (proj1 (cleanup_at_most_once false one_abort aborted one_signal_aborts)
    ltac:(vm_compute; lia)).
Defined.

Definition ignored : list move := [Loop; Signal true; TermEvent; Signal true].
Definition running : abort := default (trapped true) (play (trapped true) ignored).

Lemma two_signals_ignored : steps (trapped true) ignored running.
Proof. apply played. vm_compute. reflexivity. Qed.

Lemma keepalive_ignores_signals_witness : messages running = 1%nat /\ cleanups running = [].
Proof.
  split; [reflexivity|].
  refine (proj2 (keepalive_ignores_signals ignored running two_signals_ignored _ _)).
  - repeat constructor; discriminate.
  - vm_compute. lia.
Defined.
