(* ===== verification/Main.v ===== *)
(** * The main program: src/tools/dsched/dsched.c

    [main] is the sequence of the calls the other files model, on one state: each file
    has the view of [dsched_globals] it works on, and the views are kept together
    here. A step goes on, leaves the program at once ([exit] or [return]), or jumps to
    the label DONE with a status and the name of what failed. The abort signals, which
    interrupt the program between any two of its steps, are in Signals. *)

From stdpp Require Import pretty.
From S2P Require Import Prelude Cli Pmix Constants Globals Objects Meta Fifo Progress Mca Params Startup Query Server System Daemon Pipeline.

(** strtol(s, &end, 10) of the C library, with what [end] points to. *)
Definition strtol (s : string) : Z * string :=
  let s1 := skip_space s in
  let '(neg, s2) :=
    match s1 with
    | String c r =>
        if Ascii.eqb c (Ascii.ascii_of_nat 45) then (true, r)
        else if Ascii.eqb c (Ascii.ascii_of_nat 43) then (false, r)
        else (false, s1)
    | EmptyString => (false, s1)
    end in
  match s2 with
  | String c _ =>
      if digit c then
        let '(n, r) := digits 0 s2 in
        (Z.max (- 2 ^ 63) (Z.min (2 ^ 63 - 1) (if (neg : bool) then - n else n)), r)
      else (0, s)
  | EmptyString => (0, s)
  end.

(** ** The state of the program *)

(** What the program does outside of itself. *)
Inductive effect :=
| E_stdout (s : string)
| E_stderr (s : string)
| E_pipe (fd : Z) (s : string)
| E_closed (fd : Z)
| E_file (name : string) (s : string)
| E_unlink (name : string)
| E_failed (what : string) (status : Z)      (** pmix_show_help of the failure *)
| E_trap                                     (** the handlers of the abort signals *)
| E_keepalive_handler
| E_library (calls : list libcall)
| E_tool_finalize.

Section Main.
Context {P : Type -> Type} `{PArray P} `{PMIx} `{!ParamLib} `{!RteLib} `{!ServerLib}.

(** The types of the entries of the frameworks' modules. *)
Abbreviation meta_entry := (loc -> bool -> act (sys P) Z).
Abbreviation sched_entry := (loc -> Z -> act (sys P) Z).
Abbreviation metric_entry := (unit -> act (world P) Z).

Record dsched := Dsched {
  g_pid : Z;
  g_myid : proc;
  g_rte : rte;
  g_env : penv;
  g_params : params_globals;
  g_sdir : session_dir;
  g_srv : server;
  g_dmeta : globals (world P) meta_entry;
  g_dsched : globals (world P) sched_entry;
  g_dmetric : globals (world P) metric_entry;
  g_world : world P;
  g_process : process;
  g_exit_status : Z;
  g_debug : bool;
  g_report_uri : cstr;
  g_parent_fd : Z;
  keepalive : bool;
  mypidfile : cstr;
  ready_msg : bool;
  effects : list effect
}.
#[local] Instance eta_dsched : Eta dsched := fun g =>
  Dsched (g_pid g) (g_myid g) (g_rte g) (g_env g) (g_params g) (g_sdir g) (g_srv g) (g_dmeta g)
    (g_dsched g) (g_dmetric g) (g_world g) (g_process g) (g_exit_status g) (g_debug g)
    (g_report_uri g) (g_parent_fd g) (keepalive g) (mypidfile g) (ready_msg g) (effects g).

(** The surroundings of one run: the arguments, the user, what the system and the
    libraries answer. *)
Record surroundings := Surroundings {
  argv : list string;                           (** after pmix_argv_copy_strip *)
  basename_of : string -> cstr;                 (** pmix_basename *)
  cmd_line_parse : list string -> Z * results;
  PMIX_OPERATION_SUCCEEDED : Z;
  euid : Z;
  sysconfdir : cstr;
  pipe_ok : string -> bool;                     (** whether a pipe can be made *)
  array_init : string -> Z;                     (** pmix_pointer_array_init *)
  framework_open : string -> option Z;          (** a failure before the call of open *)
  components_open : string -> Z;                (** pmix_mca_base_framework_components_open *)
  dmeta_components : list (component (world P) meta_entry);
  dsched_components : list (component (world P) sched_entry);
  dmetric_components : list (component (world P) metric_entry);
  os : posix;
  fork : forked;
  parent_reads : list read_result;
  waitpid : Z -> wait_status;
  fopen_ok : string -> bool;
  session_control : bool
}.
Context (env : surroundings).

(** ** Steps *)

Inductive flow (A : Type) :=
| Next (a : A)
| Leave (rc : Z)
| ToDone (ret : Z) (error : cstr)
| Hang.
#[local] Arguments Next {A} a. #[local] Arguments Leave {A} rc.
#[local] Arguments ToDone {A} ret error. #[local] Arguments Hang {A}.

Definition prog (A : Type) : Type := dsched -> outcome (flow A * dsched).
#[local] Instance prog_ret : MRet prog := fun A a g => Done (Next a, g).
#[local] Instance prog_bind : MBind prog := fun A B k m g =>
  match m g with
  | Done (Next a, g) => k a g
  | Done (Leave rc, g) => Done (Leave rc, g)
  | Done (ToDone ret error, g) => Done (ToDone ret error, g)
  | Done (Hang, g) => Done (Hang, g)
  | Fault f => Fault f
  end.

Definition leave {A} (rc : Z) : prog A := fun g => Done (Leave rc, g).
Definition goto_done {A} (ret : Z) (error : cstr) : prog A := fun g => Done (ToDone ret error, g).
Definition look {A} (f : dsched -> A) : prog A := fun g => Done (Next (f g), g).
Definition change (f : dsched -> dsched) : prog unit := fun g => Done (Next tt, f g).
Definition pure {A} (o : outcome A) : prog A := fun g =>
  match o with Done a => Done (Next a, g) | Fault f => Fault f end.
Definition emit_with (e : dsched -> effect) : prog unit :=
  change (fun g => g <| effects := effects g ++ [e g] |>).
Definition emit (e : effect) : prog unit := emit_with (fun _ => e).
Definition when (b : bool) (m : prog unit) : prog unit := if b then m else mret tt.

Definition on_env {A} (m : act penv A) : prog A := fun g =>
  match m (g_env g) with Done (a, e) => Done (Next a, g <| g_env := e |>) | Fault f => Fault f end.
Definition on_dmeta {A} (m : act (fstate (S := world P) (F := meta_entry)) A) : prog A := fun g =>
  match m (g_dmeta g, g_world g) with
  | Done (a, (f, w)) => Done (Next a, g <| g_dmeta := f |> <| g_world := w |>)
  | Fault f => Fault f
  end.
Definition on_dsched {A} (m : act (fstate (S := world P) (F := sched_entry)) A) : prog A := fun g =>
  match m (g_dsched g, g_world g) with
  | Done (a, (f, w)) => Done (Next a, g <| g_dsched := f |> <| g_world := w |>)
  | Fault f => Fault f
  end.
Definition on_dmetric {A} (m : act (fstate (S := world P) (F := metric_entry)) A) : prog A := fun g =>
  match m (g_dmetric g, g_world g) with
  | Done (a, (f, w)) => Done (Next a, g <| g_dmetric := f |> <| g_world := w |>)
  | Fault f => Fault f
  end.
Definition on_system {A} (m : act (sys P) A) : prog A := fun g =>
  match m (w_sys (g_world g)) with
  | Done (a, s) => Done (Next a, g <| g_world := (g_world g) <| w_sys := s |> |>)
  | Fault f => Fault f
  end.

(** pipe(): two descriptors, the read end first. *)
Definition make_pipe (name : string) : prog (option (nat * nat)) :=
  if pipe_ok env name then
    rd ← look (fun g => open_file (OtherFile 0) (g_process g));
    change (fun g => g <| g_process := rd.2 |>) ;;
    wr ← look (fun g => open_file (OtherFile 1) (g_process g));
    change (fun g => g <| g_process := wr.2 |>) ;;
    mret (Some (rd.1, wr.1))
  else mret None.

(** ** The steps of main *)

(** To the setting of the signal handlers. The pid is assigned to itself. *)
Definition start_up : prog (list string) :=
  let pargv := argv env in
  match pargv with
  | [] => pure (Fault NullDeref)
  | argv0 :: _ =>
      change (fun g => g <| g_rte := (g_rte g) <| rt_basename := basename_of env argv0 |> |>) ;;
      change (fun g => g <| g_pid := g_pid g |>) ;;
      r ← look (fun g => dsched_init_util (g_rte g));
      '(ret, rt) ← pure r;
      change (fun g => g <| g_rte := rt |>) ;;
      if negb (ret =? code_value DSCHED_SUCCESS) then leave ret else
      term_pipe ← make_pipe "term";
      match term_pipe with
      | None => leave 1
      | Some _ => emit E_trap ;; mret pargv
      end
  end.

Definition parse_command_line (pargv : list string) : prog results :=
  let '(rc, results) := cmd_line_parse env pargv in
  if negb (ok rc) then
    if rc =? PMIX_OPERATION_SUCCEEDED env then leave PMIX_SUCCESS else leave rc
  else
    match tail results, pargv with
    | Some args, argv0 :: _ =>
        if String.eqb (argv_join args " ") argv0 then mret results else leave (-1)
    | Some _, [] => pure (Fault NullDeref)
    | None, _ => mret results
    end.

Definition allow_run_as_root (r : results) : prog unit :=
  if is_taken r "allow-run-as-root" then mret tt else
  e ← look (fun g => environ (g_env g));
  if bool_decide (e !! "DSCHED_ALLOW_RUN_AS_ROOT"%string = Some "1"%string)
     && bool_decide (e !! "DSCHED_ALLOW_RUN_AS_ROOT_CONFIRM"%string = Some "1"%string)
  then mret tt else leave 1.

(** [dsched_process_cli_mca_params] looks three options up. *)
Definition mca_options (r : results) : cli :=
  Cli (get_param (instances r) DSCHED_CLI_PMIXMCA) (get_param (instances r) DSCHED_CLI_MCA)
    (get_param (instances r) DSCHED_CLI_DMCA).

(** The statuses of the first two calls are not looked at. *)
Definition set_parameters (r : results) : prog unit :=
  params ← look g_params;
  _ ← on_env (dsched_preload_default_mca_params (sysconfdir env) params);
  _ ← on_env (dsched_process_cli_mca_params (mca_options r));
  '(ret, params) ← on_env (dsched_register_params (sysconfdir env) params);
  change (fun g => g <| g_params := params |>) ;;
  if negb (ret =? code_value DSCHED_SUCCESS) then leave ret else mret tt.

(** basename-hostname-pid, with the pid as an unsigned number. *)
Definition default_nspace (g : dsched) : outcome string :=
  b ← print_s (rt_basename (g_rte g));
  h ← print_s (hostname (rt_host (g_rte g)));
  Done (b ++ "-" ++ h ++ "-" ++ pretty (uint 32 (g_pid g)))%string.

Definition set_identity : prog unit :=
  e ← look (fun g => environ (g_env g));
  ns ← match e !! "PMIX_SERVER_NSPACE"%string with
       | Some evar => mret evar
       | None => o ← look default_nspace; pure o
       end;
  let rk := match e !! "PMIX_SERVER_RANK"%string with
            | Some evar => uint 32 (strtoul evar).1
            | None => 0
            end in
  change (fun g => g <| g_myid := Proc (load_nspace ns) rk |>).

(** The array of requests is initialized without a check. *)
Definition set_arrays : prog unit :=
  let init (what error : string) (clear : sys P -> sys P) : prog unit :=
    let ret := array_init env what in
    if negb (ok ret) then goto_done ret (Some error)
    else on_system (modify clear) in
  init "nodes" "setup node array" (fun s => s <| g_nodes := pa_empty |>) ;;
  init "sessions" "setup session array" id ;;
  init "topologies" "setup node topologies array" id ;;
  on_system (modify (fun s => s <| g_requests := pa_empty |>)) ;;
  change (fun g => g <| g_srv := (g_srv g) <| tools := [] |> |>).

(** pmix_mca_base_framework_open, which calls the framework's own [open]. *)
Definition open_framework (name : string) (open : prog Z) (error : string) : prog unit :=
  ret ← match framework_open env name with Some rc => mret rc | None => open end;
  if negb (ok ret) then goto_done ret (Some error) else mret tt.

Definition select_framework (select : prog Z) (error : string) : prog unit :=
  ret ← select; if negb (ok ret) then goto_done ret (Some error) else mret tt.

Definition set_frameworks : prog unit :=
  open_framework "dmeta" (on_dmeta (dsched_dmeta_base_open (mret (components_open env "dmeta"))))
    "open dmeta framework" ;;
  select_framework (on_dmeta (dsched_dmeta_base_select (dmeta_components env)))
    "dmeta_base_select" ;;
  open_framework "dsched" (on_dsched (dsched_dsched_base_open (mret (components_open env "dsched"))))
    "open dsched framework" ;;
  select_framework (on_dsched (dsched_dsched_base_select (dsched_components env)))
    "dsched_base_select" ;;
  open_framework "dmetric" (on_dmetric (dsched_dmetric_base_open (mret (components_open env "dmetric"))))
    "open dmetric framework" ;;
  select_framework (on_dmetric (dsched_dmetric_base_select (dmetric_components env)))
    "dmetric_base_select".

Definition set_keepalive (r : results) : prog unit :=
  match get_param (instances r) DSCHED_CLI_KEEPALIVE with
  | None => mret tt
  | Some values =>
      change (fun g => g <| keepalive := true |>) ;;
      v ← pure (value0 values);
      on_env (setenv "PMIX_KEEPALIVE_PIPE" v true)
  end.

Definition set_debug (r : results) : prog unit :=
  when (is_taken r DSCHED_CLI_DEBUG)
    (change (fun g => g <| g_debug := true |>) ;;
     params ← look g_params;
     when (verbosity params <=? 0)
       (o ← on_env open_stream;
        on_env (set_verbosity o 10) ;;
        p ← on_env open_stream;
        on_env (set_verbosity p 10) ;;
        change (fun g => g <| g_params := params <| verbosity := 10 |> <| output := o |>
                                                 <| pmix_output := p |> |>))).

(** The parent waits and leaves; the child goes on whatever the call returned, and
    closes its end to read from. *)
Definition daemonize (r : results) : prog unit :=
  when (is_taken r DSCHED_CLI_DAEMONIZE)
    (wait_pipe ← make_pipe "wait";
     match wait_pipe with
     | None => goto_done (code_value DSCHED_ERR_SILENT) None
     | Some (rd, wr) =>
         change (fun g => g <| g_parent_fd := Z.of_nat wr |>) ;;
         p ← look g_process;
         match fork env, read_reply (parent_reads env) with
         | InParent _, None => fun g => Done (Hang, g)
         | _, _ =>
             match dsched_daemon_init_callback (os env) (fork env) None
                     (Some (fun pid => default 0 (wait_dvm (parent_reads env) (waitpid env) pid))) p with
             | Exited rc => leave rc
             | Returned _ p =>
                 let p := close_fd rd p in
                 let p := if HAVE_SETSID (os env) && is_taken r DSCHED_CLI_SET_SID then setsid (os env) p else p in
                 change (fun g => g <| g_process := p |>)
             end
         end
     end).

Definition pid_text (g : dsched) : string := pretty (uint 64 (g_pid g)).
Definition newline : string := String (Ascii.ascii_of_nat 10) EmptyString.

(** [DSCHED_UPDATE_EXIT_STATUS]. *)
Definition update_exit_status (r : Z) (g : dsched) : dsched :=
  g <| g_exit_status := if g_exit_status g =? 0 then r else g_exit_status g |>.

(** The report goes to an output, to a pipe when the argument is a number, or to the
    file it names. *)
Definition report_pid (r : results) : prog unit :=
  match get_param (instances r) DSCHED_CLI_REPORT_PID with
  | None => mret tt
  | Some values =>
      v ← pure (value0 values);
      v ← pure (print_s v);
      if String.eqb v "-" then emit_with (fun g => E_stdout (pid_text g ++ newline)%string)
      else if String.eqb v "+" then emit_with (fun g => E_stderr (pid_text g ++ newline)%string)
      else
        let '(n, leftover) := strtol v in
        let outpipe := sint 32 n in
        if String.eqb leftover "" then
          (* the terminator of the string is written too *)
          emit_with (fun g => E_pipe outpipe (pid_text g ++ String Ascii.zero EmptyString)%string) ;;
          emit (E_closed outpipe)
        else if fopen_ok env v then
          emit_with (fun g => E_file v (pid_text g ++ newline)%string) ;;
          change (fun g => g <| mypidfile := Some v |>)
        else
          change (update_exit_status 1) ;;
          (* [ret] is what the last framework left *)
          goto_done PMIX_SUCCESS None
  end.

Definition set_reports (r : results) : prog unit :=
  when (is_taken r DSCHED_CLI_NO_READY_MSG) (change (fun g => g <| ready_msg := false |>)) ;;
  match get_param (instances r) DSCHED_CLI_REPORT_URI with
  | None => mret tt
  | Some values =>
      v ← pure (value0 values);
      v ← pure (strdup v);
      change (fun g => g <| g_report_uri := v |>)
  end ;;
  report_pid r.

(** [dsched_globals.tmpdir] is the one the parameters set. *)
Definition start_session_dir : prog unit :=
  change (fun g => g <| g_sdir := (g_sdir g) <| sd_tmpdir := p_tmpdir (g_params g) |> |>) ;;
  o ← look (fun g => dsched_session_dir_init (g_sdir g));
  '(ret, sd) ← pure o;
  change (fun g => g <| g_sdir := sd |>) ;;
  if negb (ret =? code_value DSCHED_SUCCESS) then
    emit (E_failed "session_dir" ret) ;;
    change (update_exit_status ret) ;;
    goto_done ret None
  else mret tt.

(** The fields of [dsched_globals] the server reads. *)
Definition server_view (g : dsched) : server :=
  (g_srv g) <| myid := g_myid g |>
    <| sv_hostname := hostname (rt_host (g_rte g)) |>
    <| sv_aliases := aliases (rt_host (g_rte g)) |>
    <| keep_fqdn_hostnames := p_keep_fqdn_hostnames (g_params g) |>
    <| evbase := default 0 (rt_evbase (g_rte g)) |>
    <| tmpdir := sd_tmpdir (g_sdir g) |>
    <| report_uri := g_report_uri g |>
    <| sv_progress_thread_cpus := p_progress_thread_cpus (g_params g) |>
    <| sv_bind_reqd := p_bind_progress_thread_reqd (g_params g) |>.

Definition start_server (r : results) : prog unit :=
  view ← look server_view;
  let '(ret, calls, srv) := dsched_server_init (session_control env) view in
  emit (E_library calls) ;;
  change (fun g => g <| g_srv := srv |>) ;;
  if negb (ret =? code_value DSCHED_SUCCESS) then
    change (fun g => g <| g_exit_status := code_value DSCHED_ERR_SILENT |>) ;;
    goto_done ret None
  else when (is_taken r DSCHED_CLI_KEEPALIVE) (emit E_keepalive_handler).

(** "foo%02d". *)
Definition node_name_of (n : Z) : string :=
  ("foo" ++ (if Z.ltb n 10 then "0" else "") ++ pretty n)%string.

Definition add_node (n : Z) : act (sys P) unit :=
  node ← new dsched_node_construct;
  assign (Some node) (fun x => x <| node_name := Some (node_name_of n) |>) ;;
  assign (Some node) (fun x => x <| node_slots := sint 32 (n + 3) |>) ;;
  modify (fun s => s <| g_nodes := (pa_add (g_nodes s) node).2 |>).

Definition add_nodes : prog unit := on_system (each add_node (seqZ 0 5)).

Definition ready_text (g : dsched) : outcome string :=
  h ← print_s (hostname (rt_host (g_rte g)));
  Done ("Scheduler checking in as pid " ++ pretty (g_pid g) ++ " on host " ++ h ++ newline)%string.

Definition say_ready : prog unit :=
  b ← look ready_msg;
  when b (o ← look ready_text; t ← pure o; emit (E_stderr t)).

(** *** The whole of it *)

(** The command line, and whether the user may go on. *)
Definition read_options : prog results :=
  pargv ← start_up;
  r ← parse_command_line pargv;
  when (euid env =? 0) (allow_run_as_root r) ;;
  mret r.

(** What precedes the first change outside of the process that needs a cleanup. *)
Definition prepare (r : results) : prog unit :=
  set_parameters r ;;
  set_identity ;;
  set_arrays ;;
  set_frameworks ;;
  set_keepalive r ;;
  set_debug r ;;
  daemonize r ;;
  set_reports r.

Definition serve (r : results) : prog unit :=
  start_session_dir ;;
  start_server r ;;
  add_nodes ;;
  say_ready.

Definition steps : prog unit :=
  r ← read_options;
  prepare r ;;
  serve r.

(** From the label DONE on: the status the program exits with. *)
Definition done_label (ret : Z) (error : cstr) (g : dsched) : Z * dsched :=
  let g := match error with
           | Some what => if negb (ret =? code_value DSCHED_ERR_SILENT)
                          then g <| effects := effects g ++ [E_failed what ret] |> else g
           | None => g
           end in
  let g := update_exit_status ret g in
  let g := match mypidfile g with
           | Some f => g <| effects := effects g ++ [E_unlink f] |>
           | None => g
           end in
  let g := if dsched_server_finalize (g_srv g)
           then g <| effects := effects g ++ [E_tool_finalize] |> else g in
  let g := g <| g_sdir := dsched_session_dir_finalize (g_sdir g) |> in
  let g := if g_debug g
           then g <| effects := effects g ++
                  [E_stderr ("exiting with status " ++ pretty (g_exit_status g) ++ newline)%string] |>
           else g in
  (g_exit_status g, g).

(** How a run ends: the status the parent process sees, the loop over the events, or
    a wait for ever. *)
Inductive ended := Exits (status : Z) | Serves | Waits.

(** The loop over the events runs as long as [evactive] is set, which no handler
    clears; the handlers are those of Pipeline and Server and of the last part. *)
Definition main (g : dsched) : outcome (ended * dsched) :=
  '(f, g) ← steps g;
  Done match f with
       | Next _ =>
           if rt_evactive (g_rte g) then (Serves, g)
           else let '(status, g) := done_label PMIX_SUCCESS None g in (Exits (uint 8 status), g)
       | Leave rc => (Exits (uint 8 rc), g)
       | ToDone ret error => let '(status, g) := done_label ret error g in (Exits (uint 8 status), g)
       | Hang => (Waits, g)
       end.

(** ** Facts about steps

    [ensures R m]: every run of [m], however it ends, relates the state before and the
    state after by [R]; [ends l d m]: [m] goes on, leaves if [l], or jumps to DONE if [d]. *)

Lemma prog_bind_inv {A B} (m : prog A) (k : A -> prog B) g b g2 :
  (m ≫= k) g = Done (Next b, g2) ->
  exists a g1, m g = Done (Next a, g1) /\ k a g1 = Done (Next b, g2).
Proof.
  unfold mbind, prog_bind. destruct (m g) as [[[a|rc|ret error|] g1]|]; try done. eauto.
Qed.

Definition ensures {A} (R : dsched -> dsched -> Prop) (m : prog A) : Prop :=
  forall g f g', m g = Done (f, g') -> R g g'.
Definition ends {A} (l d : bool) (m : prog A) : Prop :=
  forall g f g', m g = Done (f, g') ->
    match f with Next _ => True | Leave _ => l = true | ToDone _ _ => d = true | Hang => False end.
Definition same {T} (proj : dsched -> T) (g g' : dsched) : Prop := proj g' = proj g.

#[local] Instance same_preorder {T} (proj : dsched -> T) : PreOrder (same proj).
Proof. unfold same. split; [done|]. intros x y z ??. congruence. Qed.

Section Ensures.
Context (R : dsched -> dsched -> Prop) `{!PreOrder R}.

Lemma ensures_bind {A B} (m : prog A) (k : A -> prog B) :
  ensures R m -> (forall a, ensures R (k a)) -> ensures R (m ≫= k).
Proof.
  intros Hm Hk g f g'. unfold mbind, prog_bind.
  destruct (m g) as [[f1 g1]|] eqn:E; [|done]. apply Hm in E.
  destruct f1 as [a|rc|ret error|]; try (by intros [= <- <-]).
  intros Hr. etransitivity; [exact E|]. by eapply Hk.
Qed.
Lemma ensures_ret {A} (a : A) : ensures R (mret a).
Proof. by intros g f g' [= <- <-]. Qed.
Lemma ensures_leave {A} rc : ensures R (leave rc : prog A).
Proof. by intros g f g' [= <- <-]. Qed.
Lemma ensures_done {A} ret error : ensures R (goto_done ret error : prog A).
Proof. by intros g f g' [= <- <-]. Qed.
Lemma ensures_hang {A} : ensures R ((fun g => Done (Hang, g)) : prog A).
Proof. by intros g f g' [= <- <-]. Qed.
Lemma ensures_look {A} (f : dsched -> A) : ensures R (look f).
Proof. by intros g ? g' [= <- <-]. Qed.
Lemma ensures_pure {A} (o : outcome A) : ensures R (pure o).
Proof. intros g f g'. unfold pure. destruct o; [by intros [= <- <-]|done]. Qed.
Lemma ensures_change f : (forall g, R g (f g)) -> ensures R (change f).
Proof. intros Hf g ? g' [= <- <-]. apply Hf. Qed.
Lemma ensures_env {A} (m : act penv A) :
  (forall g e, R g (g <| g_env := e |>)) -> ensures R (on_env m).
Proof.
  intros HR g f g'. unfold on_env. destruct (m (g_env g)) as [[a e]|]; [|done].
  intros [= <- <-]. apply HR.
Qed.
Lemma ensures_system {A} (m : act (sys P) A) :
  (forall g s, R g (g <| g_world := (g_world g) <| w_sys := s |> |>)) -> ensures R (on_system m).
Proof.
  intros HR g f g'. unfold on_system. destruct (m _) as [[a e]|]; [|done].
  intros [= <- <-]. apply HR.
Qed.
Lemma ensures_dmeta {A} (m : act (fstate (S := world P) (F := meta_entry)) A) :
  (forall g x w, R g (g <| g_dmeta := x |> <| g_world := w |>)) -> ensures R (on_dmeta m).
Proof.
  intros HR g f g'. unfold on_dmeta. destruct (m _) as [[a [x w]]|]; [|done].
  intros [= <- <-]. apply HR.
Qed.
Lemma ensures_dsched {A} (m : act (fstate (S := world P) (F := sched_entry)) A) :
  (forall g x w, R g (g <| g_dsched := x |> <| g_world := w |>)) -> ensures R (on_dsched m).
Proof.
  intros HR g f g'. unfold on_dsched. destruct (m _) as [[a [x w]]|]; [|done].
  intros [= <- <-]. apply HR.
Qed.
Lemma ensures_dmetric {A} (m : act (fstate (S := world P) (F := metric_entry)) A) :
  (forall g x w, R g (g <| g_dmetric := x |> <| g_world := w |>)) -> ensures R (on_dmetric m).
Proof.
  intros HR g f g'. unfold on_dmetric. destruct (m _) as [[a [x w]]|]; [|done].
  intros [= <- <-]. apply HR.
Qed.
End Ensures.

Ltac ensures_step :=
  lazymatch goal with
  | |- ensures _ (mbind _ _) => apply ensures_bind; [typeclasses eauto| |intros ?]
  | |- ensures _ (mret _) => apply ensures_ret; typeclasses eauto
  | |- ensures _ (leave _) => apply ensures_leave; typeclasses eauto
  | |- ensures _ (goto_done _ _) => apply ensures_done; typeclasses eauto
  | |- ensures _ (look _) => apply ensures_look; typeclasses eauto
  | |- ensures _ (pure _) => apply ensures_pure; typeclasses eauto
  | |- ensures _ (fun g => Done (Hang, g)) => apply ensures_hang; typeclasses eauto
  | |- ensures _ (change _) => apply ensures_change; intros ?
  | |- ensures _ (emit _) => apply ensures_change; intros ?
  | |- ensures _ (emit_with _) => apply ensures_change; intros ?
  | |- ensures _ (when _ _) => unfold when
  | |- ensures _ (on_env _) => apply ensures_env; intros ? ?
  | |- ensures _ (on_system _) => apply ensures_system; intros ? ?
  | |- ensures _ (on_dmeta _) => apply ensures_dmeta; intros ? ? ?
  | |- ensures _ (on_dsched _) => apply ensures_dsched; intros ? ? ?
  | |- ensures _ (on_dmetric _) => apply ensures_dmetric; intros ? ? ?
  | |- ensures _ (match ?x with _ => _ end) => destruct x
  | |- ensures _ (make_pipe _) => unfold make_pipe
  | |- ensures _ (open_framework _ _ _) => unfold open_framework
  | |- ensures _ (select_framework _ _) => unfold select_framework
  end.
Ltac solve_ensures := repeat (ensures_step; cbv zeta); try done.

Ltac unfold_steps :=
  unfold read_options, prepare, serve, start_up, parse_command_line, allow_run_as_root,
    set_parameters, set_identity, set_arrays, set_frameworks, set_keepalive, set_debug, daemonize,
    set_reports, report_pid, start_session_dir, start_server, add_nodes, say_ready.

(** Every way out of [main], from the run of its steps. *)
Lemma main_inv g r g2 : main g = Done (r, g2) ->
  exists f g1, steps g = Done (f, g1) /\
  match f with
  | Next _ => (r = Serves /\ g2 = g1 /\ rt_evactive (g_rte g1) = true) \/
              (r = Exits (uint 8 (done_label PMIX_SUCCESS None g1).1) /\
               g2 = (done_label PMIX_SUCCESS None g1).2)
  | Leave rc => r = Exits (uint 8 rc) /\ g2 = g1
  | ToDone ret error => r = Exits (uint 8 (done_label ret error g1).1) /\
                        g2 = (done_label ret error g1).2
  | Hang => r = Waits /\ g2 = g1
  end.
Proof.
  unfold main. destruct (steps g) as [[f g1]|]; [|done]. cbn [mbind outcome_bind].
  intros E. exists f, g1. split; [done|].
  destruct f as [[]|rc|ret error|]; [destruct (rt_evactive (g_rte g1)); [left|right]|..].
  1, 3, 5: by injection E as <- <-.
  - destruct (done_label PMIX_SUCCESS None g1) as [status g3]. by injection E as <- <-.
  - destruct (done_label ret error g1) as [status g3]. by injection E as <- <-.
Qed.

Lemma serves_inv g g2 : main g = Done (Serves, g2) -> steps g = Done (Next tt, g2).
Proof.
  intros (f & g1 & Hs & Hf)%main_inv. destruct f as [[]|rc|ret error|]; try by destruct Hf.
  destruct Hf as [(_ & -> & _)|[? _]]; done.
Qed.

(** ** The pid *)

(** A text that tells the pid tells this one. *)
Definition shows_pid (pid : Z) (e : effect) : Prop :=
  match e with
  | E_pipe _ t => t = (pretty (uint 64 pid) ++ String Ascii.zero EmptyString)%string
  | E_file _ t | E_stdout t => t = (pretty (uint 64 pid) ++ newline)%string
  | _ => True
  end.

Definition pid_kept (g g' : dsched) : Prop :=
  g_pid g' = g_pid g /\
  (Forall (shows_pid (g_pid g)) (effects g) -> Forall (shows_pid (g_pid g)) (effects g')).

#[local] Instance pid_kept_preorder : PreOrder pid_kept.
Proof.
  unfold pid_kept. split; [done|]. intros x y z [E1 K1] [E2 K2].
  split; [congruence|]. rewrite E1 in K2. tauto.
Qed.

Lemma pid_kept_emit g (e : dsched -> effect) :
  shows_pid (g_pid g) (e g) -> pid_kept g (g <| effects := effects g ++ [e g] |>).
Proof. intros He. split; [done|]. intros Hf. simpl. by apply Forall_app_2; [|constructor]. Qed.

Lemma pid_kept_done ret error g : pid_kept g (done_label ret error g).2.
Proof.
  unfold done_label.
  assert (forall g (b : bool) (e : dsched -> effect), shows_pid (g_pid g) (e g) ->
    pid_kept g (if b then g <| effects := effects g ++ [e g] |> else g)) as Hif.
  { intros g0 [] e He; [by apply pid_kept_emit|done]. }
  destruct error as [what|]; [destruct (negb _)|]; cbn [snd];
    (etransitivity; [|by apply (Hif _ _ (fun g => E_stderr _))]);
    destruct (dsched_server_finalize _); destruct (mypidfile _); cbn;
    split; try done; intros Hf; repeat (apply Forall_app_2; [|by constructor]); done.
Qed.

Lemma steps_pid : ensures pid_kept steps.
Proof. unfold steps. unfold_steps. solve_ensures; by apply (pid_kept_emit _ (fun g => _)). Qed.

(** The program never learns its process id: the global is assigned to itself.
    Whoever asks for the pid, on an output, in a file or through a pipe, is told 0,
    in every run and however it ends. *)
Theorem pid_never_known g r g' :
  main g = Done (r, g') -> g_pid g = 0 -> effects g = [] ->
  g_pid g' = 0 /\ forall e, e ∈ effects g' ->
    match e with
    | E_pipe _ t => t = ("0" ++ String Ascii.zero EmptyString)%string
    | E_file _ t | E_stdout t => t = ("0" ++ newline)%string
    | _ => True
    end.
Proof.
  intros (f & g1 & Hs & Hf)%main_inv Hp He.
  assert (pid_kept g g') as [Hp' Hall].
  { apply steps_pid in Hs. etransitivity; [exact Hs|].
    destruct f as [|rc|ret error|]; [destruct Hf as [(_ & -> & _)|[_ ->]]|
      destruct Hf as [_ ->]..]; done || apply pid_kept_done. }
  split; [congruence|]. rewrite Hp, He in Hall.
  specialize (Hall (Forall_nil_2 _)). rewrite Forall_forall in Hall.
  intros e Hin. specialize (Hall e Hin). by destruct e.
Qed.

(** ** The name of the host *)

Lemma prepare_rte r : ensures (same g_rte) (prepare r).
Proof. unfold_steps. solve_ensures. Qed.
Lemma serve_rte r : ensures (same g_rte) (serve r).
Proof. unfold_steps. solve_ensures. Qed.

(** What [start_up] leaves of the runtime when it goes on. *)
Lemma read_options_rte g r g1 : read_options g = Done (Next r, g1) ->
  exists argv0 rt, head (argv env) = Some argv0 /\
    dsched_init_util ((g_rte g) <| rt_basename := basename_of env argv0 |>) =
      Done (code_value DSCHED_SUCCESS, rt) /\ g_rte g1 = rt.
Proof.
  unfold read_options. intros (pargv & g2 & Hup & Hrest)%prog_bind_inv.
  assert (g_rte g1 = g_rte g2) as ->.
  { apply (fun X => X : ensures (same g_rte) _) in Hrest; [exact Hrest|].
    unfold parse_command_line, allow_run_as_root. solve_ensures. }
  clear Hrest. unfold start_up in Hup. destruct (argv env) as [|argv0 rest]; [done|].
  apply prog_bind_inv in Hup as ([] & ? & [= <-] & Hup).
  apply prog_bind_inv in Hup as ([] & ? & [= <-] & Hup).
  apply prog_bind_inv in Hup as (o & ? & [= <- <-] & Hup).
  apply prog_bind_inv in Hup as ([ret rt] & g3 & Ho & Hup). simpl in Ho.
  destruct (dsched_init_util _) as [[ret' rt']|] eqn:E; [|done]. injection Ho as <- <- <-.
  apply prog_bind_inv in Hup as ([] & ? & [= <-] & Hup).
  destruct (negb _) eqn:En in Hup; [done|]. apply negb_false_iff, Z.eqb_eq in En as ->.
  exists argv0, rt'. split; [done|]. split; [done|].
  apply prog_bind_inv in Hup as (p & g4 & Hp & Hup).
  assert (g_rte g4 = rt') as <-.
  { apply (fun X => X : ensures (same g_rte) _) in Hp; [exact Hp|]. solve_ensures. }
  destruct p; [|done]. apply (fun X => X : ensures (same g_rte) _) in Hup; [exact Hup|].
  solve_ensures.
Qed.

(** The host [dsched_init_util] names is that of the daemon that serves. *)
Lemma serves_host g g' : main g = Done (Serves, g') -> util_initialized (g_rte g) = false ->
  exists argv0, set_hostname ((g_rte g) <| rt_basename := basename_of env argv0 |>) =
    Done (rt_host (g_rte g')).
Proof.
  intros Hs%serves_inv Hinit. unfold steps in Hs.
  apply prog_bind_inv in Hs as (r & g1 & Hopt & Hs).
  apply prog_bind_inv in Hs as ([] & g2 & Hprep & Hserve).
  apply serve_rte in Hserve as ->. apply prepare_rte in Hprep as ->.
  destruct (read_options_rte _ _ _ Hopt) as (argv0 & rt & _ & Hutil & ->).
  exists argv0. by apply init_util_host in Hutil.
Qed.

Lemma serves_named g g' : main g = Done (Serves, g') -> util_initialized (g_rte g) = false ->
  is_Some (hostname (rt_host (g_rte g'))).
Proof.
  intros Hs Hu. destruct (serves_host g g' Hs Hu) as (argv0 & Hh). unfold set_hostname in Hh.
  destruct (stripped_host _) as [[name als]|]; [|done]. cbn in Hh.
  destruct (net_isaddr name); [injection Hh as <-; by eexists|].
  destruct (cut dot name) as [[short rest]|]; [destruct (rt_keep_fqdn _)|]; injection Hh as <-; by eexists.
Qed.

(** The parameters that say how to name this host come too late. The host is
    named before any parameter is read, so a daemon that serves goes by the part of
    its name before the first dot, and the name that was asked to be kept whole is an
    alias, whatever the environment, the parameter files and the command line say. *)
Theorem hostname_ignores_parameters g g' :
  main g = Done (Serves, g') ->
  util_initialized (g_rte g) = false -> rt_strip_prefixes (g_rte g) = None ->
  rt_keep_fqdn (g_rte g) = false -> net_isaddr host_name = false ->
  hostname (rt_host (g_rte g')) =
    Some match cut dot host_name with Some (short, _) => short | None => host_name end /\
  (forall short rest, cut dot host_name = Some (short, rest) ->
    host_name ∈ default [] (aliases (rt_host (g_rte g')))).
Proof.
  intros Hs Hinit Hstrip Hkeep Haddr. destruct (serves_host g g' Hs Hinit) as (argv0 & Hutil).
  unfold set_hostname, stripped_host in Hutil. simpl in Hutil. rewrite Hstrip in Hutil.
  cbn in Hutil. rewrite Haddr, Hkeep in Hutil.
  destruct (cut dot host_name) as [[short rest]|]; injection Hutil as <-; [|done]. simpl. split; [done|].
  intros _ _ _. rewrite append_unique_elem. by left.
Qed.

(** ** Cleaning up *)

Lemma prog_bind_cases {A B} (m : prog A) (k : A -> prog B) g f g2 :
  (m ≫= k) g = Done (f, g2) ->
  (exists a g1, m g = Done (Next a, g1) /\ k a g1 = Done (f, g2)) \/
  exists f1, m g = Done (f1, g2) /\
    match f1 with
    | Next _ => False
    | Leave rc => f = Leave rc
    | ToDone ret error => f = ToDone ret error
    | Hang => f = Hang
    end.
Proof.
  unfold mbind, prog_bind. destruct (m g) as [[f1 g1]|]; [|done].
  destruct f1 as [a|rc|ret error|]; [left; by do 2 eexists|..]; intros [= <- <-]; right; by eexists.
Qed.

(** Nothing is asked of the library and no directory is touched. *)
Definition quiet (g g' : dsched) : Prop :=
  g_sdir g' = g_sdir g /\ forall calls, E_library calls ∈ effects g' -> E_library calls ∈ effects g.
#[local] Instance quiet_preorder : PreOrder quiet.
Proof.
  unfold quiet. split; [done|]. intros x y z [E1 K1] [E2 K2]. split; [congruence|]. auto.
Qed.

Lemma quiet_emit g e : (forall calls, e <> E_library calls) ->
  quiet g (g <| effects := effects g ++ [e] |>).
Proof. intros He. split; [done|]. intros calls. simpl. set_solver. Qed.

Lemma options_quiet : ensures quiet read_options.
Proof. unfold_steps. solve_ensures; by apply quiet_emit. Qed.
Lemma prepare_quiet r : ensures quiet (prepare r).
Proof. unfold_steps. solve_ensures; by apply quiet_emit. Qed.

(** What was asked of the library is known to be asked. *)
Definition library_known (g : dsched) : Prop :=
  forall calls, E_library calls ∈ effects g -> server_initialized (g_srv g) = true.

Lemma server_init_flag g : server_initialized (dsched_server_init (session_control env) g).2 = true.
Proof.
  unfold dsched_server_init. destruct (server_initialized g) eqn:E; [done|].
  destruct (server_infos _) as [rc|infos]; [done|].
  destruct (negb (ok (list_convert_rc _))); [done|]. destruct (negb (ok (tool_init_rc _))); [done|].
  destruct (register_attributes _) as [rc calls]. repeat (destruct (negb _); [done|]). done.
Qed.

Lemma start_server_known r g f g' :
  start_server r g = Done (f, g') -> library_known g' /\ g_sdir g' = g_sdir g.
Proof.
  unfold start_server. intros Hrun.
  assert (g_sdir g' = g_sdir g) as Hsd.
  { revert Hrun. apply (fun X => X : ensures (same g_sdir) _). solve_ensures. }
  split; [|done]. apply prog_bind_cases in Hrun as [(view & g1 & [= <- <-] & Hrun)|(? & [= <- <-] & [])].
  pose proof (server_init_flag (server_view g)) as Hflag.
  destruct (dsched_server_init _ _) as [[ret calls] srv]. simpl in Hflag.
  apply prog_bind_cases in Hrun as [([] & g1 & [= <-] & Hrun)|(? & [= <- <-] & [])].
  apply prog_bind_cases in Hrun as [([] & g1 & [= <-] & Hrun)|(? & [= <- <-] & [])].
  assert (server_initialized (g_srv g') = true) as Hf'; [|by intros ? _].
  assert (g_srv g' = srv) as ->; [|done].
  revert Hrun. apply (fun X => X : ensures (same g_srv) _). solve_ensures.
Qed.

(** A directory that was created is the one to remove. *)
Definition owns_created (s : session_dir) : Prop :=
  forall d rc, D_create d rc ∈ dircalls s -> rc = PMIX_SUCCESS ->
    tmpdir_created s = true /\ d = sd_tmpdir s /\ is_Some d.

Lemma session_dir_init_owns s ret s' :
  dircalls s = [] -> mem_ok = true ->
  dsched_session_dir_init s = Done (ret, s') -> owns_created s'.
Proof.
  intros Hd Hmem. unfold dsched_session_dir_init.
  destruct (setup_base_complete s); [intros [= <- <-]; intros d rc; rewrite Hd; set_solver|].
  assert (forall t, dircalls t = [] -> is_Some (sd_tmpdir t) -> owns_created (create_session_dir t).2) as Hc.
  { intros t Ht Hs. unfold create_session_dir, owns_created.
    destruct (prohibited _ _); cbn; rewrite Ht; [set_solver|].
    set (rc0 := dirpath_create _).
    destruct (negb (ok rc0) && _) eqn:E; cbn; [|destruct (bool_decide_reflect (rc0 = PMIX_ERR_EXISTS)) as [Ee|]; cbn];
      rewrite ?Ht; intros d rc [= -> ->]%list_elem_of_singleton Hrc; [|exfalso|done].
    - by rewrite Hrc, ok_success in E.
    - apply exists_not_success. congruence. }
  assert (forall t, dircalls t = [] -> is_Some (sd_tmpdir t) ->
    Done (create_session_dir t) = Done (ret, s') -> owns_created s') as Hc'.
  { intros t Ht Hst [= E]. replace s' with (create_session_dir t).2 by (by rewrite E). by apply Hc. }
  cbn [set_field sd_tmpdir]. destruct (sd_tmpdir s) as [t|] eqn:Et; cbn [mbind outcome_bind].
  - apply Hc'; [done|]. by eexists.
  - destruct tmp_directory as [d|]; cbn [strdup mbind outcome_bind]; [|done]. rewrite Hmem.
    apply Hc'; [done|]. by eexists.
Qed.

Lemma start_session_dir_owns g f g' :
  dircalls (g_sdir g) = [] -> mem_ok = true ->
  start_session_dir g = Done (f, g') -> owns_created (g_sdir g').
Proof.
  intros Hd Hmem Hrun. unfold start_session_dir in Hrun.
  apply prog_bind_cases in Hrun as [([] & g1 & [= <-] & Hrun)|(? & [= <- <-] & [])].
  apply prog_bind_cases in Hrun as [(o & g1 & [= <- <-] & Hrun)|(? & [= <- <-] & [])].
  cbn [g_sdir set_field] in Hrun. unfold mbind at 1, prog_bind at 1, pure in Hrun.
  destruct (dsched_session_dir_init _) as [[ret sd]|] eqn:E; [|done].
  apply session_dir_init_owns in E; [|done|done].
  apply prog_bind_cases in Hrun as [([] & g1 & [= <-] & Hrun)|(? & [= <- <-] & [])].
  assert (g_sdir g' = sd) as ->; [|done].
  revert Hrun. apply (fun X => X : ensures (same g_sdir) _). solve_ensures.
Qed.

Section Ends.
Context (l d : bool).

Lemma ends_bind {A B} (m : prog A) (k : A -> prog B) :
  ends l d m -> (forall a, ends l d (k a)) -> ends l d (m ≫= k).
Proof.
  intros Hm Hk g f g' [(a & g1 & _ & Hr)|(f1 & Hr & Hf)]%prog_bind_cases; [by eapply Hk|].
  apply Hm in Hr. by destruct f1; [|subst f..].
Qed.
Lemma ends_pure {A} (o : outcome A) : ends l d (pure o).
Proof. intros g f g'. unfold pure. destruct o; [by intros [= <- <-]|done]. Qed.
Lemma ends_system {A} (m : act (sys P) A) : ends l d (on_system m).
Proof. intros g f g'. unfold on_system. destruct (m _) as [[a s]|]; [by intros [= <- <-]|done]. Qed.
End Ends.

Ltac solve_ends :=
  unfold when, emit, emit_with, make_pipe;
  repeat lazymatch goal with
  | |- ends _ _ (mbind _ _) => apply ends_bind; [|intros ?]
  | |- ends _ _ (match ?x with _ => _ end) => destruct x
  | |- ends _ _ (pure _) => apply ends_pure
  | |- ends _ _ (on_system _) => apply ends_system
  end; by intros g f g' [= <- <-].

Lemma serve_ends r : ends false true (serve r).
Proof. unfold_steps. solve_ends. Qed.
Lemma options_end : ends true false read_options.
Proof. unfold_steps. solve_ends. Qed.

(** What a run of the steps owes to the system. *)
Definition accounted {A} (f : flow A) (g : dsched) : Prop :=
  library_known g /\ owns_created (g_sdir g) /\
  match f with
  | Leave _ | Hang => (forall calls, E_library calls ∉ effects g) /\ dircalls (g_sdir g) = []
  | _ => True
  end.

Lemma quiet_accounted {A} (f : flow A) g g1 :
  effects g = [] -> dircalls (g_sdir g) = [] -> quiet g g1 -> accounted f g1.
Proof.
  intros He Hd [Hs Hl]. unfold accounted, library_known, owns_created. rewrite Hs, Hd, He in *.
  split; [intros calls Hc%Hl; set_solver|]. split; [set_solver|].
  assert (forall calls, E_library calls ∉ effects g1) by (intros calls Hc%Hl; set_solver).
  by destruct f.
Qed.

Lemma serve_accounted r g f g1 : mem_ok = true ->
  (forall calls, E_library calls ∉ effects g) -> dircalls (g_sdir g) = [] ->
  serve r g = Done (f, g1) -> accounted f g1.
Proof.
  intros Hmem Hl Hd Hrun. pose proof (serve_ends r g f g1 Hrun) as Hst.
  assert (library_known g1 /\ owns_created (g_sdir g1)) as [? ?];
    [|split; [done|]; split; [done|]; by destruct f].
  unfold serve in Hrun.
  apply prog_bind_cases in Hrun as [([] & g2 & Hdir & Hrun)|(f2 & Hdir & _)].
  - apply start_session_dir_owns in Hdir; [|done..].
    apply prog_bind_cases in Hrun as [([] & g3 & Hsrv & Hrun)|(f3 & Hsrv & _)];
      apply start_server_known in Hsrv as [Hk Es]; [|by rewrite Es].
    assert (g_sdir g1 = g_sdir g3 /\ (library_known g3 -> library_known g1)) as [-> Hk'];
      [|rewrite Es; auto].
    assert (ensures (fun g g' => g_sdir g' = g_sdir g /\ g_srv g' = g_srv g /\
      forall calls, E_library calls ∈ effects g' -> E_library calls ∈ effects g)
      (add_nodes ;; say_ready)) as Hens.
    { unfold add_nodes, say_ready. assert (PreOrder (fun g g' => g_sdir g' = g_sdir g /\
        g_srv g' = g_srv g /\ forall calls, E_library calls ∈ effects g' -> E_library calls ∈ effects g)).
      { split; [done|]. intros x y z (? & ? & ?) (? & ? & ?). split; [congruence|].
        split; [congruence|auto]. }
      solve_ensures. simpl. set_solver. }
    destruct (Hens _ _ _ Hrun) as (? & E & Hin). split; [done|]. unfold library_known. rewrite E. eauto.
  - split; [|by eapply start_session_dir_owns].
    assert (quiet' : ensures (fun g g' => forall calls, E_library calls ∈ effects g' ->
      E_library calls ∈ effects g) start_session_dir).
    { assert (PreOrder (fun g g' => forall calls, E_library calls ∈ effects g' ->
        E_library calls ∈ effects g)) by (split; [by intros x calls|intros x y z ? ? ?; auto]).
      unfold start_session_dir. solve_ensures. simpl. set_solver. }
    intros calls Hc. exfalso. by eapply Hl, quiet'.
Qed.

Lemma steps_accounted g f g1 : mem_ok = true -> effects g = [] -> dircalls (g_sdir g) = [] ->
  steps g = Done (f, g1) -> accounted f g1.
Proof.
  intros Hmem He Hd Hrun. unfold steps in Hrun.
  apply prog_bind_cases in Hrun as [(r & g2 & Hopt & Hrun)|(f2 & Hopt & _)];
    apply options_quiet in Hopt; [|exact (quiet_accounted f g g1 He Hd Hopt)].
  apply prog_bind_cases in Hrun as [([] & g3 & Hprep & Hrun)|(f3 & Hprep & _)];
    apply prepare_quiet in Hprep.
  - destruct (transitivity Hopt Hprep) as [Es Hl].
    eapply serve_accounted; [done| |by rewrite Es|exact Hrun].
    intros calls Hc%Hl. rewrite He in Hc. set_solver.
  - exact (quiet_accounted f g g1 He Hd (transitivity Hopt Hprep)).
Qed.

Lemma done_label_cleans ret error g : library_known g -> owns_created (g_sdir g) ->
  let g' := (done_label ret error g).2 in
  (forall calls, E_library calls ∈ effects g' -> E_tool_finalize ∈ effects g') /\
  (forall d rc, D_create d rc ∈ dircalls (g_sdir g') -> rc = PMIX_SUCCESS ->
     exists dir, d = Some dir /\ D_destroy dir ∈ dircalls (g_sdir g') /\
       D_rmdir dir ∈ dircalls (g_sdir g')).
Proof.
  intros Hk Ho.
  assert (Hsd : g_sdir (done_label ret error g).2 = dsched_session_dir_finalize (g_sdir g)).
  { unfold done_label. destruct error as [what|]; [destruct (negb _)|]; cbn;
      destruct (mypidfile g); cbn; destruct (dsched_server_finalize _); cbn; by destruct (g_debug g). }
  cbv zeta. rewrite Hsd. split.
  - intros calls Hc. destruct (server_initialized (g_srv g)) eqn:Ei.
    + clear Hc. unfold done_label. destruct error as [what|]; [destruct (negb _)|]; cbn;
        destruct (mypidfile g); cbn; unfold dsched_server_finalize; rewrite Ei; cbn;
        destruct (g_debug g); cbn; rewrite ?elem_of_app, ?list_elem_of_singleton; tauto.
    + exfalso. assert (E_library calls ∈ effects g) as Hin%Hk; [|by rewrite Hin in Ei].
      revert Hc. unfold done_label. destruct error as [what|]; [destruct (negb _)|]; cbn;
        destruct (mypidfile g); cbn; unfold dsched_server_finalize; rewrite Ei; cbn;
        destruct (g_debug g); cbn; rewrite ?elem_of_app, ?list_elem_of_singleton;
        intuition discriminate.
  - intros d rc Hin Hrc. unfold dsched_session_dir_finalize in *.
    assert (D_create d rc ∈ dircalls (g_sdir g)) as Hin0.
    { revert Hin. destruct (tmpdir_created (g_sdir g)), (sd_tmpdir (g_sdir g)) as [dir|]; try done.
      cbn [dircalls set_field]. rewrite elem_of_app. intros [|[[=]|[[=]|[]%elem_of_nil]%elem_of_cons]%elem_of_cons].
      done. }
    destruct (Ho d rc Hin0 Hrc) as (Hc & -> & [dir Hdir]). rewrite Hc, Hdir. cbn.
    exists dir. rewrite !elem_of_app, !elem_of_cons. tauto.
Qed.

(** C25: when [main] exits, by any of its own steps and with any status, and no abort
    signal came in and no allocation failed, what it set up is taken down: when the library
    was asked for anything it is finalized, and a session directory that was created
    is emptied and removed. Nothing is set up before the command line and the user
    were accepted and the parameters read, the steps that leave at once. A program that
    serves does not come here: it ends by signals, whose handlers Signals models. *)
Theorem exit_cleans_up g st g' :
  main g = Done (Exits st, g') -> mem_ok = true ->
  effects g = [] -> dircalls (g_sdir g) = [] ->
  (forall calls, E_library calls ∈ effects g' -> E_tool_finalize ∈ effects g') /\
  (forall d rc, D_create d rc ∈ dircalls (g_sdir g') -> rc = PMIX_SUCCESS ->
     exists dir, d = Some dir /\ D_destroy dir ∈ dircalls (g_sdir g') /\
       D_rmdir dir ∈ dircalls (g_sdir g')).
Proof.
  intros (f & g1 & Hs & Hf)%main_inv Hmem He Hd.
  destruct (steps_accounted g f g1 Hmem He Hd Hs) as (Hk & Ho & Hl).
  destruct f as [a|rc|ret error|].
  - destruct Hf as [[[=] _]|[_ ->]]. by apply done_label_cleans.
  - destruct Hf as [_ ->], Hl as [Hl Hd']. split; [by intros calls Hc%Hl|]. rewrite Hd'. set_solver.
  - destruct Hf as [_ ->]. by apply done_label_cleans.
  - by destruct Hf.
Qed.

(** ** Running as root *)

Definition root_allowed (g : dsched) : Prop :=
  is_taken (cmd_line_parse env (argv env)).2 "allow-run-as-root" = true \/
  (environ (g_env g) !! "DSCHED_ALLOW_RUN_AS_ROOT"%string = Some "1"%string /\
   environ (g_env g) !! "DSCHED_ALLOW_RUN_AS_ROOT_CONFIRM"%string = Some "1"%string).

Lemma start_up_argv g pargv g1 : start_up g = Done (Next pargv, g1) -> pargv = argv env.
Proof.
  unfold start_up. destruct (argv env) as [|argv0 rest]; [done|].
  intros (? & ? & _ & Hup)%prog_bind_inv. apply prog_bind_inv in Hup as (? & ? & _ & Hup).
  apply prog_bind_inv in Hup as (? & ? & _ & Hup). apply prog_bind_inv in Hup as ([] & ? & _ & Hup).
  apply prog_bind_inv in Hup as (? & ? & _ & Hup). destruct (negb _); [done|].
  apply prog_bind_inv in Hup as ([] & ? & _ & Hup); [|done].
  by apply prog_bind_inv in Hup as (? & ? & _ & [= <- <-]).
Qed.

Lemma parse_results pargv g r g1 :
  parse_command_line pargv g = Done (Next r, g1) -> r = (cmd_line_parse env pargv).2.
Proof.
  unfold parse_command_line. destruct (cmd_line_parse env pargv) as [rc r'].
  destruct (negb (ok rc)); [by destruct (rc =? _)|].
  destruct (tail r') as [args|], pargv as [|argv0 rest]; try by intros [= <- <-].
  by destruct (String.eqb _ _); [intros [= <- <-]|].
Qed.

(** C30: the super-user is refused unless the command line, or both variables of the
    environment, ask for it: the program exits before it reads a parameter, touches the session directory or makes
    any of the calls that start the server; [dsched_init_util] has run by then. *)
Theorem root_refused g r g' :
  main g = Done (r, g') -> euid env = 0 -> ~ root_allowed g ->
  exists st, r = Exits st /\ g_env g' = g_env g /\ g_params g' = g_params g /\ quiet g g'.
Proof.
  intros (f & g1 & Hs & Hf)%main_inv Hroot Hno. unfold steps in Hs.
  assert (ensures (same (fun g => (g_env g, g_params g))) read_options) as Hkeep.
  { unfold_steps. solve_ensures. }
  apply prog_bind_cases in Hs as [(res & g2 & Hopt & _)|(f1 & Hopt & Ef)].
  - exfalso. apply Hno. unfold read_options in Hopt.
    apply prog_bind_inv in Hopt as (pargv & g3 & Hup & Hopt).
    assert (g_env g3 = g_env g) as He.
    { revert Hup. apply (fun X => X : ensures (same g_env) _). unfold_steps. solve_ensures. }
    apply start_up_argv in Hup as ->.
    apply prog_bind_inv in Hopt as (r0 & g4 & Hparse & Hopt).
    assert (g_env g4 = g_env g3) as He'.
    { revert Hparse. apply (fun X => X : ensures (same g_env) _). unfold_steps. solve_ensures. }
    apply parse_results in Hparse as ->. unfold root_allowed. rewrite <- He, <- He'.
    rewrite Hroot in Hopt. apply prog_bind_inv in Hopt as ([] & ? & Hallow & _).
    unfold when, allow_run_as_root in Hallow. destruct (is_taken _ _); [by left|]. right.
    apply prog_bind_inv in Hallow as (e & ? & [= <- <-] & Hallow).
    destruct (bool_decide _ && bool_decide _) eqn:E; [|done].
    by apply andb_true_iff in E as [?%bool_decide_eq_true ?%bool_decide_eq_true].
  - pose proof (options_end _ _ _ Hopt) as Hend. pose proof (options_quiet _ _ _ Hopt) as Hq.
    apply Hkeep in Hopt. injection Hopt as He Hp.
    destruct f1 as [|rc|ret error|]; try done. subst f. destruct Hf as [-> ->]. by eexists.
Qed.

(** ** The state the scheduler starts with *)

Definition frames (g : dsched) := (g_world g, g_dmeta g, g_dsched g).

Lemma base_open_run {S F} rc (f : globals S F) (w : S) r f' w' :
  base_open (mret rc) (f, w) = Done (r, (f', w')) ->
  selected f' = selected f /\ actives f' = [] /\ w' = w.
Proof. by intros [= <- <- <-]. Qed.

Lemma pri_selected cfg e f w r f' w' :
  selected f = false -> actives f = [] ->
  dsched_dmeta_base_select [dmeta_pri_component cfg e] (f, w) = Done (r, (f', w')) ->
  w_sys w' = (w_sys w) <| null_bases := assign_base PriBase (pri_evbase w') (null_bases (w_sys w)) |> /\
  schedules f' = meta_actives.
Proof.
  intros Hs Ha.
  unfold dsched_dmeta_base_select, base_select, select_loop, select_component, dmeta_pri_component,
    component_query, dsched_dmeta_pri_module, pri_myinit, on_sys, on_threads, on_globals, outside,
    mbind, act_bind, modify, gets, mret, act_ret. simpl. rewrite Hs. simpl. rewrite ok_success. simpl.
  destruct (dsched_progress_thread_init cfg e _ (w_threads w)) as [[b t]|]; [|done]. simpl.
  rewrite ok_success. intros [= <- <- <-]. simpl. unfold schedules. simpl. by rewrite Ha.
Qed.

Lemma fifo_selected cfg e param f w r f' w' :
  selected f = false -> actives f = [] ->
  dsched_dsched_base_select [dsched_fifo_component cfg e param] (f, w) = Done (r, (f', w')) ->
  w_sys w' = (w_sys w) <| fifo_reqs := [] |>
    <| null_bases := assign_base FifoBase (fifo_evbase w') (null_bases (w_sys w)) |> /\
  pri_evbase w' = pri_evbase w /\ schedules f' = sched_actives.
Proof.
  intros Hs Ha.
  unfold dsched_dsched_base_select, base_select, select_loop, select_component, dsched_fifo_component,
    component_query, dsched_sched_fifo_module, fifo_init, on_sys, on_threads, on_globals, outside,
    mbind, act_bind, modify, gets, mret, act_ret. simpl. rewrite Hs. simpl. rewrite ok_success. simpl.
  destruct (dsched_progress_thread_init cfg e _ (w_threads w)) as [[b t]|]; [|done]. simpl.
  assert (ok (code_value DSCHED_SUCCESS) = true) as Hok
    by (apply ok_true; by rewrite pmix_success_zero). simpl in Hok. rewrite Hok.
  intros [= <- <- <-]. simpl. unfold schedules. simpl. by rewrite Ha.
Qed.

(** The n-th node of the pool. *)
Definition pool_node (n : Z) : dsched_node_t :=
  dsched_node_construct <| node_name := Some (node_name_of n) |> <| node_slots := sint 32 (n + 3) |>.

(** The scheduler's state at the start, with the given bases null. *)
Definition started (nulls : list base) (pool : gmap loc (cell dsched_node_t)) (arr : P loc)
    (l : loc) : sys P := (initial pool arr l) <| null_bases := nulls |>.

Lemma add_node_run nulls n pool arr l :
  add_node n (started nulls pool arr l) =
  Done (tt, started nulls (<[l := Cell 1 (pool_node n)]> pool) (pa_add arr l).2 (S l)).
Proof. unfold add_node, started, initial. repeat run1. by rewrite !insert_insert_eq. Qed.

Lemma each_add_node (Hroom : array_room (P := P)) nulls ns pool arr l :
  (forall k, (l <= k)%nat -> pool !! k = None) ->
  exists pool' arr', each add_node ns (started nulls pool arr l) =
      Done (tt, started nulls pool' arr' (length ns + l)) /\
    (forall i n, ns !! i = Some n -> pool' !! (l + i)%nat = Some (Cell 1 (pool_node n))) /\
    (forall k, (k < l)%nat -> pool' !! k = pool !! k) /\
    (forall k, (length ns + l <= k)%nat -> pool' !! k = None) /\
    pa_items arr' ≡ₚ pa_items arr ++ seq l (length ns).
Proof.
  revert pool arr l; induction ns as [|n ns IH]; intros pool arr l Hl.
  { exists pool, arr. split; [done|]. split; [done|]. split; [done|].
    split; [by intros; apply Hl|]. by rewrite app_nil_r. }
  destruct (IH (<[l := Cell 1 (pool_node n)]> pool) (pa_add arr l).2 (S l))
    as (pool' & arr' & Hrun & Hin & Hlt & Hge & Hitems).
  { intros k Hk. rewrite lookup_insert_ne by lia. apply Hl. lia. }
  exists pool', arr'. split_and!.
  - cbn [each]. erewrite act_bind_Done by apply add_node_run. rewrite Hrun. do 3 f_equal. simpl. lia.
  - intros [|i] m; cbn [lookup list_lookup]; intros Hm.
    + injection Hm as <-. rewrite Nat.add_0_r, Hlt by lia. apply lookup_insert_eq.
    + replace (l + S i)%nat with (S l + i)%nat by lia. by apply Hin.
  - intros k Hk. rewrite Hlt by lia. by rewrite lookup_insert_ne by lia.
  - intros k Hk. apply Hge. simpl in Hk. lia.
  - rewrite Hitems. pose proof (Hroom loc arr l) as Hi. destruct (pa_add arr l) as [j arr2] eqn:Ea.
    simpl in *. rewrite (pa_items_add _ _ _ _ Ea Hi). simpl. by rewrite <- Permutation_middle.
Qed.

Lemma set_arrays_run g g1 : set_arrays g = Done (Next tt, g1) ->
  w_sys (g_world g1) = (w_sys (g_world g)) <| g_nodes := pa_empty |> <| g_requests := pa_empty |> /\
  g_dmeta g1 = g_dmeta g /\ g_dsched g1 = g_dsched g.
Proof.
  unfold set_arrays. intros ([] & g2 & E2 & Hrun)%prog_bind_inv.
  apply prog_bind_inv in Hrun as ([] & g3 & E3 & Hrun).
  apply prog_bind_inv in Hrun as ([] & g4 & E4 & Hrun).
  destruct (negb _) in E2; [done|]. destruct (negb _) in E3; [done|]. destruct (negb _) in E4; [done|].
  injection E2 as <-. injection E3 as <-. injection E4 as <-.
  apply prog_bind_inv in Hrun as ([] & g5 & [= <-] & Hrun). by injection Hrun as <-.
Qed.

Definition shipped : Prop :=
  (exists cfg e, dmeta_components env = [dmeta_pri_component cfg e]) /\
  (exists cfg e param, dsched_components env = [dsched_fifo_component cfg e param]) /\
  dmetric_components env = [dmetric_energy_component].

Lemma open_framework_next name (open : prog Z) error g g1 :
  open_framework name open error g = Done (Next tt, g1) ->
  g1 = g \/ exists rc, open g = Done (Next rc, g1).
Proof.
  unfold open_framework. intros (ret & g2 & E & Hrun)%prog_bind_inv.
  destruct (negb _) in Hrun; [done|]. injection Hrun as <-.
  destruct (framework_open env name); [injection E as <- <-; by left|right; eauto].
Qed.

Lemma select_framework_next (select : prog Z) error g g1 :
  select_framework select error g = Done (Next tt, g1) -> exists rc, select g = Done (Next rc, g1).
Proof.
  unfold select_framework. intros (ret & g2 & E & Hrun)%prog_bind_inv.
  destruct (negb _) in Hrun; [done|]. injection Hrun as <-. eauto.
Qed.

Lemma energy_selected (f : globals (world P) metric_entry) w r f' w' :
  dsched_dmetric_base_select (P := P) (D := unit) [dmetric_energy_component] (f, w) = Done (r, (f', w')) -> w' = w.
Proof.
  unfold dsched_dmetric_base_select, base_select, select_loop, select_component, dmetric_energy_component,
    component_query, dsched_dmetric_energy_module, energy_myinit, on_globals, outside,
    mbind, act_bind, modify, gets, mret, act_ret. simpl.
  destruct (selected f); [by intros [= _ _ <-]|]. simpl. rewrite !ok_success. simpl.
  by intros [= _ _ <-].
Qed.

Lemma dmeta_framework_run g1 g2 g3 rc error1 error2 cfg e :
  g_dmeta g1 = static_init ->
  open_framework "dmeta" (on_dmeta (dsched_dmeta_base_open (mret rc))) error1 g1 = Done (Next tt, g2) ->
  select_framework (on_dmeta (dsched_dmeta_base_select [dmeta_pri_component cfg e])) error2 g2 =
    Done (Next tt, g3) ->
  w_sys (g_world g3) = (w_sys (g_world g1)) <| null_bases :=
    assign_base PriBase (pri_evbase (g_world g3)) (null_bases (w_sys (g_world g1))) |> /\
  schedules (g_dmeta g3) = meta_actives /\ g_dsched g3 = g_dsched g1.
Proof.
  intros Hst Ho%open_framework_next (rs & Hs)%select_framework_next.
  assert (selected (g_dmeta g2) = false /\ actives (g_dmeta g2) = [] /\ g_world g2 = g_world g1 /\
    g_dsched g2 = g_dsched g1) as (Hsel & Hact & Hw & Hd).
  { destruct Ho as [->|[ro Ho]]; [by rewrite Hst|]. unfold on_dmeta in Ho.
    destruct (dsched_dmeta_base_open _ _) as [[r0 [f0 w0]]|] eqn:E; [|done].
    apply base_open_run in E as (Es & Ea & ->). injection Ho as _ <-. cbn.
    by rewrite Es, Ea, Hst. }
  unfold on_dmeta in Hs. destruct (dsched_dmeta_base_select _ _) as [[r0 [f0 w0]]|] eqn:E; [|done].
  apply pri_selected in E as [Ew Ef]; [|done..]. injection Hs as _ <-. cbn. by rewrite Ew, Hw.
Qed.

Lemma dsched_framework_run g1 g2 g3 rc error1 error2 cfg e param :
  g_dsched g1 = static_init ->
  open_framework "dsched" (on_dsched (dsched_dsched_base_open (mret rc))) error1 g1 = Done (Next tt, g2) ->
  select_framework (on_dsched (dsched_dsched_base_select [dsched_fifo_component cfg e param])) error2 g2 =
    Done (Next tt, g3) ->
  w_sys (g_world g3) = (w_sys (g_world g1)) <| fifo_reqs := [] |> <| null_bases :=
    assign_base FifoBase (fifo_evbase (g_world g3)) (null_bases (w_sys (g_world g1))) |> /\
  pri_evbase (g_world g3) = pri_evbase (g_world g1) /\
  schedules (g_dsched g3) = sched_actives /\ g_dmeta g3 = g_dmeta g1.
Proof.
  intros Hst Ho%open_framework_next (rs & Hs)%select_framework_next.
  assert (selected (g_dsched g2) = false /\ actives (g_dsched g2) = [] /\ g_world g2 = g_world g1 /\
    g_dmeta g2 = g_dmeta g1) as (Hsel & Hact & Hw & Hd).
  { destruct Ho as [->|[ro Ho]]; [by rewrite Hst|]. unfold on_dsched in Ho.
    destruct (dsched_dsched_base_open _ _) as [[r0 [f0 w0]]|] eqn:E; [|done].
    apply base_open_run in E as (Es & Ea & ->). injection Ho as _ <-. cbn.
    by rewrite Es, Ea, Hst. }
  unfold on_dsched in Hs. destruct (dsched_dsched_base_select _ _) as [[r0 [f0 w0]]|] eqn:E; [|done].
  apply fifo_selected in E as (Ew & Ep & Ef); [|done..]. injection Hs as _ <-. cbn. by rewrite Ew, Ep, Hw.
Qed.

Lemma dmetric_framework_run g1 g2 g3 rc error1 error2 :
  open_framework "dmetric" (on_dmetric (dsched_dmetric_base_open (mret rc))) error1 g1 = Done (Next tt, g2) ->
  select_framework (on_dmetric (dsched_dmetric_base_select [dmetric_energy_component])) error2 g2 =
    Done (Next tt, g3) ->
  g_world g3 = g_world g1 /\ g_dmeta g3 = g_dmeta g1 /\ g_dsched g3 = g_dsched g1.
Proof.
  intros Ho%open_framework_next (rs & Hs)%select_framework_next.
  assert (g_world g2 = g_world g1 /\ g_dmeta g2 = g_dmeta g1 /\ g_dsched g2 = g_dsched g1) as (Hw & Hm & Hd).
  { destruct Ho as [->|[ro Ho]]; [done|]. unfold on_dmetric in Ho.
    destruct (dsched_dmetric_base_open _ _) as [[r0 [f0 w0]]|] eqn:E; [|done].
    apply base_open_run in E as (Es & Ea & ->). by injection Ho as _ <-. }
  unfold on_dmetric in Hs. destruct (dsched_dmetric_base_select _ _) as [[r0 [f0 w0]]|] eqn:E; [|done].
  apply energy_selected in E as ->. injection Hs as _ <-. cbn. by rewrite Hw.
Qed.

(** The null bases, once both modules assigned their variables. *)
Definition bases_set (w : world P) (nulls : list base) : list base :=
  assign_base FifoBase (fifo_evbase w) (assign_base PriBase (pri_evbase w) nulls).

Lemma set_frameworks_run g g1 : shipped -> g_dmeta g = static_init -> g_dsched g = static_init ->
  set_frameworks g = Done (Next tt, g1) ->
  w_sys (g_world g1) = (w_sys (g_world g)) <| fifo_reqs := [] |>
    <| null_bases := bases_set (g_world g1) (null_bases (w_sys (g_world g))) |> /\
  schedules (g_dmeta g1) = meta_actives /\ schedules (g_dsched g1) = sched_actives.
Proof.
  intros ((cfg & e & Epri) & (cfg' & e' & param & Efifo) & Een) Hm Hd.
  unfold set_frameworks. rewrite Epri, Efifo, Een.
  intros ([] & g2 & E2 & Hrun)%prog_bind_inv.
  apply prog_bind_inv in Hrun as ([] & g3 & E3 & Hrun).
  apply prog_bind_inv in Hrun as ([] & g4 & E4 & Hrun).
  apply prog_bind_inv in Hrun as ([] & g5 & E5 & Hrun).
  apply prog_bind_inv in Hrun as ([] & g6 & E6 & E7).
  destruct (dmeta_framework_run _ _ _ _ _ _ _ _ Hm E2 E3) as (Ew & Em & Ed).
  rewrite <- Ed in Hd.
  destruct (dsched_framework_run _ _ _ _ _ _ _ _ _ Hd E4 E5) as (Ew' & Ep' & Ed' & Em').
  destruct (dmetric_framework_run _ _ _ _ _ _ E6 E7) as (-> & -> & ->).
  unfold bases_set. by rewrite Ew', Ep', Ew, Em'.
Qed.

(** A step that goes on and keeps the scheduler's state. *)
Lemma frames_kept {A} (m : prog A) g a g1 :
  ensures (same frames) m -> m g = Done (Next a, g1) ->
  g_world g1 = g_world g /\ g_dmeta g1 = g_dmeta g /\ g_dsched g1 = g_dsched g.
Proof. intros Hm Hrun. apply Hm in Hrun. by injection Hrun as -> -> ->. Qed.

Ltac frames_step H E := apply frames_kept in H as E; [|unfold_steps; solve_ensures].

Lemma prepare_run r g g1 : shipped -> g_dmeta g = static_init -> g_dsched g = static_init ->
  prepare r g = Done (Next tt, g1) ->
  w_sys (g_world g1) = (w_sys (g_world g)) <| g_nodes := pa_empty |> <| g_requests := pa_empty |>
                                           <| fifo_reqs := [] |>
      <| null_bases := bases_set (g_world g1) (null_bases (w_sys (g_world g))) |> /\
  schedules (g_dmeta g1) = meta_actives /\ schedules (g_dsched g1) = sched_actives.
Proof.
  intros Hsh Hm Hd. unfold prepare. intros ([] & g2 & E2 & Hrun)%prog_bind_inv.
  apply prog_bind_inv in Hrun as ([] & g3 & E3 & Hrun).
  apply prog_bind_inv in Hrun as ([] & g4 & E4 & Hrun).
  apply prog_bind_inv in Hrun as ([] & g5 & E5 & Hrun).
  frames_step E2 F2. frames_step E3 F3. frames_step Hrun F4.
  destruct F2 as (W2 & M2 & D2), F3 as (W3 & M3 & D3), F4 as (W4 & M4 & D4).
  apply set_arrays_run in E4 as (W5 & M5 & D5).
  apply set_frameworks_run in E5 as (W6 & M6 & D6); [|done|congruence..].
  by rewrite W4, M4, D4, W6, W5, W3, W2.
Qed.

Lemma serve_run r g g1 : serve r g = Done (Next tt, g1) ->
  g_dmeta g1 = g_dmeta g /\ g_dsched g1 = g_dsched g /\
  bases_set (g_world g1) = bases_set (g_world g) /\
  each add_node (seqZ 0 5) (w_sys (g_world g)) = Done (tt, w_sys (g_world g1)).
Proof.
  unfold serve. intros ([] & g2 & E2 & Hrun)%prog_bind_inv.
  apply prog_bind_inv in Hrun as ([] & g3 & E3 & Hrun).
  apply prog_bind_inv in Hrun as ([] & g4 & E4 & Hrun).
  frames_step E2 F2. frames_step E3 F3. frames_step Hrun F4.
  destruct F2 as (W2 & M2 & D2), F3 as (W3 & M3 & D3), F4 as (W4 & M4 & D4).
  unfold add_nodes, on_system in E4. rewrite W3, W2 in E4.
  destruct (each add_node (seqZ 0 5) (w_sys (g_world g))) as [[[] s]|]; [|done].
  injection E4 as <-. cbn in *. rewrite W4, M4, D4. split; [congruence|]. split; [congruence|].
  split; [|done]. unfold bases_set. cbn. congruence.
Qed.

(** The program as static storage leaves it: no component has its event base yet. *)
Record at_start (g : dsched) (arr : P loc) (n : loc) : Prop := {
  as_sys : w_sys (g_world g) = started [PriBase; FifoBase] ∅ arr n;
  as_dmeta : g_dmeta g = static_init;
  as_dsched : g_dsched g = static_init;
  as_util : util_initialized (g_rte g) = false
}.

(** What the scheduler of the pipeline starts from. When the shipped components
    are built in, every run of [main] that comes to serve, whatever the command line,
    the parameters and the environment, has set the scheduler's state up as the
    theorems about the pipeline assume it: no request, no event, the modules pri and
    fifo active, no node counted as available, and in the pool the five nodes foo00
    to foo04 with 3 to 7 slots, each once in the global array. The bases that are null
    are those the modules were given a null pointer for. *)
Theorem main_starts_pipeline (Hroom : array_room (P := P)) g g' arr n :
  shipped -> at_start g arr n -> main g = Done (Serves, g') ->
  exists pool nodes',
    w_sys (g_world g') = started (bases_set (g_world g') [PriBase; FifoBase]) pool nodes' (5 + n) /\
    (forall i, (i < 5)%nat -> pool !! (n + i)%nat = Some (Cell 1 (pool_node (Z.of_nat i)))) /\
    pa_items nodes' ≡ₚ seq n 5 /\
    schedules (g_dmeta g') = meta_actives /\ schedules (g_dsched g') = sched_actives.
Proof.
  intros Hsh [Hsys Hm Hd _] Hs%serves_inv. unfold steps in Hs.
  apply prog_bind_inv in Hs as (r & g1 & Hopt & Hs).
  apply prog_bind_inv in Hs as ([] & g2 & Hprep & Hserve).
  frames_step Hopt F1. destruct F1 as (W1 & M1 & D1).
  apply prepare_run in Hprep as (W2 & M2 & D2); [|done|congruence..].
  apply serve_run in Hserve as (M3 & D3 & B3 & Hnodes). rewrite W2, W1, Hsys in Hnodes.
  set (nulls := bases_set (g_world g2) [PriBase; FifoBase]) in *.
  change (each add_node (seqZ 0 5) (started nulls ∅ pa_empty n) = Done (tt, w_sys (g_world g'))) in Hnodes.
  destruct (each_add_node Hroom nulls (seqZ 0 5) ∅ pa_empty n) as (pool & arr' & Hrun & Hin & _ & _ & Hit).
  { intros k _. apply lookup_empty. }
  rewrite Hrun in Hnodes. injection Hnodes as Hw. exists pool, arr'.
  assert (bases_set (g_world g') [PriBase; FifoBase] = nulls) as ->.
  { exact (f_equal (fun f => f [PriBase; FifoBase]) B3). }
  split; [by rewrite <- Hw|]. split.
  - intros i Hi. apply Hin. apply lookup_seqZ. lia.
  - rewrite Hit, pa_items_empty, M3, D3. done.
Qed.

(** The daemon at work: from where [main] left it, with the modules the frameworks
    selected and the server that was started. *)
Definition as_daemon (g : dsched) : daemon := Daemon (w_sys (g_world g)) (g_srv g).

(** The progress thread of a module runs: the module's variable holds the base of the
    thread's tracker, and the thread was started. *)
Definition thread_runs (w : world P) (name : string) (evbase : option Z) : Prop :=
  exists t b, t ∈ tracking (w_threads w) /\ trk_name t = Some name /\ evbase = Some b /\
    ev_base_of t = Some b /\ engine_running t = true.

Definition threads_run (w : world P) : Prop :=
  thread_runs w "dmeta-pri" (pri_evbase w) /\ thread_runs w "dsched-fifo" (fifo_evbase w).

Lemma threads_run_bases w : threads_run w -> bases_set w [PriBase; FifoBase] = [].
Proof.
  intros [(t1 & b1 & _ & _ & E1 & _) (t2 & b2 & _ & _ & E2 & _)]. unfold bases_set. by rewrite E1, E2.
Qed.

(** A daemon that serves knows the name of its host and those of its nodes. *)
Lemma main_names_pool g g' pool nodes' n :
  main g = Done (Serves, g') -> util_initialized (g_rte g) = false ->
  (forall i, (i < 5)%nat -> pool !! (n + i)%nat = Some (Cell 1 (pool_node (Z.of_nat i)))) ->
  pa_items nodes' ≡ₚ seq n 5 -> named_pool (rt_host (g_rte g')) pool nodes'.
Proof.
  intros Hmain Hu Hpool Hit. split; [by eapply serves_named|]. intros l Hl. rewrite Hit in Hl.
  apply list_elem_of_In, in_seq in Hl. exists (Cell 1 (pool_node (Z.of_nat (l - n)))).
  replace l with (n + (l - n))%nat at 1 by lia. split; [apply Hpool; lia|by eexists].
Qed.


(** ** The options read *)

(** Every run of [m] has a result. *)
Definition runs {A} (m : prog A) : Prop := forall g, exists f g', m g = Done (f, g').

Lemma runs_bind {A B} (m : prog A) (k : A -> prog B) :
  runs m -> (forall a, runs (k a)) -> runs (m ≫= k).
Proof.
  intros Hm Hk g. destruct (Hm g) as (f & g1 & E). unfold mbind, prog_bind. rewrite E.
  destruct f as [a|rc|ret error|]; [apply Hk|by do 2 eexists..].
Qed.
Lemma runs_pure_bind {A B} (a : A) (k : A -> prog B) : runs (k a) -> runs (pure (Done a) ≫= k).
Proof. done. Qed.
Lemma runs_done {A} (m : dsched -> flow A * dsched) : runs (fun g => Done (m g)).
Proof. intros g. exists (m g).1, (m g).2. by destruct (m g). Qed.
Lemma runs_env {A} (m : act penv A) : (forall e, exists r, m e = Done r) -> runs (on_env m).
Proof. intros Hm g. unfold on_env. destruct (Hm (g_env g)) as [[a e] ->]. by do 2 eexists. Qed.
Lemma runs_setenv name v overwrite : runs (on_env (setenv name (Some v) overwrite)).
Proof. apply runs_env. intros e. unfold setenv. destruct (_ && _); by eexists. Qed.

Ltac runs_step :=
  lazymatch goal with
  | |- runs (pure (Done _) ≫= _) => apply runs_pure_bind; cbn [strdup print_s]
  | |- runs (mbind _ _) => apply runs_bind; [|intros ?]
  | |- runs (on_env (setenv _ _ _)) => apply runs_setenv
  | |- runs (on_env _) => apply runs_env; intros ?; by eexists
  | |- runs (when ?b _) => unfold when; destruct b
  | |- runs (if ?b then _ else _) => destruct b
  | |- runs (let '(_, _) := ?p in _) => destruct p
  | |- runs (mret _) => apply runs_done
  | |- runs (goto_done _ _) => apply runs_done
  | |- runs (look _) => apply runs_done
  | |- runs (change _) => apply runs_done
  | |- runs (emit _) => apply runs_done
  | |- runs (emit_with _) => apply runs_done
  end.
Ltac solve_runs := repeat (runs_step; cbv zeta).

(** Whatever a command line the parser accepts says about the keepalive pipe, the
    debug output and the reports, reading it never touches a value that is not there. *)
Theorem options_never_fault r g : obeys dschedoptions r ->
  exists f g', (set_keepalive r ;; set_debug r ;; set_reports r) g = Done (f, g').
Proof.
  intros Hr. revert g.
  assert (forall name, In (option_define name PMIX_ARG_REQD) dschedoptions ->
    match get_param (instances r) name with
    | Some values => exists v, value0 values = Done (Some v)
    | None => True
    end) as Hval.
  { intros name Hin. destruct (get_param (instances r) name) eqn:E; [|done].
    by eapply required_value. }
  pose proof (Hval DSCHED_CLI_KEEPALIVE ltac:(unfold dschedoptions; simpl; tauto)) as Hk.
  pose proof (Hval DSCHED_CLI_REPORT_URI ltac:(unfold dschedoptions; simpl; tauto)) as Hu.
  pose proof (Hval DSCHED_CLI_REPORT_PID ltac:(unfold dschedoptions; simpl; tauto)) as Hp.
  apply runs_bind; [|intros _; apply runs_bind; [unfold set_debug; solve_runs|intros _]].
  - unfold set_keepalive. destruct (get_param _ DSCHED_CLI_KEEPALIVE); [|solve_runs].
    destruct Hk as [v ->]. solve_runs.
  - unfold set_reports, report_pid. apply runs_bind; [solve_runs|intros _]. apply runs_bind.
    + destruct (get_param _ DSCHED_CLI_REPORT_URI); [|solve_runs]. destruct Hu as [v ->]. solve_runs.
    + intros _. destruct (get_param _ DSCHED_CLI_REPORT_PID); [|solve_runs].
      destruct Hp as [v ->]. solve_runs.
Qed.

(** ** Going into the background *)

(** The descriptors of a pipe, and the process with them. *)
Definition pipe_read (p : process) : nat := lowest_free (fds p).
Definition pipe_write (p : process) : nat := lowest_free (<[pipe_read p := OtherFile 0]> (fds p)).
Definition with_pipe (p : process) : process :=
  p <| fds := <[pipe_write p := OtherFile 1]> (<[pipe_read p := OtherFile 0]> (fds p)) |>.

Lemma make_pipe_run name g : pipe_ok env name = true ->
  make_pipe name g = Done (Next (Some (pipe_read (g_process g), pipe_write (g_process g))),
                           g <| g_process := with_pipe (g_process g) |>).
Proof. intros Hp. unfold make_pipe. by rewrite Hp. Qed.

(** The result of the attempt to become a daemon is not looked at: when fork fails the
    program that was asked to detach goes on to serve in the foreground, with its
    standard streams, and keeps one end of a pipe that nobody reads. *)
Theorem fork_failure_ignored r g :
  is_taken r DSCHED_CLI_DAEMONIZE = true -> is_taken r DSCHED_CLI_SET_SID = false -> pipe_ok env "wait" = true ->
  fork env = ForkError ->
  exists g1, daemonize r g = Done (Next tt, g1) /\
    session_leader (g_process g1) = session_leader (g_process g) /\
    fds (g_process g1) = <[pipe_write (g_process g) := OtherFile 1]> (fds (g_process g)).
Proof.
  intros Ht Hsid Hp Hf. unfold daemonize, when. rewrite Ht, Hf.
  unfold mbind at 1, prog_bind at 1. rewrite make_pipe_run by done.
  unfold mbind, prog_bind, look, change. cbn -[dsched_daemon_init_callback pipe_read pipe_write with_pipe is_taken].
  assert (forall fn q, exists rc, dsched_daemon_init_callback (os env) ForkError None fn q = Returned rc q) as Hcall.
  { intros fn q. unfold dsched_daemon_init_callback. destruct (negb _); by eexists. }
  match goal with |- context [dsched_daemon_init_callback _ _ _ ?fn ?q] =>
    destruct (Hcall fn q) as [rc ->] end.
  rewrite Hsid, andb_false_r. eexists. split; [done|]. split; [done|]. cbn.
  set (p := g_process g). unfold with_pipe. cbn.
  pose proof (lowest_free_spec (fds p)) as [Hr _].
  pose proof (lowest_free_spec (<[pipe_read p := OtherFile 0]> (fds p))) as [Hw _].
  fold (pipe_write p) in *. fold (pipe_read p) in *.
  rewrite delete_insert_ne.
  - by rewrite delete_insert_id.
  - intros E. by rewrite <- E, lookup_insert_eq in Hw.
Qed.
End Main.

(** ** An example *)

#[local] Existing Instance sample_pmix.
#[local] Existing Instance sample_params_lib.
#[local] Existing Instance sample_rte_lib.
#[local] Instance sample_server : ServerLib := sample_server_lib 0.
#[local] Existing Instance sample_query_lib.

(** A run with the given options, by the given user, where the framework dmetric opens
    with the given status. *)
Definition sample_surroundings (opts : list (string * option (list string))) (user open_rc : Z)
    : surroundings (P := slots) := {|
  argv := ["/usr/bin/dsched"%string];
  basename_of := fun _ => Some "dsched"%string;
  cmd_line_parse := fun _ => (0, Results opts None);
  PMIX_OPERATION_SUCCEEDED := -157;
  euid := user;
  sysconfdir := Some "etc"%string;
  pipe_ok := fun _ => true;
  array_init := fun _ => 0;
  framework_open := fun _ => None;
  components_open := fun name => if String.eqb name "dmetric" then open_rc else 0;
  dmeta_components := [dmeta_pri_component plain (sample_env 1)];
  dsched_components := [dsched_fifo_component plain (sample_env 2) None];
  dmetric_components := [dmetric_energy_component];
  os := linux;
  fork := InChild;
  parent_reads := [];
  waitpid := fun _ => WExited 0;
  fopen_ok := fun _ => true;
  session_control := true
|}.

Definition sample_dsched : dsched (P := slots) :=
  Dsched 0 (Proc "" 0) (sample_rte None) sample_penv (sample_params "none")
    (SessionDir None None false false []) sample_srv static_init static_init static_init
    (World (started [PriBase; FifoBase] ∅ [] 0) (Threads false [] ∅ []) None None)
    (Process {[0%nat := OtherFile 0; 1%nat := OtherFile 1; 2%nat := OtherFile 2]} "/" false)
    0 false None (-1) false None true [].

Abbreviation sample_run opts user open_rc :=
  (main (sample_surroundings opts user open_rc) sample_dsched).

Definition after_run (o : outcome (ended * dsched (P := slots))) : dsched (P := slots) :=
  match o with Done (_, g) => g | Fault _ => sample_dsched end.

(** In a session of its own, the pid in a file. *)
Definition daemon_opts : list (string * option (list string)) :=
  [("daemonize"%string, None); ("report-pid"%string, Some ["pidfile"%string])].

Definition ended_as (e : ended) (o : outcome (ended * dsched (P := slots))) : bool :=
  match o, e with
  | Done (Serves, _), Serves | Done (Waits, _), Waits => true
  | Done (Exits st, _), Exits st' => st =? st'
  | _, _ => false
  end.

Lemma ran e o : ended_as e o = true -> o = Done (e, after_run o).
Proof. destruct o as [[[st| |] g]|], e; simpl; try done. by intros ->%Z.eqb_eq. Qed.

Lemma daemon_run : sample_run daemon_opts 1 0 = Done (Serves, after_run (sample_run daemon_opts 1 0)).
Proof. apply ran. vm_compute. reflexivity. Qed.

(** A run of the daemon, and what came in then: a tool and a request. *)
Definition served : dsched (P := slots) := after_run (sample_run daemon_opts 1 0).

Abbreviation in_service f :=
  (f (rt_host (g_rte served)) [] (schedules (g_dmeta served)) (schedules (g_dsched served))).

Definition served_life : list happening :=
  [Receive (Connects sample_tool 2 (Some 7) 1);
   Receive (Allocates (Proc "tool" 3) 1 [not_waiting] (Some 7) 2 0); RunNext 1; RunNext 0;
   Lose (Loss (Proc "other" 0) (Some 8) 9)].

Definition lived : list loc * daemon (P := slots) :=
  default ([], as_daemon served) (in_service live served_life ([], as_daemon served)).

Lemma served_lives :
  in_service lives (as_daemon served) (asked served_life) (lost served_life) (handled served_life)
    lived.1 lived.2.
Proof.
  assert (match in_service live served_life ([], as_daemon served) with
          | Some _ => true | None => false end = true) as Hl by (vm_compute; reflexivity).
  unfold lived. destruct (in_service live served_life _) as [[held d]|] eqn:E; [simpl|done].
  apply (live_lives _ _ _ _ served_life _ [] [] 0 [] (as_daemon served)); [constructor|exact E].
Qed.

Definition served_threads : list dsched_progress_tracker_t :=
  [Tracker 1 (Some "dmeta-pri"%string) (Some 1) true true true true;
   Tracker 1 (Some "dsched-fifo"%string) (Some 2) true true true true].

Lemma served_threads_run : threads_run (g_world served).
Proof.
  assert (forall w : world slots, tracking (w_threads w) = served_threads ->
    pri_evbase w = Some 1 -> fifo_evbase w = Some 2 -> threads_run w) as Hw.
  { intros w E E1 E2. unfold threads_run, thread_runs. rewrite E, E1, E2.
    unfold served_threads. split.
    - eexists (Tracker 1 (Some "dmeta-pri"%string) (Some 1) true true true true), 1.
      split; [rewrite !elem_of_cons; tauto|done].
    - eexists (Tracker 1 (Some "dsched-fifo"%string) (Some 2) true true true true), 2.
      split; [rewrite !elem_of_cons; tauto|done]. }
  apply Hw; vm_compute; reflexivity.
Qed.


Lemma pid_never_known_witness :
  effects (after_run (sample_run daemon_opts 1 0)) !! 1%nat =
    Some (E_file "pidfile" ("0" ++ newline)%string) /\
  g_pid (after_run (sample_run daemon_opts 1 0)) = 0.
Proof.
  split; [by vm_compute|].
  exact (proj1 (pid_never_known (sample_surroundings daemon_opts 1 0) sample_dsched Serves
    (after_run (sample_run daemon_opts 1 0)) daemon_run eq_refl eq_refl)).
Defined.

Lemma hostname_ignores_parameters_witness :
  hostname (rt_host (g_rte (after_run (sample_run daemon_opts 1 0)))) = Some "node007"%string.
Proof.
  exact (proj1 (hostname_ignores_parameters (sample_surroundings daemon_opts 1 0) sample_dsched
    (after_run (sample_run daemon_opts 1 0)) daemon_run eq_refl eq_refl eq_refl eq_refl)).
Defined.

(** The super-user, who did not say so. *)
Lemma root_run : sample_run daemon_opts 0 0 = Done (Exits 1, after_run (sample_run daemon_opts 0 0)).
Proof. apply ran. vm_compute. reflexivity. Qed.

Lemma root_refused_witness :
  exists st, Exits 1 = Exits st /\ quiet sample_dsched (after_run (sample_run daemon_opts 0 0)).
Proof.
  destruct (root_refused (sample_surroundings daemon_opts 0 0) sample_dsched (Exits 1)
    (after_run (sample_run daemon_opts 0 0)) root_run eq_refl) as (st & Hst & _ & _ & Hq).
  - intros [Ht|[He _]]; [by vm_compute in Ht|by vm_compute in He].
  - exists st. split; [exact Hst|exact Hq].
Defined.

(** The library cannot be started: the session directory is there already. *)
Abbreviation failed_run :=
  (@main slots _ _ _ _ (sample_server_lib (-25)) (sample_surroundings [] 1 0) sample_dsched).

Lemma failed_run_exits :
  failed_run = Done (Exits (uint 8 (code_value DSCHED_ERR_SILENT)), after_run failed_run).
Proof. apply ran. vm_compute. reflexivity. Qed.

Lemma failed_run_dir : dircalls (g_sdir (after_run failed_run)) !! 0%nat =
  Some (D_create (Some "/tmp"%string) 0).
Proof. by vm_compute. Qed.

Lemma exit_cleans_up_witness :
  exists dir, Some "/tmp"%string = Some dir /\
    D_rmdir dir ∈ dircalls (g_sdir (after_run failed_run)).
Proof.
  destruct (proj2 (@exit_cleans_up slots _ _ _ _ (sample_server_lib (-25))
    (sample_surroundings [] 1 0) sample_dsched _ _ failed_run_exits eq_refl eq_refl eq_refl)
    _ _ (list_elem_of_lookup_2 _ _ _ failed_run_dir) eq_refl) as (dir & Hd & _ & Hr).
  exists dir. split; [exact Hd|exact Hr].
Defined.
