(* ===== verification/Info.v ===== *)
(** * The information tool: src/tools/dsched_info

    [dsched_info] shows what is built in and how it is configured. The functions that
    print are the PMIx library's, so a run is the list of the sections it asks them
    for. Starting the runtime and registering the parameters are those of Startup and
    Params. *)

From Stdlib Require Import Ascii.
From S2P Require Import Prelude Pmix Constants Params Startup.

(** ** The command line *)

(** The options without a value of their own that [main] asks for. *)
Inductive info_option :=
| INFO_ALL | INFO_ARCH | INFO_CONFIG | INFO_HOSTNAME | INFO_INTERNAL | INFO_PARAM
| INFO_PARAMS | INFO_PATH | PRETTY_PRINT | PARSABLE | PARSEABLE | INFO_SHOW_FAILED
| INFO_SELECTED_ONLY | INFO_TYPES | INCLUDE_PMIX.

(** pmix_cli_result_t. *)
Record info_results := InfoResults {
  is_taken : info_option -> bool;
  color_opt : option (option (list string));
  version_opt : option (option (list string));
  tail : option (list string)
}.

(** strcasecmp(a, b) == 0. *)
Definition tolower (c : ascii) : ascii :=
  let n := nat_of_ascii c in
  if Nat.leb 65 n && Nat.leb n 90 then ascii_of_nat (n + 32) else c.
Fixpoint strcasecmp0 (a b : string) : bool :=
  match a, b with
  | EmptyString, EmptyString => true
  | String x a, String y b => Ascii.eqb (tolower x) (tolower y) && strcasecmp0 a b
  | _, _ => false
  end.

(** ** What is shown *)

(** Whose information: the scheduler's or the library's. *)
Inductive project := DynaSched | PMIx_lib.

(** [None] stands for pmix_info_type_all, pmix_info_component_all, pmix_info_ver_full. *)
Inductive section_ :=
| ShowPackage (p : project)
| ShowVersion (p : project)
| ShowComponents (p : project) (type_ component modifier : cstr)
| ShowPaths (p : project) (all : bool)
| ShowPrefix (p : project)
| ShowArch
| ShowHostname
| ShowConfig (p : project) (everything : bool)
| ShowParams (p : project) (internal chosen : bool)
| ShowTypes
| ShowBanner.

#[export] Instance project_eq_dec : EqDecision project.
Proof. solve_decision. Defined.
#[export] Instance section_eq_dec : EqDecision section_.
Proof. solve_decision. Defined.

(** The state: the runtime, the environment, the parameters, the settings of the
    library's printing, the frameworks and the output. *)
Record info := Info_state {
  i_rte : rte;
  i_env : penv;
  i_params : params_globals;
  pmix_info_color : bool;
  pmix_info_pretty : bool;
  selected_only : bool;
  track_load_errors : bool;
  mca_types : list string;
  shown : list section_
}.
#[export] Instance eta_info : Eta info := fun s =>
  Info_state (i_rte s) (i_env s) (i_params s) (pmix_info_color s) (pmix_info_pretty s)
    (selected_only s) (track_load_errors s) (mca_types s) (shown s).

Class InfoLib `{PMIx} := {
  info_basename : string -> cstr;
  info_parse : list string -> Z * info_results;
  OPERATION_SUCCEEDED : Z;
  HAVE_ISATTY : bool;
  stdout_isatty : bool;
  (** dsched_frameworks, a table autogen writes. *)
  framework_names : list string;
  (** pmix_info_register_types: the names of the library's frameworks. *)
  pmix_types : list string;
  mca_base_open_rc : Z;
  register_project_frameworks_rc : Z;
  pmix_register_params_rc : Z;
  pmix_register_frameworks_rc : Z
}.

Section Info.
Context `{PMIx} `{!ParamLib} `{!RteLib} `{!InfoLib} (sysconfdir : cstr).

(** The program ends with a status, or goes on. *)
Definition prog (A : Type) : Type := info -> outcome ((Z + A) * info).
#[local] Instance prog_ret : MRet prog := fun A a s => Done (inr a, s).
#[local] Instance prog_bind : MBind prog := fun A B k m s =>
  match m s with
  | Done (inr a, s) => k a s
  | Done (inl rc, s) => Done (inl rc, s)
  | Fault f => Fault f
  end.
Definition exit_ {A} (rc : Z) : prog A := fun s => Done (inl rc, s).
Definition undefined {A} (f : fault) : prog A := fun _ => Fault f.
Definition change (f : info -> info) : prog unit := fun s => Done (inr tt, f s).
Definition show (l : list section_) : prog unit := change (fun s => s <| shown := shown s ++ l |>).
Definition show_if (b : bool) (l : list section_) : prog unit := if b then show l else mret tt.

Definition register_framework_params : prog Z := fun s =>
  if negb (ok mca_base_open_rc) then Done (inr PMIX_ERROR, s) else
  match dsched_register_params sysconfdir (i_params s) (i_env s) with
  | Fault f => Fault f
  | Done ((rc, params), e) =>
      let s := s <| i_params := params |> <| i_env := e |> in
      if negb (ok rc) then Done (inr rc, s)
      else Done (inr register_project_frameworks_rc, s)
  end.

(** ** The steps of main *)

Definition start_up (argv : list string) : prog info_results :=
  match argv with
  | [] => undefined NullDeref
  | argv0 :: _ => fun s =>
      match dsched_init_util ((i_rte s) <| rt_basename := info_basename argv0 |>) with
      | Fault f => Fault f
      | Done (ret, rt) =>
          let s := s <| i_rte := rt |> in
          if negb (ret =? code_value DSCHED_SUCCESS) then Done (inl ret, s) else
          let '(rc, results) := info_parse argv in
          if negb (ok rc) then
            Done (inl (if rc =? OPERATION_SUCCEEDED then PMIX_SUCCESS else rc), s)
          else match tail results with
               | Some args => if String.eqb (argv_join args " ") argv0 then Done (inr results, s)
                              else Done (inl (-1), s)
               | None => Done (inr results, s)
               end
      end
  end.

Definition color_of (r : info_results) : string :=
  match color_opt r with
  | Some (Some (c :: _)) => c
  | _ => "auto"
  end.

Definition set_color (r : info_results) : prog unit :=
  let color := color_of r in
  if strcasecmp0 color "auto" then
    change (fun s => s <| pmix_info_color := HAVE_ISATTY && stdout_isatty |>)
  else if strcasecmp0 color "always" then change (fun s => s <| pmix_info_color := true |>)
  else if strcasecmp0 color "never" then change (fun s => s <| pmix_info_color := false |>)
  else exit_ 2.

Definition set_flags (r : info_results) : prog unit :=
  change (fun s =>
    let s := if is_taken r PRETTY_PRINT then s <| pmix_info_pretty := true |>
             else if is_taken r PARSABLE || is_taken r PARSEABLE then s <| pmix_info_pretty := false |>
             else s in
    let s := if is_taken r INFO_SELECTED_ONLY then s <| selected_only := true |> else s in
    if is_taken r INFO_SHOW_FAILED then s <| track_load_errors := true |> else s).

Definition set_types (r : info_results) : prog unit :=
  change (fun s => s <| mca_types := ["mca"; "dsched"]%string ++ framework_names ++
                          (if is_taken r INCLUDE_PMIX then pmix_types else []) |>).

(** A failure is shown with the parameters there are when one of them was bad. *)
Definition register_all (r : info_results) : prog unit :=
  ret ← register_framework_params;
  (if negb (ok ret) then
     show_if (bool_decide (ret = PMIX_ERR_BAD_PARAM))
       [ShowParams DynaSched (is_taken r INFO_INTERNAL) false] ;;
     exit_ 1
   else mret tt) ;;
  if is_taken r INCLUDE_PMIX then
    if negb (ok pmix_register_params_rc) then exit_ PMIX_ERROR else
    if negb (ok pmix_register_frameworks_rc) then
      show_if (bool_decide (pmix_register_frameworks_rc = PMIX_ERR_BAD_PARAM))
        [ShowParams PMIx_lib (is_taken r INFO_INTERNAL) false] ;;
      exit_ 1
    else mret tt
  else mret tt.

Definition everything (p : project) : list section_ :=
  [ShowPackage p; ShowVersion p; ShowComponents p None None None].

(** The framework, or framework:component, and the modifier that may follow. *)
Definition show_chosen (p : project) (v : string) (rest : list string) : prog unit :=
  match argv_split v ":"%char with
  | None => undefined NullDeref
  | Some tmp => show [ShowComponents p (head tmp) (tmp !! 1%nat) (head rest)]
  end.

(** The version, and whether that counts as having acted. *)
Definition show_version (p : project) (name : string) (want_all : bool) (r : info_results) : prog bool :=
  match version_opt r with
  | None => show_if want_all (everything p) ;; mret false
  | Some None =>
      show (everything p) ;;
      show_if (bool_decide (p = PMIx_lib)) [ShowComponents p None None None] ;;
      mret false
  | Some (Some []) => undefined NullDeref
  | Some (Some (v :: rest)) =>
      (if strcasecmp0 v name || strcasecmp0 v "all" then show (everything p)
       else show_chosen p v rest) ;;
      mret true
  end.

(** The sections that are asked for, up to the parameters; [config] is the argument of
    the configuration. *)
Definition asked (p : project) (config want_all : bool) (r : info_results) : list section_ :=
  (if want_all || is_taken r INFO_PATH then [ShowPaths p want_all] else []) ++
  (if want_all || is_taken r INFO_ARCH then [ShowArch] else []) ++
  (if negb want_all && is_taken r INFO_HOSTNAME then [ShowHostname] else []) ++
  (if want_all || is_taken r INFO_CONFIG then [ShowConfig p config] else []) ++
  (if want_all || is_taken r INFO_PARAM || is_taken r INFO_PARAMS
   then [ShowParams p (is_taken r INFO_INTERNAL) true] else []) ++
  (if is_taken r INFO_TYPES then [ShowTypes] else []).

(** [acted] is set by every section of [asked]. *)
Definition show_asked (p : project) (config want_all : bool) (r : info_results) (acted : bool) : prog bool :=
  let l := asked p config want_all r in
  show l ;; mret (acted || negb (bool_decide (l = []))).

Definition default_set (p : project) (config : bool) : list section_ :=
  [ShowPackage p; ShowVersion p; ShowPrefix p; ShowArch; ShowConfig p config;
   ShowComponents p None None None].

Definition show_dsched (r : info_results) : prog unit :=
  let want_all := is_taken r INFO_ALL in
  acted ← show_version DynaSched "dsched" want_all r;
  acted ← show_asked DynaSched true want_all r acted;
  show_if (negb acted) (default_set DynaSched false).

Definition show_pmix (r : info_results) : prog unit :=
  let want_all := is_taken r INFO_ALL in
  show [ShowBanner] ;;
  acted ← show_version PMIx_lib "pmix" want_all r;
  acted ← show_asked PMIx_lib want_all want_all r acted;
  show_if (negb acted) (default_set PMIx_lib want_all).

Definition main_steps (argv : list string) : prog unit :=
  r ← start_up argv;
  set_color r ;;
  set_flags r ;;
  set_types r ;;
  register_all r ;;
  show_dsched r ;;
  if is_taken r INCLUDE_PMIX then show_pmix r else mret tt.

(** The exit status and the final state. *)
Definition main (argv : list string) (s : info) : outcome (Z * info) :=
  '(res, s) ← main_steps argv s;
  Done (uint 8 match res with inl rc => rc | inr _ => 0 end, s).

(** ** What a run shows *)

Lemma info_bind_inv {A B} (m : prog A) (k : A -> prog B) s b s2 :
  (m ≫= k) s = Done (inr b, s2) -> exists a s1, m s = Done (inr a, s1) /\ k a s1 = Done (inr b, s2).
Proof.
  unfold mbind, prog_bind. destruct (m s) as [[[rc|a] s1]|]; try done. eauto.
Qed.

Lemma show_if_run b l s : show_if b l s = Done (inr tt, s <| shown := shown s ++ (if b then l else []) |>).
Proof. destruct b; [done|]. unfold show_if, mret, prog_ret. rewrite app_nil_r. by destruct s. Qed.

(** What [show_version] adds, and whether it counts. *)
Definition version_sections (p : project) (name : string) (want_all : bool) (r : info_results)
    : list section_ * bool :=
  match version_opt r with
  | None => (if want_all then everything p else [], false)
  | Some None =>
      (everything p ++ (if decide (p = PMIx_lib) then [ShowComponents p None None None] else []), false)
  | Some (Some []) => ([], false)
  | Some (Some (v :: rest)) =>
      (if strcasecmp0 v name || strcasecmp0 v "all" then everything p
       else let tmp := default [] (argv_split v ":"%char) in
            [ShowComponents p (head tmp) (tmp !! 1%nat) (head rest)], true)
  end.

Lemma show_version_run p name want_all r s acted s' :
  show_version p name want_all r s = Done (inr acted, s') ->
  s' = s <| shown := shown s ++ (version_sections p name want_all r).1 |> /\
  acted = (version_sections p name want_all r).2.
Proof.
  unfold show_version, version_sections. destruct (version_opt r) as [[[|v rest]|]|]; [done|..].
  - intros ([] & s1 & E & [= <- <-])%info_bind_inv. split; [|done].
    destruct (_ || _); [by injection E as <-|]. unfold show_chosen in E.
    by destruct (argv_split v _); [injection E as <-|].
  - intros ([] & s1 & [= <-] & E)%info_bind_inv. apply info_bind_inv in E as ([] & s2 & E & [= <- <-]).
    rewrite show_if_run in E. injection E as <-. cbn. rewrite <- app_assoc.
    by destruct p.
  - intros ([] & s1 & E & [= <- <-])%info_bind_inv. rewrite show_if_run in E. by injection E as <-.
Qed.

(** Something is asked for that is shown. *)
Definition requested (r : info_results) : bool :=
  is_taken r INFO_ALL || is_taken r INFO_PATH || is_taken r INFO_ARCH || is_taken r INFO_HOSTNAME ||
  is_taken r INFO_CONFIG || is_taken r INFO_PARAM || is_taken r INFO_PARAMS || is_taken r INFO_TYPES ||
  match version_opt r with Some (Some (_ :: _)) => true | _ => false end.

Lemma asked_nil p config r :
  asked p config (is_taken r INFO_ALL) r = [] <->
  is_taken r INFO_ALL || is_taken r INFO_PATH || is_taken r INFO_ARCH || is_taken r INFO_HOSTNAME ||
  is_taken r INFO_CONFIG || is_taken r INFO_PARAM || is_taken r INFO_PARAMS || is_taken r INFO_TYPES = false.
Proof.
  unfold asked. destruct (is_taken r INFO_ALL); [done|]. cbn.
  destruct (is_taken r INFO_PATH), (is_taken r INFO_ARCH), (is_taken r INFO_HOSTNAME),
    (is_taken r INFO_CONFIG), (is_taken r INFO_PARAM), (is_taken r INFO_PARAMS), (is_taken r INFO_TYPES);
    done.
Qed.

(** The kinds of section, to tell sections apart. *)
Definition kind (x : section_) : nat :=
  match x with
  | ShowPackage _ => 0 | ShowVersion _ => 1 | ShowComponents _ _ _ _ => 2 | ShowPaths _ _ => 3
  | ShowPrefix _ => 4 | ShowArch => 5 | ShowHostname => 6 | ShowConfig _ _ => 7
  | ShowParams _ _ _ => 8 | ShowTypes => 9 | ShowBanner => 10
  end.

(** No kind is shown twice. *)
Definition once (l : list section_) : Prop := NoDup (kind <$> l).

Lemma asked_kind p config want_all r x :
  x ∈ asked p config want_all r -> (3 <= kind x)%nat /\ kind x <> 4%nat.
Proof.
  unfold asked. intros Hin. repeat (apply elem_of_app in Hin as [Hin|Hin]).
  all: match type of Hin with context [if ?b then _ else _] => destruct b end;
    [apply list_elem_of_singleton in Hin as ->; simpl; lia|by apply elem_of_nil in Hin].
Qed.

Lemma asked_once p config want_all r v :
  once v -> Forall (fun x => (kind x <= 2)%nat) v -> once (v ++ asked p config want_all r).
Proof.
  intros Hv Hle. unfold once. rewrite fmap_app. apply NoDup_app. split; [done|]. split.
  - intros k (x & -> & Hx)%list_elem_of_fmap (y & Hk & Hy%asked_kind)%list_elem_of_fmap.
    rewrite Forall_forall in Hle. apply Hle in Hx. lia.
  - unfold asked.
    generalize (want_all || is_taken r INFO_PATH) (want_all || is_taken r INFO_ARCH)
      (negb want_all && is_taken r INFO_HOSTNAME) (want_all || is_taken r INFO_CONFIG)
      (want_all || is_taken r INFO_PARAM || is_taken r INFO_PARAMS) (is_taken r INFO_TYPES).
    intros [] [] [] [] [] []; apply (bool_decide_unpack _); vm_compute; exact I.
Qed.

Lemma version_once want_all r v acted :
  version_sections DynaSched "dsched" want_all r = (v, acted) ->
  once v /\ Forall (fun x => (kind x <= 2)%nat) v.
Proof.
  unfold version_sections. assert (once (everything DynaSched) /\
    Forall (fun x => (kind x <= 2)%nat) (everything DynaSched)) as He.
  { split; [apply (bool_decide_unpack _); vm_compute; exact I|repeat constructor; simpl; lia]. }
  destruct (version_opt r) as [[[|x rest]|]|]; intros [= <- <-].
  - split; [apply NoDup_nil_2|done].
  - destruct (_ || _); [done|]. split; [apply NoDup_singleton|]. by repeat constructor.
  - exact He.
  - destruct want_all; [done|]. split; [apply NoDup_nil_2|done].
Qed.

(** C38: the default set of sections is shown exactly when nothing is asked for, and
    no kind of section is shown twice, unless the version was asked for without saying
    whose: that prints it and does not count, so the default set prints it again. *)
Theorem default_set_shown r s s' :
  show_dsched r s = Done (inr tt, s') ->
  exists l, shown s' = shown s ++ l /\
    (ShowPrefix DynaSched ∈ l <-> requested r = false) /\
    (once l <-> ~ (version_opt r = Some None /\ requested r = false)).
Proof.
  unfold show_dsched. intros (a1 & s1 & E1 & E)%info_bind_inv.
  apply show_version_run in E1 as [-> ->].
  unfold show_asked in E. apply info_bind_inv in E as (a2 & s2 & E2 & E).
  apply info_bind_inv in E2 as ([] & s3 & [= <-] & [= <- <-]).
  rewrite show_if_run in E. injection E as <-. cbn. rewrite <- !app_assoc. eexists. split; [done|].
  pose proof (version_once (is_taken r INFO_ALL) r) as Hv.
  assert (requested r = negb (negb ((version_sections DynaSched "dsched" (is_taken r INFO_ALL) r).2 ||
    negb (bool_decide (asked DynaSched true (is_taken r INFO_ALL) r = []))))) as Hreq.
  { rewrite negb_involutive. unfold requested, version_sections.
    rewrite <- (orb_comm match version_opt r with Some (Some (_ :: _)) => true | _ => false end). f_equal.
    - by destruct (version_opt r) as [[[|]|]|].
    - pose proof (asked_nil DynaSched true r) as Hn. destruct (_ || is_taken r INFO_TYPES).
      + rewrite bool_decide_false; [done|]. intros Hx%Hn. done.
      + rewrite bool_decide_true; [done|]. by apply Hn. }
  destruct (version_sections _ _ _ r) as [v acted] eqn:Ev. cbn [fst snd] in *.
  destruct (Hv v acted eq_refl) as [Honce Hle]. rewrite Hreq.
  assert (ShowPrefix DynaSched ∉ v ++ asked DynaSched true (is_taken r INFO_ALL) r) as Hnot.
  { rewrite Forall_forall in Hle. intros [Hx%Hle|Hx%asked_kind]%elem_of_app; simpl in Hx; lia. }
  pose proof (asked_once DynaSched true (is_taken r INFO_ALL) r v Honce Hle) as Hasked.
  destruct (acted || negb (bool_decide (asked DynaSched true (is_taken r INFO_ALL) r = []))) eqn:Eb;
    cbn [negb]; [rewrite app_nil_r; split; [by split|by split; [intros _ [_ [=]]|intros _]]|].
  apply orb_false_iff in Eb as [-> Eb%negb_false_iff%bool_decide_eq_true].
  rewrite Eb. split.
  - split; [done|]. intros _. apply elem_of_app. right. unfold default_set. set_solver.
  - unfold version_sections in Ev. destruct (version_opt r) as [[[|x rest]|]|]; [injection Ev as <-|done|injection Ev as <-..].
    + split; [by intros _ [[=] _]|]. intros _. apply (bool_decide_unpack _). vm_compute. exact I.
    + split; [|intros Hn; exfalso; by apply Hn].
      intros Hd. exfalso. revert Hd. apply (bool_decide_unpack (~ _)). vm_compute. exact I.
    + destruct (is_taken r INFO_ALL) eqn:Ea.
      * exfalso. by pose proof (proj1 (asked_nil DynaSched true r)) as Hn; rewrite Ea in Hn; apply Hn in Eb.
      * split; [by intros _ [[=] _]|]. intros _. apply (bool_decide_unpack _). vm_compute. exact I.
Qed.

(** ** Where the parameters come from *)

(** Every run of [m], however it ends, keeps what [proj] gives. *)
Definition keeps {A T} (proj : info -> T) (m : prog A) : Prop :=
  forall s res s', m s = Done (res, s') -> proj s' = proj s.

Section Keeps.
Context {T : Type} (proj : info -> T).

Lemma keeps_bind {A B} (m : prog A) (k : A -> prog B) :
  keeps proj m -> (forall a, keeps proj (k a)) -> keeps proj (m ≫= k).
Proof.
  intros Hm Hk s res s'. unfold mbind, prog_bind.
  destruct (m s) as [[[rc|a] s1]|] eqn:E; [..|done]; apply Hm in E; [by intros [= <- <-]|].
  intros Hr. apply Hk in Hr. congruence.
Qed.
Lemma keeps_ret {A} (a : A) : keeps proj (mret a).
Proof. by intros s res s' [= <- <-]. Qed.
Lemma keeps_exit {A} rc : keeps proj (exit_ rc : prog A).
Proof. by intros s res s' [= <- <-]. Qed.
Lemma keeps_undefined {A} f : keeps proj (undefined f : prog A).
Proof. by intros s res s'. Qed.
Lemma keeps_change f : (forall s, proj (f s) = proj s) -> keeps proj (change f).
Proof. intros Hf s res s' [= <- <-]. apply Hf. Qed.
End Keeps.

Definition settings (s : info) := (i_env s, i_params s).
Definition settings_shown (s : info) := (settings s, shown s).

Ltac solve_keeps :=
  repeat lazymatch goal with
  | |- keeps _ (mbind _ _) => apply keeps_bind; [|intros ?]
  | |- keeps _ (mret _) => apply keeps_ret
  | |- keeps _ (exit_ _) => apply keeps_exit
  | |- keeps _ (undefined _) => apply keeps_undefined
  | |- keeps _ (show _) => apply keeps_change; intros ?
  | |- keeps _ (show_if _ _) => unfold show_if
  | |- keeps _ (change _) => apply keeps_change; intros ?
  | |- keeps _ (match ?x with _ => _ end) => destruct x
  end; try done.

Lemma show_dsched_keeps r : keeps settings (show_dsched r).
Proof. unfold show_dsched, show_asked, show_version, show_chosen. cbv zeta. solve_keeps. Qed.
Lemma show_pmix_keeps r : keeps settings (show_pmix r).
Proof. unfold show_pmix, show_asked, show_version, show_chosen. cbv zeta. solve_keeps. Qed.

Lemma start_up_keeps argv : keeps settings_shown (start_up argv).
Proof.
  intros s res s'. unfold start_up. destruct argv as [|argv0 argv]; [done|].
  destruct (dsched_init_util _) as [[ret rt]|]; [|done].
  destruct (negb _); [by intros [= <- <-]|]. destruct (info_parse _) as [rc results].
  destruct (negb _); [by intros [= <- <-]|].
  destruct (tail results) as [args|]; [destruct (String.eqb _ _)|]; by intros [= <- <-].
Qed.

Lemma settings_keep r : keeps settings_shown (set_color r ;; set_flags r ;; set_types r).
Proof.
  unfold set_color, set_flags, set_types. solve_keeps. cbv zeta.
  destruct (is_taken r PRETTY_PRINT), (is_taken r PARSABLE || is_taken r PARSEABLE),
    (is_taken r INFO_SELECTED_ONLY), (is_taken r INFO_SHOW_FAILED); done.
Qed.

(** The parameters are registered from the settings of [s]. *)
Definition registered (s s' : info) : Prop :=
  exists rc, dsched_register_params sysconfdir (i_params s) (i_env s) =
    Done ((rc, i_params s'), i_env s').

Lemma registered_settings s s1 s2 : registered s s1 -> settings s2 = settings s1 -> registered s s2.
Proof. intros [rc E] [= He Hp]. exists rc. by rewrite He, Hp. Qed.

Lemma register_all_registers r s res s' :
  register_all r s = Done (res, s') ->
  registered s s' \/ (settings_shown s' = settings_shown s /\ exists rc, res = inl rc).
Proof.
  unfold register_all, register_framework_params.
  assert (PMIX_ERROR <> PMIX_ERR_BAD_PARAM /\ PMIX_ERROR <> PMIX_SUCCESS) as [Hbad Herr].
  { split; [by apply (status_ne 1 6)|by apply (status_ne 1 0)]. }
  unfold mbind at 1, prog_bind at 1.
  destruct (negb (ok mca_base_open_rc)).
  { rewrite (proj2 (ok_false PMIX_ERROR)) by done.
    rewrite (bool_decide_false (PMIX_ERROR = PMIX_ERR_BAD_PARAM)) by done.
    intros [= <- <-]. right. split; [done|by eexists]. }
  destruct (dsched_register_params _ _ _) as [[[rc params] e]|] eqn:E; [|done].
  set (s1 := s <| i_params := params |> <| i_env := e |>).
  assert (registered s s1) as Hreg by by exists rc.
  intros Hrun. left. apply (registered_settings s s1); [done|].
  assert (forall ret, keeps settings
    ((if negb (ok ret) then
        show_if (bool_decide (ret = PMIX_ERR_BAD_PARAM))
          [ShowParams DynaSched (is_taken r INFO_INTERNAL) false] ;; exit_ 1
      else mret tt) ;;
     if is_taken r INCLUDE_PMIX then
       if negb (ok pmix_register_params_rc) then exit_ PMIX_ERROR else
       if negb (ok pmix_register_frameworks_rc) then
         show_if (bool_decide (pmix_register_frameworks_rc = PMIX_ERR_BAD_PARAM))
           [ShowParams PMIx_lib (is_taken r INFO_INTERNAL) false] ;; exit_ 1
       else mret tt
     else mret tt)) as Hk by (intros ret; solve_keeps).
  destruct (negb (ok rc)) in Hrun; by eapply Hk.
Qed.

(** The tool shows the parameters as the environment alone sets them. When it
    shows anything, it has registered them in the environment it was started with: no
    parameter file and no parameter of its command line was looked at before, although
    the scheduler looks at both and the tool accepts the options. *)
Theorem info_parameters argv s st s' :
  main argv s = Done (st, s') -> shown s' <> shown s ->
  exists rc, dsched_register_params sysconfdir (i_params s) (i_env s) = Done ((rc, i_params s'), i_env s').
Proof.
  unfold main. intros Hrun Hshown. destruct (main_steps argv s) as [[res s1]|] eqn:E; [|done].
  injection Hrun as _ <-. change (registered s s1). unfold main_steps in E.
  unfold mbind at 1, prog_bind at 1 in E.
  destruct (start_up argv s) as [[[rc|r] s2]|] eqn:E2; [..|done]; apply start_up_keeps in E2 as [= He Hp Hs].
  { injection E as _ <-. by destruct Hshown. }
  assert (registered s2 s1) as [rc Hr]; [|exists rc; by rewrite <- He, <- Hp].
  rewrite <- Hs in Hshown. clear He Hp Hs.
  assert ((set_color r ;; set_flags r ;; set_types r) s2 ≫=
    (fun '(x, s) => match x with inl rc => Done (inl rc, s)
       | inr _ => (register_all r ;; show_dsched r ;;
                   if is_taken r INCLUDE_PMIX then show_pmix r else mret tt) s end) = Done (res, s1)) as E3.
  { rewrite <- E. clear. unfold mbind, prog_bind, outcome_bind.
    by destruct (set_color r s2) as [[[rc|[]] s3]|]. }
  destruct ((set_color r ;; set_flags r ;; set_types r) s2) as [[x s3]|] eqn:E4; [|done].
  apply settings_keep in E4 as [= He Hp Hs]. cbn in E3.
  destruct x as [rc|[]]; [injection E3 as _ <-; by destruct Hshown|].
  unfold mbind at 1, prog_bind at 1 in E3.
  destruct (register_all r s3) as [[x s4]|] eqn:E5; [|done].
  apply register_all_registers in E5 as [Hreg|[[= He' Hp' Hs'] [rc ->]]].
  - assert (registered s2 s4) as Hreg' by (destruct Hreg as [rc Hr]; exists rc; by rewrite <- He, <- Hp).
    destruct x as [rc|[]]; [by injection E3 as _ <-|]. apply (registered_settings s2 s4); [done|].
    revert E3. apply (fun X => X : keeps settings _).
    apply keeps_bind; [apply show_dsched_keeps|intros _].
    destruct (is_taken r INCLUDE_PMIX); [apply show_pmix_keeps|apply keeps_ret].
  - injection E3 as _ <-. destruct Hshown. congruence.
Qed.

(** A version asked of a name made of separators only cannot be split: the first part
    is read through a null pointer. *)
Theorem version_separator_faults p name want_all r v rest s :
  version_opt r = Some (Some (v :: rest)) -> argv_split v ":"%char = None ->
  strcasecmp0 v name = false -> strcasecmp0 v "all" = false ->
  show_version p name want_all r s = Fault NullDeref.
Proof.
  intros Hv Hs Hn Ha. unfold show_version. rewrite Hv, Hn, Ha. unfold show_chosen. by rewrite Hs.
Qed.

(** An unknown colour ends the program with status 2 before anything is registered or
    shown. *)
Theorem unknown_color_exits argv s r s1 :
  start_up argv s = Done (inr r, s1) ->
  (forall c, c ∈ ["auto"; "always"; "never"]%string -> strcasecmp0 (color_of r) c = false) ->
  main argv s = Done (2, s1).
Proof.
  intros Hs Hc. unfold main, main_steps. unfold mbind at 2, prog_bind at 1. rewrite Hs.
  unfold set_color. rewrite !Hc by set_solver. done.
Qed.
End Info.

(** ** An example *)

#[local] Existing Instance sample_pmix.
#[local] Existing Instance sample_params_lib.
#[local] Existing Instance sample_rte_lib.

(** "dsched_info --show-version", without a name. *)
Definition bare_version : info_results :=
  InfoResults (fun _ => false) None (Some None) None.

#[local] Instance sample_info_lib : InfoLib := {|
  info_basename := fun _ => Some "dsched_info"%string;
  info_parse := fun _ => (0, bare_version);
  OPERATION_SUCCEEDED := -157;
  HAVE_ISATTY := true;
  stdout_isatty := true;
  framework_names := ["dmeta"; "dsched"]%string;
  pmix_types := [];
  mca_base_open_rc := 0;
  register_project_frameworks_rc := 0;
  pmix_register_params_rc := 0;
  pmix_register_frameworks_rc := 0
|}.

Definition sample_info : info :=
  Info_state (sample_rte None) sample_penv (sample_params "none") false true false false [] [].

Definition after_info : info :=
  match main (Some "etc"%string) ["dsched_info"%string] sample_info with Done (_, s) => s | Fault _ => sample_info end.

Lemma default_set_shown_witness :
  exists l, shown (sample_info <| shown := [ShowPackage DynaSched; ShowVersion DynaSched;
      ShowComponents DynaSched None None None] ++ default_set DynaSched false |>) = shown sample_info ++ l /\
    ~ once l.
Proof.
  destruct (default_set_shown bare_version sample_info
    (sample_info <| shown := [ShowPackage DynaSched; ShowVersion DynaSched;
      ShowComponents DynaSched None None None] ++ default_set DynaSched false |>) eq_refl)
    as (l & Hl & _ & Ho).
  exists l. split; [exact Hl|]. intros Hx. by apply (proj1 Ho Hx).
Defined.

Lemma info_parameters_witness :
  exists rc, dsched_register_params (Some "etc"%string) (sample_params "none") sample_penv =
    Done ((rc, i_params after_info), i_env after_info).
Proof.
  apply (info_parameters (Some "etc"%string) ["dsched_info"%string] sample_info 0 after_info).
  - vm_compute. reflexivity.
  - vm_compute. discriminate.
Defined.
